(* ===== verification/_CoqProject ===== *)
-Q . S2P
Prelude.v
Utf8.v
Message.v
Endpoint.v
Errors.v
SocketTypes.v
Greeting.v
Command.v
Codec.v
Framed.v
FairQueue.v
Channels.v
Runtime.v
Backend.v
Handshake.v
Receive.v
Sockets.v
Req.v
Rep.v
Subscriptions.v
Fanout.v
Pub.v
XPub.v
SubBackend.v
WriteQueue.v
Windows.v
Transport.v
Binds.v
Connect.v
Reconnect.v
Proxy.v
Wire.v
Session.v
Link.v
Exchange.v
Pipeline.v
Broadcast.v
Subscribing.v
Dialogue.v
Bench.v
UnitTests.v
