(* ===== verification/Prelude.v ===== *)
(** * zmq.rs, a native ZeroMQ implementation: a verification library

    The program (src/src/) is a Rust library of ZeroMQ sockets over TCP and Unix-domain
    connections, with the wire protocol ZMTP 3.0. This library models it by executable
    definitions, file by file, and proves what makes its parts correct.

    ** The parts, from the wire up

    - [Utf8.v], [Message.v] (message.rs): multipart messages. [Endpoint.v] (endpoint/):
      transports, hosts, the text form of endpoints. [Errors.v] (error.rs, codec/error.rs,
      task_handle.rs): the error types. [SocketTypes.v] (lib.rs): socket types, the
      compatibility matrix, options, monitor events.
    - [Greeting.v] (codec/greeting.rs, mechanism.rs), [Command.v] (codec/command.rs),
      [Codec.v] (codec/zmq_codec.rs): the decoder's state machine over the receive buffer and
      the encoder. [Framed.v] (codec/framed.rs): the reader that feeds the decoder from a
      transport, with its adaptive read size.
    - [Channels.v], [Runtime.v]: what the library relies on of its crates (bounded channels,
      framed sinks), as classes with laws and an instance that satisfies them; the state that
      the backends of a process share; the class [MultiPeerBackend] of a socket's backend.
    - [FairQueue.v] (fair_queue.rs): the streams of a socket's peers, served in the order in
      which they became ready. [Receive.v]: the [recv] loop that every socket has around it.
      [Wire.v]: the framed readers as the streams of a socket's queue. [Session.v]: a
      connection from its handshake on. [Link.v]: a connection with what is under way on it, and
      on it [Exchange.v], a REQ and a REP; [Dialogue.v], a DEALER and a ROUTER;
      [Subscribing.v], from a SUB socket to its publishers. [Pipeline.v] and [Broadcast.v]: from
      the user of a PUSH or PUB socket to the users of its peers.
    - [Backend.v] (backend.rs): the backend of PUSH, PULL, DEALER and ROUTER, with its
      round-robin queue and single-peer cache. [Sockets.v] (push.rs, pull.rs, dealer.rs,
      router.rs): those sockets, whole and split. [WriteQueue.v] (write_queue.rs): the writer
      task of a connection.
    - [Req.v] (req.rs) and [Rep.v] (rep.rs): requests, envelopes and replies.
    - [Subscriptions.v] (pub.rs, sub_backend.rs): matching, subscription messages, broadcasts.
      [Fanout.v] and [Pub.v] (pub.rs): the fan-out queue with its task, and PUB sockets.
      [XPub.v] (xpub.rs): XPUB. [SubBackend.v] (sub_backend.rs, sub.rs, xsub.rs): SUB and XSUB.
    - [Handshake.v] (util.rs): identities, greeting and READY exchanges, the timeout and the
      retries. [Transport.v] (transport/): connecting and listening over an interface of the
      operating system, and the accept tasks; [Windows.v] (transport/ipc/windows.rs): its
      Unix-domain sockets on Windows. [Binds.v] (lib.rs): [bind], [unbind], [close] and
      the callbacks of accepted connections. [Connect.v] (lib.rs): [Socket::connect].
      [Reconnect.v] (reconnect.rs, sub_backend.rs): the reconnect task of SUB and XSUB.
      [Proxy.v] (lib.rs): [proxy]. [Bench.v] (lib.rs): the backends that [__bench] offers.
    - [UnitTests.v]: the assertions of the program's unit tests, evaluated on the model.

    A user's [send] goes from a socket file to its backend, which puts the message in a peer's
    channel; the peer's writer task feeds it to the sink, whose encoder is in [Codec.v]. Bytes
    from a peer go through [Framed.v] to a stream of items, which the fair queue serves to
    [recv]. [Binds.v], [Connect.v] and [Reconnect.v] make connections, shake hands, and give
    them to the backend through [MultiPeerBackend].

    ** How the code is modelled

    A function that changes a state takes and returns it, under the name it has in the code.
    [Result] is [result], an error path a value of it; a panic is an outcome of its own where
    the code can panic. Integers are [Z], with the bounds and the wrap-around of their width
    written where they matter ([usize] and the frame lengths in [Codec.v] and [Framed.v], the
    counters of [FairQueue.v] and [Pub.v], [u16] ports, the [u32] attempts of [Reconnect.v]);
    bytes are [Byte.byte]. A [HashMap] is a [gmap], whose order of iteration is fixed but
    arbitrary; where the order shows in what is sent it is a parameter ([HashOrder]).

    An [async fn] is its completion, and a poll of it where being polled again or dropped
    matters ([recv], [proxy]). What runs concurrently is a step relation on the shared state:
    the fan-out queue (with the accesses to its atomic flag as steps, in two memory models),
    a REQ and a REP with their users and transports, the writer tasks, the subscription tasks,
    the accept tasks and callbacks, the reconnect tasks, and the unlocked accesses of the
    single-peer cache. Otherwise an operation is one function, and operations run one after
    another; what overlapping ones can do where the code takes no lock is in the theorems whose
    names end in [race].

    An await takes the time that is an argument of the definition: that of an attempt, of a
    handshake ([hs]), and of a backend that joins a peer ([joining] in [Connect.v]), which is not
    under the timeout and may not come back. A value that goes out of scope is dropped by a
    function where that does something: sockets ([drop_socket] in [Binds.v]), halves, handles of
    tasks, listeners and streams.

    Third-party code is an argument: channels and sinks ([Channels], [Sinks]), transports
    ([AsyncRead], [Sys], [Winsock]), streams ([Stream]), the regular expressions ([Regexes]),
    [Decoder::decode_eof], random numbers (jitter, identities, the choice of [select!]) and the
    time that things take. Each class has an instance on which the witnesses run.

    ** What is proved

    - The wire: the decoder reads back what the encoder wrote, accepts exactly the wire format,
      never panics, keeps the buffer within [isize], and terminates; over any transport the
      framed reader, well-formed whatever its transport does, yields what the peer sent, and a
      socket's [recv] answers what its peers sent, also behind a handshake, whichever side connected
      ([session_delivers], [connect_delivers]); commands parse exactly what they should, and the
      endpoints whose text parses back to them are exactly known ([endpoint_roundtrip]).
    - Receiving: the fair queue loses no item and keeps each stream's order, serves a ready
      peer before others come again, and never leaves a ready stream with the task asleep; one
      poll of a [recv] ends, and is pending only when nothing is left and a wake-up is sure.
    - Sending: the generic backend's invariant after operations that run one after another, and
      that it comes back after such as overlapped ([refresh_race]); a send delivers to one
      connected peer, the right one, or says why not; a writer task writes everything in order
      and flushes it before it sleeps.
    - REQ and REP: a REQ keeps to a protocol that is stated without its own record of the
      request; a request and its reply come through any
      number of routing frames intact, and go to the peers they belong to; with the readers and
      the encoders between them, and other peers on both sides, a REQ and a REP refine an
      exchange of one place ([exchange_refined], [exchange_progresses]).
    - DEALER and ROUTER: over a connection, each side gets what the other sends, in order and
      under the identity of the handshake, whatever else goes on ([dialogue]).
    - PUB and SUB: the optimised matching is the counting specification; the fan-out queue
      conserves its messages and, under sequential consistency, leaves none of them behind; a
      message reaches exactly the matching subscribers; publishers and a SUB socket keep the same
      subscriptions, on connecting, through disciplined changes, and after a reconnect that could
      send them, also when the subscriptions come over the wire ([subscriptions_arrive]).
    - End to end: what a PUSH user sends, and what a PUB user sends that is subscribed to, is
      what the users of the peers get, in order, through every part in between
      ([push_pull_delivers], [pub_sub_delivers]).
    - Connections: what a successful handshake has exchanged, and that two sockets agree on it;
      the attempts and the handshake of a connect end within the timeout, which succeeds when an
      attempt does in time; delays back off within bounds; binds are exactly the running accept
      tasks, and closing ends them all and shuts the backend down, where the socket has a [Drop];
      a proxy loses nothing while it runs.

    Some theorems state that the code does what it should not: they are the ones whose names
    end in [race], [missed], [untold], [desyncs], [replaced] or the like, and their comments say
    so ([fanout_tso_lost_wakeup], [refresh_race], [pub_slow_subscriber], [sub_repeat_desyncs],
    [sub_connect_race], [rebind_stops_first], [close_keeps_callbacks], [reconnect_missed],
    [reconnect_untold], [req_dead_server], [rep_error_keeps_stream]).

    ** Fuel

    Loops without a structural measure take fuel. [decode] has twice the bytes of the buffer and
    two rounds ([decode_terminates]); [poll_next] of the fair queue has the length of its ready
    queue and one; a [recv] has the messages that its streams can still yield and the number of streams
    ([FiniteStream], [recv_loop_ends]; [Wire.v] has the bound for readers); the framed reader has what the transport can deliver before it is
    pending. [connect_forever] may go on forever: its fuel is the number of attempts, and
    [connect_fuel] is enough for what the timeout allows ([connect_fuel_enough]).

    ** Not modelled

    [Transport.v] is the code for Unix and tokio, the default; the other two runtimes differ in
    the names of the functions that they call. Of [__bench], the receivers ([drain_ready],
    [write_message_queue_to_writer]) stay with the benchmarks, which with the examples and the
    integration tests use the library and hold none of its logic; so do the unit tests that open
    sockets or allocate buffers too large to evaluate in the kernel.
    Logging has no effect on the state. What the crates do inside (the wake-ups of
    channels, the accept queue of a listener, UTF-8 tables) is theirs. Times are exact; the
    [f64] computation of the reconnect delays is exact too for the multiplier the library uses. *)

From stdpp Require Export base tactics list gmap sets strings relations.
From Stdlib Require Export ZArith Lia.

#[global] Set Default Proof Using "Type".

(** ** Results of fallible code *)

(** [Result<A, E>]. *)
Inductive result (A E : Type) : Type :=
  | Ok (a : A)
  | Err (e : E).
Arguments Ok {A E} a.
Arguments Err {A E} e.

#[export] Instance result_eq_dec {A E} `{EqDecision A, EqDecision E} :
  EqDecision (result A E).
Proof. solve_decision. Defined.

Definition is_ok {A E} (r : result A E) : bool :=
  match r with Ok _ => true | Err _ => false end.

(** [Result::map] and [Result::map_err]. *)
Definition result_map {A B E} (f : A -> B) (r : result A E) : result B E :=
  match r with Ok a => Ok (f a) | Err e => Err e end.

Definition result_map_err {A E F} (f : E -> F) (r : result A E) : result A F :=
  match r with Ok a => Ok a | Err e => Err (f e) end.

(** [Poll<A>]: the outcome of polling a future or a stream once. *)
Inductive poll (A : Type) : Type :=
  | Ready (a : A)
  | Pending.
Arguments Ready {A} a.
Arguments Pending {A}.

#[export] Instance poll_eq_dec {A} `{EqDecision A} : EqDecision (poll A).
Proof. solve_decision. Defined.

(** The [?] operator of pure code. *)
Declare Scope zmq_scope.
Delimit Scope zmq_scope with zmq.
Notation "'let?' x ':=' r 'in' k" :=
  (match r with Ok x => k | Err e => Err e end)
  (at level 10, x pattern, r at level 200, k at level 200) : zmq_scope.
Open Scope zmq_scope.

(** A computed outcome, next to the state it comes with. *)
Lemma pair_snd {A B} (x : A * B) b : snd x = b -> x = (fst x, b).
Proof. destruct x. cbn. congruence. Qed.

(** ** Bytes and strings *)

Abbreviation byte := Byte.byte.
Abbreviation bytes := (list Byte.byte).

#[export] Instance byte_eq_decision : EqDecision byte := Byte.byte_eq_dec.

#[export] Instance byte_countable : Countable byte :=
  inj_countable Byte.to_N Byte.of_N Byte.of_to_N.

#[export] Instance byte_inhabited : Inhabited byte := populate Byte.x00.

(** The bytes of a literal, [b"..."] in the source; a Rust [String] is its UTF-8 bytes. *)
Definition bs (s : string) : bytes := String.list_byte_of_string s.

(** ** Machine integers

    [usize] and the other integer types are [Z], with the bounds of a 64-bit
    target; [u8] is [byte]. *)

Definition usize_max : Z := 2 ^ 64 - 1.
Definition isize_max : Z := 2 ^ 63 - 1.

(** [Vec::len], [Bytes::len]. *)
Definition len {A} (l : list A) : Z := Z.of_nat (length l).

(** The value of a [u8]. *)
Definition u8_val (b : byte) : Z := Z.of_N (Byte.to_N b).

(** [n as u8]: truncation to the low eight bits. *)
Definition u8_of (z : Z) : byte :=
  default Byte.x00 (Byte.of_N (Z.to_N (z mod 256))).

(** [to_be_bytes] of an [n]-byte integer, and its inverse. *)
Fixpoint be_bytes (n : nat) (z : Z) : bytes :=
  match n with
  | O => []
  | S n => u8_of (z / 256 ^ Z.of_nat n) :: be_bytes n z
  end.

Definition be_val (l : bytes) : Z :=
  fold_left (fun acc b => acc * 256 + u8_val b)%Z l 0%Z.

(** [split_to(n)] and [&s[n..]] on buffers, by a [usize]. *)
Definition ztake {A} (n : Z) (l : list A) : list A := take (Z.to_nat n) l.
Definition zdrop {A} (n : Z) (l : list A) : list A := drop (Z.to_nat n) l.

(** [usize::saturating_sub]. *)
Definition saturating_sub (a b : Z) : Z := Z.max 0 (a - b).

(** [usize::next_power_of_two]. *)
Definition next_power_of_two (n : Z) : Z := 2 ^ Z.log2_up n.

(** [usize::checked_add]. *)
Definition checked_add (a b : Z) : option Z :=
  if bool_decide (a + b <= usize_max)%Z then Some (a + b)%Z else None.

(** ** Lemmas on bytes and integers *)

Section bytes_lemmas.
Local Open Scope Z_scope.

Lemma u8_val_range b : 0 <= u8_val b < 256.
Proof. unfold u8_val. pose proof (Byte.to_N_bounded b). lia. Qed.

Lemma u8_of_val b : u8_of (u8_val b) = b.
Proof.
  unfold u8_of. rewrite Z.mod_small by apply u8_val_range.
  unfold u8_val. by rewrite N2Z.id, Byte.of_to_N.
Qed.

Lemma u8_val_of z : u8_val (u8_of z) = z mod 256.
Proof.
  unfold u8_val, u8_of.
  pose proof (Z.mod_pos_bound z 256 ltac:(lia)).
  destruct (Byte.of_N (Z.to_N (z mod 256))) as [b|] eqn:E; simpl.
  - apply Byte.to_of_N in E. rewrite E. lia.
  - apply Byte.of_N_None_iff in E. lia.
Qed.

Lemma u8_val_of_small z : 0 <= z < 256 -> u8_val (u8_of z) = z.
Proof. intros. rewrite u8_val_of. by apply Z.mod_small. Qed.

Lemma u8_val_inj b c : u8_val b = u8_val c -> b = c.
Proof. intros H. by rewrite <- (u8_of_val b), <- (u8_of_val c), H. Qed.

Lemma length_be_bytes n z : length (be_bytes n z) = n.
Proof. induction n; simpl; congruence. Qed.

Lemma be_val_fold l acc :
  fold_left (fun a b => a * 256 + u8_val b) l acc = acc * 256 ^ len l + be_val l.
Proof.
  unfold be_val, len. revert acc. induction l as [|b l IH]; intros acc.
  - simpl. lia.
  - cbn [fold_left length]. rewrite IH, (IH (0 * 256 + u8_val b)).
    rewrite Nat2Z.inj_succ, Z.pow_succ_r by lia. lia.
Qed.

Lemma be_val_cons b l : be_val (b :: l) = u8_val b * 256 ^ len l + be_val l.
Proof. unfold be_val at 1. cbn [fold_left]. rewrite be_val_fold. lia. Qed.

Lemma be_val_be_bytes n z : be_val (be_bytes n z) = z mod 256 ^ Z.of_nat n.
Proof.
  induction n as [|n IH]; [by rewrite Z.mod_1_r|].
  cbn [be_bytes]. rewrite be_val_cons, IH, u8_val_of.
  unfold len. rewrite length_be_bytes, Nat2Z.inj_succ, Z.pow_succ_r by lia.
  rewrite (Z.mul_comm 256), (Z.rem_mul_r z) by lia. lia.
Qed.

Lemma be_val_be_bytes_small n z :
  0 <= z < 256 ^ Z.of_nat n -> be_val (be_bytes n z) = z.
Proof. intros. rewrite be_val_be_bytes. by apply Z.mod_small. Qed.

Lemma be_val_range l : 0 <= be_val l < 256 ^ len l.
Proof.
  induction l as [|b l IH]; [done|]. rewrite be_val_cons.
  unfold len in *. cbn [length]. rewrite Nat2Z.inj_succ, Z.pow_succ_r by lia.
  pose proof (u8_val_range b). nia.
Qed.

Lemma be_val_inj k l : length k = length l -> be_val k = be_val l -> k = l.
Proof.
  revert l. induction k as [|b k IH]; intros [|c l]; try done.
  intros [= Hl]. rewrite !be_val_cons.
  pose proof (be_val_range k) as Hk. pose proof (be_val_range l) as Hl'.
  unfold len in *. rewrite Hl in *. intros E.
  assert (0 < 256 ^ Z.of_nat (length l)) by (apply Z.pow_pos_nonneg; lia).
  assert (u8_val b = u8_val c) as Hbc by nia. rewrite Hbc in E.
  apply u8_val_inj in Hbc as ->. f_equal. apply IH; [done|lia].
Qed.

Lemma be_bytes_be_val l : be_bytes (length l) (be_val l) = l.
Proof.
  apply be_val_inj; [by rewrite length_be_bytes|].
  apply be_val_be_bytes_small. pose proof (be_val_range l) as Hr. by unfold len in Hr.
Qed.

Lemma len_nonneg {A} (l : list A) : 0 <= len l.
Proof. unfold len; lia. Qed.

Lemma len_app {A} (k l : list A) : len (k ++ l) = len k + len l.
Proof. unfold len. rewrite length_app. lia. Qed.

Lemma len_cons {A} (x : A) l : len (x :: l) = len l + 1.
Proof. unfold len. cbn [length]. lia. Qed.

Lemma len_nil {A} : len (@nil A) = 0.
Proof. done. Qed.

Lemma len_be_bytes n z : len (be_bytes n z) = Z.of_nat n.
Proof. unfold len. by rewrite length_be_bytes. Qed.

Lemma ztake_app {A} (k l : list A) n : n = len k -> ztake n (k ++ l) = k.
Proof. intros ->. unfold ztake, len. rewrite Nat2Z.id. by rewrite take_app_length. Qed.

Lemma zdrop_app {A} (k l : list A) n : n = len k -> zdrop n (k ++ l) = l.
Proof. intros ->. unfold zdrop, len. rewrite Nat2Z.id. by rewrite drop_app_length. Qed.

Lemma ztake_app_le {A} (k l : list A) n : n <= len k -> ztake n (k ++ l) = ztake n k.
Proof. unfold ztake, len. intros. rewrite take_app_le; [done|lia]. Qed.

Lemma zdrop_app_le {A} (k l : list A) n : n <= len k -> zdrop n (k ++ l) = zdrop n k ++ l.
Proof. unfold zdrop, len. intros. rewrite drop_app_le; [done|lia]. Qed.

Lemma ztake_zdrop {A} n (l : list A) : ztake n l ++ zdrop n l = l.
Proof. apply take_drop. Qed.

Lemma len_ztake {A} n (l : list A) : 0 <= n <= len l -> len (ztake n l) = n.
Proof. unfold ztake, len. intros. rewrite length_take. lia. Qed.

Lemma len_0_nil {A} (l : list A) : len l = 0 -> l = [].
Proof. destruct l; [done|]. rewrite len_cons. pose proof (len_nonneg l). lia. Qed.

Lemma next_power_of_two_ge n : 0 < n -> n <= next_power_of_two n.
Proof.
  intros. unfold next_power_of_two. destruct (Z.eq_dec n 1) as [->|]; [done|].
  apply Z.log2_up_spec. lia.
Qed.

End bytes_lemmas.

(** Lengths and splits that the codec's proofs compute with. *)
Create Rewrite HintDb zlen.
#[export] Hint Rewrite @len_app @len_cons @len_nil len_be_bytes : zlen.

Ltac zlen := autorewrite with zlen in *; lia.

(** Case analysis on every [match] and [if] of the goal or the hypotheses. *)
Ltac cases := repeat (case_match; simplify_eq/=); try done.
