(* ===== verification/Utf8.v ===== *)
(** UTF-8 validity of a byte sequence, as [String::from_utf8] of the Rust
    standard library decides it (well-formed sequences of Unicode 15, table 3-7):
    the codec and the message conversions accept a byte string as a [String]
    through this check only. *)

From S2P Require Import Prelude.

Local Open Scope Z_scope.

Definition in_range (lo hi : Z) (b : byte) : bool :=
  (lo <=? u8_val b) && (u8_val b <=? hi).

Definition is_cont : byte -> bool := in_range 128 191.

(** How many bytes the scalar value at the head of [l] takes; [None] if it is ill-formed. *)
Definition utf8_char_len (l : bytes) : option nat :=
  match l with
  | [] => None
  | b0 :: l1 =>
      if in_range 0 127 b0 then Some 1%nat
      else if in_range 194 223 b0 then
        match l1 with
        | b1 :: _ => if is_cont b1 then Some 2%nat else None
        | _ => None
        end
      else if in_range 224 239 b0 then
        match l1 with
        | b1 :: b2 :: _ =>
            let lo := if u8_val b0 =? 224 then 160 else 128 in
            let hi := if u8_val b0 =? 237 then 159 else 191 in
            if in_range lo hi b1 && is_cont b2 then Some 3%nat else None
        | _ => None
        end
      else if in_range 240 244 b0 then
        match l1 with
        | b1 :: b2 :: b3 :: _ =>
            let lo := if u8_val b0 =? 240 then 144 else 128 in
            let hi := if u8_val b0 =? 244 then 143 else 191 in
            if in_range lo hi b1 && is_cont b2 && is_cont b3 then Some 4%nat else None
        | _ => None
        end
      else None
  end.

Fixpoint utf8_valid_fuel (fuel : nat) (l : bytes) : bool :=
  match l, fuel with
  | [], _ => true
  | _ :: _, O => false
  | _ :: _, S fuel =>
      match utf8_char_len l with
      | Some n => utf8_valid_fuel fuel (drop n l)
      | None => false
      end
  end.

(** Every character takes at least one byte, so [length l] rounds reach the end. *)
Definition utf8_valid (l : bytes) : bool := utf8_valid_fuel (length l) l.

(** [String::from_utf8]. *)
Definition from_utf8 (l : bytes) : option bytes :=
  if utf8_valid l then Some l else None.

Lemma utf8_char_len_pos l n : utf8_char_len l = Some n -> (1 <= n <= length l)%nat.
Proof.
  unfold utf8_char_len. intros H.
  repeat (case_match; try done); simplify_eq; simpl; lia.
Qed.

#[local] Arguments utf8_char_len : simpl never.

Lemma utf8_valid_fuel_mono fuel fuel' l :
  (length l <= fuel)%nat -> (length l <= fuel')%nat ->
  utf8_valid_fuel fuel l = utf8_valid_fuel fuel' l.
Proof.
  revert fuel' l. induction fuel as [|fuel IH]; intros [|fuel'] [|b l] H H'; simpl in *; try lia; try reflexivity.
  destruct (utf8_char_len (b :: l)) as [n|] eqn:E; [|reflexivity].
  apply utf8_char_len_pos in E. simpl in E.
  apply IH; rewrite length_drop; simpl; lia.
Qed.

(** Validity is decided character by character. *)
Lemma utf8_valid_step l n :
  utf8_char_len l = Some n -> utf8_valid l = utf8_valid (drop n l).
Proof.
  intros E. pose proof (utf8_char_len_pos _ _ E) as Hn.
  destruct l as [|b l]; [done|]. unfold utf8_valid at 1.
  cbn [length utf8_valid_fuel]. rewrite E.
  apply utf8_valid_fuel_mono; rewrite length_drop; simpl in *; lia.
Qed.

Lemma in_range_ascii b : u8_val b < 128 -> in_range 0 127 b = true.
Proof. unfold in_range. pose proof (u8_val_range b). lia. Qed.

