(* ===== verification/Message.v ===== *)
(** [ZmqMessage] (src/src/message.rs): a multipart message, a queue of frames,
    with its conversions. *)

From S2P Require Import Prelude Utf8.

Module ZmqMessage.
Record t : Type := mk { frames : list bytes }.

#[global] Instance t_eq_dec : EqDecision t.
Proof. solve_decision. Defined.

Definition push_back (m : t) (frame : bytes) : t := mk (frames m ++ [frame]).

Definition push_front (m : t) (frame : bytes) : t := mk (frame :: frames m).

Definition iter (m : t) : list bytes := frames m.

Definition pop_front (m : t) : option (bytes * t) :=
  match frames m with
  | [] => None
  | f :: fs => Some (f, mk fs)
  end.

Definition len (m : t) : Z := Prelude.len (frames m).

Definition is_empty (m : t) : bool :=
  match frames m with [] => true | _ => false end.

Definition get (m : t) (index : nat) : option bytes := frames m !! index.

Definition into_vec (m : t) : list bytes := frames m.

Definition into_vecdeque (m : t) : list bytes := frames m.

(** [for frame in message.iter().rev() { self.push_front(frame.clone()) }] *)
Definition prepend (self message : t) : t :=
  fold_left push_front (rev (iter message)) self.

(** [VecDeque::split_off] panics ([None]) when [at] exceeds the length; otherwise
    the receiver keeps the first [at] frames and the rest is returned. *)
Definition split_off (self : t) (at_ : nat) : option (t * t) :=
  if bool_decide (at_ <= length (frames self))%nat
  then Some (mk (take at_ (frames self)), mk (drop at_ (frames self)))
  else None.

(** [TryFrom<Vec<Bytes>>] and [TryFrom<VecDeque<Bytes>>]; the error is
    [ZmqEmptyMessageError]. *)
Definition try_from_vec (v : list bytes) : result t unit :=
  match v with [] => Err tt | _ => Ok (mk v) end.

Definition try_from_vecdeque (v : list bytes) : result t unit :=
  match v with [] => Err tt | _ => Ok (mk v) end.

(** [From<Vec<u8>>], [From<Bytes>], [From<String>] and [From<&str>]: one frame. *)
Definition from_bytes (b : bytes) : t := mk [b].

(** [TryFrom<ZmqMessage> for Vec<u8>]: the frame count is tested before the
    only frame is taken out. *)
Definition try_into_vec_u8 (z : t) : result bytes string :=
  match into_vecdeque z with
  | [b] => Ok b
  | _ => Err "Message must have only 1 frame to convert to Vec<u8>"%string
  end.

(** [TryFrom<ZmqMessage> for String]. *)
Definition try_into_string (z : t) : result bytes string :=
  match into_vecdeque z with
  | [b] =>
      match from_utf8 b with
      | Some s => Ok s
      | None => Err "Could not parse string from message"%string
      end
  | _ => Err "Message must have only 1 frame to convert to String"%string
  end.

(** *** Lemmas *)

Lemma frames_mk m : mk (frames m) = m.
Proof. by destruct m. Qed.

Lemma prepend_mk self message :
  prepend self message = mk (frames message ++ frames self).
Proof.
  unfold prepend, iter. destruct self as [gs], message as [fs]; simpl.
  induction fs as [|f fs IH]; simpl; [done|].
  by rewrite fold_left_app, IH.
Qed.

Lemma pop_push_front m f : pop_front (push_front m f) = Some (f, m).
Proof. by destruct m. Qed.

Lemma split_off_prepend self at_ front back :
  split_off self at_ = Some (front, back) -> prepend back front = self.
Proof.
  unfold split_off. case_bool_decide; [|done]. intros [= <- <-].
  rewrite prepend_mk. simpl. rewrite take_drop. by destruct self.
Qed.

Lemma len_pos m : is_empty m = false -> (0 < len m)%Z.
Proof.
  destruct m as [[|f fs]]; [done|]. intros _. unfold len. simpl.
  rewrite len_cons. pose proof (len_nonneg fs). lia.
Qed.

(** A one-frame message converts to that frame, and only those convert. *)
Lemma try_into_vec_u8_spec z b :
  try_into_vec_u8 z = Ok b <-> z = from_bytes b.
Proof.
  destruct z as [[|f [|g fs]]]; unfold try_into_vec_u8, from_bytes; naive_solver.
Qed.
End ZmqMessage.
