(* ===== verification/Endpoint.v ===== *)
(** Endpoints (src/src/endpoint/): transports, hosts, the textual form
    [tcp://host:port] / [ipc://path], its parser and its printer.

    The two regular expressions are run by the [regex] crate: [Regexes] is the
    interface to it, with what the two patterns match as its laws. Rust strings
    are their UTF-8 bytes. The IPv4 and IPv6 parsers and printers are those of
    [std::net]. *)

From S2P Require Import Prelude Utf8.

Local Open Scope Z_scope.

(** [Transport] (endpoint/transport.rs). *)
Inductive Transport : Type := TransportTcp | TransportIpc.

#[export] Instance Transport_eq_dec : EqDecision Transport.
Proof. solve_decision. Defined.

(** [EndpointError] (endpoint/error.rs). *)
Inductive EndpointError : Type :=
  | ParseIpAddr
  | UnknownTransport (t : bytes)
  | Syntax (msg : string).

#[export] Instance EndpointError_eq_dec : EqDecision EndpointError.
Proof. solve_decision. Defined.

(** [Host] (endpoint/host.rs): four octets, eight 16-bit groups, or a name. *)
Inductive Host : Type :=
  | Ipv4 (octets : list Z)
  | Ipv6 (groups : list Z)
  | Domain (name : bytes).

#[export] Instance Host_eq_dec : EqDecision Host.
Proof. solve_decision. Defined.

(** [Endpoint] (endpoint/mod.rs). *)
Inductive Endpoint : Type :=
  | Tcp (host : Host) (port : Z)
  | Ipc (path : option bytes).

#[export] Instance Endpoint_eq_dec : EqDecision Endpoint.
Proof. solve_decision. Defined.

#[export] Instance Host_countable : Countable Host.
Proof.
  apply (inj_countable'
    (fun h => match h with
              | Ipv4 o => inl o | Ipv6 g => inr (inl g) | Domain d => inr (inr d) end)
    (fun x => match x with
              | inl o => Ipv4 o | inr (inl g) => Ipv6 g | inr (inr d) => Domain d end)).
  by intros [].
Defined.

#[export] Instance Endpoint_countable : Countable Endpoint.
Proof.
  apply (inj_countable'
    (fun e => match e with Tcp h p => inl (h, p) | Ipc p => inr p end)
    (fun x => match x with inl (h, p) => Tcp h p | inr p => Ipc p end)).
  by intros [].
Defined.

Definition transport (e : Endpoint) : Transport :=
  match e with Tcp _ _ => TransportTcp | Ipc _ => TransportIpc end.

(** [IpAddr] of [std::net], and [From<IpAddr> for Host], [TryFrom<Host> for IpAddr]. *)
Inductive IpAddr : Type := V4 (octets : list Z) | V6 (groups : list Z).

Definition host_from_ip (a : IpAddr) : Host :=
  match a with V4 a => Ipv4 a | V6 a => Ipv6 a end.

Definition host_try_into_ip (h : Host) : result IpAddr string :=
  match h with
  | Ipv4 a => Ok (V4 a)
  | Ipv6 a => Ok (V6 a)
  | Domain _ => Err "Host was neither Ipv4 nor Ipv6"%string
  end.

Definition from_tcp_addr (ip : IpAddr) (port : Z) : Endpoint := Tcp (host_from_ip ip) port.

Definition from_tcp_domain (addr : bytes) (port : Z) : Endpoint := Tcp (Domain addr) port.

(** *** Transport names *)

Definition transport_as_str (t : Transport) : bytes :=
  match t with TransportTcp => bs "tcp" | TransportIpc => bs "ipc" end.

Definition transport_from_str (s : bytes) : result Transport EndpointError :=
  if decide (s = bs "tcp") then Ok TransportTcp
  else if decide (s = bs "ipc") then Ok TransportIpc
  else Err (UnknownTransport s).

(** ** Numbers of [std] *)

Definition is_digit (b : byte) : bool := in_range 48 57 b.
Definition digit_val (b : byte) : Z := u8_val b - 48.
Definition digit_byte (z : Z) : byte := u8_of (48 + z).

(** Decimal printing of an unsigned integer below [10 ^ fuel]. *)
Fixpoint dec_fuel (fuel : nat) (z : Z) : bytes :=
  match fuel with
  | O => []
  | S fuel => if z <? 10 then [digit_byte z]
              else dec_fuel fuel (z / 10) ++ [digit_byte (z mod 10)]
  end.
Definition dec (z : Z) : bytes := dec_fuel 20 z.

Definition dec_val (l : bytes) : Z := fold_left (fun acc b => acc * 10 + digit_val b) l 0.

(** [str::parse::<u16>()] on a string of ASCII digits. *)
Definition parse_u16 (s : bytes) : option Z :=
  if bool_decide (s <> []) && forallb is_digit s && (dec_val s <=? 65535)
  then Some (dec_val s) else None.

(** [char::to_digit(16)]. *)
Definition hex_digit (b : byte) : option Z :=
  if in_range 48 57 b then Some (u8_val b - 48)
  else if in_range 97 102 b then Some (u8_val b - 87)
  else if in_range 65 70 b then Some (u8_val b - 55)
  else None.

Definition radix_digit (radix : Z) (b : byte) : option Z :=
  match hex_digit b with
  | Some d => if d <? radix then Some d else None
  | None => None
  end.

(** [Parser::read_number] with [max_digits]: digits are taken while they last,
    more than [max_digits] of them fail. The value fits the target since
    [radix ^ max_digits] is checked against [bound]. *)
Fixpoint read_digits (radix : Z) (l : bytes) : list Z * bytes :=
  match l with
  | b :: l' =>
      match radix_digit radix b with
      | Some d => let '(ds, rest) := read_digits radix l' in (d :: ds, rest)
      | None => ([], l)
      end
  | [] => ([], [])
  end.

Definition read_number (radix bound : Z) (max_digits : nat) (allow_zero_prefix : bool)
    (l : bytes) : option (Z * bytes) :=
  let '(ds, rest) := read_digits radix l in
  let v := fold_left (fun acc d => acc * radix + d) ds 0 in
  if bool_decide (max_digits < length ds)%nat then None
  else if negb (v <=? bound) then None
  else match ds with
       | [] => None
       | d :: _ =>
           if negb allow_zero_prefix && (d =? 0) && bool_decide (1 < length ds)%nat
           then None else Some (v, rest)
       end.

(** [Parser::read_separator]: the separator is read before every element but the first. *)
Definition read_separator {A} (sep : byte) (index : nat)
    (inner : bytes -> option (A * bytes)) (l : bytes) : option (A * bytes) :=
  match index with
  | O => inner l
  | S _ => match l with
           | b :: l' => if decide (b = sep) then inner l' else None
           | [] => None
           end
  end.

Definition dot : byte := Byte.x2e.
Definition colon : byte := Byte.x3a.

Fixpoint read_octets (n i : nat) (l : bytes) : option (list Z * bytes) :=
  match n with
  | O => Some ([], l)
  | S n =>
      match read_separator dot i (read_number 10 255 3 false) l with
      | Some (v, l') =>
          match read_octets n (S i) l' with
          | Some (vs, l'') => Some (v :: vs, l'')
          | None => None
          end
      | None => None
      end
  end.

Definition read_ipv4 (l : bytes) : option (list Z * bytes) := read_octets 4 0 l.

(** [Ipv4Addr::from_str]: at most 15 bytes, all of them consumed. *)
Definition parse_ipv4 (s : bytes) : option (list Z) :=
  if bool_decide (15 < length s)%nat then None
  else match read_ipv4 s with
       | Some (a, []) => Some a
       | _ => None
       end.

(** [read_groups]: up to [limit] groups from position [i]; a dotted IPv4 address
    may stand for the last two. Returns the groups and whether IPv4 was used. *)
Fixpoint read_groups (limit i : nat) (l : bytes) : list Z * bool * bytes :=
  match limit with
  | O => ([], false, l)
  | S limit' =>
      let group l :=
        match read_separator colon i (read_number 16 65535 4 true) l with
        | Some (g, l') =>
            let '(gs, v4, l'') := read_groups limit' (S i) l' in (g :: gs, v4, l'')
        | None => ([], false, l)
        end in
      match limit' with
      | O => group l
      | S _ =>
          match read_separator colon i read_ipv4 l with
          | Some ([a; b; c; d], l') => ([a * 256 + b; c * 256 + d], true, l')
          | _ => group l
          end
      end
  end.

Definition read_ipv6 (l : bytes) : option (list Z * bytes) :=
  let '(head, head_ipv4, l1) := read_groups 8 0 l in
  if bool_decide (length head = 8)%nat then Some (head, l1)
  else if head_ipv4 then None
  else match l1 with
       | c1 :: c2 :: l2 =>
           if decide (c1 = colon) then
             if decide (c2 = colon) then
               let '(tail, _, l3) := read_groups (8 - (length head + 1)) 0 l2 in
               Some (head ++ repeat 0 (8 - length head - length tail) ++ tail, l3)
             else None
           else None
       | _ => None
       end.

(** [Ipv6Addr::from_str]. *)
Definition parse_ipv6 (s : bytes) : option (list Z) :=
  match read_ipv6 s with
  | Some (a, []) => Some a
  | _ => None
  end.

Example parse_ipv4_ex : parse_ipv4 (bs "127.0.0.1") = Some [127; 0; 0; 1].
Proof. reflexivity. Qed.
Example parse_ipv4_ex2 : parse_ipv4 (bs "127.0.0.256") = None /\ parse_ipv4 (bs "127.00.0.1") = None.
Proof. by vm_compute. Qed.
Example parse_ipv6_ex : parse_ipv6 (bs "::1") = Some [0; 0; 0; 0; 0; 0; 0; 1].
Proof. by vm_compute. Qed.
Example parse_ipv6_ex2 :
  parse_ipv6 (bs "fe80::1:255.1.2.3") = Some [65152; 0; 0; 0; 0; 1; 65281; 515]
  /\ parse_ipv6 (bs "1:2:3:4:5:6:7::") = Some [1; 2; 3; 4; 5; 6; 7; 0]
  /\ parse_ipv6 (bs "1:2:3:4:5:6:7:8:9") = None /\ parse_ipv6 (bs "example") = None.
Proof. by vm_compute. Qed.

(** ** Printing addresses *)

Fixpoint join (sep : byte) (l : list bytes) : bytes :=
  match l with
  | [] => []
  | [x] => x
  | x :: l => x ++ sep :: join sep l
  end.

Definition display_ipv4 (a : list Z) : bytes := join dot (dec <$> a).

Definition hex_digit_byte (d : Z) : byte := if d <? 10 then u8_of (48 + d) else u8_of (87 + d).

Fixpoint hex_fuel (fuel : nat) (z : Z) : bytes :=
  match fuel with
  | O => []
  | S fuel => if z <? 16 then [hex_digit_byte z]
              else hex_fuel fuel (z / 16) ++ [hex_digit_byte (z mod 16)]
  end.
Definition hex (z : Z) : bytes := hex_fuel 4 z.

(** The longest run of zero groups, the first of equals: (start, length). *)
Fixpoint longest_zeros (i : nat) (cur best : nat * nat) (l : list Z) : nat * nat :=
  match l with
  | [] => best
  | g :: l =>
      if g =? 0 then
        let cur := (if bool_decide (snd cur = 0)%nat then i else fst cur, S (snd cur)) in
        longest_zeros (S i) cur (if bool_decide (snd best < snd cur)%nat then cur else best) l
      else longest_zeros (S i) (0, 0)%nat best l
  end.

Definition display_ipv6 (a : list Z) : bytes :=
  match a with
  | [0; 0; 0; 0; 0; 65535; g; h] =>
      bs "::ffff:" ++ display_ipv4 [g / 256; g mod 256; h / 256; h mod 256]
  | _ =>
      let '(start, n) := longest_zeros 0 (0, 0)%nat (0, 0)%nat a in
      if bool_decide (1 < n)%nat
      then join colon (hex <$> take start a) ++ bs "::" ++ join colon (hex <$> drop (start + n) a)
      else join colon (hex <$> a)
  end.

Example display_ipv6_ex :
  display_ipv6 [65152; 0; 0; 0; 0; 1; 65281; 515] = bs "fe80::1:ff01:203"
  /\ display_ipv6 [0; 0; 0; 0; 0; 0; 0; 1] = bs "::1"
  /\ display_ipv6 [0; 0; 0; 0; 0; 65535; 32512; 1] = bs "::ffff:127.0.0.1".
Proof. by vm_compute. Qed.

(** [Display for Host]. *)
Definition display_host (h : Host) : bytes :=
  match h with
  | Ipv4 a => display_ipv4 a
  | Ipv6 a => display_ipv6 a
  | Domain name => name
  end.

(** [TryFrom<String> for Host]: IPv4, then IPv6 with or without brackets, then a name. *)
Definition host_try_from (s : bytes) : result Host EndpointError :=
  if bool_decide (s = []) then Err (Syntax "Host string should not be empty")
  else match parse_ipv4 s with
       | Some a => Ok (Ipv4 a)
       | None =>
           let ipv6_substr :=
             if bool_decide (head s = Some Byte.x5b) && (4 <=? len s)
                && bool_decide (last s = Some Byte.x5d)
             then ztake (len s - 2) (zdrop 1 s) else s in
           match parse_ipv6 ipv6_substr with
           | Some a => Ok (Ipv6 a)
           | None => Ok (Domain s)
           end
       end.

(** ** Endpoints as text *)

Definition is_lower (b : byte) : bool := in_range 97 122 b.
Definition newline : byte := Byte.x0a.

(** What the source's two patterns match, as the [regex] crate documents them:
    [^([[:lower:]]+)://(.+)$] and [^(.+):([0-9]+)$]; a dot is any character but a newline. *)
Class Regexes : Type := {
  transport_captures : bytes -> option (bytes * bytes);
  host_port_captures : bytes -> option (bytes * bytes);
  transport_captures_spec s t a :
    transport_captures s = Some (t, a) <->
    s = t ++ bs "://" ++ a /\ t <> [] /\ forallb is_lower t = true
    /\ a <> [] /\ (newline ∉ a);
  host_port_captures_spec s h p :
    host_port_captures s = Some (h, p) <->
    s = h ++ colon :: p /\ h <> [] /\ (newline ∉ h) /\ p <> [] /\ forallb is_digit p = true;
}.

Section Parsing.
Context `{Regexes}.

(** The inner [extract_host_port] of [FromStr for Endpoint]. *)
Definition extract_host_port (address : bytes) : result (Host * Z) EndpointError :=
  match host_port_captures address with
  | None => Err (Syntax "Could not parse host and port")
  | Some (host, port) =>
      match parse_u16 port with
      | None => Err (Syntax "Port must be a u16 but was out of range")
      | Some port => let? host := host_try_from host in Ok (host, port)
      end
  end.

(** [FromStr for Endpoint]. *)
Definition endpoint_from_str (s : bytes) : result Endpoint EndpointError :=
  match transport_captures s with
  | None => Err (Syntax "Could not parse transport")
  | Some (transport, address) =>
      let? transport := transport_from_str transport in
      match transport with
      | TransportTcp => let? (host, port) := extract_host_port address in Ok (Tcp host port)
      | TransportIpc => Ok (Ipc (Some address))
      end
  end.
End Parsing.

(** [Display for Endpoint]; [path.display()] of a UTF-8 path is the path. *)
Definition display_endpoint (e : Endpoint) : bytes :=
  match e with
  | Tcp ((Ipv6 _) as host) port => bs "tcp://[" ++ display_host host ++ bs "]:" ++ dec port
  | Tcp host port => bs "tcp://" ++ display_host host ++ bs ":" ++ dec port
  | Ipc (Some path) => bs "ipc://" ++ path
  | Ipc None => bs "ipc://????"
  end.

(** ** Lemmas *)

Lemma digit_byte_val d : 0 <= d < 10 -> digit_val (digit_byte d) = d.
Proof. intros. unfold digit_val, digit_byte. rewrite u8_val_of_small; lia. Qed.

Lemma digit_byte_is_digit d : 0 <= d < 10 -> is_digit (digit_byte d) = true.
Proof.
  intros. unfold is_digit, in_range, digit_byte. rewrite u8_val_of_small; lia.
Qed.

Lemma dec_val_app l b : dec_val (l ++ [b]) = dec_val l * 10 + digit_val b.
Proof. unfold dec_val. by rewrite fold_left_app. Qed.

Lemma dec_fuel_spec fuel z :
  0 <= z < 10 ^ Z.of_nat fuel -> (0 < fuel)%nat ->
  dec_val (dec_fuel fuel z) = z /\ forallb is_digit (dec_fuel fuel z) = true
  /\ dec_fuel fuel z <> [].
Proof.
  revert z. induction fuel as [|fuel IH]; intros z Hz Hf; [lia|]. cbn [dec_fuel].
  destruct (Z.ltb_spec z 10).
  - unfold dec_val. cbn. rewrite digit_byte_val, digit_byte_is_digit by lia.
    split_and!; [lia|done|done].
  - rewrite Nat2Z.inj_succ, Z.pow_succ_r in Hz by lia.
    assert (0 <= z / 10 < 10 ^ Z.of_nat fuel).
    { split; [apply Z.div_pos; lia|]. apply Z.div_lt_upper_bound; lia. }
    destruct (IH (z / 10)) as (Hv & Hd & Hne); [done| |].
    { destruct fuel; [cbn in *; lia|lia]. }
    pose proof (Z.mod_pos_bound z 10 ltac:(lia)).
    rewrite dec_val_app, Hv, digit_byte_val, forallb_app, Hd by lia.
    cbn. rewrite digit_byte_is_digit by lia. split_and!; [|done|by intros [_ ?]%app_nil].
    pose proof (Z.div_mod z 10 ltac:(lia)). lia.
Qed.

Lemma dec_spec z : 0 <= z <= 65535 ->
  dec_val (dec z) = z /\ forallb is_digit (dec z) = true /\ dec z <> [].
Proof. intros. apply dec_fuel_spec; lia. Qed.

Lemma parse_u16_dec z : 0 <= z <= 65535 -> parse_u16 (dec z) = Some z.
Proof.
  intros Hz. destruct (dec_spec z Hz) as (Hv & Hd & Hne). unfold parse_u16.
  rewrite bool_decide_eq_true_2, Hd, Hv by done.
  by destruct (Z.leb_spec z 65535); [|lia].
Qed.

Lemma read_digits_app radix ds rest :
  Forall (fun b => is_Some (radix_digit radix b)) ds ->
  (forall b, head rest = Some b -> radix_digit radix b = None) ->
  read_digits radix (ds ++ rest) = (omap (radix_digit radix) ds, rest).
Proof.
  intros Hds Hrest. induction Hds as [|b ds [d Hd] _ IH]; cbn [app read_digits omap list_omap].
  - destruct rest as [|b rest]; [done|]. cbn. by rewrite (Hrest b).
  - by rewrite Hd, IH.
Qed.

(** What [dec] prints for an octet: a finite check over the 256 values. *)
Definition octet_ok (z : Z) : bool :=
  bool_decide (Forall (fun b => is_Some (radix_digit 10 b)) (dec z))
  && bool_decide (read_number 10 255 3 false (dec z) = Some (z, []))
  && bool_decide (length (dec z) <= 3)%nat && bool_decide (newline ∉ dec z).

Lemma octets_ok z : 0 <= z <= 255 -> octet_ok z = true.
Proof.
  intros Hz. assert (Hall : forallb octet_ok (seqZ 0 256) = true) by by vm_compute.
  rewrite forallb_forall in Hall. apply Hall, list_elem_of_In, elem_of_seqZ. lia.
Qed.

Lemma octet_facts z : 0 <= z <= 255 ->
  Forall (fun b => is_Some (radix_digit 10 b)) (dec z)
  /\ read_number 10 255 3 false (dec z) = Some (z, [])
  /\ (length (dec z) <= 3)%nat /\ newline ∉ dec z.
Proof.
  intros Hz. pose proof (octets_ok z Hz) as H. unfold octet_ok in H.
  repeat rewrite andb_true_iff in H. destruct H as (((H1 & H2) & H3) & H4).
  by rewrite bool_decide_eq_true in H1, H2, H3, H4.
Qed.

Lemma read_number_dec z rest :
  0 <= z <= 255 ->
  (forall b, head rest = Some b -> radix_digit 10 b = None) ->
  read_number 10 255 3 false (dec z ++ rest) = Some (z, rest).
Proof.
  intros Hz Hrest. destruct (octet_facts z Hz) as (Hd & Hr & _ & _).
  revert Hr. unfold read_number. rewrite read_digits_app by done.
  rewrite <- (app_nil_r (dec z)) at 1. rewrite read_digits_app by done.
  repeat case_match; congruence.
Qed.

Definition octets (a : list Z) : Prop := length a = 4%nat /\ Forall (fun z => 0 <= z <= 255) a.

Lemma octets_inv a : octets a ->
  exists w x y z, a = [w; x; y; z] /\ 0 <= w <= 255 /\ 0 <= x <= 255 /\ 0 <= y <= 255 /\ 0 <= z <= 255.
Proof.
  intros [Hl Hf]. destruct a as [|w [|x [|y [|z [|]]]]]; try done.
  repeat (apply Forall_cons in Hf as [? Hf]). by exists w, x, y, z.
Qed.

Lemma read_display_ipv4 a : octets a -> read_ipv4 (display_ipv4 a) = Some (a, []).
Proof.
  intros (w & x & y & z & -> & Hw & Hx & Hy & Hz)%octets_inv.
  unfold display_ipv4. cbn [fmap list_fmap join].
  assert (forall b, Some dot = Some b -> radix_digit 10 b = None) as Hdot.
  { by intros ? [= <-]. }
  unfold read_ipv4. cbn [read_octets read_separator].
  rewrite read_number_dec by done. cbn [read_octets read_separator].
  rewrite decide_True by done. rewrite read_number_dec by done.
  cbn [read_octets read_separator]. rewrite decide_True by done.
  rewrite read_number_dec by done. cbn [read_octets read_separator].
  rewrite decide_True by done.
  rewrite <- (app_nil_r (dec z)). by rewrite read_number_dec.
Qed.

Lemma parse_display_ipv4 a : octets a -> parse_ipv4 (display_ipv4 a) = Some a.
Proof.
  intros Ha. unfold parse_ipv4. rewrite read_display_ipv4 by done.
  destruct (octets_inv a Ha) as (w & x & y & z & -> & Hw & Hx & Hy & Hz).
  unfold display_ipv4. cbn [fmap list_fmap join].
  rewrite bool_decide_eq_false_2; [done|]. repeat (rewrite length_app; cbn [length]).
  pose proof (octet_facts w Hw). pose proof (octet_facts x Hx).
  pose proof (octet_facts y Hy). pose proof (octet_facts z Hz). lia.
Qed.

Lemma display_ipv4_text a : octets a ->
  display_ipv4 a <> [] /\ newline ∉ display_ipv4 a.
Proof.
  intros (w & x & y & z & -> & Hw & Hx & Hy & Hz)%octets_inv.
  unfold display_ipv4. cbn [fmap list_fmap join].
  destruct (octet_facts w Hw) as (_ & _ & _ & ?), (octet_facts x Hx) as (_ & _ & _ & ?),
    (octet_facts y Hy) as (_ & _ & _ & ?), (octet_facts z Hz) as (_ & _ & _ & ?).
  split; [by intros [_ ?]%app_nil|].
  repeat (rewrite not_elem_of_app || rewrite not_elem_of_cons). by split_and!.
Qed.

(** *** IPv6 *)

Definition group_ok (g : Z) : Prop := 0 <= g <= 65535.
Definition groups (a : list Z) : Prop := length a = 8%nat /\ Forall group_ok a.

Definition hex_val (l : list Z) : Z := fold_left (fun acc d => acc * 16 + d) l 0.

(** The digits of a number below 16, in both directions. *)
Lemma hex_digit_byte_val d : 0 <= d < 16 -> radix_digit 16 (hex_digit_byte d) = Some d.
Proof.
  intros Hd. assert (forallb (fun d => bool_decide (radix_digit 16 (hex_digit_byte d) = Some d)) (seqZ 0 16) = true)
    as Hall by by vm_compute.
  rewrite forallb_forall in Hall. apply (bool_decide_eq_true _), Hall, list_elem_of_In, elem_of_seqZ. lia.
Qed.

Lemma hex_fuel_spec fuel z :
  0 <= z < 16 ^ Z.of_nat fuel -> (0 < fuel)%nat ->
  Forall (fun b => is_Some (radix_digit 16 b)) (hex_fuel fuel z)
  /\ hex_val (omap (radix_digit 16) (hex_fuel fuel z)) = z
  /\ (0 < length (hex_fuel fuel z) <= fuel)%nat.
Proof.
  revert z. induction fuel as [|fuel IH]; intros z Hz Hf; [lia|]. cbn [hex_fuel].
  destruct (Z.ltb_spec z 16).
  - cbn [omap list_omap]. rewrite hex_digit_byte_val by lia. cbn. split_and!; [|lia..].
    repeat constructor. rewrite hex_digit_byte_val by lia. done.
  - rewrite Nat2Z.inj_succ, Z.pow_succ_r in Hz by lia.
    assert (0 <= z / 16 < 16 ^ Z.of_nat fuel).
    { split; [apply Z.div_pos; lia|]. apply Z.div_lt_upper_bound; lia. }
    destruct (IH (z / 16)) as (Hd & Hv & Hl); [done| |].
    { destruct fuel; [cbn in *; lia|lia]. }
    pose proof (Z.mod_pos_bound z 16 ltac:(lia)).
    rewrite omap_app, length_app. cbn [omap list_omap length]. rewrite hex_digit_byte_val by lia.
    unfold hex_val in *. rewrite fold_left_app, Hv. cbn [fold_left].
    split_and!; [|pose proof (Z.div_mod z 16 ltac:(lia)); lia|lia..].
    apply Forall_app. split; [done|]. repeat constructor. rewrite hex_digit_byte_val by lia. done.
Qed.

Lemma hex_spec g : group_ok g ->
  Forall (fun b => is_Some (radix_digit 16 b)) (hex g)
  /\ hex_val (omap (radix_digit 16) (hex g)) = g /\ (0 < length (hex g) <= 4)%nat.
Proof. intros Hg. apply hex_fuel_spec; unfold group_ok in *; lia. Qed.

(** What follows a number in an address. *)
Definition ends (rest : bytes) : Prop := forall b, head rest = Some b -> b = colon.

Lemma read_number_hex g rest :
  group_ok g -> ends rest -> read_number 16 65535 4 true (hex g ++ rest) = Some (g, rest).
Proof.
  intros Hg Hrest. destruct (hex_spec g Hg) as (Hd & Hv & Hl). unfold read_number.
  rewrite read_digits_app; [|done|by intros b ->%Hrest].
  fold (hex_val (omap (radix_digit 16) (hex g))). rewrite Hv.
  assert (length (omap (radix_digit 16) (hex g)) = length (hex g)) as Hlen.
  { clear -Hd. induction Hd as [|b l [d Hb] _ IH]; [done|]. cbn. rewrite Hb. cbn. by rewrite <- IH. }
  rewrite bool_decide_eq_false_2 by lia. unfold group_ok in Hg.
  destruct (Z.leb_spec g 65535); [|lia]. cbn [negb].
  destruct (omap (radix_digit 16) (hex g)) as [|d ds]; [|done].
  rewrite <- Hlen in Hl. by apply proj1, Nat.lt_irrefl in Hl.
Qed.

(** No number is read where none starts. *)
Lemma read_number_none radix bound n z rest : ends rest -> read_number radix bound n z rest = None.
Proof.
  intros Hr. unfold read_number. destruct rest as [|b rest].
  - cbn. by repeat case_match.
  - rewrite (Hr b eq_refl). cbn. by repeat case_match.
Qed.

(** A number of hexadecimal digits is not the start of a dotted address. *)
Lemma read_digits_stops l rest ds r :
  Forall (fun b => is_Some (radix_digit 16 b)) l -> ends rest -> read_digits 10 (l ++ rest) = (ds, r) ->
  head r <> Some dot.
Proof.
  intros Hl Hr. revert ds r. induction Hl as [|b l Hb Hl IH]; intros ds r; cbn [app read_digits].
  - destruct rest as [|b rest]; cbn; [by intros [= <- <-]|]. rewrite (Hr b eq_refl). cbn. by intros [= <- <-].
  - destruct (radix_digit 10 b) as [d|].
    + destruct (read_digits 10 (l ++ rest)) as [ds' r'] eqn:E. intros [= <- <-]. by eapply IH.
    + intros [= <- <-]. cbn. intros [= ->]. by destruct Hb.
Qed.

Lemma read_ipv4_hex g rest : group_ok g -> ends rest -> read_ipv4 (hex g ++ rest) = None.
Proof.
  intros Hg Hrest. destruct (hex_spec g Hg) as (Hd & _ & _).
  unfold read_ipv4. cbn [read_octets read_separator].
  destruct (read_number 10 255 3 false (hex g ++ rest)) as [[v l]|] eqn:E; [|done].
  assert (head l <> Some dot) as Hl.
  { revert E. unfold read_number. destruct (read_digits 10 (hex g ++ rest)) as [ds r] eqn:Er.
    apply read_digits_stops in Er; [|done..]. repeat case_match; try done; by intros [= _ <-]. }
  destruct l as [|b l]; cbn; [done|]. rewrite decide_False; [done|]. intros ->. by apply Hl.
Qed.

Lemma read_ipv4_none rest : ends rest -> read_ipv4 rest = None.
Proof. intros Hr. unfold read_ipv4. cbn [read_octets read_separator]. by rewrite read_number_none. Qed.

(** Groups as they are read from position [i] on. *)
Definition group_text (i : nat) (l : list Z) : bytes :=
  match i with
  | O => join colon (hex <$> l)
  | S _ => concat ((fun g => colon :: hex g) <$> l)
  end.

Lemma group_text_cons g l : group_text 0 (g :: l) = hex g ++ group_text 1 l.
Proof.
  cbn. revert g. induction l as [|g' l IH]; intros g; [by rewrite app_nil_r|].
  cbn in *. by rewrite IH.
Qed.

Lemma group_text_ends i l rest : ends rest -> ends (group_text (S i) l ++ rest).
Proof. intros Hr b. destruct l as [|g l]; [apply Hr|]. by intros [= <-]. Qed.

(** After the groups there is nothing, or the colons of the compressed zeros. *)
Definition tail_text (rest : bytes) : Prop := rest = [] \/ exists r, rest = colon :: colon :: r.

Lemma tail_ends rest : tail_text rest -> ends rest.
Proof. by intros [->|[r ->]] b; [|intros [= <-]]. Qed.

Lemma read_after {A} (f : bytes -> option (A * bytes)) i rest :
  (forall r, ends r -> f r = None) -> tail_text rest -> read_separator colon i f rest = None.
Proof.
  intros Hf Ht. destruct i as [|i]; cbn; [by apply Hf, tail_ends|].
  destruct Ht as [->|[r ->]]; [done|]. rewrite decide_True by done. apply Hf. by intros b [= <-].
Qed.

Lemma read_groups_end limit i rest : tail_text rest -> read_groups limit i rest = ([], false, rest).
Proof.
  intros Ht. destruct limit as [|limit]; [done|]. cbn [read_groups].
  rewrite !read_after; [by destruct limit|try done..]; intros r Hr;
    [by apply read_ipv4_none|by apply read_number_none].
Qed.

Lemma read_groups_step limit i g l l' :
  read_separator colon i read_ipv4 l = None ->
  read_separator colon i (read_number 16 65535 4 true) l = Some (g, l') ->
  read_groups (S limit) i l = (let '(gs, v4, l'') := read_groups limit (S i) l' in (g :: gs, v4, l'')).
Proof. intros H4 Hg. cbn [read_groups]. rewrite H4, Hg. by destruct limit. Qed.

Lemma read_groups_v4 limit i a b c d l l' :
  read_separator colon i read_ipv4 l = Some ([a; b; c; d], l') ->
  read_groups (S (S limit)) i l = ([a * 256 + b; c * 256 + d], true, l').
Proof. intros H4. cbn [read_groups]. by rewrite H4. Qed.

Lemma read_groups_text l limit i rest :
  Forall group_ok l -> (length l <= limit)%nat -> tail_text rest ->
  read_groups limit i (group_text i l ++ rest) = (l, false, rest).
Proof.
  revert limit i. induction l as [|g l IH]; intros limit i Hl Hlen Ht.
  { destruct i; by apply read_groups_end. }
  apply Forall_cons in Hl as [Hg Hl]. destruct limit as [|limit]; [cbn in Hlen; lia|].
  assert (Hends : ends (group_text (S i) l ++ rest)) by (apply group_text_ends; by apply tail_ends).
  assert (Hsep : forall A (f : bytes -> option (A * bytes)),
    read_separator colon i f (group_text i (g :: l) ++ rest) = f (hex g ++ group_text (S i) l ++ rest)).
  { intros A f. destruct i as [|i]; [by rewrite group_text_cons, <- app_assoc|].
    cbn. by rewrite <- app_assoc. }
  rewrite (read_groups_step limit i g _ (group_text (S i) l ++ rest));
    [|rewrite Hsep; by apply read_ipv4_hex|rewrite Hsep; by apply read_number_hex].
  rewrite (IH limit (S i)) by (done || cbn in Hlen; lia). done.
Qed.

(** The longest run of zeros is one of the text. *)
Lemma longest_zeros_spec pre l cur best st n :
  (snd cur <= length pre)%nat /\ (0 < snd cur -> fst cur + snd cur = length pre)%nat
  /\ drop (length pre - snd cur) pre = repeat 0 (snd cur) ->
  (fst best + snd best <= length pre)%nat /\ take (snd best) (drop (fst best) pre) = repeat 0 (snd best) ->
  longest_zeros (length pre) cur best l = (st, n) ->
  (st + n <= length (pre ++ l))%nat /\ take n (drop st (pre ++ l)) = repeat 0 n.
Proof.
  revert pre cur best. induction l as [|g l IH]; intros pre [cs cn] [bst bn] (Hc1 & Hc2 & Hc3) (Hb1 & Hb2); cbn.
  { intros [= <- <-]. by rewrite app_nil_r. }
  replace (S (length pre)) with (length (pre ++ [g])) by (rewrite length_app; cbn; lia).
  replace (pre ++ g :: l) with ((pre ++ [g]) ++ l) by (by rewrite <- app_assoc).
  cbn in *.
  assert (Hbest : (bst + bn <= length (pre ++ [g]))%nat /\ take bn (drop bst (pre ++ [g])) = repeat 0 bn).
  { rewrite length_app. split; [cbn; lia|]. rewrite drop_app_le by lia.
    rewrite take_app_le; [done|]. rewrite length_drop. lia. }
  destruct (Z.eqb_spec g 0) as [->|Hg].
  2:{ apply IH; [|done]. cbn. split_and!; [lia..|]. by rewrite Nat.sub_0_r, drop_all. }
  assert (Hrun : drop (length (pre ++ [0]) - S cn) (pre ++ [0]) = repeat 0 (S cn)).
  { rewrite length_app. cbn [length]. replace (length pre + 1 - S cn)%nat with (length pre - cn)%nat by lia.
    rewrite drop_app_le, Hc3 by lia. by rewrite <- repeat_cons. }
  set (run := if bool_decide (cn = 0%nat) then length pre else cs).
  assert (Hst : (run + S cn)%nat = length (pre ++ [0])).
  { unfold run. rewrite length_app. cbn. case_bool_decide; lia. }
  apply IH; cbn; [split_and!; [lia|lia|done]|].
  case_bool_decide; [|done]. cbn. split; [lia|].
  rewrite <- Hst in Hrun. replace (run + S cn - S cn)%nat with run in Hrun by lia. rewrite Hrun.
  apply take_ge. cbn. by rewrite repeat_length.
Qed.

(** The text of an address: its groups, or those before and after the run of zeros. *)
Lemma display_ipv6_shape a : groups a ->
  (exists x y, a = [0; 0; 0; 0; 0; 65535; x; y])
  \/ display_ipv6 a = group_text 0 a
  \/ exists hd n tl, a = hd ++ repeat 0 n ++ tl /\ (1 < n)%nat
       /\ display_ipv6 a = group_text 0 hd ++ bs "::" ++ group_text 0 tl.
Proof.
  intros [Hlen Hall]. destruct (longest_zeros 0 (0, 0)%nat (0, 0)%nat a) as [st n] eqn:E.
  assert ((st + n <= length a)%nat /\ take n (drop st a) = repeat 0 n) as [Hle Hrun].
  { by apply (longest_zeros_spec [] a (0, 0)%nat (0, 0)%nat). }
  assert ((exists x y, a = [0; 0; 0; 0; 0; 65535; x; y])
    \/ display_ipv6 a = (if bool_decide (1 < n)%nat
         then join colon (hex <$> take st a) ++ bs "::" ++ join colon (hex <$> drop (st + n) a)
         else join colon (hex <$> a))) as [Hm|Hd].
  { unfold display_ipv6. rewrite E. repeat case_match; subst; eauto. }
  { by left. }
  right. rewrite Hd. case_bool_decide as Hn; [right|by left].
  exists (take st a), n, (drop (st + n) a). split_and!; [|done..].
  rewrite <- Hrun, <- drop_drop, take_drop. by rewrite take_drop.
Qed.

Lemma mapped_octets x y :
  group_ok x -> group_ok y -> octets [x / 256; x mod 256; y / 256; y mod 256].
Proof.
  intros Hx Hy. split; [done|]. unfold group_ok in *. repeat constructor; first [apply Z.div_pos; lia
    |apply Z.lt_succ_r, Z.div_lt_upper_bound; lia|apply Z.lt_succ_r, Z.mod_pos_bound; lia|apply Z.mod_pos_bound; lia].
Qed.

Lemma parse_display_ipv6 a : groups a -> parse_ipv6 (display_ipv6 a) = Some a.
Proof.
  intros Ha. destruct (display_ipv6_shape a Ha) as [(x & y & ->)|[->|(hd & n & tl & E & Hn & ->)]];
    destruct Ha as [Hlen Hall]; unfold parse_ipv6, read_ipv6.
  - repeat (apply Forall_cons in Hall as [? Hall]). clear Hlen.
    assert (octets [x / 256; x mod 256; y / 256; y mod 256]) as Ho by (by apply mapped_octets).
    set (v4 := [x / 256; x mod 256; y / 256; y mod 256]) in *.
    change (display_ipv6 [0; 0; 0; 0; 0; 65535; x; y]) with (colon :: colon :: hex 65535 ++ colon :: display_ipv4 v4).
    rewrite (read_groups_end 8 0) by (right; by eexists).
    rewrite bool_decide_eq_false_2, !decide_True by done. cbn [length Nat.add Nat.sub].
    assert (Hends : ends (colon :: display_ipv4 v4)) by (by intros b [= <-]).
    rewrite (read_groups_step 6 0 65535 _ (colon :: display_ipv4 v4));
      [|by apply read_ipv4_hex|by apply read_number_hex].
    rewrite (read_groups_v4 4 1 (x / 256) (x mod 256) (y / 256) (y mod 256) _ []).
    2:{ cbn [read_separator]. rewrite decide_True by done. by apply read_display_ipv4. }
    cbn [app length repeat Nat.sub].
    pose proof (Z.div_mod x 256 ltac:(lia)). pose proof (Z.div_mod y 256 ltac:(lia)). repeat f_equal; lia.
  - rewrite <- (app_nil_r (group_text 0 a)), read_groups_text; [|done|lia|by left].
    by rewrite bool_decide_eq_true_2.
  - rewrite E, !length_app, repeat_length in Hlen. rewrite E, !Forall_app in Hall. destruct Hall as (Hh & _ & Ht).
    rewrite read_groups_text; [|done|lia|right; by eexists].
    rewrite bool_decide_eq_false_2 by lia. change (bs "::") with [colon; colon]. cbn [app].
    rewrite !decide_True by done.
    rewrite <- (app_nil_r (group_text 0 tl)), read_groups_text; [|done|lia|by left].
    rewrite E. do 4 f_equal. lia.
Qed.

Lemma hex_newline g : group_ok g -> newline ∉ hex g.
Proof.
  intros Hg Hin. destruct (hex_spec g Hg) as (Hd & _). rewrite Forall_forall in Hd. by destruct (Hd _ Hin).
Qed.

Lemma group_text_newline i l : Forall group_ok l -> newline ∉ group_text i l.
Proof.
  intros Hl. assert (forall l, Forall group_ok l -> newline ∉ group_text 1 l) as Hcat.
  { clear. intros l Hl. induction Hl as [|g l Hg Hl IH]; cbn; [by intros ?%elem_of_nil|].
    apply not_elem_of_cons. split; [done|]. apply not_elem_of_app. split; [by apply hex_newline|done]. }
  destruct i as [|i]; [|by apply Hcat]. destruct Hl as [|g l Hg Hl]; [by intros ?%elem_of_nil|].
  rewrite group_text_cons. apply not_elem_of_app. split; [by apply hex_newline|by apply Hcat].
Qed.

Lemma display_ipv6_text a : groups a -> newline ∉ display_ipv6 a /\ 2 <= len (display_ipv6 a).
Proof.
  intros Ha. destruct (display_ipv6_shape a Ha) as [(x & y & ->)|[->|(hd & n & tl & E & Hn & ->)]];
    destruct Ha as [Hlen Hall].
  - repeat (apply Forall_cons in Hall as [? Hall]). cbn [display_ipv6]. unfold len. rewrite length_app.
    split; [|change (length (bs "::ffff:")) with 7%nat; lia]. apply not_elem_of_app. split; [by apply (bool_decide_unpack _)|].
    apply display_ipv4_text. by apply mapped_octets.
  - split; [by apply group_text_newline|]. destruct a as [|g [|g' a]]; [done|done|].
    apply Forall_cons in Hall as [Hg _]. destruct (hex_spec g Hg) as (_ & _ & Hl).
    rewrite group_text_cons. unfold len. rewrite length_app. cbn [group_text fmap list_fmap concat app length]. lia.
  - rewrite E, !Forall_app in Hall. destruct Hall as (Hh & _ & Ht). unfold len. rewrite !length_app. split.
    + rewrite !not_elem_of_app. split_and!; [by apply group_text_newline|by apply (bool_decide_unpack _)|by apply group_text_newline].
    + change (length (bs "::")) with 2%nat. lia.
Qed.

(** In brackets, as an endpoint prints it. *)
Lemma host_try_from_ipv6 a :
  groups a -> host_try_from (bs "[" ++ display_ipv6 a ++ bs "]") = Ok (Ipv6 a).
Proof.
  intros Ha. destruct (display_ipv6_text a Ha) as [_ Hlen]. unfold host_try_from.
  set (t := display_ipv6 a) in *. set (s := bs "[" ++ t ++ bs "]").
  assert (Hs : s = Byte.x5b :: t ++ [Byte.x5d]) by done.
  assert (Hl : len s = len t + 2) by (rewrite Hs; unfold len; rewrite length_cons, length_app; cbn [length]; lia).
  assert (parse_ipv4 s = None) as ->.
  { unfold parse_ipv4. rewrite Hs. case_bool_decide; [done|]. done. }
  rewrite bool_decide_eq_false_2 by (by rewrite Hs).
  assert (bool_decide (head s = Some Byte.x5b) && (4 <=? len s) && bool_decide (last s = Some Byte.x5d) = true) as ->.
  { rewrite Hl, !andb_true_iff, !bool_decide_eq_true, Z.leb_le. split_and!; [by rewrite Hs|lia|].
    by rewrite Hs, app_comm_cons, last_snoc. }
  assert (ztake (len s - 2) (zdrop 1 s) = t) as ->; [|by rewrite (parse_display_ipv6 a Ha : parse_ipv6 t = _)].
  rewrite Hl, Hs. replace (len t + 2 - 2) with (len t) by lia. unfold ztake, zdrop, len.
  change (Z.to_nat 1) with 1%nat. cbn [drop]. rewrite Nat2Z.id. apply take_app_length.
Qed.

(** The values of the Rust types: four octets, eight groups, a [u16] port. *)
Definition valid (e : Endpoint) : Prop :=
  match e with
  | Tcp (Ipv4 a) port => octets a /\ 0 <= port <= 65535
  | Tcp (Ipv6 a) port => groups a /\ 0 <= port <= 65535
  | Tcp (Domain _) port => 0 <= port <= 65535
  | Ipc _ => True
  end.

(** The endpoints whose text determines them: all addresses, the names that are not themselves
    an address, and the paths, if they are not empty and on one line. *)
Definition printable (e : Endpoint) : Prop :=
  match e with
  | Tcp (Domain d) _ => host_try_from d = Ok (Domain d) /\ newline ∉ d
  | Tcp _ _ => True
  | Ipc (Some path) => path <> [] /\ newline ∉ path
  | Ipc None => False
  end.

Section Roundtrip.
Context `{Regexes}.

Lemma extract_host_port_ok h s port :
  host_try_from s = Ok h -> newline ∉ s -> 0 <= port <= 65535 ->
  extract_host_port (s ++ colon :: dec port) = Ok (h, port).
Proof.
  intros Hh Hs Hp. destruct (dec_spec port Hp) as (_ & Hd & Hne).
  unfold extract_host_port.
  rewrite (proj2 (host_port_captures_spec _ s (dec port))).
  - by rewrite parse_u16_dec, Hh.
  - split_and!; try done. by intros ->.
Qed.

Lemma endpoint_from_str_tcp h s port :
  host_try_from s = Ok h -> newline ∉ s -> 0 <= port <= 65535 ->
  endpoint_from_str (bs "tcp://" ++ s ++ bs ":" ++ dec port) = Ok (Tcp h port).
Proof.
  intros Hh Hs Hp. unfold endpoint_from_str.
  rewrite (proj2 (transport_captures_spec _ (bs "tcp") (s ++ colon :: dec port))).
  - assert (transport_from_str (bs "tcp") = Ok TransportTcp) as -> by done.
    by rewrite (extract_host_port_ok h).
  - destruct (dec_spec port Hp) as (_ & Hd & _). split_and!; try done.
    + by intros [_ ?]%app_nil.
    + intros [?|[?|Hin]%elem_of_cons]%elem_of_app; try done.
      rewrite forallb_forall in Hd. apply list_elem_of_In, Hd in Hin. by vm_compute in Hin.
Qed.

Lemma dec_newline port : 0 <= port <= 65535 -> newline ∉ dec port.
Proof.
  intros Hp Hin. destruct (dec_spec port Hp) as (_ & Hd & _).
  rewrite forallb_forall in Hd. apply list_elem_of_In, Hd in Hin. by vm_compute in Hin.
Qed.

(** A text that is an endpoint is on one line. *)
Lemma endpoint_line s e : endpoint_from_str s = Ok e -> newline ∉ s.
Proof.
  unfold endpoint_from_str. destruct (transport_captures s) as [[t a]|] eqn:E; [|done]. intros _.
  apply transport_captures_spec in E as (-> & _ & Ht & _ & Ha). rewrite !not_elem_of_app.
  split_and!; [|by apply (bool_decide_unpack _)|done].
  intros Hin. rewrite forallb_forall in Ht. apply list_elem_of_In, Ht in Hin. by vm_compute in Hin.
Qed.

(** The host of an endpoint that is printed as [tcp://], a host and a port is the one parsed. *)
Lemma endpoint_from_str_tcp_inv s port h port' :
  0 <= port <= 65535 ->
  endpoint_from_str (bs "tcp://" ++ s ++ bs ":" ++ dec port) = Ok (Tcp h port') ->
  host_try_from s = Ok h /\ newline ∉ s.
Proof.
  intros Hp He. assert (newline ∉ s) as Hs.
  { apply endpoint_line in He. rewrite !not_elem_of_app in He. apply He. }
  split; [|done]. revert He. unfold endpoint_from_str.
  destruct (dec_spec port Hp) as (_ & Hd & Hne).
  rewrite (proj2 (transport_captures_spec _ (bs "tcp") (s ++ colon :: dec port))).
  2:{ split_and!; try done; [by intros [_ ?]%app_nil|].
      rewrite not_elem_of_app, not_elem_of_cons. split_and!; [done|done|by apply dec_newline]. }
  assert (transport_from_str (bs "tcp") = Ok TransportTcp) as -> by done.
  destruct s as [|b s].
  - unfold extract_host_port. destruct (host_port_captures _) as [[h' p]|] eqn:E; [|done].
    exfalso. apply host_port_captures_spec in E as (E & Hh & _). destruct h' as [|c h']; [done|].
    injection E as _ E. rewrite E, forallb_app in Hd. cbn in Hd. by rewrite andb_false_r in Hd.
  - unfold extract_host_port. rewrite (proj2 (host_port_captures_spec _ (b :: s) (dec port))) by done.
    rewrite parse_u16_dec by done. destruct (host_try_from (b :: s)); cbn; [|done]. by intros [= -> _].
Qed.
End Roundtrip.

(** An executable [Regexes]: the longest lower-case prefix, the last colon. *)
Fixpoint span (p : byte -> bool) (l : bytes) : bytes * bytes :=
  match l with
  | b :: l' => if p b then let '(x, y) := span p l' in (b :: x, y) else ([], l)
  | [] => ([], [])
  end.

Definition transport_captures_exec (s : bytes) : option (bytes * bytes) :=
  let '(t, r) := span is_lower s in
  if bool_decide (t <> [] /\ take 3 r = bs "://" /\ drop 3 r <> [] /\ newline ∉ drop 3 r)
  then Some (t, drop 3 r) else None.

Definition host_port_captures_exec (s : bytes) : option (bytes * bytes) :=
  let '(p, r) := span is_digit (reverse s) in
  match r with
  | c :: h =>
      if bool_decide (c = colon /\ h <> [] /\ (newline ∉ h) /\ p <> [])
      then Some (reverse h, reverse p) else None
  | [] => None
  end.

Lemma span_app p l x y : span p l = (x, y) ->
  l = x ++ y /\ forallb p x = true /\ forall b, head y = Some b -> p b = false.
Proof.
  revert x y. induction l as [|b l IH]; intros x y; cbn [span].
  - by intros [= <- <-].
  - destruct (p b) eqn:E.
    + destruct (span p l) as [x' y'] eqn:F. intros [= <- <-].
      destruct (IH _ _ eq_refl) as (-> & Hx & Hy). cbn. by rewrite E, Hx.
    + intros [= <- <-]. split_and!; [done..|]. by intros ? [= <-].
Qed.

Lemma span_unique p x y : forallb p x = true -> (forall b, head y = Some b -> p b = false) ->
  span p (x ++ y) = (x, y).
Proof.
  intros Hx Hy. induction x as [|b x IH]; cbn in *.
  - destruct y as [|b y]; [done|]. cbn. by rewrite Hy.
  - apply andb_true_iff in Hx as [Hb Hx]. by rewrite Hb, IH.
Qed.

Lemma forallb_reverse {A} (p : A -> bool) l : forallb p (reverse l) = forallb p l.
Proof.
  apply eq_bool_prop_intro. rewrite !Is_true_true, !forallb_forall.
  split; intros Hf x Hx; apply Hf, list_elem_of_In, elem_of_reverse;
    rewrite ?reverse_involutive; by apply list_elem_of_In.
Qed.

Lemma reverse_nil_inv {A} (l : list A) : reverse l = [] -> l = [].
Proof. intros E. by rewrite <- (reverse_involutive l), E. Qed.

#[export] Program Instance Regexes_exec : Regexes := {|
  transport_captures := transport_captures_exec;
  host_port_captures := host_port_captures_exec;
|}.
Next Obligation.
  intros s t a. unfold transport_captures_exec. split.
  - destruct (span is_lower s) as [t' r] eqn:E. apply span_app in E as (-> & Ht & Hr).
    case_bool_decide as Hc; [|done]. intros [= <- <-]. destruct Hc as (? & H3 & ? & ?).
    split_and!; try done. by rewrite <- H3, take_drop.
  - intros (-> & Ht & Hl & Ha & Hn). rewrite span_unique; [|done|by intros ? [= <-]].
    by rewrite bool_decide_eq_true_2.
Qed.
Next Obligation.
  intros s h p. unfold host_port_captures_exec. split.
  - destruct (span is_digit (reverse s)) as [p' [|c h']] eqn:E; [done|].
    apply span_app in E as (Hs & Hp & _). case_bool_decide as Hc; [|done].
    intros [= <- <-]. destruct Hc as (-> & ? & ? & ?).
    split_and!.
    + by rewrite <- (reverse_involutive s), Hs, reverse_app, reverse_cons, <- app_assoc.
    + by intros ?%reverse_nil_inv.
    + by rewrite elem_of_reverse.
    + by intros ?%reverse_nil_inv.
    + by rewrite forallb_reverse.
  - intros (-> & Hh & Hn & Hp & Hd).
    rewrite reverse_app, reverse_cons, <- app_assoc. cbn [app].
    rewrite span_unique; [|by rewrite forallb_reverse|by intros ? [= <-]].
    rewrite bool_decide_eq_true_2, !reverse_involutive; [done|].
    split_and!; [done| | |]; rewrite ?elem_of_reverse; try done;
      by intros ?%reverse_nil_inv.
Qed.

(** ** Properties *)



(** The examples of the repository's own tests (endpoint/mod.rs). *)
Definition endpoint_pairs : list (Endpoint * string) :=
  [ (Ipc (Some (bs "/tmp/asdf")), "ipc:///tmp/asdf");
    (Ipc (Some (bs "my/dir_1/dir-2")), "ipc://my/dir_1/dir-2");
    (Ipc (Some (bs "@abstract/namespace")), "ipc://@abstract/namespace");
    (Tcp (Domain (bs "www.example.com")) 1234, "tcp://www.example.com:1234");
    (Tcp (Ipv4 [127; 0; 0; 1]) 65535, "tcp://127.0.0.1:65535");
    (Tcp (Ipv6 [0; 0; 0; 0; 0; 0; 0; 1]) 0, "tcp://[::1]:0") ]%string.

Example endpoint_pairs_ok :
  forallb (fun '(e, s) =>
    bool_decide (endpoint_from_str (bs s) = Ok e) && bool_decide (display_endpoint e = bs s))
    endpoint_pairs = true.
Proof. by vm_compute. Qed.
