(* ===== verification/Errors.v ===== *)
(** The error types: [CodecError] (codec/error.rs), [ZmqError] (error.rs) and
    [TaskError] (task_handle.rs), with their conversions. *)

From S2P Require Import Prelude Message Endpoint.

(** [std::io::ErrorKind]: the kinds the source tells apart. *)
Inductive ErrorKind : Type :=
  | ConnectionRefused
  | NotFound
  | BrokenPipe
  | UnexpectedEof
  | WouldBlock
  | OtherKind (code : nat).

#[export] Instance ErrorKind_eq_dec : EqDecision ErrorKind.
Proof. solve_decision. Defined.

(** [std::io::Error], by its kind. *)
Record io_error : Type := IoError { kind : ErrorKind }.

#[export] Instance io_error_eq_dec : EqDecision io_error.
Proof. solve_decision. Defined.

(** [CodecError]. *)
Inductive CodecError : Type :=
  | CommandErr (msg : string)
  | GreetingErr (msg : string)
  | MechanismErr (msg : string)
  | Decode (msg : string)
  | Io (e : io_error)
  | OtherCodec (msg : string).

#[export] Instance CodecError_eq_dec : EqDecision CodecError.
Proof. solve_decision. Defined.

(** [ZmtpVersion], a major and a minor [u8]. *)
Abbreviation ZmtpVersion := (byte * byte)%type.

(** [Duration], in nanoseconds. *)
Abbreviation Duration := Z (only parsing).

(** [ZmqError], and [TaskError], which boxes one. *)
Inductive ZmqError : Type :=
  | EndpointErr (e : EndpointError)
  | Network (e : io_error)
  | NoSuchBind (e : Endpoint)
  | Codec (e : CodecError)
  | SocketErr (msg : string)
  | BufferFull (msg : string)
  | ReturnToSender (reason : string) (message : ZmqMessage.t)
  | ReturnToSenderMultipart (reason : string) (messages : list ZmqMessage.t)
  | Task (e : TaskError)
  | Other (msg : string)
  | NoMessage
  | PeerIdentityErr
  | UnsupportedVersion (v : ZmtpVersion)
  | ConnectTimeout (d : Duration)
with TaskError : Type :=
  | Internal (e : ZmqError)
  | Panic
  | Cancelled.

(** [mpsc::SendError] and [mpsc::TrySendError] carry why the send failed. *)
Inductive SendError : Type := SendFull | SendDisconnected.

#[export] Instance SendError_eq_dec : EqDecision SendError.
Proof. solve_decision. Defined.

(** [From<mpsc::SendError> for ZmqError], [From<mpsc::TrySendError<Message>>]. *)
Definition from_send_error (_ : SendError) : ZmqError :=
  BufferFull "Failed to send message. Send queue full/broken".

Definition from_try_send_error (_ : SendError) : ZmqError :=
  BufferFull "Failed to send message. Send queue full/broken".

(** [JoinError] (async_rt/task/mod.rs): a panic's payload is not modelled. *)
Inductive JoinError : Type := JoinCancelled | JoinPanic.

Definition is_cancelled (e : JoinError) : bool :=
  match e with JoinCancelled => true | JoinPanic => false end.

Definition is_panic (e : JoinError) : bool := negb (is_cancelled e).

(** [From<JoinError> for TaskError]. *)
Definition from_join_error (e : JoinError) : TaskError :=
  if is_panic e then Panic else Cancelled.

(** [From<tokio::task::JoinError> for JoinError] and [JoinHandle::poll] (async_rt/task/): the
    outcome of a task of the tokio runtime, which says of its errors whether the task was
    cancelled; otherwise it panicked. *)
Definition join_error_from {E} (tokio_is_cancelled : E -> bool) (err : E) : JoinError :=
  if tokio_is_cancelled err then JoinCancelled else JoinPanic.

Definition join_handle_poll {T E} (tokio_is_cancelled : E -> bool) (result : poll (result T E)) :
    poll (Prelude.result T JoinError) :=
  match result with
  | Ready r => Ready (result_map_err (join_error_from tokio_is_cancelled) r)
  | Pending => Pending
  end.
