(* ===== verification/SocketTypes.v ===== *)
(** Socket types, their compatibility matrix, and the socket options
    (src/src/lib.rs). *)

From S2P Require Import Prelude Message Endpoint Errors.

Local Open Scope Z_scope.

(** A peer identity is its bytes (src/src/util.rs). *)
Abbreviation PeerIdentity := (list Byte.byte) (only parsing).

Inductive SocketType : Type :=
  | PAIR | PUB | SUB | REQ | REP | DEALER | ROUTER | PULL | PUSH | XPUB | XSUB | STREAM.

#[export] Instance SocketType_eq_dec : EqDecision SocketType.
Proof. solve_decision. Defined.

Definition all_socket_types : list SocketType :=
  [PAIR; PUB; SUB; REQ; REP; DEALER; ROUTER; PULL; PUSH; XPUB; XSUB; STREAM].

#[export] Program Instance SocketType_finite : finite.Finite SocketType :=
  {| finite.enum := all_socket_types |}.
Next Obligation. by apply (bool_decide_unpack _). Qed.
Next Obligation. intros []; by apply (bool_decide_unpack _). Qed.

(** [self as usize] *)
Definition discriminant (s : SocketType) : nat :=
  match s with
  | PAIR => 0 | PUB => 1 | SUB => 2 | REQ => 3 | REP => 4 | DEALER => 5
  | ROUTER => 6 | PULL => 7 | PUSH => 8 | XPUB => 9 | XSUB => 10 | STREAM => 11
  end.

Definition COMPATIBILITY_MATRIX : list Z :=
  (* PAIR, PUB, SUB, REQ, REP, DEALER, ROUTER, PULL, PUSH, XPUB, XSUB *)
  [ 1; 0; 0; 0; 0; 0; 0; 0; 0; 0; 0; (* PAIR *)
    0; 0; 1; 0; 0; 0; 0; 0; 0; 0; 1; (* PUB *)
    0; 1; 0; 0; 0; 0; 0; 0; 0; 1; 0; (* SUB *)
    0; 0; 0; 0; 1; 0; 1; 0; 0; 0; 0; (* REQ *)
    0; 0; 0; 1; 0; 1; 0; 0; 0; 0; 0; (* REP *)
    0; 0; 0; 0; 1; 1; 1; 0; 0; 0; 0; (* DEALER *)
    0; 0; 0; 1; 0; 1; 1; 0; 0; 0; 0; (* ROUTER *)
    0; 0; 0; 0; 0; 0; 0; 0; 1; 0; 0; (* PULL *)
    0; 0; 0; 0; 0; 0; 0; 1; 0; 0; 0; (* PUSH *)
    0; 0; 1; 0; 0; 0; 0; 0; 0; 0; 1; (* XPUB *)
    0; 1; 0; 0; 0; 0; 0; 0; 0; 1; 0  (* XSUB *) ].

(** [None] is the panic of an index past the end of the array. *)
Definition compatible (self other : SocketType) : option bool :=
  let row_index := discriminant self in
  let col_index := discriminant other in
  (fun z => bool_decide (z <> 0)) <$> COMPATIBILITY_MATRIX !! (row_index * 11 + col_index)%nat.

Definition as_str (s : SocketType) : bytes :=
  match s with
  | PAIR => bs "PAIR" | PUB => bs "PUB" | SUB => bs "SUB" | REQ => bs "REQ"
  | REP => bs "REP" | DEALER => bs "DEALER" | ROUTER => bs "ROUTER" | PULL => bs "PULL"
  | PUSH => bs "PUSH" | XPUB => bs "XPUB" | XSUB => bs "XSUB" | STREAM => bs "STREAM"
  end.

(** [TryFrom<&[u8]> for SocketType]: the arms of its [match], in order. *)
Definition socket_type_try_from (s : bytes) : result SocketType ZmqError :=
  if decide (s = bs "PAIR") then Ok PAIR
  else if decide (s = bs "PUB") then Ok PUB
  else if decide (s = bs "SUB") then Ok SUB
  else if decide (s = bs "REQ") then Ok REQ
  else if decide (s = bs "REP") then Ok REP
  else if decide (s = bs "DEALER") then Ok DEALER
  else if decide (s = bs "ROUTER") then Ok ROUTER
  else if decide (s = bs "PULL") then Ok PULL
  else if decide (s = bs "PUSH") then Ok PUSH
  else if decide (s = bs "XPUB") then Ok XPUB
  else if decide (s = bs "XSUB") then Ok XSUB
  else if decide (s = bs "STREAM") then Ok STREAM
  else Err (Other "Unknown socket type").

(** [FromStr for SocketType]. *)
Definition socket_type_from_str (s : bytes) : result SocketType ZmqError := socket_type_try_from s.

(** [SocketEvent]. *)
Inductive SocketEvent : Type :=
  | Connected (e : Endpoint) (p : PeerIdentity)
  | ConnectDelayed
  | ConnectRetried
  | Listening (e : Endpoint)
  | Accepted (e : Endpoint) (p : PeerIdentity)
  | AcceptFailed (e : ZmqError)
  | Closed
  | CloseFailed
  | Disconnected (p : PeerIdentity).

(** ** Options *)

Definition DEFAULT_CONNECT_TIMEOUT : Duration := 30 * 10 ^ 9.

Record SocketOptions : Type := {
  peer_id : option PeerIdentity;
  connect_timeout : option Duration;
  read_buffer_initial_size : Z;
  read_buffer_max_size : Z;
  read_buffer_short_reads : Z;
}.

Definition default_options : SocketOptions := {|
  peer_id := None;
  connect_timeout := Some DEFAULT_CONNECT_TIMEOUT;
  read_buffer_initial_size := 128;
  read_buffer_max_size := 64 * 1024;
  read_buffer_short_reads := 2;
|}.

(** [SocketOptions::read_buffer]; [None] is the panic of an [assert!]. *)
Definition read_buffer (self : SocketOptions) (initial_size max_size short_reads : Z) :
    option SocketOptions :=
  if negb (0 <? initial_size) then None
  else if negb (initial_size <=? max_size) then None
  else if negb (max_size <=? isize_max / 2) then None
  else if negb (0 <? short_reads) then None
  else Some {|
    peer_id := peer_id self;
    connect_timeout := connect_timeout self;
    read_buffer_initial_size := initial_size;
    read_buffer_max_size := max_size;
    read_buffer_short_reads := short_reads;
  |}.

Definition peer_identity (self : SocketOptions) (id : PeerIdentity) : SocketOptions := {|
  peer_id := Some id;
  connect_timeout := connect_timeout self;
  read_buffer_initial_size := read_buffer_initial_size self;
  read_buffer_max_size := read_buffer_max_size self;
  read_buffer_short_reads := read_buffer_short_reads self;
|}.

Definition set_connect_timeout (self : SocketOptions) (timeout : option Duration) : SocketOptions := {|
  peer_id := peer_id self;
  connect_timeout := timeout;
  read_buffer_initial_size := read_buffer_initial_size self;
  read_buffer_max_size := read_buffer_max_size self;
  read_buffer_short_reads := read_buffer_short_reads self;
|}.

(** [SocketOptions::connect_timeout] and [SocketOptions::no_connect_timeout]. *)
Definition with_connect_timeout (self : SocketOptions) (timeout : Duration) : SocketOptions :=
  set_connect_timeout self (Some timeout).
Definition no_connect_timeout (self : SocketOptions) : SocketOptions :=
  set_connect_timeout self None.

(** ** What the options guarantee the receive path *)

Definition options_wf (o : SocketOptions) : Prop :=
  0 < read_buffer_initial_size o <= read_buffer_max_size o
  /\ read_buffer_max_size o <= isize_max / 2
  /\ 0 < read_buffer_short_reads o.

(** The options the public interface can build. *)
Inductive built_options : SocketOptions -> Prop :=
  | built_default : built_options default_options
  | built_read_buffer o i m s o' :
      built_options o -> read_buffer o i m s = Some o' -> built_options o'
  | built_peer_identity o id : built_options o -> built_options (peer_identity o id)
  | built_connect_timeout o t : built_options o -> built_options (with_connect_timeout o t)
  | built_no_connect_timeout o : built_options o -> built_options (no_connect_timeout o).

Lemma read_buffer_wf o i m s o' : read_buffer o i m s = Some o' -> options_wf o'.
Proof.
  unfold read_buffer. intros Hr. repeat case_match; simplify_eq.
  unfold options_wf; simpl. rewrite !negb_false_iff in *. lia.
Qed.

(** Every [SocketOptions] that the public builder methods produce satisfies the
    read-buffer bounds that the receive path relies on. *)
Theorem built_options_wf (o : SocketOptions) : built_options o -> options_wf o.
Proof.
  induction 1; [|by eapply read_buffer_wf|done..].
  unfold options_wf. split_and!; by vm_compute.
Qed.

Lemma built_options_wf_witness :
  read_buffer default_options 256 32768 3 <> None
  /\ forall o, read_buffer default_options 256 32768 3 = Some o -> options_wf o.
Proof.
  split; [done|]. intros o Ho. apply (built_options_wf o).
  exact (built_read_buffer _ _ _ _ _ built_default Ho).
Defined.

(** ** Compatibility *)

(** The pairings of the ZMTP socket types, as the matrix's header states them. *)
Definition compatible_spec (a b : SocketType) : bool :=
  match a, b with
  | PAIR, PAIR => true
  | (PUB | XPUB), (SUB | XSUB) | (SUB | XSUB), (PUB | XPUB) => true
  | REQ, (REP | ROUTER) | (REP | ROUTER), REQ => true
  | REP, DEALER | DEALER, REP => true
  | DEALER, (DEALER | ROUTER) | ROUTER, (DEALER | ROUTER) => true
  | PUSH, PULL | PULL, PUSH => true
  | _, _ => false
  end.

(** On the eleven socket types the matrix covers, [compatible] does not panic,
    is the pairing of the protocol, and is symmetric. *)
Theorem compatible_correct (a b : SocketType) :
  a <> STREAM -> b <> STREAM ->
  compatible a b = Some (compatible_spec a b) /\ compatible a b = compatible b a.
Proof. intros Ha Hb. destruct a, b; try done. Qed.

Lemma compatible_correct_witness :
  compatible DEALER ROUTER = Some true.
Proof. apply (compatible_correct DEALER ROUTER); done. Defined.

(** [STREAM] has a discriminant but no row and no column: as the other type it
    reads the first entry of the next row, so every type but [XSUB] refuses it, and
    an [XSUB] socket, whose row is the last, panics on an out-of-range index. *)
Theorem compatible_stream (a : SocketType) :
  a <> STREAM ->
  compatible a STREAM = if decide (a = XSUB) then None else Some false.
Proof. by destruct a. Qed.

Lemma compatible_stream_witness : compatible XSUB STREAM = None.
Proof. apply (compatible_stream XSUB). done. Defined.

(** The name of a socket type parses back to it, and nothing else parses to it. *)
Theorem socket_type_roundtrip (s : bytes) (t : SocketType) :
  socket_type_try_from s = Ok t <-> s = as_str t.
Proof.
  split; [|intros ->; by destruct t].
  unfold socket_type_try_from. intros Hs. repeat (case_decide; [by simplify_eq|]). done.
Qed.
