(* ===== verification/Greeting.v ===== *)
(** The ZMTP greeting and its security mechanism (src/src/codec/greeting.rs,
    src/src/codec/mechanism.rs). *)

From S2P Require Import Prelude Message Endpoint Errors.

Local Open Scope Z_scope.

Inductive ZmqMechanism : Type := NULL | PLAIN | CURVE.

#[export] Instance ZmqMechanism_eq_dec : EqDecision ZmqMechanism.
Proof. solve_decision. Defined.

Definition default_mechanism : ZmqMechanism := NULL.

Definition mechanism_as_str (m : ZmqMechanism) : bytes :=
  match m with NULL => bs "NULL" | PLAIN => bs "PLAIN" | CURVE => bs "CURVE" end.

(** [value.split(|x| *x == 0x0).next()]: the bytes before the first zero. *)
Fixpoint before_zero (l : bytes) : bytes :=
  match l with
  | [] => []
  | b :: l => if decide (b = Byte.x00) then [] else b :: before_zero l
  end.

(** [TryFrom<&[u8]> for ZmqMechanism]. *)
Definition mechanism_try_from (value : bytes) : result ZmqMechanism CodecError :=
  let mech := before_zero value in
  if decide (mech = bs "NULL") then Ok NULL
  else if decide (mech = bs "PLAIN") then Ok PLAIN
  else if decide (mech = bs "CURVE") then Ok CURVE
  else Err (MechanismErr "Failed to parse ZmqMechanism").

Record ZmqGreeting : Type := mkGreeting {
  version : ZmtpVersion;
  mechanism : ZmqMechanism;
  as_server : bool;
}.

#[export] Instance ZmqGreeting_eq_dec : EqDecision ZmqGreeting.
Proof. solve_decision. Defined.

Definition default_greeting : ZmqGreeting :=
  mkGreeting (Byte.x03, Byte.x00) default_mechanism false.

(** [value[i]], in range wherever it is used: the length has been tested. *)
Definition byte_at (l : bytes) (i : nat) : byte := default Byte.x00 (l !! i).

(** [TryFrom<Bytes> for ZmqGreeting]. *)
Definition greeting_try_from (value : bytes) : result ZmqGreeting CodecError :=
  if bool_decide (len value <> 64)
     || negb (bool_decide (byte_at value 0 = Byte.xff) && bool_decide (byte_at value 9 = Byte.x7f))
  then Err (GreetingErr "Failed to parse greeting")
  else
    let? mech := mechanism_try_from (take 20 (drop 12 value)) in
    Ok (mkGreeting (byte_at value 10, byte_at value 11) mech
          (bool_decide (byte_at value 32 = Byte.x01))).

(** [data[at..at + src.len()].copy_from_slice(src)]. *)
Definition copy_at (at_ : nat) (src data : bytes) : bytes := list_inserts at_ src data.

(** [From<ZmqGreeting> for BytesMut]. *)
Definition greeting_to_bytes (greet : ZmqGreeting) : bytes :=
  let data := repeat Byte.x00 64 in
  let data := <[0%nat := Byte.xff]> data in
  let data := <[9%nat := Byte.x7f]> data in
  let data := <[10%nat := fst (version greet)]> data in
  let data := <[11%nat := snd (version greet)]> data in
  let data := copy_at 12 (mechanism_as_str (mechanism greet)) data in
  <[32%nat := if as_server greet then Byte.x01 else Byte.x00]> data.

Lemma greeting_to_bytes_length g : length (greeting_to_bytes g) = 64%nat.
Proof. destruct g as [[] [] []]; done. Qed.

Lemma greeting_to_bytes_head g : byte_at (greeting_to_bytes g) 0 = Byte.xff.
Proof. by destruct g as [[] [] []]. Qed.

(** Every greeting, whatever its version, mechanism and role, parses back from its
    64 bytes. *)
Lemma greeting_try_from_to_bytes (g : ZmqGreeting) : greeting_try_from (greeting_to_bytes g) = Ok g.
Proof. destruct g as [[maj min] [] []]; vm_compute; done. Qed.

(** What the parser accepts: 64 bytes with the two signature bytes and a
    mechanism it knows, zero-padded or not; and every field is read at its offset. *)
Theorem greeting_try_from_ok (v : bytes) (g : ZmqGreeting) :
  greeting_try_from v = Ok g <->
  length v = 64%nat /\ v !! 0%nat = Some Byte.xff /\ v !! 9%nat = Some Byte.x7f
  /\ v !! 10%nat = Some (fst (version g)) /\ v !! 11%nat = Some (snd (version g))
  /\ before_zero (take 20 (drop 12 v)) = mechanism_as_str (mechanism g)
  /\ (v !! 32%nat = Some Byte.x01 <-> as_server g = true).
Proof.
  assert (Hat : forall i b, length v = 64%nat -> (i < 64)%nat ->
    byte_at v i = b <-> v !! i = Some b).
  { intros i b Hl Hi. unfold byte_at.
    destruct (lookup_lt_is_Some_2 v i ltac:(lia)) as [c ->]. cbn. split; congruence. }
  assert (Hm : forall x m, mechanism_try_from x = Ok m <-> before_zero x = mechanism_as_str m).
  { intros x m. unfold mechanism_try_from. split.
    - intros E. repeat (case_decide; [by simplify_eq|]). done.
    - intros ->. by destruct m. }
  unfold greeting_try_from. case_bool_decide as Hlen; cbn [orb].
  { split; [done|]. intros [Hl _]. unfold len in Hlen. lia. }
  assert (length v = 64%nat) as Hl by (unfold len in Hlen; lia).
  rewrite <- !Hat by lia. rewrite <- Hm.
  case_bool_decide; cbn [andb negb]; [|split; intros; by destruct_and?].
  case_bool_decide; cbn [andb negb]; [|split; intros; by destruct_and?].
  destruct (mechanism_try_from _) as [m|e]; [|split; intros; by destruct_and?].
  destruct g as [[maj min] m' s]; cbn. split.
  - intros [= <- <- <- <-]. by rewrite bool_decide_eq_true.
  - intros (_ & _ & _ & <- & <- & [= <-] & Hs). do 2 f_equal.
    apply eq_bool_prop_intro. rewrite bool_decide_spec, Hs. by rewrite Is_true_true.
Qed.
