(* ===== verification/Command.v ===== *)
(** ZMTP commands (src/src/codec/command.rs): the [READY] command and its
    property list, parsed from and printed to a frame body.

    A property map is a [gmap] from the bytes of the name; the order in which
    [HashMap::iter] visits it is unspecified, so the encoder is a function of that
    order. *)

From S2P Require Import Prelude Utf8 Message Endpoint Errors SocketTypes.

Local Open Scope Z_scope.

Inductive ZmqCommandName : Type := READY.

#[export] Instance ZmqCommandName_eq_dec : EqDecision ZmqCommandName.
Proof. solve_decision. Defined.

Definition command_name_as_str (n : ZmqCommandName) : bytes := match n with READY => bs "READY" end.

Abbreviation PropMap := (gmap (list Byte.byte) (list Byte.byte)).

Record ZmqCommand : Type := mkCommand {
  name : ZmqCommandName;
  properties : PropMap;
}.

#[export] Instance ZmqCommand_eq_dec : EqDecision ZmqCommand.
Proof. solve_decision. Defined.

(** The iteration order of a [HashMap]: some permutation of its entries, the same
    each time the same unmodified map is visited. *)
Class HashOrder : Type := {
  hash_iter : PropMap -> list (bytes * bytes);
  hash_iter_perm m : hash_iter m ≡ₚ map_to_list m;
}.

#[export] Instance HashOrder_list : HashOrder := {|
  hash_iter := map_to_list;
  hash_iter_perm m := reflexivity (map_to_list m);
|}.

(** [ZmqCommand::ready], [add_prop], [add_properties]. *)
Definition ready (socket : SocketType) : ZmqCommand :=
  mkCommand READY {[ bs "Socket-Type" := as_str socket ]}.

Definition add_prop (self : ZmqCommand) (prop value : bytes) : ZmqCommand :=
  mkCommand (name self) (<[prop := value]> (properties self)).

Definition add_properties (self : ZmqCommand) (map : PropMap) : ZmqCommand :=
  mkCommand (name self) (map ∪ properties self).

(** ** Parsing *)

(** One round of the [while !buf.is_empty()] loop: the property and what is left. *)
Definition parse_prop (buf : bytes) : result (bytes * bytes * bytes) CodecError :=
  match buf with
  | [] => Err (Decode "unreachable: the loop ends on an empty buffer")
  | b :: buf =>
      let prop_len := u8_val b in
      if len buf <? prop_len then Err (Decode "Property name exceeds frame length")
      else
        let property := ztake prop_len buf in
        let buf := zdrop prop_len buf in
        match from_utf8 property with
        | None => Err (Decode "Invalid property identifier")
        | Some property =>
            if len buf <? 4 then Err (Decode "Missing property value length")
            else
              let prop_val_len := be_val (ztake 4 buf) in
              let buf := zdrop 4 buf in
              if len buf <? prop_val_len then Err (Decode "Property value exceeds frame length")
              else Ok (property, ztake prop_val_len buf, zdrop prop_val_len buf)
        end
  end.

(** The loop; every round consumes at least one byte, so the length bounds it. *)
Fixpoint parse_props (fuel : nat) (buf : bytes) (properties : PropMap) :
    result PropMap CodecError :=
  match buf, fuel with
  | [], _ => Ok properties
  | _, O => Err (Decode "unreachable: out of fuel")
  | _, S fuel =>
      let? (property, prop_value, buf) := parse_prop buf in
      parse_props fuel buf (<[property := prop_value]> properties)
  end.

(** [TryFrom<Bytes> for ZmqCommand]. *)
Definition command_try_from (buf : bytes) : result ZmqCommand CodecError :=
  match buf with
  | [] => Err (Decode "Missing command length")
  | b :: buf =>
      let command_len := u8_val b in
      if len buf <? command_len then Err (Decode "Command name exceeds frame length")
      else if decide (ztake command_len buf = bs "READY") then
        let buf := zdrop command_len buf in
        let? properties := parse_props (length buf) buf ∅ in
        Ok (mkCommand READY properties)
      else Err (CommandErr "Unknown command received")
  end.

(** ** Printing *)

Definition encode_prop (p : bytes * bytes) : bytes :=
  let '(prop, val) := p in
  u8_of (len prop) :: prop ++ be_bytes 4 (len val) ++ val.

Section Printing.
Context `{HashOrder}.

Definition command_message_len (c : ZmqCommand) : Z :=
  fold_left (fun acc '(prop, val) => acc + (len prop + 1) + (len val + 4))
    (hash_iter (properties c)) (len (command_name_as_str (name c)) + 1).

(** The body the encoder writes after the frame header. *)
Definition command_body (c : ZmqCommand) : bytes :=
  u8_of (len (command_name_as_str (name c))) :: command_name_as_str (name c)
    ++ concat (encode_prop <$> hash_iter (properties c)).

(** [From<ZmqCommand> for BytesMut]: a long frame (0x06) or a short one (0x04). *)
Definition command_to_bytes (c : ZmqCommand) : bytes :=
  let message_len := command_message_len c in
  if 255 <? message_len
  then Byte.x06 :: be_bytes 8 message_len ++ command_body c
  else Byte.x04 :: u8_of message_len :: command_body c.
End Printing.

(** ** Lemmas *)

(** The properties that fit their length fields, with names that are strings. *)
Definition prop_wf (p : bytes * bytes) : Prop :=
  utf8_valid (fst p) = true /\ len (fst p) <= 255 /\ len (snd p) < 2 ^ 32.

Definition command_wf (c : ZmqCommand) : Prop :=
  map_Forall (fun k v => prop_wf (k, v)) (properties c).

Lemma parse_prop_encode k v rest :
  prop_wf (k, v) -> parse_prop (encode_prop (k, v) ++ rest) = Ok (k, v, rest).
Proof.
  intros (Hu & Hk & Hv). cbn [fst snd] in *. unfold parse_prop, encode_prop.
  rewrite <- app_comm_cons, <- app_assoc, <- app_assoc.
  pose proof (len_nonneg k). pose proof (len_nonneg v). pose proof (len_nonneg rest).
  rewrite u8_val_of_small by lia.
  rewrite ztake_app, zdrop_app by done.
  unfold from_utf8. rewrite Hu.
  rewrite ztake_app, zdrop_app by done.
  rewrite be_val_be_bytes_small by (change (256 ^ Z.of_nat 4) with (2 ^ 32); lia).
  rewrite ztake_app, zdrop_app by done.
  autorewrite with zlen.
  repeat match goal with |- context [?a <? ?b] => destruct (Z.ltb_spec a b); [lia|] end.
  done.
Qed.

Lemma parse_props_encode l fuel acc :
  Forall prop_wf l -> (length (concat (encode_prop <$> l)) <= fuel)%nat ->
  parse_props fuel (concat (encode_prop <$> l)) acc
  = Ok (fold_left (fun m p => <[fst p := snd p]> m) l acc).
Proof.
  revert l acc. induction fuel as [|fuel IH]; intros [|[k v] l] acc Hwf Hf; try done.
  { exfalso. cbn in Hf. lia. }
  apply Forall_cons in Hwf as [Hp Hwf].
  rewrite fmap_cons in *. cbn [concat] in *.
  rewrite length_app in Hf.
  destruct (encode_prop (k, v) ++ concat (encode_prop <$> l)) as [|b r] eqn:E.
  { by apply app_nil in E as [? _]. }
  cbn [parse_props]. rewrite <- E, parse_prop_encode by done.
  rewrite IH; [done..|]. cbn in Hf. lia.
Qed.

Lemma fold_insert_list_to_map (l : list (bytes * bytes)) (acc : PropMap) :
  fold_left (fun m p => <[fst p := snd p]> m) l acc = list_to_map (reverse l) ∪ acc.
Proof.
  revert acc. induction l as [|[k v] l IH]; intros acc; cbn [fold_left].
  - by rewrite reverse_nil, list_to_map_nil, (left_id_L ∅ (∪)).
  - rewrite IH, reverse_cons, list_to_map_app, list_to_map_cons, list_to_map_nil.
    rewrite <- (assoc_L (∪)), insert_empty. cbn. by rewrite insert_union_singleton_l.
Qed.

Section PrintingLemmas.
Context `{HashOrder}.

Lemma hash_iter_NoDup m : NoDup (hash_iter m).*1.
Proof. rewrite hash_iter_perm. apply NoDup_fst_map_to_list. Qed.

Lemma list_to_map_hash_iter m : list_to_map (reverse (hash_iter m)) = m.
Proof.
  symmetry. apply list_to_map_flip. by rewrite reverse_Permutation, hash_iter_perm.
Qed.

Lemma hash_iter_Forall (P : bytes * bytes -> Prop) m :
  Forall P (hash_iter m) <-> map_Forall (fun k v => P (k, v)) m.
Proof.
  rewrite hash_iter_perm, Forall_forall. unfold map_Forall. split.
  - intros Hf k v Hkv. by apply Hf, elem_of_map_to_list.
  - intros Hf [k v] Hkv. by apply Hf, elem_of_map_to_list.
Qed.

Lemma command_message_len_body c : command_message_len c = len (command_body c).
Proof.
  unfold command_message_len, command_body.
  rewrite len_cons, len_app.
  enough (Hg : forall l z, fold_left (fun acc '(prop, val) => acc + (len prop + 1) + (len val + 4))
    l z = z + len (concat (encode_prop <$> l))) by (rewrite Hg; lia).
  intros l. induction l as [|[k v] l IH]; intros z; cbn [fold_left].
  - rewrite fmap_nil. cbn [concat]. rewrite len_nil. lia.
  - rewrite IH, fmap_cons. cbn [concat]. unfold encode_prop. autorewrite with zlen. lia.
Qed.

(** The body of an encoded command parses back to the command. *)
Lemma command_try_from_body c : command_wf c -> command_try_from (command_body c) = Ok c.
Proof.
  intros Hwf. destruct c as [[] m]. unfold command_try_from, command_body. cbn [name properties].
  change (command_name_as_str READY) with (bs "READY").
  change (u8_val (u8_of (len (bs "READY")))) with 5.
  pose proof (len_nonneg (concat (encode_prop <$> hash_iter m))).
  rewrite len_app. change (len (bs "READY")) with 5.
  destruct (Z.ltb_spec (5 + len (concat (encode_prop <$> hash_iter m))) 5); [lia|].
  rewrite ztake_app, zdrop_app, decide_True by done.
  rewrite parse_props_encode; [|by apply hash_iter_Forall|done].
  by rewrite fold_insert_list_to_map, list_to_map_hash_iter, (right_id_L ∅ (∪)).
Qed.
End PrintingLemmas.

Lemma parse_prop_Ok buf k v rest :
  parse_prop buf = Ok (k, v, rest) -> prop_wf (k, v) /\ buf = encode_prop (k, v) ++ rest.
Proof.
  unfold parse_prop. destruct buf as [|b buf]; [done|].
  destruct (Z.ltb_spec (len buf) (u8_val b)) as [|H1]; [done|].
  pose proof (u8_val_range b) as Hb.
  unfold from_utf8. destruct (utf8_valid _) eqn:Hu; [|done].
  destruct (Z.ltb_spec (len (zdrop (u8_val b) buf)) 4) as [|H2]; [done|].
  set (buf1 := zdrop (u8_val b) buf) in *.
  destruct (Z.ltb_spec (len (zdrop 4 buf1)) (be_val (ztake 4 buf1))) as [|H3]; [done|].
  intros [= <- <- <-].
  pose proof (len_ztake 4 buf1 ltac:(lia)) as H4.
  assert (length (ztake 4 buf1) = 4%nat) as H4' by (unfold len in H4; lia).
  pose proof (be_val_range (ztake 4 buf1)) as Hr. rewrite H4 in Hr.
  change (256 ^ 4) with (2 ^ 32) in Hr. unfold prop_wf, encode_prop. cbn [fst snd].
  rewrite !len_ztake by lia. split; [split_and!; [done|lia|lia]|].
  rewrite u8_of_val. rewrite <- H4' at 1. rewrite be_bytes_be_val.
  cbn [app]. f_equal. rewrite <- !app_assoc, !ztake_zdrop.
  unfold buf1. by rewrite ztake_zdrop.
Qed.

Lemma parse_prop_shrinks buf p rest :
  parse_prop buf = Ok (p, rest) -> (length rest < length buf)%nat.
Proof.
  destruct p as [k v]. intros [_ ->]%parse_prop_Ok. unfold encode_prop.
  rewrite length_app. cbn. lia.
Qed.

(** The fuel of the property loop never runs out, so its result is that of the loop. *)
Lemma parse_props_fuel f1 f2 buf acc :
  (length buf <= f1)%nat -> (length buf <= f2)%nat ->
  parse_props f1 buf acc = parse_props f2 buf acc.
Proof.
  revert f2 buf acc. induction f1 as [|f1 IH]; intros f2 buf acc H1 H2.
  - destruct buf; [by destruct f2|cbn in H1; lia].
  - destruct buf as [|b buf]; [by destruct f2|]. destruct f2 as [|f2]; [cbn in H2; lia|].
    cbn [parse_props]. destruct (parse_prop (b :: buf)) as [[[k v] rest]|] eqn:E; [|done].
    apply parse_prop_shrinks in E. cbn in *. apply IH; lia.
Qed.

Lemma parse_props_Ok fuel buf acc m :
  parse_props fuel buf acc = Ok m ->
  exists l, Forall prop_wf l /\ buf = concat (encode_prop <$> l)
    /\ m = fold_left (fun m p => <[fst p := snd p]> m) l acc.
Proof.
  revert buf acc. induction fuel as [|fuel IH]; intros [|b buf] acc; cbn [parse_props]; try done.
  - intros [= <-]. by exists [].
  - intros [= <-]. by exists [].
  - destruct (parse_prop (b :: buf)) as [[[k v] rest]|] eqn:E; [|done].
    apply parse_prop_Ok in E as [Hp ->]. intros (l & Hl & -> & ->)%IH.
    exists ((k, v) :: l). split_and!; [by constructor|by rewrite fmap_cons|done].
Qed.

(** ** Properties *)

(** The command parser accepts exactly the frame bodies of the [READY] grammar:
    the name and a list of properties, each with a UTF-8 name and both length fields
    exact; the map keeps the last value of a repeated name. *)
Theorem command_try_from_iff (buf : bytes) (c : ZmqCommand) :
  command_try_from buf = Ok c <->
  exists l, Forall prop_wf l
    /\ buf = Byte.x05 :: bs "READY" ++ concat (encode_prop <$> l)
    /\ c = mkCommand READY (list_to_map (reverse l)).
Proof.
  split.
  - unfold command_try_from. destruct buf as [|b buf]; [done|].
    destruct (Z.ltb_spec (len buf) (u8_val b)) as [|Hl]; [done|].
    case_decide as Hn; [|done].
    destruct (parse_props _ _ _) as [m|] eqn:E; [|done]. intros [= <-].
    apply parse_props_Ok in E as (l & Hwf & Hbuf & ->). exists l.
    rewrite fold_insert_list_to_map, (right_id_L ∅ (∪)). split_and!; [done| |done].
    pose proof (u8_val_range b).
    assert (u8_val b = 5) as Hb.
    { rewrite <- (len_ztake (u8_val b) buf) by lia. by rewrite Hn. }
    rewrite <- Hbuf, <- Hn, ztake_zdrop. f_equal. by apply u8_val_inj.
  - intros (l & Hwf & -> & ->). unfold command_try_from.
    change (u8_val Byte.x05) with 5.
    pose proof (len_nonneg (concat (encode_prop <$> l))).
    rewrite len_app. change (len (bs "READY")) with 5.
    destruct (Z.ltb_spec (5 + len (concat (encode_prop <$> l))) 5); [lia|].
    rewrite ztake_app, zdrop_app, decide_True by done.
    rewrite parse_props_encode by done.
    by rewrite fold_insert_list_to_map, (right_id_L ∅ (∪)).
Qed.
