(* ===== verification/Codec.v ===== *)
(** The ZMTP codec (src/src/codec/zmq_codec.rs, src/src/codec/mod.rs): the decoder's
    state machine over the receive buffer, and the encoder.

    [decode] is the body of [Decoder::decode]: its [loop] is [decode_loop], one round
    of it [decode_step]. A round either continues with a new decoder state and the
    rest of the buffer, or returns. The [reserve] request made before returning
    [Ok(None)] is part of the outcome; a panic of the source is the outcome [Panics]. *)

From S2P Require Import Prelude Message Endpoint Errors SocketTypes Greeting Command.

Local Open Scope Z_scope.

(** [codec::Message]. *)
Inductive Message : Type :=
  | MGreeting (g : ZmqGreeting)
  | MCommand (c : ZmqCommand)
  | MMessage (m : ZmqMessage.t).

#[export] Instance Message_eq_dec : EqDecision Message.
Proof. solve_decision. Defined.

Record Frame : Type := mkFrame { command : bool; long : bool; more : bool }.

#[export] Instance Frame_eq_dec : EqDecision Frame.
Proof. solve_decision. Defined.

Inductive DecoderState : Type :=
  | SGreeting
  | SFrameHeader
  | SFrameLen (f : Frame)
  | SFrame (f : Frame).

#[export] Instance DecoderState_eq_dec : EqDecision DecoderState.
Proof. solve_decision. Defined.

Record ZmqCodec : Type := mkCodec {
  state : DecoderState;
  waiting_for : Z;
  buffered_message : option ZmqMessage.t;
  max_read_chunk_size : Z;
}.

#[export] Instance ZmqCodec_eq_dec : EqDecision ZmqCodec.
Proof. solve_decision. Defined.

Definition with_options (options : SocketOptions) : ZmqCodec :=
  mkCodec SGreeting 64 None (read_buffer_max_size options).

Definition new_codec : ZmqCodec := with_options default_options.

(** [ZmqCodec::bytes_needed]. *)
Definition bytes_needed (self : ZmqCodec) (buffered_len : Z) : Z :=
  saturating_sub (waiting_for self) buffered_len.

(** How [decode] ends: [Ok(Some(m))], [Ok(None)] after [src.reserve(additional)],
    [Err(e)], or a panic. *)
Inductive outcome : Type :=
  | Item (m : Message)
  | NeedMore (additional : Z)
  | Fail (e : CodecError)
  | Panics.

#[export] Instance outcome_eq_dec : EqDecision outcome.
Proof. solve_decision. Defined.

Inductive step_result : Type :=
  | Continue (c : ZmqCodec) (src : bytes)
  | Return (c : ZmqCodec) (src : bytes) (o : outcome).

Definition set_state (c : ZmqCodec) (s : DecoderState) (w : Z) : ZmqCodec :=
  mkCodec s w (buffered_message c) (max_read_chunk_size c).

Definition set_buffered (c : ZmqCodec) (m : option ZmqMessage.t) : ZmqCodec :=
  mkCodec (state c) (waiting_for c) m (max_read_chunk_size c).

(** The buffer length asked for when the bytes waited for are not there yet. *)
Definition reserve_to (c : ZmqCodec) : Z :=
  if 2 * max_read_chunk_size c <? waiting_for c
  then waiting_for c + max_read_chunk_size c
  else waiting_for c.

Definition bit (flags : byte) (i : Z) : bool := Z.testbit (u8_val flags) i.

Definition frame_of_flags (flags : byte) : Frame :=
  mkFrame (bit flags 2) (bit flags 1) (bit flags 0).

(** The length field of a long frame, with the capacity check of the source:
    [len.checked_add(max)], kept when it fits an [isize]. *)
Definition check_frame_len (c : ZmqCodec) (frame_len : Z) : option Z :=
  match checked_add frame_len (max_read_chunk_size c) with
  | Some capacity => if capacity <=? isize_max then Some frame_len else None
  | None => None
  end.

(** One round of the [loop] in [decode]. *)
Definition decode_step (c : ZmqCodec) (src : bytes) : step_result :=
  if len src <? waiting_for c then Return c src (NeedMore (reserve_to c - len src))
  else
    match state c with
    | SGreeting =>
        match src with
        | [] => Return c src Panics
        | b :: _ =>
            if negb (bool_decide (b = Byte.xff))
            then Return c src (Fail (Decode "Bad first byte of greeting"))
            else if len src <? 64 then Return c src Panics
            else
              let c := set_state c SFrameHeader 1 in
              match greeting_try_from (ztake 64 src) with
              | Ok g => Return c (zdrop 64 src) (Item (MGreeting g))
              | Err e => Return c (zdrop 64 src) (Fail e)
              end
        end
    | SFrameHeader =>
        match src with
        | [] => Return c src Panics
        | flags :: src =>
            let frame := frame_of_flags flags in
            Continue (set_state c (SFrameLen frame) (if long frame then 8 else 1)) src
        end
    | SFrameLen frame =>
        if long frame then
          if len src <? 8 then Return c src Panics
          else
            let frame_len := be_val (ztake 8 src) in
            let src := zdrop 8 src in
            match check_frame_len c frame_len with
            | None => Return c src (Fail (Decode "Frame length exceeds read buffer capacity"))
            | Some frame_len => Continue (set_state c (SFrame frame) frame_len) src
            end
        else
          match src with
          | [] => Return c src Panics
          | b :: src => Continue (set_state c (SFrame frame) (u8_val b)) src
          end
    | SFrame frame =>
        let data := ztake (waiting_for c) src in
        let src := zdrop (waiting_for c) src in
        let c := set_state c SFrameHeader 1 in
        if command frame then
          match command_try_from data with
          | Ok cmd => Return c src (Item (MCommand cmd))
          | Err e => Return c src (Fail e)
          end
        else
          let c := set_buffered c (Some match buffered_message c with
                                        | Some v => ZmqMessage.push_back v data
                                        | None => ZmqMessage.from_bytes data
                                        end) in
          if negb (more frame) then
            match buffered_message c with
            | Some m => Return (set_buffered c None) src (Item (MMessage m))
            | None => Return c src Panics
            end
          else Continue c src
    end.

Fixpoint decode_loop (fuel : nat) (c : ZmqCodec) (src : bytes) :
    option (ZmqCodec * bytes * outcome) :=
  match fuel with
  | O => None
  | S fuel =>
      match decode_step c src with
      | Continue c src => decode_loop fuel c src
      | Return c src o => Some (c, src, o)
      end
  end.

(** A round that continues lowers this: it consumes a byte, or completes a frame. *)
Definition decode_measure (c : ZmqCodec) (src : bytes) : nat :=
  2 * length src + match state c with SFrame _ => 1 | _ => 0 end.

(** [Decoder::decode]. *)
Definition decode (c : ZmqCodec) (src : bytes) : ZmqCodec * bytes * outcome :=
  default (c, src, Panics) (decode_loop (S (decode_measure c src)) c src).

(** ** The encoder *)

(** [encode_frame]. *)
Definition encode_frame (frame : bytes) (more : bool) : bytes :=
  let flags := if more then 1 else 0 in
  let n := len frame in
  if 255 <? n
  then u8_of (Z.lor flags 2) :: be_bytes 8 n ++ frame
  else u8_of flags :: u8_of n :: frame.

(** [for (idx, part) in message.iter().enumerate()] with [more := idx != last_element]. *)
Fixpoint encode_frames (idx last_element : Z) (parts : list bytes) : bytes :=
  match parts with
  | [] => []
  | part :: parts =>
      encode_frame part (negb (idx =? last_element)) ++ encode_frames (idx + 1) last_element parts
  end.

(** [Encoder::encode]: the bytes appended to [dst]. For a message without frames
    [message.len() - 1] underflows, which panics in a checked build: [None]. *)
Definition encode `{HashOrder} (message : Message) : option bytes :=
  match message with
  | MGreeting payload => Some (greeting_to_bytes payload)
  | MCommand c => Some (command_to_bytes c)
  | MMessage m =>
      if ZmqMessage.is_empty m then None
      else Some (encode_frames 0 (ZmqMessage.len m - 1) (ZmqMessage.iter m))
  end.

(** ** The decoder's invariant *)

Definition state_wf (c : ZmqCodec) : Prop :=
  match state c with
  | SGreeting => waiting_for c = 64
  | SFrameHeader => waiting_for c = 1
  | SFrameLen f => waiting_for c = if long f then 8 else 1
  | SFrame f =>
      0 <= waiting_for c
      /\ if long f then waiting_for c + max_read_chunk_size c <= isize_max
         else waiting_for c <= 255
  end.

Definition codec_wf (c : ZmqCodec) : Prop :=
  0 < max_read_chunk_size c <= isize_max / 2 /\ state_wf c.

Lemma with_options_wf o : options_wf o -> codec_wf (with_options o).
Proof. unfold options_wf, codec_wf. cbn. lia. Qed.

Lemma check_frame_len_Some c n m : 0 < max_read_chunk_size c -> 0 <= n ->
  check_frame_len c n = Some m <-> m = n /\ n + max_read_chunk_size c <= isize_max.
Proof.
  unfold check_frame_len, checked_add. intros.
  assert (isize_max <= usize_max) by by vm_compute.
  case_bool_decide; [|split; [done|lia]].
  destruct (Z.leb_spec (n + max_read_chunk_size c) isize_max); split.
  - by intros [= ->].
  - by intros [-> _].
  - done.
  - lia.
Qed.

Lemma check_frame_len_fits c n :
  0 < max_read_chunk_size c -> 0 <= n -> n + max_read_chunk_size c <= isize_max ->
  check_frame_len c n = Some n.
Proof. intros. by apply check_frame_len_Some. Qed.

(** ** Rounds *)

Ltac step_cases :=
  repeat match goal with
  | |- context [if ?a <? ?b then _ else _] => destruct (Z.ltb_spec a b)
  | |- context [if ?b then _ else _] => destruct b eqn:?
  | |- context [match ?x with _ => _ end] => destruct x eqn:?
  | H : context [if ?a <? ?b then _ else _] |- _ => destruct (Z.ltb_spec a b)
  | H : context [if ?b then _ else _] |- _ => destruct b eqn:?
  | H : context [match ?x with _ => _ end] |- _ => destruct x eqn:?
  end.

Lemma decode_step_measure c src c' src' :
  decode_step c src = Continue c' src' -> (decode_measure c' src' < decode_measure c src)%nat.
Proof.
  unfold decode_step, decode_measure. intros Hs.
  destruct (state c) as [| |f|f] eqn:E; step_cases; simplify_eq; cbn;
    unfold zdrop; rewrite ?length_drop; cbn [length]; unfold len in *; lia.
Qed.

Lemma decode_loop_enough fuel1 fuel2 c src :
  (decode_measure c src < fuel1)%nat -> (decode_measure c src < fuel2)%nat ->
  decode_loop fuel1 c src = decode_loop fuel2 c src /\ is_Some (decode_loop fuel1 c src).
Proof.
  revert fuel2 c src. induction fuel1 as [|fuel1 IH]; intros [|fuel2] c src H1 H2; try lia.
  cbn [decode_loop]. destruct (decode_step c src) as [c' src'|c' src' o] eqn:E; [|by eauto].
  apply decode_step_measure in E. apply IH; lia.
Qed.

(** The equation of the loop: a round, then the rest of the loop. *)
Lemma decode_unfold c src :
  decode c src = match decode_step c src with
                 | Continue c' src' => decode c' src'
                 | Return c' src' o => (c', src', o)
                 end.
Proof.
  unfold decode at 1. cbn [decode_loop].
  destruct (decode_step c src) as [c' src'|c' src' o] eqn:E; [|done].
  apply decode_step_measure in E. unfold decode.
  destruct (decode_loop_enough (decode_measure c src) (S (decode_measure c' src')) c' src')
    as [E1 [r E2]]; [lia..|]. by rewrite <- E1, E2.
Qed.

(** Induction over the rounds of one call. *)
Lemma decode_ind (P : ZmqCodec -> bytes -> Prop) :
  (forall c src, (forall c' src', decode_step c src = Continue c' src' -> P c' src') -> P c src) ->
  forall c src, P c src.
Proof.
  intros Hstep c src. remember (decode_measure c src) as n eqn:Hn. revert c src Hn.
  induction n as [n IH] using lt_wf_ind. intros c src ->.
  apply Hstep. intros c' src' E. eapply IH; [|done]. by apply decode_step_measure.
Qed.

Lemma decode_step_suffix c src :
  match decode_step c src with
  | Continue _ src' | Return _ src' _ => exists used, src = used ++ src'
  end.
Proof.
  assert (Hz : forall n (l : bytes), exists used, l = used ++ zdrop n l).
  { intros n l. exists (ztake n l). by rewrite ztake_zdrop. }
  unfold decode_step. step_cases; simplify_eq; try first [by exists [] | by eexists [_] | apply Hz].
Qed.

Lemma decode_step_need_more c src c' src' n :
  decode_step c src = Return c' src' (NeedMore n) ->
  c' = c /\ src' = src /\ n = reserve_to c - len src /\ len src < waiting_for c.
Proof. unfold decode_step. intros. step_cases; by simplify_eq. Qed.

Lemma set_buffered_wf c m : codec_wf c -> codec_wf (set_buffered c m).
Proof. done. Qed.

Lemma set_state_header_wf c : codec_wf c -> codec_wf (set_state c SFrameHeader 1).
Proof. by intros [H _]. Qed.

#[local] Hint Resolve set_buffered_wf set_state_header_wf : core.

Lemma decode_step_wf c src :
  codec_wf c ->
  match decode_step c src with
  | Continue c' _ => codec_wf c'
  | Return c' _ o => codec_wf c' /\ o <> Panics
  end.
Proof.
  intros Hc. pose proof Hc as [Hmax Hwf]. unfold decode_step.
  destruct (Z.ltb_spec (len src) (waiting_for c)) as [Hlt|Hle]; [done|].
  unfold state_wf in Hwf. destruct (state c) as [| |f|f] eqn:E.
  - destruct src as [|b src]; [rewrite len_nil in Hle; lia|].
    destruct (negb _); [done|]. destruct (Z.ltb_spec (len (b :: src)) 64); [lia|].
    destruct (greeting_try_from _); auto.
  - destruct src as [|b src]; [rewrite len_nil in Hle; lia|].
    split; [done|]. unfold state_wf, set_state. by cbn.
  - destruct (long f) eqn:Hf.
    + destruct (Z.ltb_spec (len src) 8); [lia|].
      destruct (check_frame_len _ _) eqn:Hl; [|done].
      apply check_frame_len_Some in Hl as [-> Hl]; [|lia|apply be_val_range].
      pose proof (be_val_range (ztake 8 src)).
      split; [done|]. unfold state_wf, set_state. cbn. rewrite Hf. lia.
    + destruct src as [|b src]; [rewrite len_nil in Hle; lia|].
      pose proof (u8_val_range b). split; [done|].
      unfold state_wf, set_state. cbn. rewrite Hf. lia.
  - destruct (command f).
    + destruct (command_try_from _); auto.
    + cbn. destruct (more f); cbn; auto.
Qed.

(** More input does not change a round that had enough. *)
Lemma decode_step_app c src more :
  codec_wf c ->
  match decode_step c src with
  | Continue c' src' => decode_step c (src ++ more) = Continue c' (src' ++ more)
  | Return c' src' (NeedMore _) => True
  | Return c' src' o => decode_step c (src ++ more) = Return c' (src' ++ more) o
  end.
Proof.
  intros Hc. pose proof (decode_step_wf c src Hc) as Hnp. destruct Hc as [_ Hwf].
  unfold decode_step in *.
  destruct (Z.ltb_spec (len src) (waiting_for c)) as [Hlt|Hle]; [done|].
  rewrite len_app. pose proof (len_nonneg more).
  destruct (Z.ltb_spec (len src + len more) (waiting_for c)) as [|_]; [lia|].
  unfold state_wf in Hwf. destruct (state c) as [| |f|f] eqn:E.
  - destruct src as [|b src]; [by destruct Hnp|]. cbn [app].
    destruct (negb _); [done|]. rewrite Hwf in *.
    rewrite app_comm_cons.
    destruct (Z.ltb_spec (len (b :: src)) 64); [lia|].
    destruct (Z.ltb_spec (len (b :: src) + len more) 64); [lia|].
    rewrite ztake_app_le, zdrop_app_le by lia.
    by destruct (greeting_try_from _).
  - by destruct src as [|b src]; [destruct Hnp|].
  - destruct (long f).
    + destruct (Z.ltb_spec (len src) 8), (Z.ltb_spec (len src + len more) 8); try lia.
      rewrite ztake_app_le, zdrop_app_le by lia. by destruct (check_frame_len _ _).
    + by destruct src as [|b src]; [destruct Hnp|].
  - rewrite ztake_app_le, zdrop_app_le by lia.
    destruct (command f).
    + by destruct (command_try_from _).
    + cbn. by destruct (Codec.more f).
Qed.

Lemma isize_max_half : isize_max / 2 + 255 <= isize_max.
Proof. by vm_compute. Qed.

Lemma reserve_to_bound c : codec_wf c ->
  0 <= waiting_for c /\ waiting_for c <= reserve_to c <= isize_max.
Proof.
  intros [Hmax Hwf]. pose proof isize_max_half as Hh. unfold state_wf in Hwf.
  unfold reserve_to.
  destruct (Z.ltb_spec (2 * max_read_chunk_size c) (waiting_for c));
    destruct (state c) as [| |f|f]; try destruct (long f); lia.
Qed.

(** One call, from the facts about its rounds. *)
Lemma decode_facts c src :
  codec_wf c ->
  match decode c src with
  | (c', src', o) =>
      codec_wf c' /\ (exists used, src = used ++ src') /\ o <> Panics
      /\ (forall n, o = NeedMore n -> n = reserve_to c' - len src' /\ len src' < waiting_for c')
  end.
Proof.
  revert c src. apply (decode_ind (fun c src => codec_wf c -> _)). intros c src IH Hc.
  rewrite decode_unfold. pose proof (decode_step_wf c src Hc) as Hwf.
  pose proof (decode_step_suffix c src) as Hs.
  destruct (decode_step c src) as [c1 src1|c1 src1 o] eqn:E.
  - destruct Hs as [used ->]. specialize (IH _ _ eq_refl Hwf).
    destruct (decode c1 src1) as [[c2 src2] o]. destruct IH as (? & [used' ->] & ? & ?).
    split_and!; [done| |done..]. exists (used ++ used'). by rewrite <- app_assoc.
  - destruct Hwf. split_and!; try done. intros n ->.
    by apply decode_step_need_more in E as (-> & -> & ? & ?).
Qed.

Lemma decode_item_measure c src c' src' m :
  decode c src = (c', src', Item m) -> (decode_measure c' src' < decode_measure c src)%nat.
Proof.
  revert c src. apply (decode_ind (fun c src => _ -> _)). intros c src IH.
  rewrite decode_unfold. destruct (decode_step c src) as [c1 src1|c1 src1 o] eqn:E.
  - intros H. apply IH in H; [|done]. apply decode_step_measure in E. lia.
  - intros [= -> -> ->]. revert E. unfold decode_step, decode_measure. intros Hs.
    destruct (state c) as [| |f|f] eqn:E; step_cases; simplify_eq; cbn;
      unfold zdrop; rewrite ?length_drop; cbn [length]; unfold len in *; lia.
Qed.

(** Calls on a buffer that grows. *)
Lemma decode_app c src more :
  codec_wf c ->
  match decode c src with
  | (c', src', NeedMore _) => decode c (src ++ more) = decode c' (src' ++ more)
  | (c', src', o) => decode c (src ++ more) = (c', src' ++ more, o)
  end.
Proof.
  revert c src. apply (decode_ind (fun c src => codec_wf c -> _)). intros c src IH Hc.
  rewrite (decode_unfold c src). pose proof (decode_step_wf c src Hc) as Hwf.
  pose proof (decode_step_app c src more Hc) as Happ.
  destruct (decode_step c src) as [c1 src1|c1 src1 o] eqn:E.
  - rewrite (decode_unfold c (src ++ more)), Happ. by apply IH.
  - destruct o as [m|n|e|]; try by rewrite (decode_unfold c (src ++ more)), Happ.
    by apply decode_step_need_more in E as (-> & -> & _).
Qed.

(** ** Draining the buffer

    The messages that successive calls of [decode] return, up to the first that is
    not a message: what a reader of the stream obtains from a buffer. *)

Fixpoint drain_fuel (fuel : nat) (c : ZmqCodec) (src : bytes) :
    list Message * (ZmqCodec * bytes * outcome) :=
  match decode c src with
  | (c', src', Item m) =>
      match fuel with
      | O => ([], (c, src, Panics))
      | S fuel => let '(ms, r) := drain_fuel fuel c' src' in (m :: ms, r)
      end
  | r => ([], r)
  end.

Definition drain (c : ZmqCodec) (src : bytes) : list Message * (ZmqCodec * bytes * outcome) :=
  drain_fuel (decode_measure c src) c src.

Lemma drain_fuel_enough fuel1 fuel2 c src :
  (decode_measure c src <= fuel1)%nat -> (decode_measure c src <= fuel2)%nat ->
  drain_fuel fuel1 c src = drain_fuel fuel2 c src.
Proof.
  revert fuel2 c src. induction fuel1 as [|fuel1 IH]; intros fuel2 c src H1 H2;
    destruct fuel2 as [|fuel2]; cbn [drain_fuel]; try done;
    destruct (decode c src) as [[c' src'] [m| | |]] eqn:E; try done;
    apply decode_item_measure in E; try lia.
  erewrite IH; [done|lia..].
Qed.

Lemma drain_unfold c src :
  drain c src = match decode c src with
                | (c', src', Item m) => let '(ms, r) := drain c' src' in (m :: ms, r)
                | r => ([], r)
                end.
Proof.
  unfold drain. destruct (decode c src) as [[c' src'] o] eqn:E.
  destruct o as [m|n|e|];
    try by (destruct (decode_measure c src); cbn [drain_fuel]; rewrite E).
  pose proof (decode_item_measure _ _ _ _ _ E) as Hm.
  destruct (decode_measure c src) as [|n] eqn:Hn; [lia|].
  cbn [drain_fuel]. rewrite E.
  by rewrite (drain_fuel_enough n (decode_measure c' src')) by lia.
Qed.

Lemma drain_app c src more :
  codec_wf c ->
  drain c (src ++ more) =
  match drain c src with
  | (ms, (c', src', NeedMore _)) => let '(ms', r) := drain c' (src' ++ more) in (ms ++ ms', r)
  | (ms, (c', src', o)) => (ms, (c', src' ++ more, o))
  end.
Proof.
  remember (decode_measure c src) as n eqn:Hn. revert c src Hn.
  induction n as [n IH] using lt_wf_ind. intros c src -> Hc.
  rewrite (drain_unfold c src). pose proof (decode_app c src more Hc) as Happ.
  pose proof (decode_facts c src Hc) as Hf.
  destruct (decode c src) as [[c' src'] o] eqn:E. destruct Hf as (Hc' & _ & _ & _).
  destruct o as [m|k|e|].
  - rewrite drain_unfold, Happ. pose proof (decode_item_measure _ _ _ _ _ E).
    rewrite (IH _ ltac:(done) c' src' eq_refl Hc').
    destruct (drain c' src') as [ms [[c2 src2] [| | |]]]; try done.
    by destruct (drain c2 (src2 ++ more)).
  - rewrite (drain_unfold c), Happ, <- drain_unfold. by destruct (drain c' (src' ++ more)).
  - by rewrite drain_unfold, Happ.
  - by rewrite drain_unfold, Happ.
Qed.

(** ** The wire format

    A frame on the wire, as ZMTP 3 defines it: a flags byte (more, long, command;
    the other bits are reserved), a one-byte or an eight-byte length, the body. The
    length need not use its shortest form. *)

Inductive wire_frame (cmd mr : bool) (body : bytes) : bytes -> Prop :=
  | wire_short flags :
      frame_of_flags flags = mkFrame cmd false mr -> len body <= 255 ->
      wire_frame cmd mr body (flags :: u8_of (len body) :: body)
  | wire_long flags :
      frame_of_flags flags = mkFrame cmd true mr -> len body < 2 ^ 64 ->
      wire_frame cmd mr body (flags :: be_bytes 8 (len body) ++ body).

(** The frames of one message: all but the last have the more bit. *)
Inductive wire_parts : list bytes -> bytes -> Prop :=
  | parts_last body w : wire_frame false false body w -> wire_parts [body] w
  | parts_more body parts w ws :
      wire_frame false true body w -> wire_parts parts ws -> wire_parts (body :: parts) (w ++ ws).

(** The lengths a connection's receive buffer can hold. *)
Definition fits (c : ZmqCodec) (body : bytes) : Prop :=
  len body + max_read_chunk_size c <= isize_max.

(** What the decoder does once a frame is complete. *)
Definition push_part (c : ZmqCodec) (body : bytes) : ZmqMessage.t :=
  match buffered_message c with
  | Some v => ZmqMessage.push_back v body
  | None => ZmqMessage.from_bytes body
  end.

Definition after_frame (cmd mr : bool) (body : bytes) (c : ZmqCodec) (rest : bytes) :
    ZmqCodec * bytes * outcome :=
  if cmd then
    match command_try_from body with
    | Ok cmd => (c, rest, Item (MCommand cmd))
    | Err e => (c, rest, Fail e)
    end
  else if mr then decode (set_buffered c (Some (push_part c body))) rest
  else (set_buffered c None, rest, Item (MMessage (push_part c body))).

Lemma frame_eta f : mkFrame (command f) (long f) (more f) = f.
Proof. by destruct f. Qed.

Lemma decode_frame_body c f body rest :
  state c = SFrame f -> waiting_for c = len body ->
  decode c (body ++ rest)
  = after_frame (command f) (more f) body (set_state c SFrameHeader 1) rest.
Proof.
  intros Hs Hw. rewrite decode_unfold. unfold decode_step. rewrite Hs, Hw.
  pose proof (len_nonneg rest). rewrite len_app.
  destruct (Z.ltb_spec (len body + len rest) (len body)); [lia|].
  rewrite ztake_app, zdrop_app by done.
  unfold after_frame. destruct (command f); [by destruct (command_try_from _)|].
  cbn. unfold push_part. by destruct (more f).
Qed.

Lemma decode_header c flags src :
  state c = SFrameHeader -> waiting_for c = 1 ->
  decode c (flags :: src)
  = decode (set_state c (SFrameLen (frame_of_flags flags))
              (if long (frame_of_flags flags) then 8 else 1)) src.
Proof.
  intros Hs Hw. rewrite decode_unfold. unfold decode_step. rewrite Hs, Hw.
  pose proof (len_nonneg src). rewrite len_cons.
  by destruct (Z.ltb_spec (len src + 1) 1); [lia|].
Qed.

Lemma header_eta c : codec_wf c -> state c = SFrameHeader -> set_state c SFrameHeader 1 = c.
Proof. intros [_ Hwf] Hs. unfold state_wf in Hwf. rewrite Hs in Hwf. destruct c. by cbn in *; subst. Qed.

(** Completeness: every frame of the wire format is decoded. *)
Lemma decode_wire_frame c cmd mr body w rest :
  codec_wf c -> state c = SFrameHeader -> wire_frame cmd mr body w -> fits c body ->
  decode c (w ++ rest) = after_frame cmd mr body c rest.
Proof.
  intros Hc Hs Hw Hfit. pose proof (header_eta c Hc Hs) as Heta.
  assert (Hone : waiting_for c = 1).
  { destruct Hc as [_ Hwf]. unfold state_wf in Hwf. by rewrite Hs in Hwf. }
  pose proof (len_nonneg body). pose proof (len_nonneg rest). destruct Hc as [Hmax _].
  destruct Hw as [flags Hfl Hlen|flags Hfl Hlen]; cbn [app];
    rewrite decode_header, Hfl by done; cbn [long].
  - rewrite decode_unfold. unfold decode_step. cbn [state set_state waiting_for long].
    rewrite len_cons, len_app, u8_val_of_small by lia.
    destruct (Z.ltb_spec (len body + len rest + 1) 1); [lia|].
    erewrite decode_frame_body by done.
    transitivity (after_frame cmd mr body (set_state c SFrameHeader 1) rest);
      [done|by rewrite Heta].
  - rewrite decode_unfold. unfold decode_step. cbn [state set_state waiting_for long].
    rewrite <- app_assoc.
    assert (len (be_bytes 8 (len body) ++ body ++ rest) = 8 + len body + len rest) as ->.
    { rewrite !len_app, len_be_bytes. lia. }
    destruct (Z.ltb_spec (8 + len body + len rest) 8); [lia|].
    rewrite ztake_app, zdrop_app by done.
    rewrite be_val_be_bytes_small by (change (256 ^ Z.of_nat 8) with (2 ^ 64); lia).
    rewrite check_frame_len_fits by (unfold fits in Hfit; cbn; lia).
    erewrite decode_frame_body by done.
    transitivity (after_frame cmd mr body (set_state c SFrameHeader 1) rest);
      [done|by rewrite Heta].
Qed.

Definition parts_of (m : option ZmqMessage.t) : list bytes :=
  match m with Some v => ZmqMessage.frames v | None => [] end.

Lemma push_part_frames c body :
  ZmqMessage.frames (push_part c body) = parts_of (buffered_message c) ++ [body].
Proof. unfold push_part. by destruct (buffered_message c). Qed.

Lemma decode_wire_parts c parts w rest :
  codec_wf c -> state c = SFrameHeader -> wire_parts parts w -> Forall (fits c) parts ->
  decode c (w ++ rest)
  = (set_buffered c None, rest,
     Item (MMessage (ZmqMessage.mk (parts_of (buffered_message c) ++ parts)))).
Proof.
  intros Hc Hs Hw. revert c Hc Hs. induction Hw as [body w Hf|body parts w ws Hf Hw IH];
    intros c Hc Hs Hfit; apply Forall_cons in Hfit as [Hb Hfit].
  - rewrite (decode_wire_frame c false false body) by done. unfold after_frame.
    by rewrite <- (ZmqMessage.frames_mk (push_part c body)), push_part_frames.
  - rewrite <- app_assoc, (decode_wire_frame c false true body) by done. cbn [after_frame].
    rewrite IH by done. cbn. rewrite push_part_frames, <- app_assoc. done.
Qed.

(** Soundness: what the decoder takes from the buffer between frames is a frame.
    Each lemma follows one of the three states of a frame. *)
Lemma decode_short c src :
  len src < waiting_for c -> decode c src = (c, src, NeedMore (reserve_to c - len src)).
Proof.
  intros Hlt. rewrite decode_unfold. unfold decode_step.
  by destruct (Z.ltb_spec (len src) (waiting_for c)); [|lia].
Qed.

Definition starved (o : outcome) : Prop := exists n, o = NeedMore n.

Lemma decode_body_inv c f src c' src' o :
  state c = SFrame f -> 0 <= waiting_for c -> decode c src = (c', src', o) ->
  starved o \/ exists body rest, src = body ++ rest /\ len body = waiting_for c
    /\ after_frame (command f) (more f) body (set_state c SFrameHeader 1) rest = (c', src', o).
Proof.
  intros Hs Hw Hd. destruct (Z.lt_ge_cases (len src) (waiting_for c)) as [Hlt|Hge].
  - left. rewrite decode_short in Hd by done. simplify_eq. by eexists.
  - right. rewrite <- (ztake_zdrop (waiting_for c) src) in Hd.
    erewrite decode_frame_body in Hd by (rewrite ?len_ztake; done || lia).
    exists (ztake (waiting_for c) src), (zdrop (waiting_for c) src).
    rewrite ztake_zdrop, len_ztake by lia. by split_and!.
Qed.

(** The bytes of a length field. *)
Definition len_field (f : Frame) (n : Z) : bytes := if long f then be_bytes 8 n else [u8_of n].

Lemma decode_len_inv c f src c' src' o :
  codec_wf c -> state c = SFrameLen f -> decode c src = (c', src', o) ->
  starved o \/ o = Fail (Decode "Frame length exceeds read buffer capacity")
  \/ exists body rest, src = len_field f (len body) ++ body ++ rest /\ fits c body
       /\ len body <= (if long f then 2 ^ 64 - 1 else 255)
       /\ after_frame (command f) (more f) body (set_state c SFrameHeader 1) rest = (c', src', o).
Proof.
  intros [Hmax Hwf] Hs Hd. pose proof isize_max_half as Hhalf.
  unfold state_wf in Hwf. rewrite Hs in Hwf.
  destruct (Z.lt_ge_cases (len src) (waiting_for c)) as [Hlt|Hge].
  { left. rewrite decode_short in Hd by done. simplify_eq. by eexists. }
  rewrite decode_unfold in Hd. unfold decode_step in Hd. rewrite Hs in Hd.
  destruct (Z.ltb_spec (len src) (waiting_for c)) as [|_]; [lia|].
  unfold len_field. destruct (long f) eqn:Hl; rewrite Hwf in Hge.
  - destruct (Z.ltb_spec (len src) 8); [lia|].
    destruct (check_frame_len _ _) as [m|] eqn:Hck; [|simplify_eq; auto].
    pose proof (be_val_range (ztake 8 src)) as Hr.
    pose proof (len_ztake 8 src ltac:(lia)) as H8. rewrite H8 in Hr.
    apply check_frame_len_Some in Hck as [-> Hck]; [|lia..].
    apply decode_body_inv with (f := f) in Hd; [|done|cbn; lia].
    destruct Hd as [?|(body & rest & Hsrc & Hb & Ha)]; [by left|]. right; right.
    exists body, rest. rewrite <- Hsrc, Hb. cbn [waiting_for set_state].
    assert (length (ztake 8 src) = 8%nat) as H8' by (unfold len in H8; lia).
    split_and!; [|unfold fits; rewrite Hb; cbn; lia|change (2 ^ 64) with (256 ^ 8); lia|done].
    rewrite <- H8' at 1. by rewrite be_bytes_be_val, ztake_zdrop.
  - destruct src as [|b src]; [rewrite len_nil in Hge; lia|].
    pose proof (u8_val_range b) as Hr.
    apply decode_body_inv with (f := f) in Hd; [|done|cbn; lia].
    destruct Hd as [?|(body & rest & -> & Hb & Ha)]; [by left|]. right; right.
    exists body, rest. cbn [waiting_for set_state] in Hb.
    split_and!; [by rewrite Hb, u8_of_val|unfold fits; lia|lia|done].
Qed.

Lemma decode_header_inv c src c' src' o :
  codec_wf c -> state c = SFrameHeader -> decode c src = (c', src', o) ->
  starved o \/ o = Fail (Decode "Frame length exceeds read buffer capacity")
  \/ exists cmd mr body w rest,
       src = w ++ rest /\ wire_frame cmd mr body w /\ fits c body
       /\ after_frame cmd mr body c rest = (c', src', o).
Proof.
  intros Hc Hs Hd.
  assert (Hone : waiting_for c = 1).
  { destruct Hc as [_ Hwf]. unfold state_wf in Hwf. by rewrite Hs in Hwf. }
  destruct src as [|flags src].
  { rewrite decode_short in Hd by (rewrite len_nil; lia). left. simplify_eq. by eexists. }
  rewrite decode_header in Hd by done. set (f := frame_of_flags flags) in *.
  apply decode_len_inv with (f := f) in Hd; [|by split; [apply Hc|]|done].
  destruct Hd as [?|[?|(body & rest & -> & Hfit & Hlen & Ha)]]; [by left|by auto|].
  right; right. exists (command f), (more f), body, (flags :: len_field f (len body) ++ body), rest.
  split_and!; [by rewrite <- app_comm_cons, <- app_assoc| |done|].
  - pose proof (frame_eta f) as Heta. unfold len_field.
    destruct (long f); [apply wire_long|apply wire_short]; first [done | lia].
  - rewrite <- Ha. f_equal. by rewrite <- (header_eta c) at 1.
Qed.

Lemma wire_frame_nonempty cmd mr body w : wire_frame cmd mr body w -> (0 < length w)%nat.
Proof. destruct 1; cbn; lia. Qed.

Lemma decode_message_inv c src c' src' m :
  codec_wf c -> state c = SFrameHeader -> decode c src = (c', src', Item (MMessage m)) ->
  c' = set_buffered c None
  /\ exists parts w, src = w ++ src' /\ wire_parts parts w /\ Forall (fits c) parts
       /\ ZmqMessage.frames m = parts_of (buffered_message c) ++ parts.
Proof.
  remember (length src) as n eqn:Hn. revert c src Hn.
  induction n as [n IH] using lt_wf_ind. intros c src -> Hc Hs Hd.
  destruct (decode_header_inv _ _ _ _ _ Hc Hs Hd)
    as [[? ?]|[?|(cmd & mr & body & w & rest & -> & Hw & Hfit & Ha)]]; try done.
  pose proof (wire_frame_nonempty _ _ _ _ Hw). unfold after_frame in Ha.
  destruct cmd; [by destruct (command_try_from body)|]. destruct mr.
  - apply (IH (length rest)) in Ha as (-> & parts & w' & -> & Hw' & Hfit' & Hm); [|rewrite length_app; lia|done..].
    split; [done|]. exists (body :: parts), (w ++ w').
    rewrite <- app_assoc. split_and!; [done|by constructor|by constructor|].
    rewrite Hm. cbn [buffered_message set_buffered parts_of].
    by rewrite push_part_frames, <- app_assoc.
  - simplify_eq. split; [done|]. exists [body], w.
    split_and!; [done|by constructor|by constructor|apply push_part_frames].
Qed.

(** ** The encoder writes the wire format *)

Lemma encode_frame_wire body mr :
  len body < 2 ^ 64 -> wire_frame false mr body (encode_frame body mr).
Proof.
  intros Hb. unfold encode_frame. destruct (Z.ltb_spec 255 (len body)).
  - apply wire_long; [by destruct mr|done].
  - apply wire_short; [by destruct mr|lia].
Qed.

Lemma encode_frames_wire idx last parts :
  last = idx + len parts - 1 -> parts <> [] ->
  Forall (fun b => len b < 2 ^ 64) parts -> wire_parts parts (encode_frames idx last parts).
Proof.
  revert idx. induction parts as [|b parts IH]; intros idx Hlast Hne Hf; [done|].
  apply Forall_cons in Hf as [Hb Hf]. cbn [encode_frames]. destruct parts as [|b' parts].
  - rewrite Hlast, len_cons, len_nil. replace (idx =? idx + (0 + 1) - 1) with true by lia.
    cbn [negb encode_frames]. rewrite app_nil_r.
    by constructor; apply encode_frame_wire.
  - pose proof (len_nonneg parts).
    replace (idx =? last) with false by (rewrite !len_cons in Hlast; lia).
    constructor; [by apply encode_frame_wire|].
    apply IH; [rewrite !len_cons in *; lia|done|done].
Qed.

Lemma fits_u64 c body : codec_wf c -> fits c body -> len body < 2 ^ 64.
Proof.
  unfold fits, isize_max. intros [Hmax _] Hf.
  assert (2 ^ 63 - 1 < 2 ^ 64) by done. lia.
Qed.

(** When [decode] is called on the encoding of [msg]: a greeting comes first on a
    connection, a command between messages, and no frame exceeds the buffer. *)
Definition expects `{HashOrder} (c : ZmqCodec) (msg : Message) : Prop :=
  match msg with
  | MGreeting _ => state c = SGreeting
  | MCommand cmd => state c = SFrameHeader /\ command_wf cmd /\ fits c (command_body cmd)
  | MMessage m =>
      state c = SFrameHeader /\ buffered_message c = None /\ Forall (fits c) (ZmqMessage.frames m)
  end.

Lemma command_to_bytes_wire `{HashOrder} cmd :
  len (command_body cmd) < 2 ^ 64 ->
  wire_frame true false (command_body cmd) (command_to_bytes cmd).
Proof.
  intros Hb. unfold command_to_bytes. rewrite command_message_len_body.
  destruct (Z.ltb_spec 255 (len (command_body cmd))).
  - by apply (wire_long true false _ Byte.x06).
  - apply (wire_short true false _ Byte.x04); [done|lia].
Qed.

Lemma decode_greeting c g rest :
  state c = SGreeting -> waiting_for c = 64 ->
  decode c (greeting_to_bytes g ++ rest)
  = (set_state c SFrameHeader 1, rest, Item (MGreeting g)).
Proof.
  intros Hs Hw. rewrite decode_unfold. unfold decode_step. rewrite Hs, Hw.
  pose proof (greeting_to_bytes_length g) as Hl. pose proof (greeting_to_bytes_head g) as Hh.
  pose proof (len_nonneg rest).
  assert (len (greeting_to_bytes g) = 64) as Hl' by (unfold len; lia).
  rewrite len_app, Hl'. destruct (Z.ltb_spec (64 + len rest) 64); [lia|].
  rewrite ztake_app, zdrop_app, greeting_try_from_to_bytes by done.
  destruct (greeting_to_bytes g) as [|b l]; [done|]. cbn in Hh. subst b. done.
Qed.

Lemma decode_encode `{HashOrder} c msg w rest :
  codec_wf c -> expects c msg -> encode msg = Some w ->
  decode c (w ++ rest) = (set_state c SFrameHeader 1, rest, Item msg).
Proof.
  intros Hc He Hw. pose proof (header_eta c Hc) as Heta.
  destruct msg as [g|cmd|m]; cbn [encode expects] in *.
  - simplify_eq. destruct Hc as [_ Hwf]. unfold state_wf in Hwf. rewrite He in Hwf.
    by apply decode_greeting.
  - destruct He as (Hs & Hcw & Hfit). simplify_eq.
    rewrite (decode_wire_frame c true false (command_body cmd)); [|done|done| |done].
    + unfold after_frame. by rewrite command_try_from_body, Heta.
    + apply command_to_bytes_wire. by apply (fits_u64 c).
  - destruct He as (Hs & Hb & Hfit). destruct (ZmqMessage.is_empty m) eqn:Hne; [done|].
    simplify_eq. rewrite Heta by done. rewrite (decode_wire_parts c (ZmqMessage.frames m)); try done.
    + rewrite Hb. cbn [parts_of app]. rewrite ZmqMessage.frames_mk. by destruct c; cbn in *; subst.
    + apply encode_frames_wire; [by rewrite Z.add_0_l|by destruct m as [[]]|].
      eapply Forall_impl; [done|]. intros b. by apply fits_u64.
Qed.

(** ** Properties *)

(** C11 A message on the wire is what the decoder returns: from the state between
    frames, [decode] yields a user message exactly when the buffer starts with the
    message's frames in the wire format (any length form, reserved bits free) and
    they fit the receive buffer; it consumes those bytes and no other. *)
Theorem decode_message_iff (c : ZmqCodec) (src src' : bytes) (c' : ZmqCodec) (m : ZmqMessage.t) :
  codec_wf c -> state c = SFrameHeader -> buffered_message c = None ->
  decode c src = (c', src', Item (MMessage m)) <->
  c' = c /\ exists w, src = w ++ src' /\ wire_parts (ZmqMessage.frames m) w
                      /\ Forall (fits c) (ZmqMessage.frames m).
Proof.
  intros Hc Hs Hb.
  assert (set_buffered c None = c) as Heq by (by destruct c; cbn in *; subst).
  split.
  - intros (-> & parts & w & -> & Hw & Hf & Hm)%decode_message_inv; [|done..].
    rewrite Hb in Hm. cbn in Hm. rewrite Hm. by eauto.
  - intros (-> & w & -> & Hw & Hf). rewrite (decode_wire_parts c (ZmqMessage.frames m)) by done.
    rewrite Hb. cbn [parts_of app]. by rewrite ZmqMessage.frames_mk, Heq.
Qed.

Definition header_codec : ZmqCodec := mkCodec SFrameHeader 1 None 65536.

Lemma header_codec_wf : codec_wf header_codec.
Proof. unfold codec_wf. cbn. split; [|done]. split; [done|by vm_compute]. Qed.

Lemma decode_message_iff_witness :
  decode header_codec [Byte.x01; Byte.x00; Byte.x02; Byte.x00; Byte.x00; Byte.x00; Byte.x00;
                       Byte.x00; Byte.x00; Byte.x00; Byte.x01; Byte.x41; Byte.x00]
  = (header_codec, [Byte.x00], Item (MMessage (ZmqMessage.mk [[]; [Byte.x41]]))).
Proof.
  apply (decode_message_iff header_codec); [apply header_codec_wf|done|done|].
  split; [done|].
  exists [Byte.x01; Byte.x00; Byte.x02; Byte.x00; Byte.x00; Byte.x00; Byte.x00;
          Byte.x00; Byte.x00; Byte.x00; Byte.x01; Byte.x41].
  split; [done|]. split.
  - apply (parts_more [] [[Byte.x41]] [Byte.x01; Byte.x00]).
    + by apply (wire_short false true [] Byte.x01).
    + apply parts_last. by apply (wire_long false false [Byte.x41] Byte.x02).
  - repeat constructor; by vm_compute.
Defined.

(** C3 Whatever the encoder writes, the peer's decoder reads back: a greeting, a
    command or a user message, followed by any bytes, decodes to itself, leaves those
    bytes, and leaves the decoder between frames. *)
Theorem codec_roundtrip `{HashOrder} (c : ZmqCodec) (msg : Message) (w rest : bytes) :
  codec_wf c -> expects c msg -> encode msg = Some w ->
  decode c (w ++ rest) = (set_state c SFrameHeader 1, rest, Item msg).
Proof. apply decode_encode. Qed.

Lemma codec_roundtrip_witness :
  decode header_codec ([Byte.x01; Byte.x00; Byte.x00; Byte.x02; Byte.x48; Byte.x49] ++ [Byte.x07])
  = (header_codec, [Byte.x07], Item (MMessage (ZmqMessage.mk [[]; bs "HI"]))).
Proof.
  apply (codec_roundtrip header_codec (MMessage (ZmqMessage.mk [[]; bs "HI"])));
    [apply header_codec_wf| |done].
  split; [done|]. split; [done|]. repeat constructor; by vm_compute.
Defined.

(** C12 From a well-formed decoder no call panics: none of the indexing, splitting
    and [expect] operations of [decode] can fail; the decoder stays well-formed, what
    it consumes is a prefix of the buffer, and when it asks for more the reserved
    capacity stays within [isize::MAX]. *)
Theorem decode_safe (c : ZmqCodec) (src : bytes) :
  codec_wf c ->
  let '(c', src', o) := decode c src in
  codec_wf c' /\ o <> Panics /\ (exists used, src = used ++ src')
  /\ forall n, o = NeedMore n ->
       len src' < waiting_for c' /\ 0 < n /\ len src' + n <= isize_max.
Proof.
  intros Hc. pose proof (decode_facts c src Hc) as Hf.
  destruct (decode c src) as [[c' src'] o]. destruct Hf as (Hc' & Hsuf & Hp & Hn).
  split_and!; try done. intros n Ho. destruct (Hn n Ho) as [-> Hlt].
  pose proof (reserve_to_bound c' Hc'). lia.
Qed.

Lemma decode_safe_witness :
  let '(c', src', o) := decode new_codec (greeting_to_bytes default_greeting ++ [Byte.x00]) in
  codec_wf c' /\ o <> Panics
  /\ (exists used, greeting_to_bytes default_greeting ++ [Byte.x00] = used ++ src')
  /\ forall n, o = NeedMore n ->
       len src' < waiting_for c' /\ 0 < n /\ len src' + n <= isize_max.
Proof.
  apply (decode_safe new_codec). unfold codec_wf. cbn. split; [|done]. split; [done|by vm_compute].
Defined.

(** C13 The decoder's loop terminates: [2 * len + 1] rounds are enough for a buffer
    of [len] bytes, and more rounds change nothing. *)
Theorem decode_terminates (c : ZmqCodec) (src : bytes) (fuel : nat) :
  (2 * length src + 1 < fuel)%nat -> decode_loop fuel c src = Some (decode c src).
Proof.
  intros Hf. assert (decode_measure c src < fuel)%nat.
  { unfold decode_measure. destruct (state c); lia. }
  destruct (decode_loop_enough fuel (S (decode_measure c src)) c src) as [He [r Hr]]; [lia..|].
  unfold decode. rewrite <- He, Hr. done.
Qed.

Lemma decode_terminates_witness :
  decode_loop 8 header_codec [Byte.x00; Byte.x00; Byte.x04]
  = Some (decode header_codec [Byte.x00; Byte.x00; Byte.x04]).
Proof. apply (decode_terminates header_codec [Byte.x00; Byte.x00; Byte.x04] 8). cbn. lia. Defined.
