(* ===== verification/Framed.v ===== *)
(** The framed reader (src/src/codec/framed.rs): a decoder fed from a transport
    through a buffer whose read size adapts to the traffic.

    The transport is any [AsyncRead]; [poll_next] is the [Stream] implementation, its
    [loop] bounded by the data the transport can deliver before it is pending. The
    default [Decoder::decode_eof] of the [asynchronous_codec] crate is a parameter. *)

From S2P Require Import Prelude Message Endpoint Errors SocketTypes Greeting Command Codec.

Local Open Scope Z_scope.

(** [futures::AsyncRead]: a read returns at most the bytes asked for, and no bytes at
    the end of the stream. [delivered] are the bytes read so far, [available] bounds
    how many reads can succeed before the transport is pending, at its end or failing. *)
Class AsyncRead (R : Type) : Type := {
  poll_read : R -> Z -> R * poll (result bytes io_error);
  delivered : R -> bytes;
  available : R -> nat;
  poll_read_len r n r' l :
    0 <= n -> poll_read r n = (r', Ready (Ok l)) -> len l <= n;
  poll_read_delivered r n r' x :
    poll_read r n = (r', x) ->
    delivered r' = delivered r ++ match x with Ready (Ok l) => l | _ => [] end;
  poll_read_available r n r' l :
    poll_read r n = (r', Ready (Ok l)) -> l <> [] -> (available r' < available r)%nat;
}.

(** [Decoder::decode_eof], which the codec does not override: it calls [decode]. *)
Class DecodeEof : Type := {
  decode_eof : ZmqCodec -> bytes -> ZmqCodec * bytes * outcome;
  decode_eof_decode c src : decode_eof c src = decode c src;
}.

#[export] Instance DecodeEof_default : DecodeEof :=
  {| decode_eof := decode; decode_eof_decode _ _ := eq_refl |}.

Record ZmqFramedRead (R : Type) : Type := mkFramedRead {
  inner : R;
  codec : ZmqCodec;
  buffer : bytes;
  read_chunk_size : Z;
  options : SocketOptions;
  short_reads : Z;
}.
Arguments mkFramedRead {R} _ _ _ _ _ _.
Arguments inner {R} _.
Arguments codec {R} _.
Arguments buffer {R} _.
Arguments read_chunk_size {R} _.
Arguments options {R} _.
Arguments short_reads {R} _.

Definition new_framed_read {R} (inner : R) (options : SocketOptions) : ZmqFramedRead R :=
  mkFramedRead inner (with_options options) [] (read_buffer_initial_size options) options 0.

(** The size of the next read: at least a chunk, more when the decoder waits for
    more, never above the maximum. *)
Definition read_size {R} (self : ZmqFramedRead R) (min_read_size : Z) : Z :=
  Z.min (Z.max (read_chunk_size self) min_read_size) (read_buffer_max_size (options self)).

(** The adaptation after a read of [bytes_read] bytes into [read_size]: the new chunk
    size and the new count of short reads. *)
Definition grow_chunk (o : SocketOptions) (chunk read_size bytes_read : Z) : Z :=
  if (read_size <=? bytes_read) && (chunk <? read_buffer_max_size o)
  then Z.min (chunk * 2) (read_buffer_max_size o) else chunk.

Definition adapt (o : SocketOptions) (chunk shorts read_size bytes_read : Z) : Z * Z :=
  let chunk := grow_chunk o chunk read_size bytes_read in
  if (0 <? bytes_read) && (bytes_read <? chunk / 2) then
    let shorts := shorts + 1 in
    if shorts =? read_buffer_short_reads o then
      (Z.min (Z.max (next_power_of_two bytes_read * 2) (read_buffer_initial_size o * 2)) chunk, 0)
    else (chunk, shorts)
  else if 0 <? bytes_read then (chunk, 0)
  else (chunk, shorts).

Section Reading.
Context {R : Type} `{AsyncRead R, DecodeEof}.
Abbreviation framed := (ZmqFramedRead R).

(** [poll_read_into_buffer]: the buffer is resized to hold [read_size] more bytes,
    then truncated to what was read. *)
Definition poll_read_into_buffer (self : framed) (min_read_size : Z) :
    framed * poll (result Z io_error) :=
  let size := read_size self min_read_size in
  let '(r, x) := poll_read (inner self) size in
  match x with
  | Ready (Ok l) =>
      let '(chunk, shorts) :=
        adapt (options self) (read_chunk_size self) (short_reads self) size (len l) in
      (mkFramedRead r (codec self) (buffer self ++ l) chunk (options self) shorts,
       Ready (Ok (len l)))
  | Ready (Err e) =>
      (mkFramedRead r (codec self) (buffer self) (read_chunk_size self) (options self)
         (short_reads self), Ready (Err e))
  | Pending =>
      (mkFramedRead r (codec self) (buffer self) (read_chunk_size self) (options self)
         (short_reads self), Pending)
  end.

(** Running the decoder on the reader's own buffer. *)
Definition run_decoder (d : ZmqCodec -> bytes -> ZmqCodec * bytes * outcome) (self : framed) :
    framed * outcome :=
  let '(c, b, o) := d (codec self) (buffer self) in
  (mkFramedRead (inner self) c b (read_chunk_size self) (options self) (short_reads self), o).

Abbreviation polled := (option (poll (option (result Message CodecError)))).

Definition unexpected_eof : CodecError := Io (IoError UnexpectedEof).

(** The [loop] of [poll_next]. [None] is a panic of the decoder. *)
Fixpoint read_loop (fuel : nat) (self : framed) : framed * polled :=
  match fuel with
  | O => (self, None)
  | S fuel =>
      let min_read_size := bytes_needed (codec self) (len (buffer self)) in
      let '(self, x) := poll_read_into_buffer self min_read_size in
      match x with
      | Pending => (self, Some Pending)
      | Ready (Err e) => (self, Some (Ready (Some (Err (Io e)))))
      | Ready (Ok n) =>
          let ended := n =? 0 in
          let '(self, o) := run_decoder decode self in
          match o with
          | Item item => (self, Some (Ready (Some (Ok item))))
          | Fail e => (self, Some (Ready (Some (Err e))))
          | Panics => (self, None)
          | NeedMore _ =>
              if ended then
                if bool_decide (buffer self = []) then (self, Some (Ready None))
                else
                  let '(self, o) := run_decoder decode_eof self in
                  match o with
                  | Item item => (self, Some (Ready (Some (Ok item))))
                  | Fail e => (self, Some (Ready (Some (Err e))))
                  | Panics => (self, None)
                  | NeedMore _ =>
                      if bool_decide (buffer self = []) then (self, Some (Ready None))
                      else (self, Some (Ready (Some (Err unexpected_eof))))
                  end
              else read_loop fuel self
          end
      end
  end.

(** [Stream::poll_next]: buffered data first, the transport only when the buffer
    holds no complete message. *)
Definition poll_next (self : framed) : framed * polled :=
  let '(self, o) := run_decoder decode self in
  match o with
  | Item item => (self, Some (Ready (Some (Ok item))))
  | Fail e => (self, Some (Ready (Some (Err e))))
  | Panics => (self, None)
  | NeedMore _ => read_loop (S (available (inner self))) self
  end.
End Reading.

(** ** Adaptation of the read size *)

Definition chunk_ok (o : SocketOptions) (chunk : Z) : Prop :=
  read_buffer_initial_size o <= chunk <= read_buffer_max_size o.

Lemma grow_chunk_bounds o chunk size n :
  options_wf o -> chunk_ok o chunk ->
  chunk <= grow_chunk o chunk size n <= read_buffer_max_size o.
Proof.
  unfold options_wf, chunk_ok, grow_chunk. intros.
  destruct (_ && _) eqn:E; [|lia]. apply andb_true_iff in E as [_ E]. lia.
Qed.

Lemma adapt_bounds o chunk shorts size n :
  options_wf o -> chunk_ok o chunk -> 0 <= shorts < read_buffer_short_reads o ->
  let '(chunk', shorts') := adapt o chunk shorts size n in
  chunk_ok o chunk' /\ 0 <= shorts' < read_buffer_short_reads o.
Proof.
  intros Ho Hc Hs. pose proof (grow_chunk_bounds o chunk size n Ho Hc) as Hg.
  unfold adapt, options_wf, chunk_ok in *. set (g := grow_chunk _ _ _ _) in *.
  destruct ((0 <? n) && (n <? g / 2)) eqn:E1.
  - destruct (Z.eqb_spec (shorts + 1) (read_buffer_short_reads o)); [|lia].
    lia.
  - destruct (0 <? n); lia.
Qed.

(** Successive reads, each with the size asked for and the size read. *)
Definition adapt_run (o : SocketOptions) (st : Z * Z) (reads : list (Z * Z)) : Z * Z :=
  fold_left (fun '(chunk, shorts) '(size, n) => adapt o chunk shorts size n) reads st.

(** [k] reads that fill the chunk they ask for. *)
Fixpoint full_reads (o : SocketOptions) (k : nat) (st : Z * Z) : Z * Z :=
  match k with
  | O => st
  | S k => full_reads o k (adapt o (fst st) (snd st) (fst st) (fst st))
  end.

Lemma adapt_full o chunk shorts :
  options_wf o -> chunk_ok o chunk ->
  adapt o chunk shorts chunk chunk = (Z.min (chunk * 2) (read_buffer_max_size o), 0).
Proof.
  unfold options_wf, chunk_ok, adapt, grow_chunk. intros Ho Hc.
  rewrite Z.leb_refl. cbn [andb].
  destruct (Z.ltb_spec chunk (read_buffer_max_size o)) as [Hlt|Hge].
  - remember (Z.min (chunk * 2) (read_buffer_max_size o)) as g eqn:Hg.
    destruct (Z.ltb_spec 0 chunk); [|lia]. destruct (Z.ltb_spec chunk (g / 2)); [|done].
    exfalso. assert (g / 2 <= chunk) by (apply Z.div_le_upper_bound; lia). lia.
  - destruct (Z.ltb_spec 0 chunk); [|lia]. pose proof (Z.div_lt chunk 2 ltac:(lia) ltac:(lia)).
    destruct (Z.ltb_spec chunk (chunk / 2)); [lia|].
    cbn [andb]. f_equal. lia.
Qed.

Lemma full_reads_chunk o k chunk shorts :
  options_wf o -> chunk_ok o chunk ->
  fst (full_reads o k (chunk, shorts)) = Z.min (chunk * 2 ^ Z.of_nat k) (read_buffer_max_size o).
Proof.
  intros Ho. revert chunk shorts. induction k as [|k IH]; intros chunk shorts Hc.
  - unfold chunk_ok in Hc. cbn. lia.
  - cbn [full_reads fst snd]. rewrite adapt_full by done. unfold options_wf, chunk_ok in *.
    rewrite IH by lia. rewrite Nat2Z.inj_succ, Z.pow_succ_r by lia.
    assert (1 <= 2 ^ Z.of_nat k) by (pose proof (Z.pow_pos_nonneg 2 (Z.of_nat k) ltac:(lia) ltac:(lia)); lia).
    nia.
Qed.

(** A short read lowers the chunk only when it completes a run of short reads. *)
Lemma adapt_keeps o chunk shorts size n :
  options_wf o -> chunk_ok o chunk -> 0 <= shorts -> shorts + 1 < read_buffer_short_reads o ->
  let '(chunk', shorts') := adapt o chunk shorts size n in
  chunk <= chunk' /\ chunk_ok o chunk' /\ 0 <= shorts' <= shorts + 1.
Proof.
  intros Ho Hc Hs Hlt. pose proof (grow_chunk_bounds o chunk size n Ho Hc) as Hg.
  unfold adapt, chunk_ok in *. set (g := grow_chunk _ _ _ _) in *.
  destruct ((0 <? n) && (n <? g / 2)) eqn:E1.
  - destruct (Z.eqb_spec (shorts + 1) (read_buffer_short_reads o)); lia.
  - destruct (0 <? n); lia.
Qed.

Lemma adapt_run_keeps o chunk shorts reads :
  options_wf o -> chunk_ok o chunk -> 0 <= shorts ->
  shorts + len reads < read_buffer_short_reads o ->
  chunk <= fst (adapt_run o (chunk, shorts) reads).
Proof.
  intros Ho. revert chunk shorts. induction reads as [|[size n] reads IH];
    intros chunk shorts Hc Hs Hlen; [cbn; lia|].
  rewrite len_cons in Hlen. pose proof (len_nonneg reads).
  pose proof (adapt_keeps o chunk shorts size n Ho Hc Hs ltac:(lia)) as Ha.
  cbn [adapt_run fold_left]. destruct (adapt o chunk shorts size n) as [chunk' shorts'].
  destruct Ha as (Hle & Hc' & Hs').
  transitivity chunk'; [done|]. apply IH; lia || done.
Qed.

(** ** The reader's invariant *)

Section Invariant.
Context {R : Type} `{AsyncRead R, DecodeEof}.
Abbreviation framed := (ZmqFramedRead R).

Definition framed_wf (self : framed) : Prop :=
  codec_wf (codec self) /\ options_wf (options self)
  /\ chunk_ok (options self) (read_chunk_size self)
  /\ 0 <= short_reads self < read_buffer_short_reads (options self)
  /\ max_read_chunk_size (codec self) = read_buffer_max_size (options self).

Lemma new_framed_read_wf r o : options_wf o -> framed_wf (new_framed_read r o).
Proof.
  intros Ho. pose proof (with_options_wf o Ho) as Hc. unfold framed_wf. cbn.
  split_and!; try done; unfold options_wf, chunk_ok in *; lia.
Qed.

Lemma decode_max c src :
  max_read_chunk_size (fst (fst (decode c src))) = max_read_chunk_size c.
Proof.
  revert c src. apply decode_ind. intros c src IH. rewrite decode_unfold.
  assert (match decode_step c src with
          | Continue c' _ | Return c' _ _ => max_read_chunk_size c' = max_read_chunk_size c
          end) as Hs.
  { destruct (decode_step c src) eqn:E; unfold decode_step in E; step_cases; by simplify_eq. }
  destruct (decode_step c src) as [c' src'|c' src' o] eqn:E; [|done].
  by rewrite IH.
Qed.

Lemma run_decoder_wf self : framed_wf self -> framed_wf (fst (run_decoder decode self)).
Proof.
  intros (Hc & Ho & Hk & Hs & Hm). unfold run_decoder.
  pose proof (decode_facts (codec self) (buffer self) Hc) as Hf.
  pose proof (decode_max (codec self) (buffer self)) as Hmax.
  destruct (decode _ _) as [[c b] o]. cbn in *. destruct Hf as [Hc' _].
  unfold framed_wf; cbn. split_and!; done || lia.
Qed.

Lemma poll_read_wf self min self' x :
  framed_wf self -> poll_read_into_buffer self min = (self', x) ->
  framed_wf self' /\ codec self' = codec self
  /\ delivered (inner self')
     = delivered (inner self) ++ match x with Ready (Ok _) => drop (length (buffer self)) (buffer self') | _ => [] end
  /\ match x with
     | Ready (Ok n) =>
         exists l, buffer self' = buffer self ++ l /\ n = len l
           /\ (l <> [] -> (available (inner self') < available (inner self))%nat)
     | _ => buffer self' = buffer self
     end.
Proof.
  intros (Hc & Ho & Hk & Hs & Hm) Hp. unfold poll_read_into_buffer in Hp.
  destruct (poll_read _ _) as [r y] eqn:E. pose proof (poll_read_delivered _ _ _ _ E) as Hd.
  destruct y as [[l|e]|]; [|simplify_eq; cbn; rewrite Hd; unfold framed_wf; cbn; split_and!; done || lia..].
  pose proof (adapt_bounds (options self) (read_chunk_size self) (short_reads self)
    (read_size self min) (len l) Ho Hk Hs) as Ha.
  destruct (adapt _ _ _ _ _) as [chunk shorts]. simplify_eq. cbn.
  rewrite Hd, drop_app_length. unfold framed_wf; cbn. split_and!; try done; try apply Ha.
  exists l. split_and!; [done..|]. intros Hl. by eapply poll_read_available.
Qed.
End Invariant.

Lemma drain_need_more c src c' src' n more :
  codec_wf c -> decode c src = (c', src', NeedMore n) ->
  drain c (src ++ more) = drain c' (src' ++ more).
Proof.
  intros Hc Hd. pose proof (decode_app c src more Hc) as Ha. rewrite Hd in Ha.
  by rewrite (drain_unfold c), Ha, <- drain_unfold.
Qed.

Lemma drain_cons_app c src c' src' m more :
  codec_wf c -> codec_wf c' ->
  drain c src = (let '(ms, r) := drain c' src' in (m :: ms, r)) ->
  drain c (src ++ more) = (let '(ms, r) := drain c' (src' ++ more) in (m :: ms, r)).
Proof.
  intros Hc Hc' Hd. rewrite (drain_app c), (drain_app c'), Hd by done.
  destruct (drain c' src') as [ms [[c2 src2] [| | |]]]; try done.
  by destruct (drain c2 (src2 ++ more)).
Qed.

(** What one call of [poll_next] may return, in terms of the messages that the
    decoder obtains from all the bytes received. *)
Section Specification.
Context {R : Type} `{AsyncRead R, DecodeEof}.
Abbreviation framed := (ZmqFramedRead R).

Definition starving (self : framed) : Prop := len (buffer self) < waiting_for (codec self).

Definition poll_spec (self self' : framed)
    (x : option (poll (option (result Message CodecError)))) : Prop :=
  exists input, delivered (inner self') = delivered (inner self) ++ input
  /\ match x with
     | None => False
     | Some (Ready (Some (Ok m))) =>
         drain (codec self) (buffer self ++ input)
         = let '(ms, r) := drain (codec self') (buffer self') in (m :: ms, r)
     | Some Pending =>
         drain (codec self) (buffer self ++ input) = drain (codec self') (buffer self')
         /\ starving self'
     | Some (Ready None) =>
         drain (codec self) (buffer self ++ input) = drain (codec self') (buffer self')
         /\ starving self' /\ buffer self' = []
     | Some (Ready (Some (Err e))) =>
         drain (codec self) (buffer self ++ input) = ([], (codec self', buffer self', Fail e))
         \/ (drain (codec self) (buffer self ++ input) = drain (codec self') (buffer self')
             /\ starving self' /\ exists err, e = Io err)
     end.

Lemma read_loop_spec fuel self self' x :
  framed_wf self -> starving self -> (available (inner self) < fuel)%nat ->
  read_loop fuel self = (self', x) -> framed_wf self' /\ poll_spec self self' x.
Proof.
  revert self. induction fuel as [|fuel IH]; intros self Hwf Hst Hf Hl; [lia|].
  cbn [read_loop] in Hl.
  destruct (poll_read_into_buffer self _) as [self1 y] eqn:Hp.
  apply poll_read_wf in Hp as (Hwf1 & Hc1 & Hd1 & Hy); [|done].
  destruct y as [[n|e]|].
  2, 3: simplify_eq; split; [done|]; exists []; split; [done|];
    unfold starving; rewrite Hc1, Hy, app_nil_r; eauto 7.
  destruct Hy as (l & Hb1 & -> & Hav). rewrite Hb1, drop_app_length in Hd1.
  pose proof (run_decoder_wf self1 Hwf1) as Hwf2. unfold run_decoder in Hl, Hwf2.
  pose proof (decode_facts (codec self1) (buffer self1) (proj1 Hwf1)) as Hfacts.
  rewrite Hc1, Hb1 in *.
  destruct (decode (codec self) (buffer self ++ l)) as [[c2 b2] o] eqn:Hdec.
  cbn [fst] in Hwf2. destruct Hfacts as (Hc2 & _ & Hnp & Hn).
  destruct o as [m|k|e|]; [| | |done].
  - simplify_eq. split; [done|]. exists l. split; [done|].
    by rewrite drain_unfold, Hdec.
  - destruct (Hn k eq_refl) as [_ Hst2].
    destruct (Z.eqb_spec (len l) 0) as [Hl0|Hl0].
    + apply len_0_nil in Hl0 as ->. rewrite app_nil_r in *.
      rewrite decode_short in Hdec by exact Hst. simplify_eq. cbn [codec buffer inner] in Hl.
      rewrite decode_eof_decode, decode_short in Hl by exact Hst.
      case_bool_decide as Hb; [|cbn [buffer] in Hl; rewrite bool_decide_eq_false_2 in Hl by done];
        simplify_eq; (split; [done|]); exists []; rewrite !app_nil_r; eauto 8.
    + apply IH in Hl as [Hwf' (input & Hd & Hx)]; [|done|done|].
      2:{ assert (l <> []) as Hl1 by (by intros ->). apply Hav in Hl1. cbn. lia. }
      split; [done|]. exists (l ++ input). cbn [inner codec buffer] in *.
      rewrite Hd, Hd1, <- app_assoc. split; [done|].
      rewrite app_assoc, (drain_need_more _ _ _ _ _ input (proj1 Hwf) Hdec). exact Hx.
  - simplify_eq. split; [done|]. exists l. split; [done|]. left.
    by rewrite drain_unfold, Hdec.
Qed.

Lemma poll_next_spec self self' x :
  framed_wf self -> poll_next self = (self', x) -> framed_wf self' /\ poll_spec self self' x.
Proof.
  intros Hwf Hp. unfold poll_next in Hp.
  pose proof (run_decoder_wf self Hwf) as Hwf1. unfold run_decoder in Hp, Hwf1.
  pose proof (decode_facts (codec self) (buffer self) (proj1 Hwf)) as Hfacts.
  destruct (decode (codec self) (buffer self)) as [[c1 b1] o] eqn:Hdec.
  cbn [fst] in Hwf1. destruct Hfacts as (Hc1 & _ & Hnp & Hn).
  destruct o as [m|k|e|]; [| | |done].
  - simplify_eq. split; [done|]. exists []. rewrite !app_nil_r. split; [done|].
    by rewrite drain_unfold, Hdec.
  - apply read_loop_spec in Hp as [Hwf' (input & Hd & Hx)]; [|done|by apply (Hn k)|cbn; lia].
    split; [done|]. exists input. split; [done|].
    by rewrite (drain_need_more _ _ _ _ _ input (proj1 Hwf) Hdec).
  - simplify_eq. split; [done|]. exists []. rewrite !app_nil_r. split; [done|]. left.
    by rewrite drain_unfold, Hdec.
Qed.

(** Successive calls that find a message or are pending. *)
Inductive run : framed -> list Message -> framed -> Prop :=
  | run_nil self : run self [] self
  | run_item self m self1 ms self' :
      poll_next self = (self1, Some (Ready (Some (Ok m)))) -> run self1 ms self' ->
      run self (m :: ms) self'
  | run_pending self self1 ms self' :
      poll_next self = (self1, Some Pending) -> run self1 ms self' -> run self ms self'.

Lemma run_spec self ms self' :
  framed_wf self -> run self ms self' ->
  framed_wf self' /\ exists input, delivered (inner self') = delivered (inner self) ++ input
    /\ drain (codec self) (buffer self ++ input)
       = (let '(ms', r) := drain (codec self') (buffer self') in (ms ++ ms', r)).
Proof.
  intros Hwf Hr. revert Hwf.
  induction Hr as [self|self m self1 ms self' Hp _ IH|self self1 ms self' Hp _ IH]; intros Hwf.
  - split; [done|]. exists []. rewrite !app_nil_r. split; [done|]. by destruct (drain _ _).
  - apply poll_next_spec in Hp as [Hwf1 (i1 & Hd1 & Hm)]; [|done].
    destruct (IH Hwf1) as (Hwf' & i2 & Hd2 & Hms). split; [done|].
    exists (i1 ++ i2). rewrite Hd2, Hd1, <- app_assoc. split; [done|].
    rewrite app_assoc, (drain_cons_app _ _ _ _ _ i2 (proj1 Hwf) (proj1 Hwf1) Hm), Hms.
    by destruct (drain (codec self') (buffer self')).
  - apply poll_next_spec in Hp as [Hwf1 (i1 & Hd1 & Hm & _)]; [|done].
    destruct (IH Hwf1) as (Hwf' & i2 & Hd2 & Hms). split; [done|].
    exists (i1 ++ i2). rewrite Hd2, Hd1, <- app_assoc. split; [done|].
    rewrite app_assoc, drain_app, Hm, <- drain_app by (apply Hwf || apply Hwf1). exact Hms.
Qed.
End Specification.

(** ** A transport to evaluate with

    A script of what successive reads find: data (handed out piecewise when the
    reader asks for less), an error, the end of the stream, or nothing yet. *)
Record script : Type := Script {
  events : list (poll (result bytes io_error));
  received : bytes;
}.

Definition script_read (r : script) (n : Z) : script * poll (result bytes io_error) :=
  match events r with
  | Ready (Ok l) :: es =>
      if len l <=? n then (Script es (received r ++ l), Ready (Ok l))
      else (Script (Ready (Ok (zdrop n l)) :: es) (received r ++ ztake n l), Ready (Ok (ztake n l)))
  | x :: es => (Script es (received r), x)
  | [] => (r, Pending)
  end.

Definition event_size (x : poll (result bytes io_error)) : nat :=
  match x with Ready (Ok l) => S (length l) | _ => 1 end.

#[export] Program Instance script_AsyncRead : AsyncRead script := {|
  poll_read := script_read;
  delivered := received;
  available r := sum_list_with event_size (events r);
|}.
Next Obligation.
  unfold script_read. intros r n r' l Hn Hp.
  destruct (events r) as [|[[l'|e]|] es]; simplify_eq.
  destruct (Z.leb_spec (len l') n); simplify_eq; [done|]. rewrite len_ztake; lia.
Qed.
Next Obligation.
  unfold script_read. intros r n r' x Hp.
  destruct (events r) as [|[[l'|e]|] es]; simplify_eq; try by rewrite app_nil_r.
  by destruct (Z.leb_spec (len l') n); simplify_eq.
Qed.
Next Obligation.
  unfold script_read. intros r n r' l Hp Hl.
  destruct (events r) as [|[[l'|e]|] es]; simplify_eq. cbn [sum_list_with event_size].
  destruct (Z.leb_spec (len l') n); simplify_eq; cbn; [lia|].
  unfold zdrop, ztake in *. rewrite length_drop.
  destruct (Z.to_nat n); [done|]. destruct l'; [done|]. cbn. lia.
Qed.

(** ** Properties *)

(** The stream a peer writes: each message encoded in the state the decoder has
    reached after the ones before it. *)
Fixpoint expects_all `{HashOrder} (c : ZmqCodec) (msgs : list Message) : Prop :=
  match msgs with
  | [] => True
  | m :: msgs => expects c m /\ expects_all (set_state c SFrameHeader 1) msgs
  end.

Fixpoint encode_all `{HashOrder} (msgs : list Message) : option bytes :=
  match msgs with
  | [] => Some []
  | m :: msgs => w ← encode m; ws ← encode_all msgs; Some (w ++ ws)
  end.

(** The decoder behind them: between frames. *)
Definition codec_after (c : ZmqCodec) (msgs : list Message) : ZmqCodec :=
  match msgs with [] => c | _ => set_state c SFrameHeader 1 end.

Lemma drain_encode_all `{HashOrder} c msgs w :
  codec_wf c -> 0 < waiting_for c -> expects_all c msgs -> encode_all msgs = Some w ->
  exists n, drain c w = (msgs, (codec_after c msgs, [], NeedMore n)).
Proof.
  revert c w. induction msgs as [|m msgs IH]; intros c w Hc H0 He Hw;
    cbn [encode_all expects_all] in *.
  - simplify_eq. rewrite drain_unfold. rewrite decode_short; [by eexists|done].
  - destruct He as [He Hes].
    destruct (encode m) as [w1|] eqn:Hm; [|done].
    destruct (encode_all msgs) as [w2|] eqn:Hms; [|done]. cbn in Hw. simplify_eq.
    destruct (IH _ w2 (set_state_header_wf c Hc) ltac:(done) Hes eq_refl) as (n & Hd).
    exists n. rewrite drain_unfold, (decode_encode c m w1 w2 Hc He Hm). rewrite Hd. by destruct msgs.
Qed.

Lemma encode_all_app `{HashOrder} k l w w' :
  encode_all k = Some w -> encode_all l = Some w' -> encode_all (k ++ l) = Some (w ++ w').
Proof.
  revert w. induction k as [|m k IH]; intros w; cbn [encode_all app]; [by intros [= <-]|].
  destruct (encode m) as [w1|]; [|done]. destruct (encode_all k) as [w2|]; [|done].
  cbn. intros [= <-] Hl. by rewrite (IH w2 eq_refl Hl), <- app_assoc.
Qed.

Lemma starving_drain {R} (self : ZmqFramedRead R) :
  starving self ->
  exists n, drain (codec self) (buffer self) = ([], (codec self, buffer self, NeedMore n)).
Proof. intros Hs. rewrite drain_unfold, decode_short by exact Hs. by eexists. Qed.

(** C4 A connection delivers what the peer sent: when the transport hands over, in
    pieces of any size, the encodings of a sequence of messages, the messages that
    successive polls of the reader return, up to a poll that finds the transport
    pending, are exactly that sequence: none lost, repeated, altered or reordered. *)
Theorem framed_receives_sent {R} `{AsyncRead R, DecodeEof, HashOrder}
    (r : R) (o : SocketOptions) (sent : list Message) (w : bytes)
    (got : list Message) (self self' : ZmqFramedRead R) :
  options_wf o -> delivered r = [] ->
  expects_all (with_options o) sent -> encode_all sent = Some w ->
  run (new_framed_read r o) got self -> poll_next self = (self', Some Pending) ->
  delivered (inner self') = w ->
  got = sent.
Proof.
  intros Ho Hr He Hw Hrun Hp Hd.
  assert (run self [] self') as Hrun' by (eapply run_pending; [done|constructor]).
  assert (run (new_framed_read r o) got self') as Hall.
  { clear -Hrun Hrun'. induction Hrun; [done|..]; [eapply run_item|eapply run_pending]; eauto. }
  pose proof (new_framed_read_wf r o Ho) as Hwf0.
  pose proof (run_spec _ _ _ Hwf0 Hrun) as [Hwf _].
  pose proof (poll_next_spec _ _ _ Hwf Hp) as [_ (i & _ & _ & Hst)].
  pose proof (run_spec _ _ _ Hwf0 Hall) as [_ (input & Hin & Hdr)].
  cbn [inner new_framed_read codec buffer] in *. rewrite Hr, Hd in Hin. cbn [app] in *. subst input.
  destruct (starving_drain self' Hst) as [n Hn]. rewrite Hn, app_nil_r in Hdr.
  destruct (drain_encode_all (with_options o) sent w) as (k & Hs); [by apply with_options_wf|done..|].
  rewrite Hdr in Hs. by simplify_eq.
Qed.

Definition sent_ex : list Message := [MGreeting default_greeting; MMessage (ZmqMessage.mk [[]; bs "HI"])].
Definition sent_bytes_ex : bytes := default [] (encode_all sent_ex).
Definition script_ex : script :=
  Script [Ready (Ok (take 67 sent_bytes_ex)); Pending; Ready (Ok (drop 67 sent_bytes_ex))] [].

Lemma default_options_wf : options_wf default_options.
Proof. unfold options_wf. split_and!; by vm_compute. Qed.

Lemma framed_receives_sent_witness :
  exists self, run (new_framed_read script_ex default_options) sent_ex self
  /\ sent_ex = sent_ex.
Proof.
  eexists. split.
  - eapply run_item; [vm_compute; reflexivity|].
    eapply run_pending; [vm_compute; reflexivity|].
    eapply run_item; [vm_compute; reflexivity|]. apply run_nil.
  - eapply (framed_receives_sent script_ex default_options sent_ex sent_bytes_ex).
    + exact default_options_wf.
    + reflexivity.
    + split; [done|]. split; [|done]. split; [done|]. split; [done|].
      repeat constructor; by vm_compute.
    + reflexivity.
    + eapply run_item; [vm_compute; reflexivity|].
      eapply run_pending; [vm_compute; reflexivity|].
      eapply run_item; [vm_compute; reflexivity|]. apply run_nil.
    + vm_compute; reflexivity.
    + vm_compute; reflexivity.
Defined.

(** Reading never overflows: while the decoder waits for more, the read that is
    prepared asks for at least one byte and at most the configured maximum, the
    resized buffer stays within [isize::MAX], and the reader's invariant (decoder
    well-formed, chunk between the initial and the maximum size, short-read count
    below its limit) is preserved. *)
Theorem poll_read_bounds {R} `{AsyncRead R, DecodeEof} (self self' : ZmqFramedRead R)
    (x : poll (result Z io_error)) :
  framed_wf self -> starving self ->
  let min := bytes_needed (codec self) (len (buffer self)) in
  poll_read_into_buffer self min = (self', x) ->
  0 < read_size self min <= read_buffer_max_size (options self)
  /\ len (buffer self) + read_size self min <= isize_max
  /\ framed_wf self'.
Proof.
  intros Hwf Hst min Hp. destruct (poll_read_wf _ _ _ _ Hwf Hp) as [Hwf' _].
  destruct Hwf as (Hc & Ho & Hk & _ & Hm). unfold read_size, chunk_ok, options_wf in *.
  pose proof (reserve_to_bound _ Hc) as [Hw Hr]. unfold starving in Hst.
  destruct Hc as [Hmax Hswf]. unfold state_wf in Hswf. pose proof isize_max_half.
  split_and!; [lia|lia| |done].
  destruct (state (codec self)) as [| |f|f]; try destruct (long f); lia.
Qed.

Lemma poll_read_bounds_witness :
  0 < read_size (new_framed_read script_ex default_options) 64 <= 65536.
Proof.
  eapply (poll_read_bounds (new_framed_read script_ex default_options)).
  - apply new_framed_read_wf, default_options_wf.
  - done.
  - vm_compute; reflexivity.
Defined.

(** Successive polls, whatever they return. *)
Definition polled {R} `{AsyncRead R, DecodeEof} (self self' : ZmqFramedRead R) : Prop :=
  exists x, poll_next self = (self', x).

(** C33 The invariant of a reader is a type: whatever options the public builders make, a new
    reader is well-formed, and stays so through any number of polls of any transport: its
    decoder is in a state whose lengths fit, its chunk is between the initial and the maximum
    size, and its count of short reads below the limit; and no poll panics or loops. *)
Theorem reader_well_formed {R} `{AsyncRead R, DecodeEof} (r : R) (o : SocketOptions)
    (self : ZmqFramedRead R) :
  built_options o -> rtc polled (new_framed_read r o) self ->
  framed_wf self /\ exists self' x, poll_next self = (self', Some x) /\ framed_wf self'.
Proof.
  intros Ho%built_options_wf Hr. assert (framed_wf self) as Hwf.
  { revert Hr. apply (rtc_ind_r framed_wf); [by apply new_framed_read_wf|].
    intros s1 s2 _ [x Hp] Hs1. by destruct (poll_next_spec _ _ _ Hs1 Hp). }
  split; [done|]. destruct (poll_next self) as [self' x] eqn:Hp.
  destruct (poll_next_spec _ _ _ Hwf Hp) as [Hwf' (input & _ & Hx)].
  destruct x as [x|]; [|done]. by exists self', x.
Qed.

Lemma reader_well_formed_witness :
  exists self' x, poll_next (new_framed_read script_ex default_options) = (self', Some x) /\ framed_wf self'.
Proof.
  apply (reader_well_formed script_ex default_options); [exact built_default|apply rtc_refl].
Defined.

(** The chunk doubles with every read that fills it: after [k] full reads from the
    initial size it is [initial * 2 ^ k], capped at the maximum. *)
Theorem chunk_doubles (o : SocketOptions) (k : nat) :
  options_wf o ->
  fst (full_reads o k (read_buffer_initial_size o, 0))
  = Z.min (read_buffer_initial_size o * 2 ^ Z.of_nat k) (read_buffer_max_size o).
Proof. intros Ho. apply full_reads_chunk; [done|]. unfold options_wf, chunk_ok in *. lia. Qed.

Lemma chunk_doubles_witness : fst (full_reads default_options 9 (128, 0)) = 65536.
Proof. etransitivity; [apply (chunk_doubles default_options 9 default_options_wf)|reflexivity]. Defined.

(** Shrinking is confirmed: after any read that resets the count, a sequence of
    fewer reads than [read_buffer_short_reads] never lowers the chunk, whatever their
    sizes; and one recovery comes from a read below half the chunk that completes the
    run, and never goes below twice the initial size or below twice what was read. *)
Theorem chunk_shrinks_late (o : SocketOptions) (chunk : Z) :
  options_wf o -> chunk_ok o chunk ->
  (forall reads, len reads < read_buffer_short_reads o ->
     chunk <= fst (adapt_run o (chunk, 0) reads))
  /\ (forall shorts size n chunk' shorts', chunk <= size ->
        adapt o chunk shorts size n = (chunk', shorts') -> chunk' < chunk ->
        0 < n < chunk / 2 /\ shorts + 1 = read_buffer_short_reads o /\ shorts' = 0
        /\ 2 * read_buffer_initial_size o <= chunk' /\ 2 * n <= chunk').
Proof.
  intros Ho Hk. split; [intros reads Hl; apply adapt_run_keeps; lia || done|].
  intros shorts size n chunk' shorts' Hsize Ha Hlt.
  assert (Hgc : n < chunk -> grow_chunk o chunk size n = chunk).
  { intros Hn. unfold grow_chunk. by destruct (Z.leb_spec size n); [lia|]. }
  pose proof (grow_chunk_bounds o chunk size n Ho Hk) as Hg. unfold adapt in Ha.
  assert (grow_chunk o chunk size n <= chunk * 2) as Hg2.
  { unfold grow_chunk, options_wf, chunk_ok in *. clear Hg Hgc Ha. destruct (_ && _); lia. }
  destruct (Z.ltb_spec 0 n); cbn [andb] in Ha; [|simplify_eq; lia].
  destruct (Z.ltb_spec n (grow_chunk o chunk size n / 2)) as [Hs|]; [|simplify_eq; lia].
  assert (grow_chunk o chunk size n / 2 <= chunk) by (apply Z.div_le_upper_bound; lia).
  assert (0 < chunk) as Hpos by (unfold options_wf, chunk_ok in *; lia).
  assert (grow_chunk o chunk size n = chunk) as Hgeq.
  { pose proof (Z.div_lt (grow_chunk o chunk size n) 2 ltac:(lia) ltac:(lia)). apply Hgc.
    destruct (Z.le_gt_cases chunk n); [|done]. lia. }
  rewrite Hgeq in *. clear Hgc.
  destruct (Z.eqb_spec (shorts + 1) (read_buffer_short_reads o)); simplify_eq; [|lia].
  pose proof (next_power_of_two_ge n ltac:(lia)). lia.
Qed.

Lemma chunk_shrinks_late_witness :
  65536 <= fst (adapt_run default_options (65536, 0) [(65536, 1)])
  /\ adapt default_options 65536 1 65536 1 = (256, 0)
  /\ 2 * 128 <= 256.
Proof.
  assert (chunk_ok default_options 65536) as Hk by (unfold chunk_ok; cbn; lia).
  destruct (chunk_shrinks_late default_options 65536 default_options_wf Hk) as [H1 H2].
  split; [apply (H1 [(65536, 1)]); reflexivity|]. split; [by vm_compute|].
  by apply (H2 1 65536 1 256 0); [lia|by vm_compute|lia].
Defined.

(** The end of the stream: when the decoder waits for more and the transport has
    ended, the reader reports a clean end exactly when its buffer is empty, and a
    truncated stream otherwise. In particular a stream cut right after a frame's header
    or length, which the decoder has already taken out of the buffer, ends cleanly. *)
Theorem framed_eof {R} `{AsyncRead R, DecodeEof} (self : ZmqFramedRead R) :
  framed_wf self -> starving self ->
  (forall n, snd (poll_read (inner self) n) = Ready (Ok [])) ->
  snd (poll_next self)
  = Some (Ready (if bool_decide (buffer self = []) then None else Some (Err unexpected_eof))).
Proof.
  intros Hwf Hst Heof. unfold poll_next, run_decoder. rewrite decode_short by exact Hst.
  cbn [read_loop codec buffer]. unfold poll_read_into_buffer. cbn [inner].
  match goal with |- context [poll_read ?r ?n] => specialize (Heof n); destruct (poll_read r n) as [r' y] end.
  cbn in Heof. subst y. destruct (adapt _ _ _ _ _) as [chunk shorts].
  unfold run_decoder. cbn [codec buffer]. rewrite app_nil_r, decode_short by exact Hst.
  cbn [buffer]. case_bool_decide as Hb; [done|]. cbn [codec buffer].
  rewrite decode_eof_decode, decode_short by exact Hst. cbn [buffer].
  by rewrite bool_decide_eq_false_2.
Qed.

(** A reader whose decoder has taken the header of a frame of five bytes. *)
Definition mid_frame : ZmqFramedRead script :=
  mkFramedRead (Script [Ready (Ok [])] []) (mkCodec (SFrame (mkFrame false false false)) 5 None 65536)
    [] 128 default_options 0.

Lemma framed_eof_witness : snd (poll_next mid_frame) = Some (Ready None).
Proof.
  apply (framed_eof mid_frame).
  - unfold framed_wf, codec_wf, state_wf, chunk_ok. cbn.
    pose proof default_options_wf. repeat split; done.
  - done.
  - intros n. cbn. unfold script_read. cbn.
    destruct (Z.leb_spec (len (@nil byte)) n); [done|]. cbn. unfold ztake. by rewrite take_nil.
Defined.
