(* ===== verification/FairQueue.v ===== *)
(** The fair queue (src/src/fair_queue.rs): the streams of a socket's peers, polled in
    the order in which they became ready.

    The queue is behind a mutex that is released while a stream is polled and while the
    disconnect callback runs; the sections that hold it are the definitions below, and
    [poll_next] composes them. What a queue shares its state with (a socket's backend)
    is a world that holds it, accessed through [HasQueue]; the callback acts on it. *)

From stdpp Require Import sorting.
From S2P Require Import Prelude.

Local Open Scope Z_scope.

(** [futures::Stream]: one poll gives the new state, the outcome, and whether the
    stream woke the waker it was given before returning. *)
Class Stream (S T : Type) : Type := {
  poll_stream : S -> S * poll (option T) * bool;
}.

(** The task a [Waker] wakes. *)
Abbreviation task := nat (only parsing).

(** ** The ready queue: a [BinaryHeap] of events *)

Record ReadyEvent (K : Type) : Type := mkEvent { priority : Z; key : K }.
Arguments mkEvent {K} _ _.
Arguments priority {K} _.
Arguments key {K} _.

(** [Ord for ReadyEvent]: the smaller priority is the greater event. *)
Definition event_cmp {K} (self other : ReadyEvent K) : comparison :=
  Z.compare (priority other) (priority self).

(** [BinaryHeap::pop]: the greatest event and the others. *)
Fixpoint select_max {K} (e : ReadyEvent K) (heap : list (ReadyEvent K)) :
    ReadyEvent K * list (ReadyEvent K) :=
  match heap with
  | [] => (e, [])
  | x :: heap =>
      match event_cmp x e with
      | Gt => let '(m, rest) := select_max x heap in (m, e :: rest)
      | _ => let '(m, rest) := select_max e heap in (m, x :: rest)
      end
  end.

Definition heap_pop {K} (heap : list (ReadyEvent K)) :
    option (ReadyEvent K * list (ReadyEvent K)) :=
  match heap with [] => None | e :: heap => Some (select_max e heap) end.

(** ** The queue's state *)

(** [wakes] is the effect on the executor: the tasks woken so far, the latest first.
    [on_disconnect] says whether a callback is installed. *)
Record QueueInner (S K : Type) `{Countable K} : Type := mkQueue {
  counter : Z;
  ready_queue : list (ReadyEvent K);
  queued : gset K;
  streams : gmap K S;
  waker : option task;
  on_disconnect : bool;
  wakes : list task;
}.
Arguments mkQueue {S K _ _} _ _ _ _ _ _ _.
Arguments counter {S K _ _} _.
Arguments ready_queue {S K _ _} _.
Arguments queued {S K _ _} _.
Arguments streams {S K _ _} _.
Arguments waker {S K _ _} _.
Arguments on_disconnect {S K _ _} _.
Arguments wakes {S K _ _} _.

Section Operations.
Context {S K : Type} `{Countable K}.
Implicit Types (q : QueueInner S K) (k : K) (s : S).

(** [FairQueue::new] and [FairQueue::set_on_disconnect]. *)
Definition new_queue : QueueInner S K := mkQueue 0 [] ∅ ∅ None false [].

Definition set_on_disconnect q : QueueInner S K :=
  mkQueue (counter q) (ready_queue q) (queued q) (streams q) (waker q) true (wakes q).

Definition set_waker (cx : task) q : QueueInner S K :=
  mkQueue (counter q) (ready_queue q) (queued q) (streams q) (Some cx) (on_disconnect q)
    (wakes q).

Definition set_streams (m : gmap K S) q : QueueInner S K :=
  mkQueue (counter q) (ready_queue q) (queued q) m (waker q) (on_disconnect q) (wakes q).

(** [if let Some(w) = &self.waker { w.wake_by_ref() }], and [self.waker.take()] then
    [wake]. *)
Definition wake_waker q : QueueInner S K :=
  mkQueue (counter q) (ready_queue q) (queued q) (streams q) (waker q) (on_disconnect q)
    (option_list (waker q) ++ wakes q).

Definition take_waker q : QueueInner S K :=
  mkQueue (counter q) (ready_queue q) (queued q) (streams q) None (on_disconnect q)
    (option_list (waker q) ++ wakes q).

(** [push_ready]; [fetch_add] wraps around. *)
Definition push_ready k q : QueueInner S K :=
  if bool_decide (k ∈ queued q) then q
  else mkQueue ((counter q + 1) mod 2 ^ 64) (mkEvent (counter q) k :: ready_queue q)
         ({[k]} ∪ queued q) (streams q) (waker q) (on_disconnect q) (wakes q).

Definition insert_stream k s q : QueueInner S K := set_streams (<[k := s]> (streams q)) q.

Definition insert k s q : QueueInner S K := wake_waker (push_ready k (insert_stream k s q)).

Definition remove k q : QueueInner S K :=
  mkQueue (counter q) (ready_queue q) (queued q ∖ {[k]}) (delete k (streams q)) (waker q)
    (on_disconnect q) (wakes q).

Definition clear q : QueueInner S K :=
  take_waker (mkQueue (counter q) [] ∅ ∅ (waker q) (on_disconnect q) (wakes q)).

(** [StreamWaker::wake_by_ref]. *)
Definition wake k q : QueueInner S K := take_waker (push_ready k q).

(** The value returned when no stream yields: [Pending], or the end of the queue. *)
Definition idle {T} (block_on_no_clients : bool) q : poll (option (K * T)) :=
  if negb (bool_decide (streams q = ∅)) || block_on_no_clients then Pending else Ready None.

(** What the section that pops an event finds. *)
Inductive popped : Type :=
  | Drained
  | Stale
  | Taken (e : ReadyEvent K) (s : S).

Definition pop_event (cx : task) q : QueueInner S K * popped :=
  let q := set_waker cx q in
  match heap_pop (ready_queue q) with
  | None => (q, Drained)
  | Some (event, rest) =>
      let q := mkQueue (counter q) rest (queued q ∖ {[key event]}) (streams q) (waker q)
                 (on_disconnect q) (wakes q) in
      match streams q !! key event with
      | Some s => (set_streams (delete (key event) (streams q)) q, Taken event s)
      | None => (q, Stale)
      end
  end.

(** The end of [poll_next]: the task is woken at once when events are left. *)
Definition finish_poll {T} (cx : task) (block_on_no_clients : bool) q :
    QueueInner S K * poll (option (K * T)) :=
  let q := set_waker cx q in
  let result := idle block_on_no_clients q in
  (if negb (bool_decide (ready_queue q = [])) then wake_waker q else q, result).
End Operations.

(** ** Polling *)

(** A world that holds a queue: the queue alone, or a socket's backend. *)
Class HasQueue (W S K : Type) `{Countable K} : Type := {
  queue : W -> QueueInner S K;
  set_queue : QueueInner S K -> W -> W;
  queue_set q w : queue (set_queue q w) = q;
}.

(** What [on_disconnect] does, when it is installed: on the queue, at most the removal
    of the peer whose stream ended. *)
Class OnDisconnect (W S K : Type) `{HasQueue W S K} : Type := {
  callback : K -> W -> W;
  callback_queue k w : queue (callback k w) = queue w \/ queue (callback k w) = remove k (queue w);
}.

Section Polling.
Context {W S T K : Type} `{Countable K, !HasQueue W S K, !OnDisconnect W S K, !Stream S T}.
Implicit Types (w : W).

Definition update (f : QueueInner S K -> QueueInner S K) w : W := set_queue (f (queue w)) w.

(** The rest of a round, from the poll of the stream that was taken; [None] is
    [continue]. *)
Definition poll_taken (event : ReadyEvent K) (io_stream : S) w :
    W * option (poll (option (K * T))) :=
  let '(io_stream, x, woken) := poll_stream io_stream in
  let w := if woken : bool then update (wake (key event)) w else w in
  match x with
  | Ready (Some res) =>
      (update (fun q => push_ready (key event) (insert_stream (key event) io_stream q)) w,
       Some (Ready (Some (key event, res))))
  | Ready None =>
      (if on_disconnect (queue w) then callback (key event) w else w, None)
  | Pending => (update (insert_stream (key event) io_stream) w, None)
  end.

(** The [while remaining_ready > 0] loop. *)
Fixpoint poll_loop (remaining_ready : nat) (cx : task) (block_on_no_clients : bool) w :
    W * option (poll (option (K * T))) :=
  match remaining_ready with
  | O => (w, None)
  | Datatypes.S remaining_ready =>
      let '(q, p) := pop_event cx (queue w) in
      let w := set_queue q w in
      match p with
      | Drained => (w, Some (idle block_on_no_clients (queue w)))
      | Stale => poll_loop remaining_ready cx block_on_no_clients w
      | Taken event s =>
          match poll_taken event s w with
          | (w, Some r) => (w, Some r)
          | (w, None) => poll_loop remaining_ready cx block_on_no_clients w
          end
      end
  end.

(** [Stream::poll_next] of a [FairQueue]. *)
Definition poll_next (cx : task) (block_on_no_clients : bool) w : W * poll (option (K * T)) :=
  let w := update (set_waker cx) w in
  match poll_loop (length (ready_queue (queue w))) cx block_on_no_clients w with
  | (w, Some r) => (w, r)
  | (w, None) =>
      let '(q, r) := finish_poll cx block_on_no_clients (queue w) in
      (set_queue q w, r)
  end.
End Polling.

(** A queue by itself: without a callback it is its own world. *)
#[export] Instance HasQueue_self {S K} `{Countable K} : HasQueue (QueueInner S K) S K :=
  {| queue q := q; set_queue q _ := q; queue_set _ _ := eq_refl |}.

#[export] Instance OnDisconnect_none {S K} `{Countable K} : OnDisconnect (QueueInner S K) S K :=
  {| callback _ q := q; callback_queue _ _ := or_introl eq_refl |}.

(** ** The heap is a first-in first-out queue *)

Section Fifo.
Context {S K : Type} `{Countable K}.
Implicit Types (q : QueueInner S K) (es : list (ReadyEvent K)).

Definition older (a b : ReadyEvent K) : Prop := priority a < priority b.

(** The events of [q] in the order they were pushed, when the counter has not wrapped. *)
Definition fifo q es : Prop :=
  ready_queue q ≡ₚ es /\ StronglySorted older es
  /\ Forall (fun e => priority e < counter q) es /\ 0 <= counter q <= usize_max.

Lemma select_max_spec (e m : ReadyEvent K) heap rest :
  select_max e heap = (m, rest) ->
  e :: heap ≡ₚ m :: rest /\ Forall (fun x => priority m <= priority x) rest
  /\ priority m <= priority e.
Proof.
  revert e m rest. induction heap as [|x heap IH]; intros e m rest; cbn [select_max].
  { intros [= <- <-]. split_and!; [done|constructor|lia]. }
  unfold event_cmp. destruct (Z.compare_spec (priority e) (priority x)) as [Hc|Hc|Hc];
    destruct (select_max _ heap) as [m' rest'] eqn:E; intros [= -> <-];
    destruct (IH _ _ _ E) as (Hp & Hf & Hle); split_and!; try lia;
    try (constructor; [lia|done]).
  - rewrite (Permutation_swap x m). by rewrite Permutation_swap, Hp.
  - rewrite (Permutation_swap x m). by rewrite Permutation_swap, Hp.
  - rewrite (Permutation_swap e m). by rewrite <- Hp.
Qed.

Lemma heap_pop_fifo heap (e : ReadyEvent K) es :
  heap ≡ₚ e :: es -> StronglySorted older (e :: es) ->
  exists rest, heap_pop heap = Some (e, rest) /\ rest ≡ₚ es.
Proof.
  intros Hp Hs. destruct heap as [|x heap]; [by apply Permutation_nil_cons in Hp|].
  cbn [heap_pop]. destruct (select_max x heap) as [m rest] eqn:E.
  destruct (select_max_spec _ _ _ _ E) as (Hp' & Hf & _). rewrite Hp' in Hp.
  apply StronglySorted_inv in Hs as [_ Hs].
  assert (m = e) as ->; [|exists rest; split; [done|by eapply Permutation_cons_inv]].
  assert (m ∈ e :: es) as Hm by (rewrite <- Hp; left).
  assert (e ∈ m :: rest) as He by (rewrite Hp; left).
  apply elem_of_cons in Hm as [->|Hm]; [done|].
  apply elem_of_cons in He as [->|He]; [done|].
  rewrite Forall_forall in Hs, Hf. specialize (Hs m Hm). specialize (Hf e He).
  unfold older in Hs. lia.
Qed.

Lemma fifo_push q es k :
  fifo q es -> counter q < usize_max -> k ∉ queued q ->
  fifo (push_ready k q) (es ++ [mkEvent (counter q) k])
  /\ counter (push_ready k q) = counter q + 1.
Proof.
  unfold fifo, push_ready. intros (Hp & Hs & Hc & Hr) Hlt Hk. rewrite bool_decide_eq_false_2 by done.
  cbn. unfold usize_max in *. rewrite Z.mod_small by lia. split; [|done]. split_and!; try lia.
  - by rewrite Hp, <- Permutation_cons_append.
  - apply StronglySorted_app_2; [|done|by repeat constructor].
    intros a b Ha ->%list_elem_of_singleton. unfold older; cbn.
    rewrite Forall_forall in Hc. by apply Hc.
  - apply Forall_app; split; [|constructor; [cbn; lia|done]].
    eapply Forall_impl; [done|]. cbn. lia.
Qed.

(** Pushing appends one event, or none when the key is queued already. *)
Lemma fifo_push_ready q es k :
  fifo q es -> counter q < usize_max ->
  exists new, fifo (push_ready k q) (es ++ new) /\ counter (push_ready k q) <= counter q + 1
    /\ Forall (fun e => key e = k) new.
Proof.
  intros Hf Hc. destruct (decide (k ∈ queued q)) as [Hk|Hk].
  - exists []. unfold push_ready. rewrite bool_decide_eq_true_2 by done. rewrite app_nil_r.
    split_and!; [done|lia|constructor].
  - destruct (fifo_push q es k Hf Hc Hk) as [Hf' Hc']. exists [mkEvent (counter q) k].
    split_and!; [done|lia|by repeat constructor].
Qed.

Lemma fifo_ext q q' es :
  ready_queue q' = ready_queue q -> counter q' = counter q -> fifo q es -> fifo q' es.
Proof. unfold fifo. by intros -> ->. Qed.

Lemma push_ready_streams k q : streams (push_ready k q) = streams q.
Proof. unfold push_ready. by case_bool_decide. Qed.
End Fifo.

(** ** No starvation *)

Section Fairness.
Context {S T K : Type} `{Countable K, !Stream S T}.
Implicit Types (q : QueueInner S K) (es : list (ReadyEvent K)) (r : poll (option (K * T))).

Lemma push_ready_queued k q : k ∈ queued (push_ready k q).
Proof. unfold push_ready. case_bool_decide; [done|]. cbn. set_solver. Qed.

Lemma push_ready_idem k q : k ∈ queued q -> push_ready k q = q.
Proof. intros Hk. unfold push_ready. by rewrite bool_decide_eq_true_2. Qed.

(** A round leaves the older events in place, appends at most one, and touches no
    other stream. *)
Lemma poll_taken_fifo (event : ReadyEvent K) s q q' es (o : option (poll (option (K * T)))) :
  fifo q es -> counter q < usize_max -> poll_taken event s q = (q', o) ->
  exists new, fifo q' (es ++ new) /\ counter q' <= counter q + 1
    /\ (forall k, k <> key event -> streams q' !! k = streams q !! k).
Proof.
  intros Hf Hc. unfold poll_taken, update. cbn.
  destruct (poll_stream s) as [[s' y] wk].
  destruct (fifo_push_ready q es (key event) Hf Hc) as (new & Hf' & Hc' & _).
  destruct wk, y as [[x|]|]; intros [= <- <-]; cbn.
  - exists new. rewrite push_ready_idem by (cbn; apply push_ready_queued).
    split_and!; [by eapply fifo_ext|done|].
    intros k Hk. cbn. rewrite lookup_insert_ne by done. by rewrite push_ready_streams.
  - exists new. destruct (on_disconnect _);
      (split_and!; [by eapply fifo_ext|done|intros k Hk; cbn; by rewrite push_ready_streams]).
  - exists new. split_and!; [by eapply fifo_ext|done|].
    intros k Hk. cbn. rewrite lookup_insert_ne by done. by rewrite push_ready_streams.
  - destruct (fifo_push_ready (insert_stream (key event) s' q) es (key event)) as (new' & Hg & Hd & _);
      [by eapply fifo_ext|done|].
    exists new'. split_and!; [done|done|]. intros k Hk.
    rewrite push_ready_streams. cbn. by rewrite lookup_insert_ne.
  - exists []. rewrite app_nil_r. destruct (on_disconnect q); split_and!; done || lia.
  - exists []. rewrite app_nil_r. split_and!; [by eapply fifo_ext|lia|].
    intros k Hk. cbn. by rewrite lookup_insert_ne.
Qed.

Lemma pop_event_fifo cx q e es :
  fifo q (e :: es) ->
  exists q' p, pop_event cx q = (q', p) /\ fifo q' es /\ counter q' = counter q
    /\ p = match streams q !! key e with Some s => Taken e s | None => Stale end
    /\ forall k, k <> key e -> streams q' !! k = streams q !! k.
Proof.
  intros (Hp & Hs & Hc & Hr).
  destruct (heap_pop_fifo _ e es Hp Hs) as (rest & Hpop & Hrest).
  unfold pop_event. cbn. rewrite Hpop. cbn.
  apply StronglySorted_inv in Hs as [Hs _]. apply Forall_cons in Hc as [_ Hc].
  destruct (streams q !! key e) as [s|] eqn:E; do 2 eexists; split_and!; try done.
  intros k Hk. cbn. by rewrite lookup_delete_ne.
Qed.

(** What a caller sees while the stream at [e] waits for its turn: its item, or
    another peer's item with the turn of [e] closer. *)
Definition closer (e : ReadyEvent K) (s : S) (x : T) q es1 q' r : Prop :=
  r = Ready (Some (key e, x))
  \/ exists k' x' es1' es2', r = Ready (Some (k', x')) /\ k' <> key e
       /\ (length es1' < length es1)%nat /\ (key e ∉ key <$> es1')
       /\ fifo q' (es1' ++ e :: es2') /\ streams q' !! key e = Some s
       /\ counter q' + len es1' <= counter q + len es1.

Lemma closer_mono e s x q0 es0 q1 es1 q' r :
  (length es1 <= length es0)%nat -> counter q1 + len es1 <= counter q0 + len es0 ->
  closer e s x q1 es1 q' r -> closer e s x q0 es0 q' r.
Proof.
  intros Hl Hc [->|(k' & x' & es1' & es2' & -> & Hne & Hl' & Hk & Hf & Hs & Hc')]; [by left|].
  right. exists k', x', es1', es2'. split_and!; done || lia.
Qed.

Lemma poll_loop_closer e s s' x wk es1 n cx b q es2 :
  poll_stream s = (s', Ready (Some x), wk) ->
  fifo q (es1 ++ e :: es2) -> (key e ∉ key <$> es1) -> streams q !! key e = Some s ->
  (length es1 < n)%nat -> counter q + len es1 < usize_max ->
  exists q' r, poll_loop n cx b q = (q', Some r) /\ closer e s x q es1 q' r.
Proof.
  intros Hpoll. revert n q es2.
  induction es1 as [|a es1 IH]; intros [|n] q es2 Hf Hk Hs Hn Hc; cbn in Hn; try lia;
    cbn [app] in Hf; cbn [poll_loop queue HasQueue_self];
    destruct (pop_event_fifo cx q _ _ Hf) as (q1 & p & Hpop & Hf1 & Hc1 & Hp & Hs1);
    rewrite Hpop; cbn [set_queue HasQueue_self].
  { rewrite Hs in Hp. subst p. unfold poll_taken. rewrite Hpoll.
    do 2 eexists. split; [done|by left]. }
  cbn [fmap list_fmap] in Hk. apply not_elem_of_cons in Hk as [Hka Hk].
  rewrite len_cons in Hc. rewrite <- (Hs1 _ Hka) in Hs. pose proof (len_nonneg es1).
  assert (forall q2 es2', fifo q2 (es1 ++ e :: es2') -> streams q2 !! key e = Some s ->
    counter q2 <= counter q + 1 ->
    exists q' r, poll_loop n cx b q2 = (q', Some r) /\ closer e s x q (a :: es1) q' r) as Hgo.
  { intros q2 es2' Hf2 Hs2 Hc2. destruct (IH n q2 es2' Hf2 Hk Hs2) as (q' & r & Hl & Hr); [lia..|].
    exists q', r. split; [done|]. eapply closer_mono; [..|done]; [cbn; lia|rewrite len_cons; lia]. }
  destruct (streams q !! key a) as [sa|]; subst p; [|apply (Hgo q1 es2); [done|done|lia]].
  destruct (poll_taken a sa q1) as [q2 o] eqn:Ht.
  destruct (poll_taken_fifo a sa q1 q2 _ o Hf1 ltac:(lia) Ht) as (new & Hf2 & Hc2 & Hs2).
  rewrite <- app_assoc in Hf2. cbn [app] in Hf2. rewrite <- (Hs2 _ Hka) in Hs.
  destruct o as [r|]; [|apply (Hgo q2 (es2 ++ new)); [done|done|lia]].
  exists q2, r. split; [done|]. right.
  assert (exists x', r = Ready (Some (key a, x'))) as [x' ->].
  { unfold poll_taken in Ht. destruct (poll_stream sa) as [[? [[]|]] []]; simplify_eq; by eexists. }
  exists (key a), x', es1, (es2 ++ new). rewrite len_cons.
  split_and!; try done; cbn; lia.
Qed.

Lemma poll_next_closer e s s' x wk es1 cx b q es2 :
  poll_stream s = (s', Ready (Some x), wk) ->
  fifo q (es1 ++ e :: es2) -> (key e ∉ key <$> es1) -> streams q !! key e = Some s ->
  counter q + len es1 < usize_max ->
  exists q' r, poll_next cx b q = (q', r) /\ closer e s x q es1 q' r.
Proof.
  intros Hpoll Hf Hk Hs Hc. unfold poll_next, update. cbn.
  destruct (poll_loop_closer e s s' x wk es1 (length (ready_queue q)) cx b (set_waker cx q) es2)
    as (q' & r & Hl & Hr); try done.
  - destruct Hf as [Hp _]. rewrite (Permutation_length Hp), length_app. cbn. lia.
  - rewrite Hl. by exists q', r.
Qed.

(** Successive calls of [poll_next] by one task. *)
Fixpoint polls (n : nat) (cx : task) (b : bool) q : list (poll (option (K * T))) :=
  match n with
  | O => []
  | Datatypes.S n => let '(q, r) := poll_next cx b q in r :: polls n cx b q
  end.
End Fairness.

(** C17 No starvation: a peer whose stream has an item, and whose event has [n] older ones
    before it, is served by one of the next [n + 1] calls of [poll_next], and the calls
    before it serve other peers, whatever their streams do. (The order is that of a
    counter that wraps after [2 ^ 64] events.) *)
Theorem fair_queue_no_starvation {S T K} `{Countable K, !Stream S T} (q : QueueInner S K)
    (older_events newer_events : list (ReadyEvent K)) (e : ReadyEvent K) (s s' : S) (x : T)
    (wk : bool) (cx : task) (b : bool) :
  fifo q (older_events ++ e :: newer_events) -> (key e ∉ key <$> older_events) ->
  streams q !! key e = Some s -> poll_stream s = (s', Ready (Some x), wk) ->
  counter q + len older_events < usize_max ->
  exists i, (i <= length older_events)%nat
    /\ polls (Datatypes.S (length older_events)) cx b q !! i = Some (Ready (Some (key e, x)))
    /\ forall j, (j < i)%nat ->
         exists k' x', polls (Datatypes.S (length older_events)) cx b q !! j
           = Some (Ready (Some (k', x'))) /\ k' <> key e.
Proof.
  intros Hf Hk Hs Hpoll. assert (exists n, length older_events <= n)%nat as [n Hn] by eauto.
  assert (Hgen : forall m, (length older_events <= m)%nat -> counter q + len older_events < usize_max ->
    exists i, (i <= length older_events)%nat
      /\ polls (Datatypes.S m) cx b q !! i = Some (Ready (Some (key e, x)))
      /\ forall j, (j < i)%nat -> exists k' x', polls (Datatypes.S m) cx b q !! j
           = Some (Ready (Some (k', x'))) /\ k' <> key e);
    [|intros Hc; by apply Hgen].
  revert q older_events newer_events Hf Hk Hs Hn.
  induction n as [|n IH]; intros q older_events newer_events Hf Hk Hs Hn m Hm Hc;
    destruct (poll_next_closer e s s' x wk _ cx b q _ Hpoll Hf Hk Hs Hc) as (q' & r & Hp & Hr);
    cbn [polls]; rewrite Hp;
    (destruct Hr as [->|(k' & x' & es1 & es2 & -> & Hne & Hl & Hk' & Hf' & Hs' & Hc')];
     [exists 0%nat; split_and!; [lia|done|lia]|]); [lia|].
  destruct m as [|m]; [lia|].
  destruct (IH q' es1 es2 Hf' Hk' Hs' ltac:(lia) m ltac:(lia) ltac:(lia)) as (i & Hi & Hx & Hj).
  exists (Datatypes.S i). split_and!; [lia|done|].
  intros [|j] Hlt; [by exists k', x'|]. apply Hj. lia.
Qed.

(** ** No lost wake-up *)

Section Wakeups.
Context {W S T K : Type} `{Countable K, !HasQueue W S K, !OnDisconnect W S K, !Stream S T}.
Implicit Types (w : W) (q : QueueInner S K).

(** The last poll of [s] was pending, with the queue's waker registered. *)
Definition parked (s : S) : Prop := exists s0, poll_stream s0 = (s, Pending, false).

(** Every stream is queued, or will wake the queue; every queued key has an event. *)
Definition armed q : Prop :=
  (forall k s, streams q !! k = Some s -> k ∈ queued q \/ parked s)
  /\ (forall k, k ∈ queued q -> k ∈ key <$> ready_queue q).

Lemma new_queue_armed : armed new_queue.
Proof. by split. Qed.

Lemma armed_push k q : armed q -> armed (push_ready k q) /\ k ∈ queued (push_ready k q).
Proof.
  intros [Ha Hb]. unfold push_ready. case_bool_decide as Hk; [done|]. split; [|cbn; set_solver].
  split; cbn.
  - intros k' s Hs. destruct (Ha k' s Hs); [left; set_solver|by right].
  - intros k' [->%elem_of_singleton|Hk']%elem_of_union; [left|right; by apply Hb].
Qed.

(** A stream may be put in when its key is queued, or when it is parked. *)
Lemma armed_insert k s q :
  armed q -> k ∈ queued q \/ parked s -> armed (insert_stream k s q).
Proof.
  intros [Ha Hb] Hs. split; [|done]. intros k' s'. cbn.
  destruct (decide (k = k')) as [<-|]; [rewrite lookup_insert_eq; by intros [= <-]|].
  rewrite lookup_insert_ne by done. apply Ha.
Qed.

Lemma armed_push_insert k s q : armed q -> armed (push_ready k (insert_stream k s q)).
Proof.
  intros Ha. destruct (armed_push k q Ha) as [Ha1 Hk].
  assert (push_ready k (insert_stream k s q) = insert_stream k s (push_ready k q)) as ->
    by (unfold push_ready, insert_stream; cbn; by case_bool_decide).
  apply armed_insert; [done|by left].
Qed.

Lemma armed_remove k q : armed q -> armed (remove k q).
Proof.
  intros [Ha Hb]. split; cbn.
  - intros k' s [Hne Hs]%lookup_delete_Some. destruct (Ha k' s Hs); [left; set_solver|by right].
  - intros k' Hk'. apply Hb. set_solver.
Qed.

Lemma armed_ext q q' :
  ready_queue q' = ready_queue q -> queued q' = queued q -> streams q' = streams q ->
  armed q -> armed q'.
Proof. unfold armed. by intros -> -> ->. Qed.

Lemma armed_insert_op k s q : armed q -> armed (insert k s q).
Proof. intros Ha. eapply armed_ext, (armed_push_insert k s); done. Qed.

Lemma armed_wake k q : armed q -> armed (wake k q).
Proof. intros Ha. eapply armed_ext, (proj1 (armed_push k q Ha)); done. Qed.

Lemma pop_event_armed cx q q' p : pop_event cx q = (q', p) -> armed q -> armed q'.
Proof.
  unfold pop_event. cbn. intros Hp [Ha Hb].
  destruct (heap_pop (ready_queue q)) as [[e rest]|] eqn:Hh; [|by simplify_eq].
  assert (Hperm : ready_queue q ≡ₚ e :: rest).
  { unfold heap_pop in Hh. destruct (ready_queue q) as [|a l]; [done|]. simplify_eq.
    by destruct (select_max_spec a e l rest Hh). }
  cbn in Hp. destruct (streams q !! key e) as [s|] eqn:E; simplify_eq; split; cbn.
  - intros k s' [Hne Hs]%lookup_delete_Some. destruct (Ha k s' Hs); [left; set_solver|by right].
  - intros k [Hk Hne]%elem_of_difference. apply Hb in Hk. rewrite Hperm in Hk. set_solver.
  - intros k s' Hs. destruct (Ha k s' Hs); [left|by right].
    apply elem_of_difference; split; [done|]. intros ->%elem_of_singleton. congruence.
  - intros k [Hk Hne]%elem_of_difference. apply Hb in Hk. rewrite Hperm in Hk. set_solver.
Qed.

Lemma queue_update f w : queue (update f w) = f (queue w).
Proof. apply queue_set. Qed.

Lemma armed_callback k w : armed (queue w) -> armed (queue (callback k w)).
Proof. destruct (callback_queue k w) as [->| ->]; [done|apply armed_remove]. Qed.

Lemma poll_taken_armed e s w w' (o : option (poll (option (K * T)))) :
  poll_taken e s w = (w', o) -> armed (queue w) -> armed (queue w').
Proof.
  unfold poll_taken. intros Hp Ha. destruct (poll_stream s) as [[s' y] wk] eqn:Hs.
  set (w1 := if wk then update (wake (key e)) w else w) in *.
  assert (armed (queue w1)) as Ha1.
  { unfold w1. destruct wk; [rewrite queue_update; by apply armed_wake|done]. }
  destruct y as [[x|]|]; injection Hp as <- <-.
  - rewrite queue_update. by apply armed_push_insert.
  - destruct (on_disconnect _); [by apply armed_callback|done].
  - rewrite queue_update. apply armed_insert; [done|]. unfold w1. destruct wk.
    + left. rewrite queue_update. apply push_ready_queued.
    + right. by exists s.
Qed.

Lemma poll_loop_armed n cx b w w' (o : option (poll (option (K * T)))) :
  poll_loop n cx b w = (w', o) -> armed (queue w) -> armed (queue w').
Proof.
  revert w. induction n as [|n IH]; intros w; cbn [poll_loop]; [by intros [= <- <-]|].
  destruct (pop_event cx (queue w)) as [q p] eqn:Hp. intros Hl Ha.
  apply pop_event_armed in Hp; [|done].
  destruct p as [| |e s]; [by simplify_eq; rewrite queue_set|eapply IH; [done|by rewrite queue_set]|].
  destruct (poll_taken e s (set_queue q w)) as [w1 o1] eqn:Ht.
  apply poll_taken_armed in Ht; [|by rewrite queue_set].
  destruct o1; [by simplify_eq|by eapply IH].
Qed.

Lemma poll_next_armed cx b w w' (r : poll (option (K * T))) :
  poll_next cx b w = (w', r) -> armed (queue w) -> armed (queue w').
Proof.
  unfold poll_next. intros Hp Ha.
  destruct (poll_loop _ _ _ _) as [w1 o] eqn:Hl. apply poll_loop_armed in Hl;
    [|rewrite queue_update; by eapply armed_ext, Ha].
  destruct o; [by simplify_eq|]. unfold finish_poll in Hp. simplify_eq. rewrite queue_set.
  case_bool_decide; by eapply armed_ext, Hl.
Qed.

(** Polling changes the world only by its queue and the callback. *)
Lemma poll_next_frame (P : W -> Prop) cx b w w' (r : poll (option (K * T))) :
  (forall q w, P w -> P (set_queue q w)) -> (forall k w, P w -> P (callback k w)) ->
  poll_next cx b w = (w', r) -> P w -> P w'.
Proof.
  intros Hset Hcb. unfold poll_next.
  assert (forall n w w' (o : option (poll (option (K * T)))), poll_loop n cx b w = (w', o) -> P w -> P w') as Hloop.
  { clear w w' r. induction n as [|n IH]; intros w w' o; cbn [poll_loop]; [by intros [= <- _]|].
    destruct (pop_event cx (queue w)) as [q p]. destruct p as [| |e s].
    - intros [= <- _]. apply Hset.
    - intros Hl Hp. eapply IH, Hset; done.
    - destruct (poll_taken e s (set_queue q w)) as [w1 o1] eqn:Ht. intros Hl Hp.
      assert (P w1) as Hp1.
      { unfold poll_taken, update in Ht. destruct (poll_stream s) as [[s' y] wk].
        destruct y as [[x|]|], wk; simplify_eq; try destruct (on_disconnect _); auto. }
      destruct o1; [by simplify_eq|by eapply IH]. }
  destruct (poll_loop _ cx b _) as [w1 o] eqn:Hl. intros Hr Hp.
  assert (P w1) as Hp1 by (eapply Hloop; [exact Hl|by apply Hset]).
  destruct o; [by simplify_eq|]. destruct (finish_poll _ _ _) as [q r1]. simplify_eq. by apply Hset.
Qed.

(** Wake-ups are only added. *)
Lemma poll_taken_wakes e s w w' (o : option (poll (option (K * T)))) :
  poll_taken e s w = (w', o) -> wakes (queue w) `suffix_of` wakes (queue w').
Proof.
  unfold poll_taken. intros Hp. destruct (poll_stream s) as [[s' y] wk].
  assert (Hpush : forall k q, wakes (push_ready k q) = wakes q)
    by (intros; unfold push_ready; by case_bool_decide).
  trans (wakes (queue (if wk then update (wake (key e)) w else w))).
  { destruct wk; [|done]. rewrite queue_update. cbn. rewrite !Hpush. by apply suffix_app_r. }
  remember (if wk then _ else _) as w1 eqn:E. clear E.
  destruct y as [[x|]|]; injection Hp as <- <-; rewrite ?queue_update, ?Hpush; try done.
  destruct (on_disconnect _); [|done]. by destruct (callback_queue (key e) w1) as [->| ->].
Qed.

Lemma poll_loop_wakes n cx b w w' (o : option (poll (option (K * T)))) :
  poll_loop n cx b w = (w', o) -> wakes (queue w) `suffix_of` wakes (queue w').
Proof.
  revert w. induction n as [|n IH]; intros w; cbn [poll_loop]; [by intros [= <- <-]|].
  destruct (pop_event cx (queue w)) as [q p] eqn:Hp. intros Hl.
  assert (wakes (queue w) = wakes (queue (set_queue q w))) as ->.
  { rewrite queue_set. unfold pop_event in Hp. cbn in Hp.
    by destruct (heap_pop _) as [[e rest]|]; [destruct (streams _ !! _)|]; simplify_eq. }
  destruct p as [| |e s]; [by simplify_eq|by eapply IH|].
  destruct (poll_taken e s (set_queue q w)) as [w1 o1] eqn:Ht.
  apply poll_taken_wakes in Ht. destruct o1; [by simplify_eq|]. etrans; [done|by eapply IH].
Qed.

(** The queue is only idle when it has no events, or when it wakes the task itself. *)
Lemma poll_loop_idle n cx b w w' :
  poll_loop n cx b w = (w', Some (Pending : poll (option (K * T)))) ->
  waker (queue w') = Some cx /\ ready_queue (queue w') = [].
Proof.
  revert w. induction n as [|n IH]; intros w; cbn [poll_loop]; [done|].
  unfold pop_event. cbn. destruct (heap_pop _) as [[e rest]|] eqn:Hh.
  - cbn. destruct (streams (queue w) !! key e) as [s|]; [|apply IH].
    destruct (poll_taken _ _ _) as [w1 o1] eqn:Ht. destruct o1; [|apply IH].
    unfold poll_taken in Ht. destruct (poll_stream s) as [[? [[]|]] ?]; by simplify_eq.
  - intros Hp. simplify_eq. rewrite queue_set. cbn. split; [done|].
    unfold heap_pop in Hh. by destruct (ready_queue (queue w)).
Qed.

Lemma poll_next_idle cx b w w' :
  poll_next cx b w = (w', Pending : poll (option (K * T))) ->
  waker (queue w') = Some cx
  /\ (ready_queue (queue w') = []
      \/ exists ws, wakes (queue w') = cx :: ws /\ wakes (queue w) `suffix_of` ws).
Proof.
  unfold poll_next. intros Hp.
  destruct (poll_loop _ _ _ _) as [w1 o] eqn:Hl. destruct o as [r|].
  - simplify_eq. apply poll_loop_idle in Hl as [? ?]. by split; [|left].
  - unfold finish_poll in Hp. simplify_eq. rewrite queue_set.
    case_bool_decide as Hr; cbn; (split; [done|]); [by left|right; eexists; split; [done|]].
    apply poll_loop_wakes in Hl. by rewrite queue_update in Hl.
Qed.

Lemma poll_next_wakes cx b w w' (r : poll (option (K * T))) :
  poll_next cx b w = (w', r) -> wakes (queue w) `suffix_of` wakes (queue w').
Proof.
  unfold poll_next. destruct (poll_loop _ _ _ _) as [w1 o] eqn:Hl.
  apply poll_loop_wakes in Hl. rewrite queue_update in Hl. destruct o; [by intros [= <- _]|].
  unfold finish_poll. intros Hp. simplify_eq. rewrite queue_set. etrans; [exact Hl|].
  case_bool_decide; cbn; [done|by apply suffix_cons_r].
Qed.

(** What a queue that waits for the task [cx] has: the waker of the task, and either it has woken
    the task again, since the wake-ups [ws0], or none of its streams has anything. *)
Definition waits (cx : task) (ws0 : list task) q : Prop :=
  waker q = Some cx
  /\ ((exists ws, wakes q = cx :: ws /\ ws0 `suffix_of` ws)
      \/ (forall k s, streams q !! k = Some s -> parked s)).

Lemma poll_next_waits cx b w w' :
  armed (queue w) -> poll_next cx b w = (w', Pending : poll (option (K * T))) ->
  waits cx (wakes (queue w)) (queue w').
Proof.
  intros Ha Hp. destruct (poll_next_idle _ _ _ _ Hp) as [Hw [Hr|Hr]]; (split; [done|]); [right|by left].
  intros k s Hs. destruct (poll_next_armed _ _ _ _ _ Hp Ha) as [Ha1 Hb1].
  destruct (Ha1 k s Hs) as [Hk%Hb1|]; [|done]. rewrite Hr in Hk. by apply elem_of_nil in Hk.
Qed.

Lemma waits_suffix cx ws0 ws1 q : ws0 `suffix_of` ws1 -> waits cx ws1 q -> waits cx ws0 q.
Proof.
  intros Hs [Hw [(ws & Hws & Hsuf)|Hp]]; (split; [done|]); [left|by right]. exists ws. split; [done|by etrans].
Qed.
End Wakeups.

(** ** Streams that do not wake while they are polled *)

Section Quiet.
Context {W S T K : Type} `{Countable K, !HasQueue W S K, !OnDisconnect W S K, !Stream S T}.
Hypothesis quiet : forall s : S, snd (poll_stream s) = false.
Implicit Types (w : W) (q : QueueInner S K).

Lemma pop_event_length cx q q' p :
  pop_event cx q = (q', p) -> (length (ready_queue q') <= pred (length (ready_queue q)))%nat.
Proof.
  unfold pop_event. cbn. intros Hp. destruct (heap_pop (ready_queue q)) as [[e rest]|] eqn:Hh.
  - assert (length (ready_queue q) = Datatypes.S (length rest)) as ->.
    { unfold heap_pop in Hh. destruct (ready_queue q) as [|a l]; [done|]. simplify_eq.
      by destruct (select_max_spec a e l rest Hh) as [->%Permutation_length _]. }
    cbn in Hp. destruct (streams q !! key e); by simplify_eq.
  - unfold heap_pop in Hh. destruct (ready_queue q) as [|a l] eqn:E; [|done]. simplify_eq. cbn. by rewrite E.
Qed.

Lemma poll_taken_length e s w w' :
  poll_taken e s w = (w', None : option (poll (option (K * T)))) ->
  ready_queue (queue w') = ready_queue (queue w).
Proof using quiet.
  unfold poll_taken. pose proof (quiet s) as Hq. destruct (poll_stream s) as [[s' y] wk]. cbn in Hq. subst wk.
  destruct y as [[x|]|]; [done|..]; intros Hp; injection Hp as <-; [|by rewrite queue_update].
  destruct (on_disconnect _); [|done]. by destruct (callback_queue (key e) w) as [->| ->].
Qed.

Lemma poll_loop_empties n cx b w w' :
  (length (ready_queue (queue w)) <= n)%nat ->
  poll_loop n cx b w = (w', None : option (poll (option (K * T)))) -> ready_queue (queue w') = [].
Proof using quiet.
  revert w. induction n as [|n IH]; intros w Hn; cbn [poll_loop].
  { intros [= <-]. by apply length_zero_iff_nil; lia. }
  destruct (pop_event cx (queue w)) as [q p] eqn:Hp. apply pop_event_length in Hp.
  destruct p as [| |e s]; [done|apply IH; rewrite queue_set; lia|].
  destruct (poll_taken e s (set_queue q w)) as [w1 [r|]] eqn:Ht; [done|].
  apply poll_taken_length in Ht. rewrite queue_set in Ht. apply IH. rewrite Ht. lia.
Qed.

(** When such a queue waits, all its streams have been polled to the end of what they had. *)
Lemma poll_next_parked cx b w w' :
  armed (queue w) -> poll_next cx b w = (w', Pending : poll (option (K * T))) ->
  forall k s, streams (queue w') !! k = Some s -> parked s.
Proof using quiet.
  intros Ha Hp k s Hs.
  assert (ready_queue (queue w') = []) as Hr.
  { unfold poll_next in Hp. destruct (poll_loop _ _ _ _) as [w1 o] eqn:Hl. destruct o as [r|].
    - simplify_eq. by apply poll_loop_idle in Hl as [_ ?].
    - apply poll_loop_empties in Hl; [|done]. unfold finish_poll in Hp. simplify_eq.
      rewrite queue_set. by case_bool_decide. }
  destruct (poll_next_armed _ _ _ _ _ Hp Ha) as [Ha' Hb].
  destruct (Ha' k s Hs) as [Hk%Hb|]; [|done]. rewrite Hr in Hk. by apply elem_of_nil in Hk.
Qed.
End Quiet.

(** C18 No lost wake-up: the queue operations keep every stream either queued or parked
    with the queue's waker registered. When [poll_next] is pending, the task's waker is
    registered, and either the task has been woken again already or every stream is
    parked; and the next wake-up of a stream, or the next peer, wakes the task and leaves
    an event for it. *)
Theorem fair_queue_no_lost_wakeup {W S T K}
    `{Countable K, !HasQueue W S K, !OnDisconnect W S K, !Stream S T}
    (cx : task) (b : bool) (w w' : W) :
  armed (queue w) -> poll_next cx b w = (w', Pending : poll (option (K * T))) ->
  armed (queue w') /\ waits cx (wakes (queue w)) (queue w')
  /\ (forall k, wakes (wake k (queue w')) = cx :: wakes (queue w')
               /\ k ∈ key <$> ready_queue (wake k (queue w')))
  /\ (forall k s, wakes (insert k s (queue w')) = cx :: wakes (queue w')
                 /\ k ∈ key <$> ready_queue (insert k s (queue w'))).
Proof.
  intros Ha Hp. pose proof (poll_next_armed _ _ _ _ _ Hp Ha) as Ha'.
  pose proof (poll_next_waits _ _ _ _ Ha Hp) as Hwaits. pose proof Hwaits as [Hw _].
  split_and!; [done..| |].
  - intros k. destruct (armed_push k _ Ha') as [[_ Hb] Hk]. split; [|by apply Hb].
    unfold wake, push_ready. case_bool_decide; cbn; by rewrite Hw.
  - intros k s. destruct (armed_push k _ (armed_push_insert k s _ Ha')) as [[_ Hb] Hk].
    rewrite (push_ready_idem k (push_ready _ _)) in Hb, Hk by apply push_ready_queued.
    split; [|by apply Hb]. unfold insert, push_ready. case_bool_decide; cbn; by rewrite Hw.
Qed.

(** ** Nothing is lost, duplicated or reordered *)

Section Conservation.
Context {W S T K : Type} `{Countable K, !HasQueue W S K, !OnDisconnect W S K, !Stream S T}.
Implicit Types (w : W) (q : QueueInner S K).

(** [trace s l s']: polls of [s] that yield the items [l] leave [s']. *)
Inductive trace : S -> list T -> S -> Prop :=
  | trace_nil s : trace s [] s
  | trace_pending s s1 wk l s' :
      poll_stream s = (s1, Pending, wk) -> trace s1 l s' -> trace s l s'
  | trace_item s s1 x wk l s' :
      poll_stream s = (s1, Ready (Some x), wk) -> trace s1 l s' -> trace s (x :: l) s'.

Definition ended (s : S) : Prop :=
  exists s1 s2 wk, trace s [] s1 /\ poll_stream s1 = (s2, Ready None, wk).

(** What can become of a peer's stream while the items [l] of it are returned. *)
Definition flows (before : option S) (l : list T) (after : option S) : Prop :=
  match before, after with
  | Some s, Some s' => trace s l s'
  | Some s, None => l = [] /\ ended s
  | None, None => l = []
  | None, Some _ => False
  end.

Lemma trace_app s l1 s1 l2 s2 : trace s l1 s1 -> trace s1 l2 s2 -> trace s (l1 ++ l2) s2.
Proof. induction 1; intros; cbn; [done|by eapply trace_pending, IHtrace|by eapply trace_item, IHtrace]. Qed.

Lemma flows_refl o : flows o [] o.
Proof. destruct o; [constructor|done]. Qed.

Lemma flows_trans o1 o2 l o3 : flows o1 [] o2 -> flows o2 l o3 -> flows o1 l o3.
Proof.
  destruct o1 as [s1|], o2 as [s2|], o3 as [s3|]; cbn; try done.
  - intros H1 H2. by apply (trace_app _ [] _ _ _ H1 H2).
  - intros H1 [-> (a & c & wk & H2 & Hp)]. split; [done|]. exists a, c, wk.
    split; [by apply (trace_app _ [] _ _ _ H1 H2)|done].
  - by intros [_ He] ->.
Qed.

(** The items of [k] in an outcome. *)
Definition items_of (k : K) (r : option (poll (option (K * T)))) : list T :=
  match r with
  | Some (Ready (Some (k', x))) => if decide (k = k') then [x] else []
  | _ => []
  end.

Definition conserves (m : gmap K S) (r : option (poll (option (K * T)))) (m' : gmap K S) : Prop :=
  forall k, flows (m !! k) (items_of k r) (m' !! k).

Lemma push_ready_streams_q k q : streams (push_ready k q) = streams q.
Proof. unfold push_ready. by case_bool_decide. Qed.

Lemma poll_taken_conserves e s w w' (o : option (poll (option (K * T)))) :
  streams (queue w) !! key e = None -> poll_taken e s w = (w', o) ->
  conserves (<[key e := s]> (streams (queue w))) o (streams (queue w')).
Proof.
  unfold poll_taken. intros Hn Hp. destruct (poll_stream s) as [[s' y] wk] eqn:Hs.
  set (w1 := if wk then update (wake (key e)) w else w) in *.
  assert (streams (queue w1) = streams (queue w)) as Hw1.
  { unfold w1. destruct wk; [|done]. rewrite queue_update. cbn. apply push_ready_streams_q. }
  assert (forall k, k <> key e -> streams (queue w') !! k = streams (queue w) !! k) as Hother.
  { intros k Hk. rewrite <- Hw1. destruct y as [[x|]|]; injection Hp as <- _.
    - rewrite queue_update, push_ready_streams_q. cbn. by rewrite lookup_insert_ne.
    - destruct (on_disconnect _); [|done]. destruct (callback_queue (key e) w1) as [->| ->]; [done|].
      cbn. by rewrite lookup_delete_ne.
    - rewrite queue_update. cbn. by rewrite lookup_insert_ne. }
  intros k. destruct (decide (k = key e)) as [->|Hk].
  - rewrite lookup_insert_eq. destruct y as [[x|]|]; injection Hp as <- <-; cbn [items_of].
    + rewrite decide_True, queue_update, push_ready_streams_q by done. cbn. rewrite lookup_insert_eq.
      eapply trace_item; [done|constructor].
    + assert (streams (queue (if on_disconnect (queue w1) then callback (key e) w1 else w1))
        !! key e = None) as ->; [|split; [done|]; exists s, s', wk; by split; [constructor|]].
      destruct (on_disconnect _); [|by rewrite Hw1].
      destruct (callback_queue (key e) w1) as [->| ->]; [by rewrite Hw1|apply lookup_delete_eq].
    + rewrite queue_update. cbn. rewrite lookup_insert_eq. eapply trace_pending; [done|constructor].
  - rewrite lookup_insert_ne, Hother by done.
    assert (items_of k o = []) as ->; [|apply flows_refl].
    destruct y as [[x|]|]; injection Hp as _ <-; cbn; [by rewrite decide_False|done..].
Qed.

Lemma pop_event_streams cx q q' p :
  pop_event cx q = (q', p) ->
  streams q = match p with Taken e s => <[key e := s]> (streams q') | _ => streams q' end
  /\ match p with Taken e s => streams q' !! key e = None | _ => True end.
Proof.
  unfold pop_event. cbn. intros Hp. destruct (heap_pop _) as [[e rest]|]; [|by simplify_eq].
  cbn in Hp. destruct (streams q !! key e) as [s|] eqn:E; simplify_eq; cbn; [|done].
  split; [by rewrite insert_delete_id|apply lookup_delete_eq].
Qed.

Lemma poll_loop_conserves n cx b w w' (o : option (poll (option (K * T)))) :
  poll_loop n cx b w = (w', o) -> conserves (streams (queue w)) o (streams (queue w')).
Proof.
  revert w. induction n as [|n IH]; intros w; cbn [poll_loop].
  { intros [= <- <-] k. apply flows_refl. }
  destruct (pop_event cx (queue w)) as [q p] eqn:Hp. intros Hl.
  destruct (pop_event_streams _ _ _ _ Hp) as [-> Hn].
  destruct p as [| |e s].
  - simplify_eq. rewrite queue_set. intros k. unfold idle. cbn. destruct (_ || _); apply flows_refl.
  - apply IH in Hl. by rewrite queue_set in Hl.
  - destruct (poll_taken e s (set_queue q w)) as [w1 o1] eqn:Ht.
    apply poll_taken_conserves in Ht; [|by rewrite queue_set]. rewrite queue_set in Ht.
    destruct o1; [by simplify_eq|]. intros k. eapply flows_trans; [apply Ht|by apply IH].
Qed.

Lemma poll_next_flows cx b w w' (r : poll (option (K * T))) :
  poll_next cx b w = (w', r) ->
  forall k, flows (streams (queue w) !! k) (items_of k (Some r)) (streams (queue w') !! k).
Proof.
  unfold poll_next. intros Hp k.
  destruct (poll_loop _ _ _ _) as [w1 o] eqn:Hl. apply poll_loop_conserves in Hl.
  rewrite queue_update in Hl. specialize (Hl k). destruct o; [by simplify_eq|].
  unfold finish_poll in Hp. simplify_eq. rewrite queue_set.
  assert (items_of k (Some (idle b (set_waker cx (queue w1)) : poll (option (K * T)))) = []) as ->.
  { unfold idle. by destruct (_ || _). }
  by case_bool_decide.
Qed.

Lemma poll_next_end cx b w w' :
  poll_next cx b w = (w', Ready None : poll (option (K * T))) ->
  b = false /\ streams (queue w') = ∅.
Proof.
  assert (Hidle : forall q : QueueInner S K, idle b q = (Ready None : poll (option (K * T))) ->
    b = false /\ streams q = ∅).
  { intros q. unfold idle. case_bool_decide; cbn; by destruct b. }
  assert (Hloop : forall n w w', poll_loop n cx b w = (w', Some (Ready None : poll (option (K * T)))) ->
    b = false /\ streams (queue w') = ∅).
  { intros n. induction n as [|n IH]; intros w1 w2; cbn [poll_loop]; [done|].
    destruct (pop_event cx (queue w1)) as [q p]. destruct p as [| |e s].
    - intros Hp. simplify_eq. auto.
    - apply IH.
    - destruct (poll_taken e s _) as [w3 [r|]] eqn:Ht; [|apply IH]. intros [= -> ->].
      unfold poll_taken in Ht. destruct (poll_stream s) as [[? [[]|]] ?]; by simplify_eq. }
  unfold poll_next. destruct (poll_loop _ _ _ _) as [w1 [r|]] eqn:Hl.
  - intros [= -> ->]. by eapply Hloop.
  - unfold finish_poll. intros Hp. simplify_eq. rewrite queue_set.
    case_bool_decide; cbn; by apply (Hidle (set_waker cx (queue w1))).
Qed.
End Conservation.

(** Nothing is lost, duplicated or reordered: over one [poll_next], every peer's stream
    advances by polls that yield exactly the items returned for that peer (at most one item,
    of one peer); a stream disappears only after it ended, and none appears. *)
Theorem fair_queue_conserves {W S T K}
    `{Countable K, !HasQueue W S K, !OnDisconnect W S K, !Stream S T}
    (cx : task) (b : bool) (w w' : W) (r : poll (option (K * T))) :
  poll_next cx b w = (w', r) ->
  forall k, flows (streams (queue w) !! k) (items_of k (Some r)) (streams (queue w') !! k).
Proof. apply poll_next_flows. Qed.

(** The end of a fair queue: it is reported only without streams, and never by a queue
    that blocks when it has no clients, as every socket's does. *)
Theorem fair_queue_end {W S T K}
    `{Countable K, !HasQueue W S K, !OnDisconnect W S K, !Stream S T}
    (cx : task) (b : bool) (w w' : W) :
  poll_next cx b w = (w', Ready None : poll (option (K * T))) ->
  b = false /\ streams (queue w') = ∅.
Proof. apply poll_next_end. Qed.

(** ** Removal *)

(** A removed peer keeps its event: when a peer that is queued is removed and comes back
    under the same key, its old event is live again beside the new one, so it has two turns
    in each round from then on. *)
Theorem fair_queue_stale_event {S K} `{Countable K} (q : QueueInner S K)
    (es : list (ReadyEvent K)) (k : K) (s : S) :
  fifo q es -> counter q < usize_max ->
  fifo (insert k s (remove k q)) (es ++ [mkEvent (counter q) k]).
Proof.
  intros Hf Hc.
  destruct (fifo_push (insert_stream k s (remove k q)) es k) as [Hf' _].
  - by eapply fifo_ext, Hf.
  - done.
  - cbn. set_solver.
  - by eapply fifo_ext, Hf'.
Qed.

(** A removal can be undone: while a stream is being polled, outside the lock, it is not
    in the map; a disconnection that another task handles meanwhile removes nothing, and the
    stream is put back afterwards; a new connection under the same key is overwritten by the
    old stream. *)
Theorem fair_queue_remove_race {S T K} `{Countable K, !Stream S T} (e : ReadyEvent K)
    (q : QueueInner S K) (s s' snew : S) (y : poll (option T)) (wk : bool) :
  poll_stream s = (s', y, wk) -> y <> Ready None ->
  streams (fst (poll_taken e s (remove (key e) q))) !! key e = Some s'
  /\ streams (fst (poll_taken e s (insert (key e) snew q))) !! key e = Some s'.
Proof.
  intros Hp Hy. unfold poll_taken. rewrite Hp.
  destruct y as [[x|]|]; [|done|]; cbn; rewrite ?push_ready_streams_q; cbn;
    by rewrite !lookup_insert_eq.
Qed.

(** ** Concrete queues *)

Module Lists.
(** A stream that yields a list and ends. *)
#[global] Instance list_stream : Stream (list nat) nat :=
  {| poll_stream l := match l with [] => ([], Ready None, false)
                                 | x :: l => (l, Ready (Some x), false) end |}.

Definition of_list (l : list (nat * list nat)) : QueueInner (list nat) nat :=
  fold_left (fun q '(k, s) => insert k s q) l new_queue.

Definition items (l : list (nat * nat)) : list (poll (option (nat * nat))) :=
  (fun p => Ready (Some p)) <$> l.

(** The repository's tests [test_fair_queue_ready] and [test_fair_queue_different_size]. *)
Example fair_queue_ready :
  polls 10 0 false (of_list [(1, [11; 12; 13]); (2, [21; 22; 23]); (3, [31; 32; 33])]%nat)
  = items [(1, 11); (2, 21); (3, 31); (1, 12); (2, 22); (3, 32); (1, 13); (2, 23); (3, 33)]%nat
    ++ [Ready None].
Proof. by vm_compute. Qed.

Example fair_queue_different_size :
  polls 7 0 false (of_list [(1, [11; 12; 13]); (2, [21]); (3, [31; 32])]%nat)
  = items [(1, 11); (2, 21); (3, 31); (1, 12); (3, 32); (1, 13)]%nat ++ [Ready None].
Proof. by vm_compute. Qed.

Definition two : QueueInner (list nat) nat := of_list [(1, [11]); (2, [21; 22])]%nat.

Lemma two_fifo : fifo two [mkEvent 0 1%nat; mkEvent 1 2%nat].
Proof.
  split_and!; [by vm_compute; apply Permutation_swap| |repeat constructor|by vm_compute|by vm_compute].
  constructor; [repeat constructor|]. by repeat constructor.
Qed.
End Lists.

Lemma fair_queue_no_starvation_witness :
  exists i, (i <= 1)%nat /\ polls 2 0 false Lists.two !! i = Some (Ready (Some (2%nat, 21%nat))).
Proof.
  destruct (fair_queue_no_starvation Lists.two [mkEvent 0 1%nat] [] (mkEvent 1 2%nat)
    [21; 22]%nat [22]%nat 21%nat false 0%nat false) as (i & Hi & Hx & _).
  - apply Lists.two_fifo.
  - cbn. set_solver.
  - by vm_compute.
  - by vm_compute.
  - by vm_compute.
  - by exists i.
Defined.

(** Streams by their next polls, after which they are pending. *)
Module Scripts.
Abbreviation script := (list (poll (option nat) * bool)).

#[global] Instance script_stream : Stream script nat :=
  {| poll_stream l := match l with [] => ([], Pending, false) | (x, wk) :: l => (l, x, wk) end |}.

(** The first peer has nothing; the second wakes its task while it is being polled. *)
Definition before : QueueInner script nat :=
  insert 2%nat [(Pending, true); (Ready (Some 21%nat), false)] (insert 1%nat [] new_queue).
Abbreviation after := (fst (poll_next 5%nat true before)).

(** Without the second, every stream is parked. *)
Definition alone : QueueInner script nat := insert 1%nat [] new_queue.
Abbreviation parked_alone := (fst (poll_next 5%nat true alone)).
End Scripts.

Lemma fair_queue_no_lost_wakeup_witness :
  (let q := queue Scripts.after in
   streams q !! 1%nat = Some [] /\ 2%nat ∈ queued q /\ wakes q = [5; 5]%nat
   /\ waits 5%nat (wakes (queue Scripts.before)) q /\ wakes (wake 1%nat q) = 5%nat :: wakes q)
  /\ (let q := queue Scripts.parked_alone in
      wakes q = [] /\ waits 5%nat (wakes (queue Scripts.alone)) q
      /\ (forall k s, streams q !! k = Some s -> parked s)
      /\ wakes (wake 1%nat q) = 5%nat :: wakes q).
Proof.
  destruct (fair_queue_no_lost_wakeup 5%nat true Scripts.before Scripts.after) as (_ & Hw & Hk & _).
  - apply armed_insert_op, armed_insert_op, new_queue_armed.
  - apply pair_snd. by vm_compute.
  - destruct (fair_queue_no_lost_wakeup 5%nat true Scripts.alone Scripts.parked_alone) as (_ & Hw' & Hk' & _).
    + apply armed_insert_op, new_queue_armed.
    + apply pair_snd. by vm_compute.
    + split; [split; [|split; [|split; [|split]]]|split; [|split; [|split]]].
      * vm_compute. reflexivity.
      * apply (bool_decide_unpack _). vm_compute. exact I.
      * vm_compute. reflexivity.
      * exact Hw.
      * exact (proj1 (Hk 1%nat)).
      * vm_compute. reflexivity.
      * exact Hw'.
      * destruct Hw' as [_ [(ws & Hws & _)|Hp]]; [|exact Hp]. vm_compute in Hws. discriminate.
      * exact (proj1 (Hk' 1%nat)).
Defined.

Lemma fair_queue_conserves_witness :
  exists w', forall k, flows (streams (queue Lists.two) !! k)
    (items_of k (Some (Ready (Some (1, 11)%nat)))) (streams (queue w') !! k).
Proof.
  exists (fst (poll_next 0%nat false Lists.two)).
  apply (fair_queue_conserves 0%nat false). by vm_compute.
Defined.

Lemma fair_queue_end_witness :
  let q := fst (poll_next 0%nat false (Lists.of_list [(1, [])]%nat)) in streams q = ∅.
Proof.
  by apply (fair_queue_end 0%nat false (Lists.of_list [(1, [])]%nat)).
Defined.

Lemma fair_queue_stale_event_witness :
  fifo (insert 1%nat [11]%nat (remove 1%nat Lists.two))
    [mkEvent 0 1%nat; mkEvent 1 2%nat; mkEvent 2 1%nat]
  /\ polls 3 0 true (insert 1%nat [11; 12]%nat (remove 1%nat Lists.two))
     = Lists.items [(1, 11); (2, 21); (1, 12)]%nat.
Proof.
  split; [|by vm_compute].
  apply (fair_queue_stale_event Lists.two _ 1%nat [11]%nat Lists.two_fifo). by vm_compute.
Defined.

Lemma fair_queue_remove_race_witness :
  streams (fst (poll_taken (mkEvent 0 1%nat) [11]%nat (remove 1%nat Lists.two))) !! 1%nat = Some [].
Proof.
  by apply (fair_queue_remove_race (mkEvent 0 1%nat) Lists.two [11]%nat [] [] (Ready (Some 11%nat)) false).
Defined.
