(* ===== verification/Channels.v ===== *)
(** The bounded channels of the [futures] crate ([futures::channel::mpsc]) and the framed
    sinks of the [asynchronous_codec] crate ([FramedWrite]), as interfaces: what the
    sockets rely on, stated as laws of a shared state of channels. Senders are handles,
    and their clones share the channel. *)

From S2P Require Import Prelude Message Endpoint Errors SocketTypes Greeting Command Codec.

(** ** Channels *)

(** [accepted n c] are the messages that the channel [c] has accepted so far, in order,
    read by its receiver or not. [send_all] stands for a [send(..).await] that has
    completed; it fails only when the receiver is gone. A new clone has a slot of its own
    in the channel's capacity, so its first [try_send] does not find the channel full. *)
Class Channels (M : Type) : Type := {
  net : Type;
  sender : Type;
  chan_of : sender -> nat;
  accepted : net -> nat -> list M;
  allocated : net -> nat -> Prop;
  channel : net -> Z -> net * sender;
  clone_sender : net -> sender -> net * sender;
  try_send : net -> sender -> M -> net * result unit SendError;
  send_await : net -> sender -> M -> net * result unit SendError;
  channel_fresh n cap n' s c :
    channel n cap = (n', s) ->
    ~ allocated n (chan_of s) /\ (allocated n' c <-> allocated n c \/ c = chan_of s)
    /\ accepted n' c = accepted n c /\ accepted n (chan_of s) = [];
  clone_same n s n' s' c :
    clone_sender n s = (n', s') ->
    chan_of s' = chan_of s /\ accepted n' c = accepted n c /\ (allocated n' c <-> allocated n c);
  clone_slot n s n' s' m n'' :
    clone_sender n s = (n', s') -> try_send n' s' m <> (n'', Err SendFull);
  try_send_accepted n s m n' r c :
    try_send n s m = (n', r) ->
    accepted n' c = accepted n c ++ (if is_ok r then if decide (c = chan_of s) then [m] else [] else [])
    /\ (allocated n' c <-> allocated n c);
  send_accepted n s m n' r c :
    send_await n s m = (n', r) ->
    accepted n' c = accepted n c ++ (if is_ok r then if decide (c = chan_of s) then [m] else [] else [])
    /\ (allocated n' c <-> allocated n c);
}.
Arguments net M {_}.
Arguments sender M {_}.

(** From [n] to [n'], the channel [c] has accepted [ms] and no other channel anything. *)
Definition delivers {M} `{Channels M} (n n' : net M) (c : nat) (ms : list M) : Prop :=
  forall c', accepted n' c' = accepted n c' ++ (if decide (c' = c) then ms else []).

Definition delivers_none {M} `{Channels M} (n n' : net M) : Prop :=
  forall c, accepted n' c = accepted n c.

Section Delivery.
Context {M : Type} `{Channels M}.
Implicit Types n : net M.

#[export] Instance delivers_none_preorder : PreOrder delivers_none.
Proof. split; [done|]. intros n1 n2 n3 H1 H2 c. by rewrite H2, H1. Qed.

Lemma delivers_none_l n n1 n2 c ms : delivers_none n n1 -> delivers n1 n2 c ms -> delivers n n2 c ms.
Proof. intros H1 H2 c'. by rewrite H2, H1. Qed.

Lemma try_send_ok n s m n' u : try_send n s m = (n', Ok u) -> delivers n n' (chan_of s) [m].
Proof. intros Hs c. by destruct (try_send_accepted _ _ _ _ _ c Hs) as [-> _]. Qed.

Lemma try_send_err n s m n' e : try_send n s m = (n', Err e) -> delivers_none n n'.
Proof.
  intros Hs c. destruct (try_send_accepted _ _ _ _ _ c Hs) as [-> _]. cbn. by rewrite app_nil_r.
Qed.

Lemma send_ok n s m n' u : send_await n s m = (n', Ok u) -> delivers n n' (chan_of s) [m].
Proof. intros Hs c. by destruct (send_accepted _ _ _ _ _ c Hs) as [-> _]. Qed.

Lemma send_err n s m n' e : send_await n s m = (n', Err e) -> delivers_none n n'.
Proof.
  intros Hs c. destruct (send_accepted _ _ _ _ _ c Hs) as [-> _]. cbn. by rewrite app_nil_r.
Qed.

Lemma clone_none n s n' s' :
  clone_sender n s = (n', s') -> delivers_none n n' /\ chan_of s' = chan_of s.
Proof.
  intros Hc. split; [intros c|]; [by destruct (clone_same _ _ _ _ c Hc) as (_ & -> & _)|].
  by destruct (clone_same _ _ _ _ 0 Hc).
Qed.

Lemma channel_none n cap n' s : channel n cap = (n', s) -> delivers_none n n'.
Proof. intros Hc c. by destruct (channel_fresh _ _ _ _ c Hc) as (_ & _ & -> & _). Qed.

(** A [try_send] that ignores the outcome. *)
Definition offer (n : net M) (s : sender M) (m : M) : net M := fst (try_send n s m).
End Delivery.

(** ** A channel that satisfies the interface *)

Module Bounded.
Record chan (M : Type) : Type := mkChan {
  capacity : Z; log : list M; taken : nat; parked : list nat; closed : bool
}.
Arguments mkChan {M} _ _ _ _ _.
Arguments capacity {M} _.
Arguments log {M} _.
Arguments taken {M} _.
Arguments parked {M} _.
Arguments closed {M} _.

(** The channels by number, and the number of handles made so far. *)
Record state (M : Type) : Type := mkState { chans : list (chan M); handles : nat }.
Arguments mkState {M} _ _.
Arguments chans {M} _.
Arguments handles {M} _.

Section Instances.
Context {M : Type}.

Definition empty : state M := mkState [] 0.

Definition set_chan (n : state M) (c : nat) (ch : chan M) : state M :=
  mkState (<[c := ch]> (chans n)) (handles n).

Definition new (n : state M) (cap : Z) : state M * (nat * nat) :=
  (mkState (chans n ++ [mkChan cap [] 0 [] false]) (S (handles n)), (length (chans n), handles n)).

Definition clone (n : state M) (s : nat * nat) : state M * (nat * nat) :=
  match chans n !! fst s with
  | Some ch =>
      (set_chan (mkState (chans n) (S (handles n))) (fst s)
         (mkChan (capacity ch) (log ch) (taken ch) (filter (.≠ handles n) (parked ch)) (closed ch)),
       (fst s, handles n))
  | None => (mkState (chans n) (S (handles n)), (fst s, handles n))
  end.

(** A handle is parked by the message that exceeds the capacity, and until then free. *)
Definition accept (n : state M) (s : nat * nat) (ch : chan M) (m : M) : state M :=
  let full := bool_decide (capacity ch < len (log ch) + 1 - Z.of_nat (taken ch))%Z in
  set_chan n (fst s)
    (mkChan (capacity ch) (log ch ++ [m]) (taken ch)
       (if full then parked ch ++ [snd s] else parked ch) (closed ch)).

Definition try (n : state M) (s : nat * nat) (m : M) : state M * result unit SendError :=
  match chans n !! fst s with
  | None => (n, Err SendDisconnected)
  | Some ch =>
      if closed ch then (n, Err SendDisconnected)
      else if bool_decide (snd s ∈ parked ch) then (n, Err SendFull)
      else (accept n s ch m, Ok tt)
  end.

Definition await (n : state M) (s : nat * nat) (m : M) : state M * result unit SendError :=
  match chans n !! fst s with
  | None => (n, Err SendDisconnected)
  | Some ch => if closed ch then (n, Err SendDisconnected) else (accept n s ch m, Ok tt)
  end.

(** The receiver takes a message and frees the handle parked for the longest time. *)
Definition recv (n : state M) (c : nat) : state M :=
  match chans n !! c with
  | Some ch => set_chan n c (mkChan (capacity ch) (log ch) (S (taken ch)) (tail (parked ch)) (closed ch))
  | None => n
  end.

(** The receiver is dropped. *)
Definition close (n : state M) (c : nat) : state M :=
  match chans n !! c with
  | Some ch => set_chan n c (mkChan (capacity ch) (log ch) (taken ch) [] true)
  | None => n
  end.

Lemma set_chan_log n c ch ch' c' :
  chans n !! c = Some ch ->
  from_option log [] (chans (set_chan n c ch') !! c')
  = (if decide (c' = c) then log ch' else from_option log [] (chans n !! c'))
  /\ (is_Some (chans (set_chan n c ch') !! c') <-> is_Some (chans n !! c')).
Proof.
  intros Hc. cbn. destruct (decide (c' = c)) as [->|Hne].
  - rewrite list_lookup_insert_eq by (by eapply lookup_lt_Some). rewrite Hc.
    split; [done|]. by split; eexists.
  - by rewrite list_lookup_insert_ne.
Qed.

Lemma accept_log n s ch m c :
  chans n !! fst s = Some ch ->
  from_option log [] (chans (accept n s ch m) !! c)
  = from_option log [] (chans n !! c) ++ (if decide (c = fst s) then [m] else [])
  /\ (is_Some (chans (accept n s ch m) !! c) <-> is_Some (chans n !! c)).
Proof.
  intros Hc. unfold accept. edestruct (set_chan_log n (fst s) ch) as [-> ->]; [done|].
  split; [|done]. destruct (decide (c = fst s)) as [->|]; [by rewrite Hc|by rewrite app_nil_r].
Qed.
End Instances.

#[local] Program Instance channels {M} : Channels M := {|
  net := state M;
  sender := nat * nat;
  chan_of := fst;
  accepted n c := from_option log [] (chans n !! c);
  allocated n c := is_Some (chans n !! c);
  channel := new;
  clone_sender := clone;
  try_send := try;
  send_await := await;
|}.
Next Obligation.
  intros M n cap n' s c [= <- <-]. cbn.
  assert (chans n !! length (chans n) = None) as Hf by (by apply lookup_ge_None).
  rewrite Hf. split_and!; [by intros [? ?]| | |done].
  - rewrite !lookup_lt_is_Some, length_app. cbn. lia.
  - destruct (decide (c < length (chans n))%nat); [by rewrite lookup_app_l|].
    rewrite lookup_app_r, (lookup_ge_None_2 (chans n)) by lia. by destruct (c - _)%nat.
Qed.
Next Obligation.
  intros M n [c0 h] n' s' c. unfold clone. cbn. destruct (chans n !! c0) as [ch|] eqn:E;
    intros [= <- <-]; cbn; [|done]. split; [done|].
  edestruct (set_chan_log (mkState (chans n) (S (handles n))) c0 ch) as [H1 H2]; [done|].
  cbn in H1, H2. rewrite H1, H2. split; [|done]. by destruct (decide (c = c0)) as [->|]; [rewrite E|].
Qed.
Next Obligation.
  intros M n [c h] n' s' m n''. unfold clone. cbn.
  destruct (chans n !! c) as [ch|] eqn:E; intros [= <- <-]; unfold try; cbn; [|by rewrite E].
  rewrite list_lookup_insert_eq by (by eapply lookup_lt_Some). cbn. destruct (closed ch); [done|].
  rewrite bool_decide_eq_false_2; [done|]. by intros [? _]%list_elem_of_filter.
Qed.
Next Obligation.
  intros M n s m n' r c. unfold try. destruct (chans n !! fst s) as [ch|] eqn:E;
    [|intros [= <- <-]; by rewrite app_nil_r].
  destruct (closed ch); [intros [= <- <-]; by rewrite app_nil_r|].
  case_bool_decide; intros [= <- <-]; [by rewrite app_nil_r|]. by apply accept_log.
Qed.
Next Obligation.
  intros M n s m n' r c. unfold await. destruct (chans n !! fst s) as [ch|] eqn:E;
    [|intros [= <- <-]; by rewrite app_nil_r].
  destruct (closed ch); intros [= <- <-]; [by rewrite app_nil_r|]. by apply accept_log.
Qed.
End Bounded.

(** ** Framed sinks *)

(** [written s w] are the messages that the sink [w] has handed to its encoder, in order.
    [feed] encodes a message, after making room in the sink's buffer; [flush] writes the
    buffer to the transport. *)
Class Sinks : Type := {
  sinks : Type;
  writer : Type;
  #[global] writer_eq_dec :: EqDecision writer;
  written : sinks -> writer -> list Message;
  feed : sinks -> writer -> Message -> sinks * result unit CodecError;
  flush : sinks -> writer -> sinks * result unit CodecError;
  feed_written s w m s' r w' :
    feed s w m = (s', r) ->
    written s' w' = written s w' ++ (if is_ok r then if decide (w' = w) then [m] else [] else []);
  flush_written s w s' r w' : flush s w = (s', r) -> written s' w' = written s w';
}.

(** [SinkExt::send]: [feed], then [flush]. *)
Definition sink_send `{Sinks} (s : sinks) (w : writer) (m : Message) : sinks * result unit CodecError :=
  match feed s w m with
  | (s, Ok _) => flush s w
  | (s, Err e) => (s, Err e)
  end.

(** A send writes the message, or fails; it touches no other sink. *)
Lemma sink_send_written `{Sinks} s w m s' r :
  sink_send s w m = (s', r) ->
  (forall w', w' <> w -> written s' w' = written s w')
  /\ (written s' w = written s w ++ [m] \/ exists e, r = Err e /\ written s' w = written s w).
Proof.
  unfold sink_send. destruct (feed s w m) as [s1 r1] eqn:Hf. intros Hs. destruct r1 as [u|e].
  - split; [intros w' Hw|left]; rewrite (flush_written _ _ _ _ _ Hs), (feed_written _ _ _ _ _ _ Hf); cbn.
    + rewrite decide_False by done. by rewrite app_nil_r.
    + by rewrite decide_True.
  - simplify_eq. split; [intros w' Hw|right; exists e; split; [done|]];
      rewrite (feed_written _ _ _ _ _ _ Hf); by rewrite app_nil_r.
Qed.

Lemma sink_send_ok `{Sinks} s w m s' u :
  sink_send s w m = (s', Ok u) -> written s' w = written s w ++ [m].
Proof. intros Hs. destruct (sink_send_written _ _ _ _ _ Hs) as [_ [?|(e & ? & _)]]; done. Qed.

(** ** A sink that satisfies the interface *)

(** It records what it encodes; a sink may be broken, and then fails with a kind of error. *)
Module Recording.
Record state : Type := mkState {
  records : gmap nat (list Message);
  broken : gmap nat ErrorKind;
  flushes : list nat;
}.

Definition record (s : state) (w : nat) (m : Message) : state :=
  mkState (<[w := default [] (records s !! w) ++ [m]]> (records s)) (broken s) (flushes s).

Definition feed (s : state) (w : nat) (m : Message) : state * result unit CodecError :=
  match broken s !! w with
  | Some k => (s, Err (Io (IoError k)))
  | None => (record s w m, Ok tt)
  end.

Definition flush (s : state) (w : nat) : state * result unit CodecError :=
  (mkState (records s) (broken s) (w :: flushes s), Ok tt).

Definition empty : state := mkState ∅ ∅ [].

#[local] Program Instance sinks : Sinks := {|
  Channels.sinks := state;
  writer := nat;
  written s w := default [] (records s !! w);
  Channels.feed := feed;
  Channels.flush := flush;
|}.
Next Obligation.
  intros s w m s' r w'. unfold feed. destruct (broken s !! w); intros [= <- <-].
  { by rewrite app_nil_r. }
  cbn. destruct (decide (w' = w)) as [->|]; [by rewrite lookup_insert_eq|].
  rewrite lookup_insert_ne by done. by rewrite app_nil_r.
Qed.
Next Obligation. by intros s w s' r w' [= <- <-]. Qed.
End Recording.
