(* ===== verification/Runtime.v ===== *)
(** What the socket backends share: the channels and sinks of the process, the tasks they
    spawn, a connection's two halves ([FramedIo], src/src/codec/framed.rs), and the
    interface of a backend ([MultiPeerBackend], src/src/lib.rs). *)

From S2P Require Import Prelude Message Endpoint Errors SocketTypes Greeting Command Codec.
From S2P Require Import FairQueue Channels.

(** The crates a process runs on: channels of messages, of monitor events and of
    disconnect notices, and sinks. *)
Class Runtime : Type := {
  #[global] rt_messages :: Channels Message;
  #[global] rt_events :: Channels SocketEvent;
  #[global] rt_notices :: Channels PeerIdentity;
  #[global] rt_sinks :: Sinks;
}.

(** A runtime to evaluate the definitions on. *)
Definition Runtime_exec : Runtime := {|
  rt_messages := Bounded.channels;
  rt_events := Bounded.channels;
  rt_notices := Bounded.channels;
  rt_sinks := Recording.sinks;
|}.

(** [FramedIo]: the halves of a connection; [into_parts] is the pair. *)
Record FramedIo (S : Type) `{Runtime} : Type := mkIo {
  read_half : S;
  write_half : writer;
}.
Arguments mkIo {S _} _ _.
Arguments read_half {S _} _.
Arguments write_half {S _} _.

Definition into_parts {S} `{Runtime} (io : FramedIo S) : S * writer := (read_half io, write_half io).

(** The tasks the backends spawn: a peer's writer, which runs [write_message_queue] from a
    channel into a sink, and the reader of a PUB socket's peer, with the stop channel of its
    subscriber. *)
Inductive spawned_task (S : Type) `{Runtime} : Type :=
  | WriterTask (peer : PeerIdentity) (channel : nat) (out : writer)
  | SubscriptionTask (peer : PeerIdentity) (input : S) (stop : nat).
Arguments WriterTask {S _} _ _ _.
Arguments SubscriptionTask {S _} _ _ _.

(** The state outside the backend's own fields. *)
Record Shared (S : Type) `{Runtime} : Type := mkShared {
  messages : net Message;
  events : net SocketEvent;
  notices : net PeerIdentity;
  outputs : sinks;
  tasks : list (spawned_task S);
}.
Arguments mkShared {S _} _ _ _ _ _.
Arguments messages {S _} _.
Arguments events {S _} _.
Arguments notices {S _} _.
Arguments outputs {S _} _.
Arguments tasks {S _} _.

Section Shared.
Context {S : Type} `{Runtime}.
Implicit Types sh : Shared S.

Definition set_messages (n : net Message) sh : Shared S :=
  mkShared n (events sh) (notices sh) (outputs sh) (tasks sh).

Definition set_outputs (o : sinks) sh : Shared S :=
  mkShared (messages sh) (events sh) (notices sh) o (tasks sh).

Definition spawn (t : spawned_task S) sh : Shared S :=
  mkShared (messages sh) (events sh) (notices sh) (outputs sh) (t :: tasks sh).

(** [if let Some(monitor) = .. { let _ = monitor.try_send(event); }] *)
Definition emit (monitor : option (sender SocketEvent)) (e : SocketEvent) sh : Shared S :=
  match monitor with
  | Some s => mkShared (messages sh) (offer (events sh) s e) (notices sh) (outputs sh) (tasks sh)
  | None => sh
  end.

(** [if let Some(mut notifier) = .. { let _ = notifier.try_send(peer_id); }] *)
Definition notify (notifier : option (sender PeerIdentity)) (p : PeerIdentity) sh : Shared S :=
  match notifier with
  | Some s => mkShared (messages sh) (events sh) (offer (notices sh) s p) (outputs sh) (tasks sh)
  | None => sh
  end.

(** The messages the channels have accepted are the same. *)
Definition same_deliveries sh sh' : Prop := delivers_none (messages sh) (messages sh').

#[export] Instance same_deliveries_preorder : PreOrder same_deliveries.
Proof. split; [intros sh c; done|]. intros a b c H1 H2 ch. by rewrite H2, H1. Qed.

Lemma emit_messages m e sh : messages (emit m e sh) = messages sh.
Proof. by destruct m. Qed.

Lemma notify_messages m e sh : messages (notify m e sh) = messages sh.
Proof. by destruct m. Qed.

Lemma emit_outputs m e sh : outputs (emit m e sh) = outputs sh.
Proof. by destruct m. Qed.

Lemma notify_outputs m e sh : outputs (notify m e sh) = outputs sh.
Proof. by destruct m. Qed.
End Shared.

(** A process that starts. *)
Definition new_process {S} : @Shared S Runtime_exec :=
  mkShared (H := Runtime_exec) Bounded.empty Bounded.empty Bounded.empty Recording.empty [].

(** ** The interface of a backend *)

(** [MultiPeerBackend] and [SocketBackend], on the world [W] of one socket. *)
Class MultiPeerBackend (W S : Type) `{Runtime} : Type := {
  backend_socket_type : W -> SocketType;
  backend_socket_options : W -> SocketOptions;
  backend_monitor : W -> option (sender SocketEvent);
  backend_shared : W -> Shared S;
  set_backend_shared : Shared S -> W -> W;
  peer_connected : PeerIdentity -> FramedIo S -> W -> W;
  peer_disconnected : PeerIdentity -> W -> W;
  shutdown : W -> W;
}.
