(* ===== verification/Backend.v ===== *)
(** The backend shared by PUSH, PULL, DEALER and ROUTER sockets (src/src/backend.rs):
    the connected peers, the round-robin queue of senders, the single-peer cache, and the
    disconnect notifiers.

    An operation is one definition on the backend's state, as it runs without another
    operation between its steps; the steps of [refresh_single_peer_cache], which several
    tasks can interleave, are definitions of their own. *)

From S2P Require Import Prelude Message Endpoint Errors SocketTypes Greeting Command Codec.
From S2P Require Import FairQueue Channels Runtime.

Local Open Scope Z_scope.

Definition PEER_SEND_QUEUE_CAPACITY : Z := 100000.

Record Peer `{Runtime} : Type := mkPeer { send_queue : sender Message }.
Arguments mkPeer {_} _.
Arguments send_queue {_} _.

Record SinglePeer `{Runtime} : Type := mkSingle {
  single_id : PeerIdentity;
  single_queue : sender Message;
}.
Arguments mkSingle {_} _ _.
Arguments single_id {_} _.
Arguments single_queue {_} _.

Inductive CachedSend `{Runtime} : Type :=
  | CacheSent
  | CacheFull (peer_id : PeerIdentity) (send_queue : sender Message) (message : Message)
  | CacheDisconnected (peer_id : PeerIdentity) (error : SendError)
  | CacheMiss (message : Message).
Arguments CacheSent {_}.
Arguments CacheFull {_} _ _ _.
Arguments CacheDisconnected {_} _ _.
Arguments CacheMiss {_} _.

Inductive SendResolution : Type :=
  | ResolvedSent
  | ResolvedMiss (message : Message).

Record GenericSocketBackend (S : Type) `{Runtime} : Type := mkBackend {
  peers : gmap PeerIdentity Peer;
  fair_queue_inner : option (QueueInner S PeerIdentity);
  round_robin : list PeerIdentity;
  socket_type : SocketType;
  socket_options : SocketOptions;
  socket_monitor : option (sender SocketEvent);
  single_peer : option SinglePeer;
  peer_count : Z;
  disconnect_notifiers : gmap PeerIdentity (sender PeerIdentity);
  shared : Shared S;
}.
Arguments mkBackend {S _} _ _ _ _ _ _ _ _ _ _.
Arguments peers {S _} _.
Arguments fair_queue_inner {S _} _.
Arguments round_robin {S _} _.
Arguments socket_type {S _} _.
Arguments socket_options {S _} _.
Arguments socket_monitor {S _} _.
Arguments single_peer {S _} _.
Arguments peer_count {S _} _.
Arguments disconnect_notifiers {S _} _.
Arguments shared {S _} _.

Section Backend.
Context {S : Type} `{Runtime}.
Abbreviation backend := (GenericSocketBackend S).
Implicit Types (b : backend) (m : Message).

(** [with_options]: the channels of the process are those of [sh]. *)
Definition with_options (fq : option (QueueInner S PeerIdentity)) (t : SocketType)
    (o : SocketOptions) (sh : Shared S) : backend :=
  mkBackend ∅ fq [] t o None None 0 ∅ sh.

Definition set_peers (p : gmap PeerIdentity Peer) b : backend :=
  mkBackend p (fair_queue_inner b) (round_robin b) (socket_type b) (socket_options b)
    (socket_monitor b) (single_peer b) (peer_count b) (disconnect_notifiers b) (shared b).

Definition set_fair_queue (q : option (QueueInner S PeerIdentity)) b : backend :=
  mkBackend (peers b) q (round_robin b) (socket_type b) (socket_options b)
    (socket_monitor b) (single_peer b) (peer_count b) (disconnect_notifiers b) (shared b).

Definition set_round_robin (rr : list PeerIdentity) b : backend :=
  mkBackend (peers b) (fair_queue_inner b) rr (socket_type b) (socket_options b)
    (socket_monitor b) (single_peer b) (peer_count b) (disconnect_notifiers b) (shared b).

Definition set_monitor (s : option (sender SocketEvent)) b : backend :=
  mkBackend (peers b) (fair_queue_inner b) (round_robin b) (socket_type b) (socket_options b)
    s (single_peer b) (peer_count b) (disconnect_notifiers b) (shared b).

Definition set_single (s : option SinglePeer) b : backend :=
  mkBackend (peers b) (fair_queue_inner b) (round_robin b) (socket_type b) (socket_options b)
    (socket_monitor b) s (peer_count b) (disconnect_notifiers b) (shared b).

Definition set_peer_count (n : Z) b : backend :=
  mkBackend (peers b) (fair_queue_inner b) (round_robin b) (socket_type b) (socket_options b)
    (socket_monitor b) (single_peer b) n (disconnect_notifiers b) (shared b).

Definition set_notifiers (d : gmap PeerIdentity (sender PeerIdentity)) b : backend :=
  mkBackend (peers b) (fair_queue_inner b) (round_robin b) (socket_type b) (socket_options b)
    (socket_monitor b) (single_peer b) (peer_count b) d (shared b).

Definition set_shared (sh : Shared S) b : backend :=
  mkBackend (peers b) (fair_queue_inner b) (round_robin b) (socket_type b) (socket_options b)
    (socket_monitor b) (single_peer b) (peer_count b) (disconnect_notifiers b) sh.

Definition set_net (n : net Message) b : backend := set_shared (set_messages n (shared b)) b.

Definition register_disconnect_notifier (peer_id : PeerIdentity) (notifier : sender PeerIdentity) b :
    backend :=
  set_notifiers (<[peer_id := notifier]> (disconnect_notifiers b)) b.

Definition unregister_disconnect_notifier (peer_id : PeerIdentity) b : backend :=
  set_notifiers (delete peer_id (disconnect_notifiers b)) b.

(** The steps of [refresh_single_peer_cache]: the count is read, stored, and then decides,
    under the cache's lock, what is cached: the first peer of the map, or nothing. *)
Definition read_peer_count b : Z := Z.of_nat (size (peers b)).

Definition store_peer_count (n : Z) b : backend := set_peer_count n b.

Definition store_single_peer (n : Z) b : backend :=
  if n =? 1 then
    match map_to_list (peers b) with
    | (p, peer) :: _ =>
        let '(net, s) := clone_sender (messages (shared b)) (send_queue peer) in
        set_single (Some (mkSingle p s)) (set_net net b)
    | [] => set_single None b
    end
  else set_single None b.

Definition refresh_single_peer_cache b : backend :=
  let peer_count := read_peer_count b in
  store_single_peer peer_count (store_peer_count peer_count b).

(** [MultiPeerBackend::peer_disconnected]. *)
Definition generic_peer_disconnected (peer_id : PeerIdentity) b : backend :=
  let peer_removed := bool_decide (is_Some (peers b !! peer_id)) in
  let b := set_peers (delete peer_id (peers b)) b in
  let b := refresh_single_peer_cache b in
  let b := set_fair_queue (remove peer_id <$> fair_queue_inner b) b in
  let b := if peer_removed
           then set_shared (emit (socket_monitor b) (Disconnected peer_id) (shared b)) b else b in
  let notifier := disconnect_notifiers b !! peer_id in
  let b := set_notifiers (delete peer_id (disconnect_notifiers b)) b in
  set_shared (notify notifier peer_id (shared b)) b.

(** [MultiPeerBackend::peer_connected]. *)
Definition generic_peer_connected (peer_id : PeerIdentity) (io : FramedIo S) b : backend :=
  let '(recv_queue, out) := into_parts io in
  let '(net, queue_sender) := channel (messages (shared b)) PEER_SEND_QUEUE_CAPACITY in
  let b := set_net net b in
  let b := set_peers (<[peer_id := mkPeer queue_sender]> (peers b)) b in
  let b := refresh_single_peer_cache b in
  let b := set_shared (spawn (WriterTask peer_id (chan_of queue_sender) out) (shared b)) b in
  let b := set_round_robin (round_robin b ++ [peer_id]) b in
  set_fair_queue (insert peer_id recv_queue <$> fair_queue_inner b) b.

(** [SocketBackend::shutdown]. *)
Definition generic_shutdown b : backend :=
  let b := set_peers ∅ b in
  let b := set_single None b in
  let b := set_peer_count 0 b in
  set_fair_queue (clear <$> fair_queue_inner b) b.

(** ** Sending *)

Definition try_send_cached_single_peer m (expected_peer_id : option PeerIdentity) b :
    backend * CachedSend :=
  if negb (peer_count b =? 1) then (b, CacheMiss m)
  else
    match single_peer b with
    | None => (b, CacheMiss m)
    | Some sp =>
        if match expected_peer_id with
           | Some p => negb (bool_decide (single_id sp = p))
           | None => false
           end
        then (b, CacheMiss m)
        else
          match try_send (messages (shared b)) (single_queue sp) m with
          | (n, Ok _) => (set_net n b, CacheSent)
          | (n, Err SendFull) =>
              let '(n, s) := clone_sender n (single_queue sp) in
              (set_net n b, CacheFull (single_id sp) s m)
          | (n, Err error) => (set_net n b, CacheDisconnected (single_id sp) error)
          end
    end.

Definition finish_cached_send (c : CachedSend) b : backend * result SendResolution ZmqError :=
  match c with
  | CacheSent => (b, Ok ResolvedSent)
  | CacheFull peer_id s m =>
      match send_await (messages (shared b)) s m with
      | (n, Ok _) => (set_net n b, Ok ResolvedSent)
      | (n, Err e) => (generic_peer_disconnected peer_id (set_net n b), Err (from_send_error e))
      end
  | CacheDisconnected peer_id e => (generic_peer_disconnected peer_id b, Err (from_send_error e))
  | CacheMiss m => (b, Ok (ResolvedMiss m))
  end.

Definition send_to_peer_queue (n : net Message) (s : sender Message) m :
    net Message * result unit SendError :=
  match try_send n s m with
  | (n, Ok _) => (n, Ok tt)
  | (n, Err SendFull) => send_await n s m
  | (n, Err e) => (n, Err e)
  end.

Definition no_peers_error m : ZmqError :=
  match m with
  | MGreeting _ => SocketErr "Sending greeting is not supported"
  | MCommand _ => SocketErr "Sending commands is not supported"
  | MMessage v => ReturnToSender "Not connected to peers. Unable to send messages" v
  end.

(** The [loop] of [send_round_robin] over the queue [rr]. *)
Fixpoint round_robin_loop (rr : list PeerIdentity) m b : backend * result unit ZmqError :=
  match rr with
  | [] => (set_round_robin [] b, Err (no_peers_error m))
  | next_peer_id :: rr =>
      match peers b !! next_peer_id with
      | None => round_robin_loop rr m b
      | Some peer =>
          match send_to_peer_queue (messages (shared b)) (send_queue peer) m with
          | (n, Ok _) => (set_round_robin (rr ++ [next_peer_id]) (set_net n b), Ok tt)
          | (n, Err e) =>
              (generic_peer_disconnected next_peer_id (set_round_robin rr (set_net n b)),
               Err (from_send_error e))
          end
      end
  end.

Definition send_round_robin m b : backend * result unit ZmqError :=
  let '(b, c) := try_send_cached_single_peer m None b in
  match finish_cached_send c b with
  | (b, Err e) => (b, Err e)
  | (b, Ok ResolvedSent) => (b, Ok tt)
  | (b, Ok (ResolvedMiss m)) => round_robin_loop (round_robin b) m b
  end.

Definition send_to_peer (peer_id : PeerIdentity) m b : backend * result unit ZmqError :=
  let '(b, c) := try_send_cached_single_peer m (Some peer_id) b in
  match finish_cached_send c b with
  | (b, Err e) => (b, Err e)
  | (b, Ok ResolvedSent) => (b, Ok tt)
  | (b, Ok (ResolvedMiss m)) =>
      match peers b !! peer_id with
      | None => (b, Err (Other "Destination client not found by identity"))
      | Some peer =>
          match send_to_peer_queue (messages (shared b)) (send_queue peer) m with
          | (n, Ok _) => (set_net n b, Ok tt)
          | (n, Err e) =>
              (generic_peer_disconnected peer_id (set_net n b), Err (from_send_error e))
          end
      end
  end.
End Backend.

(** ** The interfaces it implements *)

#[export] Instance generic_backend {S} `{Runtime} : MultiPeerBackend (GenericSocketBackend S) S := {|
  backend_socket_type := socket_type;
  backend_socket_options := socket_options;
  backend_monitor := socket_monitor;
  backend_shared := shared;
  set_backend_shared := set_shared;
  peer_connected := generic_peer_connected;
  peer_disconnected := generic_peer_disconnected;
  shutdown := generic_shutdown;
|}.

(** The queue of a backend that receives; one that only sends has none. *)
#[export] Program Instance generic_queue {S} `{Runtime} :
    HasQueue (GenericSocketBackend S) S PeerIdentity :=
  {| queue b := default new_queue (fair_queue_inner b);
     set_queue q b := set_fair_queue (Some q) b |}.
Next Obligation. done. Qed.

Lemma generic_peer_disconnected_queue {S} `{Runtime} p (b : GenericSocketBackend S) :
  fair_queue_inner (generic_peer_disconnected p b) = remove p <$> fair_queue_inner b.
Proof.
  unfold generic_peer_disconnected, refresh_single_peer_cache, store_single_peer. cbn.
  repeat case_match; done.
Qed.

(** The callback of the sockets built on it: [backend.peer_disconnected(&peer_id)]. *)
#[export] Program Instance generic_on_disconnect {S} `{Runtime} :
    OnDisconnect (GenericSocketBackend S) S PeerIdentity :=
  {| callback := generic_peer_disconnected |}.
Next Obligation.
  intros S ? p b. unfold queue, generic_queue. rewrite generic_peer_disconnected_queue.
  destruct (fair_queue_inner b); [by right|by left].
Qed.

(** ** Invariant *)

Section Invariant.
Context {S : Type} `{Runtime}.
Abbreviation backend := (GenericSocketBackend S).
Implicit Types (b : backend) (m : Message).

(** The count is the number of peers, and the cache holds the only peer, with a sender of
    its channel, exactly when there is one. *)
Definition coherent b : Prop :=
  peer_count b = Z.of_nat (size (peers b))
  /\ match single_peer b with
     | Some sp => exists s, peers b = {[single_id sp := mkPeer s]}
                            /\ chan_of (single_queue sp) = chan_of s
     | None => size (peers b) <> 1%nat
     end.

(** Every connected peer has a place in the round-robin queue. *)
Definition enrolled b : Prop := forall p, is_Some (peers b !! p) -> p ∈ round_robin b.

(** The fields that only the peers' cache is not part of. *)
Definition same_but_cache b b' : Prop :=
  peers b' = peers b /\ fair_queue_inner b' = fair_queue_inner b /\ round_robin b' = round_robin b
  /\ socket_monitor b' = socket_monitor b /\ disconnect_notifiers b' = disconnect_notifiers b
  /\ events (shared b') = events (shared b) /\ notices (shared b') = notices (shared b)
  /\ tasks (shared b') = tasks (shared b) /\ same_deliveries (shared b) (shared b').

Lemma size_1_singleton {A} (mp : gmap PeerIdentity A) :
  size mp = 1%nat -> exists p a, mp = {[p := a]} /\ map_to_list mp = [(p, a)].
Proof.
  intros Hs. rewrite <- length_map_to_list in Hs.
  destruct (map_to_list mp) as [|[p a] [|? ?]] eqn:E; try done.
  exists p, a. split; [|done]. rewrite <- (list_to_map_to_list mp), E. by rewrite list_to_map_cons.
Qed.

Lemma refresh_spec b :
  coherent (refresh_single_peer_cache b) /\ same_but_cache b (refresh_single_peer_cache b).
Proof.
  unfold refresh_single_peer_cache, store_single_peer, read_peer_count. cbn.
  destruct (Z.eqb_spec (Z.of_nat (size (peers b))) 1) as [Hs|Hs].
  - destruct (size_1_singleton (peers b)) as (p & [s] & Hp & ->); [lia|]. cbn.
    destruct (clone_sender (messages (shared b)) s) as [n s'] eqn:Hc. destruct (clone_none _ _ _ _ Hc) as [Hd Hch].
    split; [split; cbn; [done|by exists s]|]. by split_and!.
  - split; [split; cbn; [done|lia]|]. by split_and!.
Qed.

Lemma disconnected_spec p b :
  let b' := generic_peer_disconnected p b in
  coherent b' /\ peers b' = delete p (peers b) /\ round_robin b' = round_robin b
  /\ same_deliveries (shared b) (shared b').
Proof.
  unfold generic_peer_disconnected.
  destruct (refresh_spec (set_peers (delete p (peers b)) b)) as [[Hc1 Hc2] Hsame].
  destruct Hsame as (Hp & Hf & Hr & Hm & Hn & He & Hno & Ht & Hd).
  set (b1 := refresh_single_peer_cache _) in *. cbn in *.
  assert (same_deliveries (shared b) (shared b1)) as Hd1 by exact Hd.
  destruct (bool_decide _); cbn; (split_and!; [by split|done|done|]);
    unfold same_deliveries in *; by rewrite notify_messages, ?emit_messages.
Qed.

Lemma connected_spec p io b :
  let b' := generic_peer_connected p io b in
  coherent b' /\ round_robin b' = round_robin b ++ [p] /\ same_deliveries (shared b) (shared b')
  /\ fair_queue_inner b' = insert p (read_half io) <$> fair_queue_inner b
  /\ exists s, peers b' = <[p := mkPeer s]> (peers b) /\ ~ allocated (messages (shared b)) (chan_of s)
     /\ tasks (shared b') = WriterTask p (chan_of s) (write_half io) :: tasks (shared b).
Proof.
  unfold generic_peer_connected, into_parts. cbn.
  destruct (channel (messages (shared b)) PEER_SEND_QUEUE_CAPACITY) as [n s] eqn:Hc. pose proof (channel_none _ _ _ _ Hc) as Hn.
  destruct (channel_fresh _ _ _ _ 0 Hc) as [Hfresh _].
  destruct (refresh_spec (set_peers (<[p := mkPeer s]> (peers b)) (set_net n b)))
    as [[Hc1 Hc2] (Hp & Hf & Hr & Hm & Hno & He & Hnt & Ht & Hd)].
  set (b1 := refresh_single_peer_cache _) in *. cbn in *.
  split_and!; [by split|by rewrite Hr| |by rewrite Hf|exists s; split_and!; [done..|by rewrite Ht]].
  unfold same_deliveries in *. cbn in *. by etrans.
Qed.

(** Disconnecting the only peer. *)
Lemma single_disconnected p s n b :
  peers b = {[p := mkPeer s]} -> delivers_none (messages (shared b)) n ->
  let b' := generic_peer_disconnected p (set_net n b) in
  peers b' = ∅ /\ round_robin b' = round_robin b /\ coherent b'
  /\ same_deliveries (shared b) (shared b').
Proof.
  intros Hp Hn. cbv zeta. destruct (disconnected_spec p (set_net n b)) as (Hc & Hpeers & Hrr & Hd).
  split_and!; [by rewrite Hpeers; cbn; rewrite Hp, delete_singleton_eq|exact Hrr|exact Hc|].
  by etrans; [|exact Hd].
Qed.

(** What the cache's fast path does: it sends to the only peer, waiting for room; or finds
    its channel closed and disconnects it; or misses. *)
Definition cached_outcome m (expected : option PeerIdentity) b b2
    (r : result SendResolution ZmqError) : Prop :=
  match r with
  | Ok (ResolvedMiss m') => m' = m /\ b2 = b
      /\ (size (peers b) <> 1%nat \/ exists p, expected = Some p /\ peers b !! p = None)
  | Ok ResolvedSent => exists p s, peers b = {[p := mkPeer s]} /\ peers b2 = peers b
      /\ round_robin b2 = round_robin b /\ coherent b2
      /\ match expected with Some p' => p' = p | None => True end
      /\ delivers (messages (shared b)) (messages (shared b2)) (chan_of s) [m]
  | Err e => exists p s, peers b = {[p := mkPeer s]} /\ peers b2 = ∅
      /\ round_robin b2 = round_robin b /\ coherent b2
      /\ match expected with Some p' => p' = p | None => True end
      /\ e = from_send_error SendDisconnected /\ same_deliveries (shared b) (shared b2)
  end.

Lemma cached_send_spec m expected b b1 c b2 r :
  coherent b -> try_send_cached_single_peer m expected b = (b1, c) ->
  finish_cached_send c b1 = (b2, r) -> cached_outcome m expected b b2 r.
Proof.
  intros [Hcount Hsingle] Ht Hf. unfold try_send_cached_single_peer in Ht.
  destruct (Z.eqb_spec (peer_count b) 1) as [H1|H1]; cbn in Ht;
    [|simplify_eq; cbn in Hf; simplify_eq; split_and!; try done; left; lia].
  destruct (single_peer b) as [[p q]|] eqn:Hsp; [|lia]. cbn in Ht.
  destruct Hsingle as (s & Hpeers & Hchan). cbn [single_id single_queue] in Hpeers, Hchan.
  destruct (match expected with Some p => _ | None => _ end) eqn:Hexp.
  { simplify_eq. cbn in Hf. simplify_eq. split_and!; try done. right.
    destruct expected as [p'|]; [|done]. exists p'. split; [done|].
    apply negb_true_iff, bool_decide_eq_false in Hexp. by rewrite Hpeers, lookup_singleton_ne. }
  assert (match expected with Some p' => p' = p | None => True end) as Hexp'.
  { destruct expected as [p'|]; [|done]. apply negb_false_iff, bool_decide_eq_true in Hexp. done. }
  assert (forall n, coherent (set_net n b)) as Hcoh.
  { intros n. split; [done|]. cbn. rewrite Hsp. by exists s. }
  destruct (try_send (messages (shared b)) q m) as [n [u|[]]] eqn:Hs.
  - simplify_eq. cbn in Hf. simplify_eq. exists p, s. split_and!; try done.
    rewrite <- Hchan. by eapply try_send_ok.
  - destruct (clone_sender n q) as [n1 s1] eqn:Hcl. simplify_eq. cbn in Hf.
    apply try_send_err in Hs. destruct (clone_none _ _ _ _ Hcl) as [Hn1 Hch].
    destruct (send_await n1 s1 m) as [n2 [u|e]] eqn:Hsend; simplify_eq; exists p, s.
    + split_and!; try done; [exact (Hcoh n2)|]. rewrite <- Hchan, <- Hch.
      eapply delivers_none_l; [done|]. eapply delivers_none_l; [done|]. by eapply send_ok.
    + apply send_err in Hsend.
      destruct (single_disconnected p s n2 b Hpeers) as (? & ? & ? & ?); [by do 2 (etrans; [done|])|].
      split_and!; done.
  - simplify_eq. cbn in Hf. simplify_eq. apply try_send_err in Hs. exists p, s.
    destruct (single_disconnected p s n b Hpeers Hs) as (? & ? & ? & ?). split_and!; done.
Qed.
End Invariant.

(** ** Operations as steps *)

(** What can happen to a backend: its operations, a poll of its fair queue, a monitor, and
    anything outside it (receivers that read or leave, other users of the runtime). *)
Inductive backend_step {S} `{Runtime} (b : GenericSocketBackend S) : GenericSocketBackend S -> Prop :=
  | step_send_round_robin m : backend_step b (fst (send_round_robin m b))
  | step_send_to_peer p m : backend_step b (fst (send_to_peer p m b))
  | step_connected p io : backend_step b (generic_peer_connected p io b)
  | step_disconnected p : backend_step b (generic_peer_disconnected p b)
  | step_shutdown : backend_step b (generic_shutdown b)
  | step_register p s : backend_step b (register_disconnect_notifier p s b)
  | step_unregister p : backend_step b (unregister_disconnect_notifier p b)
  | step_fair_queue q : backend_step b (set_fair_queue q b)
  | step_monitor s : backend_step b (set_monitor s b)
  | step_shared sh : backend_step b (set_shared sh b).

Section Sending.
Context {S : Type} `{Runtime}.
Abbreviation backend := (GenericSocketBackend S).
Implicit Types (b : backend) (m : Message).

Lemma send_to_peer_queue_spec n s m n' r :
  send_to_peer_queue n s m = (n', r) ->
  if is_ok r then delivers n n' (chan_of s) [m] else delivers_none n n'.
Proof.
  unfold send_to_peer_queue. destruct (try_send n s m) as [n1 [u|[]]] eqn:Ht; intros Hs; simplify_eq; cbn.
  - by eapply try_send_ok.
  - apply try_send_err in Ht. destruct r; [by eapply delivers_none_l, send_ok|]. apply send_err in Hs. cbn. by etrans.
  - by eapply try_send_err.
Qed.

(** The only effects of a send that reaches [p], and of one that finds its channel closed. *)
Definition delivered (p : PeerIdentity) m b b' : Prop :=
  exists s, peers b !! p = Some (mkPeer s) /\ peers b' = peers b /\ coherent b'
    /\ delivers (messages (shared b)) (messages (shared b')) (chan_of s) [m].

Definition dropped (p : PeerIdentity) b b' : Prop :=
  is_Some (peers b !! p) /\ peers b' = delete p (peers b) /\ coherent b'
  /\ same_deliveries (shared b) (shared b').

Lemma cached_delivered m expected b b2 r :
  cached_outcome m expected b b2 r ->
  match r with
  | Ok (ResolvedMiss m') => m' = m /\ b2 = b
      /\ (size (peers b) <> 1%nat \/ exists p, expected = Some p /\ peers b !! p = None)
  | Ok ResolvedSent => exists p, delivered p m b b2 /\ round_robin b2 = round_robin b
      /\ match expected with Some p' => p' = p | None => True end
  | Err e => exists p, dropped p b b2 /\ round_robin b2 = round_robin b
      /\ match expected with Some p' => p' = p | None => True end
      /\ e = from_send_error SendDisconnected
  end.
Proof.
  unfold cached_outcome, delivered, dropped. destruct r as [[|m']|e]; [|done|];
    intros (p & s & Hp & Hp2 & Hrr & Hc & Hexp & Hd); exists p; rewrite Hp2, Hp.
  - split_and!; try done. exists s. by rewrite lookup_singleton_eq.
  - destruct Hd as [-> Hd]. rewrite lookup_singleton_eq, delete_singleton_eq. split_and!; try done; by eexists.
Qed.

(** The loop skips the peers that are gone; the first live one gets the message and goes to
    the back of the queue, or is disconnected. *)
Definition sent_to (p : PeerIdentity) (rr : list PeerIdentity) m b b' (r : result unit ZmqError) : Prop :=
  if is_ok r then delivered p m b b' /\ round_robin b' = rr ++ [p]
  else dropped p b b' /\ round_robin b' = rr /\ r = Err (from_send_error SendDisconnected).

Lemma round_robin_loop_spec rr m b b' r :
  coherent b -> round_robin_loop rr m b = (b', r) ->
  (exists dead p rr', rr = dead ++ p :: rr' /\ Forall (fun d => peers b !! d = None) dead
     /\ sent_to p rr' m b b' r)
  \/ (Forall (fun d => peers b !! d = None) rr /\ b' = set_round_robin [] b
      /\ r = Err (no_peers_error m)).
Proof.
  intros Hc. revert b'. induction rr as [|p rr IH]; intros b'; cbn [round_robin_loop].
  { intros [= <- <-]. by right. }
  destruct (peers b !! p) as [[s]|] eqn:Hp; cbn [send_queue].
  - destruct (send_to_peer_queue _ s m) as [n r1] eqn:Hs. apply send_to_peer_queue_spec in Hs.
    intros Hl. left. exists [], p, rr. split_and!; [done|constructor|].
    unfold sent_to, delivered, dropped. destruct r1 as [u|e]; simplify_eq; cbn [is_ok].
    + split; [|done]. exists s. by destruct Hc.
    + destruct (disconnected_spec p (set_round_robin rr (set_net n b))) as (Hc' & Hp' & Hr' & Hd').
      split_and!; try done. by etrans; [|exact Hd'].
  - intros Hl. destruct (IH _ Hl) as [(dead & p' & rr' & -> & Hd & Hs)|(Hd & Hb & Hr)].
    + left. exists (p :: dead), p', rr'. split_and!; [done|by constructor|done].
    + right. split_and!; [by constructor|done|done].
Qed.

Lemma send_to_peer_spec p m b b' r :
  coherent b -> send_to_peer p m b = (b', r) ->
  (r = Ok tt /\ delivered p m b b' /\ round_robin b' = round_robin b)
  \/ (r = Err (Other "Destination client not found by identity") /\ peers b !! p = None /\ b' = b)
  \/ (r = Err (from_send_error SendDisconnected) /\ dropped p b b' /\ round_robin b' = round_robin b).
Proof.
  intros Hc. unfold send_to_peer.
  destruct (try_send_cached_single_peer m (Some p) b) as [b1 c] eqn:Ht.
  destruct (finish_cached_send c b1) as [b2 r2] eqn:Hf.
  pose proof (cached_delivered _ _ _ _ _ (cached_send_spec _ _ _ _ _ _ _ Hc Ht Hf)) as Hr.
  destruct r2 as [[|m']|e].
  - destruct Hr as (p' & Hd & Hrr & <-). intros [= <- <-]. by left.
  - destruct Hr as (-> & -> & _). destruct (peers b !! p) as [[s]|] eqn:Hp; [|intros [= <- <-]; auto].
    cbn [send_queue]. destruct (send_to_peer_queue _ s m) as [n [u|e]] eqn:Hs;
      apply send_to_peer_queue_spec in Hs; intros [= <- <-].
    + left. split_and!; try done. exists s. by destruct Hc.
    + destruct (disconnected_spec p (set_net n b)) as (Hc' & Hp' & Hr' & Hd').
      right; right. split_and!; try done. split_and!; try done. by etrans; [|exact Hd'].
  - destruct Hr as (p' & Hd & Hrr & <- & ->). intros [= <- <-]. auto.
Qed.

Lemma send_round_robin_spec m b b' r :
  coherent b -> send_round_robin m b = (b', r) ->
  (exists p, delivered p m b b' /\ r = Ok tt /\ size (peers b) = 1%nat /\ round_robin b' = round_robin b)
  \/ (exists p, dropped p b b' /\ r = Err (from_send_error SendDisconnected)
        /\ size (peers b) = 1%nat /\ round_robin b' = round_robin b)
  \/ (size (peers b) <> 1%nat
      /\ ((exists dead p rr, round_robin b = dead ++ p :: rr
             /\ Forall (fun d => peers b !! d = None) dead /\ sent_to p rr m b b' r)
          \/ (Forall (fun d => peers b !! d = None) (round_robin b) /\ b' = set_round_robin [] b
              /\ r = Err (no_peers_error m)))).
Proof.
  intros Hc. unfold send_round_robin.
  destruct (try_send_cached_single_peer m None b) as [b1 c] eqn:Ht.
  destruct (finish_cached_send c b1) as [b2 r2] eqn:Hf.
  pose proof (cached_send_spec _ _ _ _ _ _ _ Hc Ht Hf) as Hr0.
  pose proof (cached_delivered _ _ _ _ _ Hr0) as Hr. unfold cached_outcome in Hr0.
  destruct r2 as [[|m']|e].
  - destruct Hr as (p & Hd & Hrr & _), Hr0 as (p0 & s & Hp0 & _). intros [= <- <-].
    left. exists p. by rewrite Hp0, map_size_singleton.
  - destruct Hr as (-> & -> & [Hs|(p & ? & _)]); [|done]. intros Hl. right; right.
    split; [done|]. by apply round_robin_loop_spec.
  - destruct Hr as (p & Hd & Hrr & _ & ->), Hr0 as (p0 & s & Hp0 & _). intros [= <- <-].
    right; left. exists p. by rewrite Hp0, map_size_singleton.
Qed.

(** ** Each operation keeps the invariant *)

Definition backend_ok b : Prop := coherent b /\ enrolled b.

Lemma delivered_ok p m b b' :
  enrolled b -> delivered p m b b' -> round_robin b' = round_robin b -> backend_ok b'.
Proof. intros He (s & _ & Hp & Hc & _) Hrr. split; [done|]. unfold enrolled. by rewrite Hp, Hrr. Qed.

Lemma dropped_ok p b b' :
  enrolled b -> dropped p b b' -> round_robin b' = round_robin b -> backend_ok b'.
Proof.
  intros He (_ & Hp & Hc & _) Hrr. split; [done|]. intros p'. rewrite Hp, Hrr.
  intros [_ ?]%lookup_delete_is_Some. by apply He.
Qed.

Lemma sent_ok dead p rr m b b' r :
  enrolled b -> round_robin b = dead ++ p :: rr -> Forall (fun d => peers b !! d = None) dead ->
  sent_to p rr m b b' r -> backend_ok b'.
Proof.
  intros He Hrr Hd Hs.
  assert (Hin : forall p', is_Some (peers b !! p') -> p' = p \/ p' ∈ rr).
  { intros p' Hp'. pose proof (He p' Hp') as Hin. rewrite Hrr in Hin.
    apply elem_of_app in Hin as [Hin|Hin]; [|by apply elem_of_cons].
    rewrite Forall_forall in Hd. rewrite (Hd p' Hin) in Hp'. by destruct Hp'. }
  unfold sent_to in Hs. destruct (is_ok r).
  - destruct Hs as [(s & _ & Hp & Hc & _) Hr]. split; [done|]. intros p'. rewrite Hp, Hr.
    intros [->|]%Hin; set_solver.
  - destruct Hs as ((_ & Hp & Hc & _) & Hr & _). split; [done|]. intros p'. rewrite Hp, Hr.
    intros [? Hp']%lookup_delete_is_Some. by destruct (Hin p' Hp').
Qed.

Lemma send_round_robin_ok m b : backend_ok b -> backend_ok (fst (send_round_robin m b)).
Proof.
  intros [Hc He]. destruct (send_round_robin m b) as [b' r] eqn:Hs. cbn [fst].
  destruct (send_round_robin_spec _ _ _ _ Hc Hs) as
    [(p & Hd & _ & _ & Hr)|[(p & Hd & _ & _ & Hr)|[_ [(dead & p & rr & Hrr & Hdead & Hsent)|(Hd & -> & _)]]]].
  - by eapply delivered_ok.
  - by eapply dropped_ok.
  - by eapply sent_ok.
  - split; [done|]. intros p Hp. cbn in Hp. pose proof (He p Hp) as Hin.
    rewrite Forall_forall in Hd. rewrite (Hd p Hin) in Hp. by destruct Hp.
Qed.

Lemma send_to_peer_ok p m b : backend_ok b -> backend_ok (fst (send_to_peer p m b)).
Proof.
  intros [Hc He]. destruct (send_to_peer p m b) as [b' r] eqn:Hs. cbn [fst].
  destruct (send_to_peer_spec _ _ _ _ _ Hc Hs) as [(_ & Hd & Hr)|[(_ & _ & ->)|(_ & Hd & Hr)]];
    [by eapply delivered_ok|done|by eapply dropped_ok].
Qed.

Lemma connected_ok p io b : backend_ok b -> backend_ok (generic_peer_connected p io b).
Proof.
  intros [_ He]. destruct (connected_spec p io b) as (Hc & Hr & _ & _ & s & Hp & _).
  split; [done|]. intros p'. rewrite Hp, Hr, lookup_insert_is_Some. intros [->|[_ ?]]; [set_solver|].
  apply elem_of_app; left. by apply He.
Qed.

Lemma disconnected_ok p b : backend_ok b -> backend_ok (generic_peer_disconnected p b).
Proof.
  intros [_ He]. destruct (disconnected_spec p b) as (Hc & Hp & Hr & _).
  split; [done|]. intros p'. rewrite Hp, Hr. intros [_ ?]%lookup_delete_is_Some. by apply He.
Qed.

Lemma with_options_ok fq t o sh : backend_ok (with_options fq t o sh).
Proof. split; [by split|]. by intros p [? Hp]. Qed.

Lemma shutdown_ok b : backend_ok (generic_shutdown b).
Proof. split; [by split|]. by intros p [? Hp]. Qed.
End Sending.

(** ** Properties *)

(** C14 The cache and the queue are right after operations that run one after another: from a
    new backend, whatever their sequence, the single-peer cache holds the only peer exactly when
    there is one, with a sender of that peer's channel, the count is the number of peers, and
    every connected peer has a place in the round-robin queue. Connections and disconnections
    that overlap can break this ([refresh_race]); from any state whatever, such a state too, the
    next one that runs alone, or a shutdown, makes the cache right again. *)
Theorem backend_invariant {S} `{Runtime} (fq : option (QueueInner S PeerIdentity))
    (t : SocketType) (o : SocketOptions) (sh : Shared S) (b : GenericSocketBackend S) :
  (rtc backend_step (with_options fq t o sh) b -> coherent b /\ enrolled b)
  /\ (forall p io, coherent (generic_peer_connected p io b))
  /\ (forall p, coherent (generic_peer_disconnected p b))
  /\ coherent (generic_shutdown b).
Proof.
  split_and!.
  - apply (rtc_ind_r backend_ok); [apply with_options_ok|].
    intros b1 b2 _ Hstep Hok. destruct Hstep; try done.
    + by apply send_round_robin_ok.
    + by apply send_to_peer_ok.
    + by apply connected_ok.
    + by apply disconnected_ok.
    + apply shutdown_ok.
  - intros p io. apply connected_spec.
  - intros p. apply disconnected_spec.
  - apply shutdown_ok.
Qed.

(** C15 What a round-robin send does: when it succeeds, exactly one connected peer's channel
    has accepted the message, once, and the peers are the same; when it fails, no channel
    has accepted anything, and either no peer is connected and a message comes back to the
    sender, or the chosen peer's channel was closed and that peer is disconnected. *)
Theorem send_round_robin_delivers {S} `{Runtime} (m : Message) (b b' : GenericSocketBackend S)
    (r : result unit ZmqError) :
  coherent b -> enrolled b -> send_round_robin m b = (b', r) ->
  match r with
  | Ok _ => exists p, delivered p m b b'
  | Err e =>
      same_deliveries (shared b) (shared b')
      /\ ((peers b = ∅ /\ e = no_peers_error m)
          \/ (exists p, dropped p b b' /\ e = from_send_error SendDisconnected))
  end.
Proof.
  intros Hc He Hs. destruct (send_round_robin_spec _ _ _ _ Hc Hs) as
    [(p & Hd & -> & _)|[(p & Hd & -> & _)|[_ [(dead & p & rr & _ & _ & Hsent)|(Hd & -> & ->)]]]].
  - by exists p.
  - split; [apply Hd|right; by exists p].
  - unfold sent_to in Hsent. destruct r as [u|e]; cbn in Hsent.
    + exists p. by destruct Hsent.
    + destruct Hsent as (Hd & _ & [= ->]). split; [apply Hd|right; by exists p].
  - split; [by intros c|]. left. split; [|done]. apply map_empty. intros p.
    destruct (peers b !! p) as [peer|] eqn:Hp; [|done].
    assert (p ∈ round_robin b) as Hin by (by apply He; eexists).
    rewrite Forall_forall in Hd. by rewrite (Hd p Hin) in Hp.
Qed.

(** C16 What a send to a peer does: it delivers to that peer exactly, or reports that the
    identity is unknown and changes nothing, or disconnects the peer whose channel is
    closed; and it reports an unknown identity exactly when the peer is not connected. *)
Theorem send_to_peer_exact {S} `{Runtime} (p : PeerIdentity) (m : Message)
    (b b' : GenericSocketBackend S) (r : result unit ZmqError) :
  coherent b -> send_to_peer p m b = (b', r) ->
  match peers b !! p with
  | Some _ => (r = Ok tt /\ delivered p m b b')
              \/ (r = Err (from_send_error SendDisconnected) /\ dropped p b b')
  | None => r = Err (Other "Destination client not found by identity") /\ b' = b
  end.
Proof.
  intros Hc Hs. destruct (send_to_peer_spec _ _ _ _ _ Hc Hs) as
    [(-> & Hd & _)|[(-> & -> & ->)|(-> & Hd & _)]]; [|done|].
  - pose proof Hd as (s & -> & _). by left.
  - pose proof Hd as ([peer ->] & _). by right.
Qed.

(** Several sends, one after another. *)
Fixpoint send_all {S} `{Runtime} (ms : list Message) (b : GenericSocketBackend S) :
    GenericSocketBackend S * list (result unit ZmqError) :=
  match ms with
  | [] => (b, [])
  | m :: ms =>
      let '(b, r) := send_round_robin m b in
      let '(b, rs) := send_all ms b in
      (b, r :: rs)
  end.

(** What the channel [c] gets when each message goes to the peer beside it. *)
Definition share `{Runtime} (ps : gmap PeerIdentity Peer) (c : nat)
    (l : list (PeerIdentity * Message)) : list Message :=
  flat_map (fun '(p, m) => match ps !! p with
                           | Some peer => if decide (c = chan_of (send_queue peer)) then [m] else []
                           | None => [] end) l.

(** Round robin: with several peers connected, as many successful sends as there are turns
    in a stretch of the queue give each turn's peer its message, in the order of the queue,
    and the stretch goes to the back: no peer is served twice before the others. *)
Theorem round_robin_rotates {S} `{Runtime} (turns rest : list PeerIdentity) (ms : list Message)
    (b b' : GenericSocketBackend S) (rs : list (result unit ZmqError)) :
  coherent b -> size (peers b) <> 1%nat -> round_robin b = turns ++ rest ->
  Forall (fun p => is_Some (peers b !! p)) turns -> length ms = length turns ->
  send_all ms b = (b', rs) -> Forall (fun r => is_ok r = true) rs ->
  round_robin b' = rest ++ turns /\ peers b' = peers b
  /\ forall c, accepted (messages (shared b')) c
             = accepted (messages (shared b)) c ++ share (peers b) c (zip turns ms).
Proof.
  revert rest ms b rs. induction turns as [|p turns IH]; intros rest [|m ms] b rs Hc Hn Hrr Ht Hl Hs Hok;
    try done; cbn in Hs.
  { simplify_eq. rewrite Hrr, app_nil_r. split_and!; try done. intros c. cbn. by rewrite app_nil_r. }
  destruct (send_round_robin m b) as [b1 r] eqn:Hr. destruct (send_all ms b1) as [b2 rs2] eqn:Ha.
  simplify_eq. apply Forall_cons in Ht as [Hp Ht]. apply Forall_cons in Hok as [Hokr Hok].
  destruct (send_round_robin_spec _ _ _ _ Hc Hr) as
    [(? & _ & _ & ? & _)|[(? & _ & _ & ? & _)|[_ [(dead & p' & rr & Hrr' & Hdead & Hsent)|(Hd & _ & ->)]]]];
    [lia|lia| |done].
  assert (dead = [] /\ p' = p /\ rr = turns ++ rest) as (-> & -> & ->).
  { rewrite Hrr in Hrr'. destruct dead as [|d dead]; [by injection Hrr' as <- <-|].
    injection Hrr' as <- _. apply Forall_cons in Hdead as [Hd _]. rewrite Hd in Hp. by destruct Hp. }
  unfold sent_to in Hsent. rewrite Hokr in Hsent. destruct Hsent as [(s & Hps & Hpeers & Hc1 & Hdel) Hrr1].
  destruct (IH (rest ++ [p]) ms b1 rs2) as (Hrr2 & Hpeers2 & Hacc); try done.
  - by rewrite Hpeers.
  - by rewrite Hrr1, app_assoc.
  - by rewrite Hpeers.
  - split_and!; [by rewrite Hrr2, <- app_assoc|congruence|]. intros c. rewrite Hacc, (Hdel c), Hpeers.
    cbn [zip share flat_map]. rewrite Hps. cbn [send_queue]. by rewrite app_assoc.
Qed.

(** A peer that reconnects has two turns: its old place in the round-robin queue is live
    again beside the new one. *)
Theorem reconnect_doubles_turn {S} `{Runtime} (p : PeerIdentity) (io : FramedIo S)
    (b : GenericSocketBackend S) :
  enrolled b -> is_Some (peers b !! p) ->
  let b' := generic_peer_connected p io (generic_peer_disconnected p b) in
  is_Some (peers b' !! p)
  /\ exists before after, round_robin b' = before ++ p :: after ++ [p].
Proof.
  intros He Hp. destruct (connected_spec p io (generic_peer_disconnected p b)) as (_ & Hr & _ & _ & s & Hs & _).
  destruct (disconnected_spec p b) as (_ & _ & Hr' & _). cbv zeta. rewrite Hr, Hs, Hr', lookup_insert_eq.
  split; [by eexists|]. destruct (list_elem_of_split _ _ (He p Hp)) as (l1 & l2 & ->).
  exists l1, l2. by rewrite <- app_assoc.
Qed.

(** What a disconnection does, once: the peer, its stream and its notifier are gone, the
    notifier is told, a monitor is told if the peer was connected; and handling the same
    disconnection again (the writer, the reader and the queue can all report it) tells
    nobody anything. *)
Theorem peer_disconnected_once {S} `{Runtime} (p : PeerIdentity) (b : GenericSocketBackend S) :
  let b' := generic_peer_disconnected p b in
  let b'' := generic_peer_disconnected p b' in
  peers b' = delete p (peers b) /\ fair_queue_inner b' = remove p <$> fair_queue_inner b
  /\ disconnect_notifiers b' = delete p (disconnect_notifiers b)
  /\ events (shared b') = events (if peers b !! p is Some _ then emit (socket_monitor b) (Disconnected p) (shared b)
                                  else shared b)
  /\ notices (shared b') = notices (notify (disconnect_notifiers b !! p) p (shared b))
  /\ peers b'' = peers b' /\ events (shared b'') = events (shared b')
  /\ notices (shared b'') = notices (shared b').
Proof.
  assert (Hone : forall b0 : GenericSocketBackend S, let b1 := generic_peer_disconnected p b0 in
    peers b1 = delete p (peers b0) /\ fair_queue_inner b1 = remove p <$> fair_queue_inner b0
    /\ disconnect_notifiers b1 = delete p (disconnect_notifiers b0)
    /\ events (shared b1) = events (if peers b0 !! p is Some _ then emit (socket_monitor b0) (Disconnected p) (shared b0)
                                  else shared b0)
    /\ notices (shared b1) = notices (notify (disconnect_notifiers b0 !! p) p (shared b0))).
  { intros b0. unfold generic_peer_disconnected.
    destruct (refresh_spec (set_peers (delete p (peers b0)) b0)) as [_ (Hp & Hf & _ & Hm & Hn & He & Hno & _)].
    set (b1 := refresh_single_peer_cache _) in *.
    destruct (peers b0 !! p) as [peer|];
      [rewrite bool_decide_eq_true_2 by (by eexists)|rewrite bool_decide_eq_false_2 by (by intros [? ?])];
      cbn in *; rewrite ?Hm, ?Hn, ?Hf; destruct (socket_monitor b0), (disconnect_notifiers b0 !! p);
      cbn; split_and!; congruence. }
  destruct (Hone b) as (Hp & Hf & Hn & He & Hno). split_and!; try done;
    destruct (Hone (generic_peer_disconnected p b)) as (Hp2 & _ & _ & He2 & Hno2); cbv zeta in *.
  - rewrite Hp2, Hp. apply delete_delete_eq.
  - rewrite He2, Hp. by rewrite lookup_delete_eq.
  - rewrite Hno2, Hn. by rewrite lookup_delete_eq.
Qed.

(** A cached peer gets every message that is sent, and stays cached. *)
Lemma cached_round_robin {S} `{Runtime} (m : Message) (b b' : GenericSocketBackend S) sp u :
  peer_count b = 1 -> single_peer b = Some sp -> send_round_robin m b = (b', Ok u) ->
  delivers (messages (shared b)) (messages (shared b')) (chan_of (single_queue sp)) [m]
  /\ single_peer b' = Some sp /\ peer_count b' = 1 /\ peers b' = peers b.
Proof.
  intros H1 Hsp. unfold send_round_robin, try_send_cached_single_peer. rewrite H1, Hsp. cbn [negb Z.eqb].
  destruct (try_send (messages (shared b)) (single_queue sp) m) as [n [v|[]]] eqn:Hs; cbn.
  - intros Hr. simplify_eq. split_and!; try done. by eapply try_send_ok.
  - destruct (clone_sender n (single_queue sp)) as [n1 s1] eqn:Hcl. cbn.
    apply try_send_err in Hs. destruct (clone_none _ _ _ _ Hcl) as [Hn1 Hch].
    destruct (send_await n1 s1 m) as [n2 [w|e]] eqn:Hsend; cbn; intros Hr; simplify_eq.
    split_and!; try done. rewrite <- Hch. eapply delivers_none_l; [exact Hs|].
    eapply delivers_none_l; [done|]. by eapply send_ok.
  - done.
Qed.

(** The cache can go stale: when a task that refreshes the cache has read the count of
    one peer, and another task connects a second peer and refreshes the cache before the
    first task stores its count, the cache holds one peer although two are connected; from
    then on every successful send goes to that peer and leaves the cache as it is. *)
Theorem refresh_race {S} `{Runtime} (p2 : PeerIdentity) (s2 : sender Message)
    (b : GenericSocketBackend S) :
  size (peers b) = 1%nat -> peers b !! p2 = None ->
  let n := read_peer_count b in
  let b2 := refresh_single_peer_cache (set_peers (<[p2 := mkPeer s2]> (peers b)) b) in
  let b3 := store_single_peer n (store_peer_count n b2) in
  size (peers b3) = 2%nat /\ ~ coherent b3
  /\ exists sp, single_peer b3 = Some sp /\ peer_count b3 = 1
     /\ forall m b' u, send_round_robin m b3 = (b', Ok u) ->
          delivers (messages (shared b3)) (messages (shared b')) (chan_of (single_queue sp)) [m]
          /\ single_peer b' = Some sp /\ peer_count b' = 1 /\ peers b' = peers b3.
Proof.
  intros H1 Hp2. cbv zeta.
  destruct (refresh_spec (set_peers (<[p2 := mkPeer s2]> (peers b)) b)) as [_ [Hp _]].
  remember (refresh_single_peer_cache _) as b2 eqn:E. clear E. cbn [peers set_peers] in Hp.
  assert (size (peers b2) = 2%nat) as Hs2 by (rewrite Hp, map_size_insert_None, H1; done).
  unfold read_peer_count, store_single_peer. rewrite H1. change (Z.of_nat 1) with 1.
  change (1 =? 1) with true. cbv iota.
  change (peers (store_peer_count 1 b2)) with (peers b2).
  rewrite <- length_map_to_list in Hs2.
  destruct (map_to_list (peers b2)) as [|[p peer] l] eqn:Hl; [done|].
  destruct (clone_sender (messages (shared (store_peer_count 1 b2))) (send_queue peer)) as [net s] eqn:Hc.
  assert (size (peers b2) = 2%nat) as Hs2' by (by rewrite <- length_map_to_list, Hl).
  split; [exact Hs2'|]. split.
  { intros [Hcount _]. change (1 = Z.of_nat (size (peers b2))) in Hcount. lia. }
  exists (mkSingle p s). split_and!; [done|done|]. intros m b' u. by apply cached_round_robin.
Qed.

(** ** Concrete backends *)

Module Examples.
#[local] Existing Instance Runtime_exec.

Definition sh0 : Shared (list nat) :=
  mkShared Bounded.empty Bounded.empty Bounded.empty Recording.empty [].
Definition b0 : GenericSocketBackend (list nat) :=
  with_options (Some new_queue) DEALER default_options sh0.
Definition io (w : nat) : FramedIo (list nat) := mkIo [] w.
Definition b1 : GenericSocketBackend (list nat) := generic_peer_connected (bs "a") (io 0) b0.
Definition b2 : GenericSocketBackend (list nat) := generic_peer_connected (bs "b") (io 1) b1.
Definition msg (s : string) : Message := MMessage (ZmqMessage.from_bytes (bs s)).

Lemma b0_ok : backend_ok b0.
Proof. apply (with_options_ok (H := Runtime_exec)). Qed.
Lemma b1_ok : backend_ok b1.
Proof. apply connected_ok, b0_ok. Qed.
Lemma b2_ok : backend_ok b2.
Proof. apply connected_ok, b1_ok. Qed.

(** One peer of a stale cache gets everything, the other nothing. *)
Example stale_cache_example :
  let n := read_peer_count b1 in
  let b := store_single_peer n (store_peer_count n b2) in
  let b := fst (send_all [msg "x"; msg "y"; msg "z"] b) in
  accepted (messages (shared b)) 0 = [] /\ length (accepted (messages (shared b)) 1) = 3%nat.
Proof. by vm_compute. Qed.
End Examples.

Lemma backend_invariant_witness :
  coherent (H := Runtime_exec) Examples.b2 /\ enrolled (H := Runtime_exec) Examples.b2.
Proof.
  apply (backend_invariant (H := Runtime_exec) (Some new_queue) DEALER default_options Examples.sh0).
  eapply rtc_l; [exact (step_connected (H := Runtime_exec) Examples.b0 (bs "a") (Examples.io 0))|].
  eapply rtc_l; [exact (step_connected (H := Runtime_exec) Examples.b1 (bs "b") (Examples.io 1))|].
  apply rtc_refl.
Defined.

Lemma send_round_robin_delivers_witness :
  exists p, delivered (H := Runtime_exec) p (Examples.msg "x") Examples.b2
              (fst (send_round_robin (H := Runtime_exec) (Examples.msg "x") Examples.b2)).
Proof.
  apply (send_round_robin_delivers (H := Runtime_exec) (Examples.msg "x") Examples.b2 _ (Ok tt)).
  - apply Examples.b2_ok.
  - apply Examples.b2_ok.
  - apply pair_snd. by vm_compute.
Defined.

Lemma send_to_peer_exact_witness :
  snd (send_to_peer (H := Runtime_exec) (bs "c") (Examples.msg "x") Examples.b2)
  = Err (Other "Destination client not found by identity").
Proof.
  assert (peers Examples.b2 !! bs "c" = None) as Hn by (by apply (bool_decide_unpack _)).
  pose proof (send_to_peer_exact (H := Runtime_exec) (bs "c") (Examples.msg "x") Examples.b2 _ _
    (proj1 Examples.b2_ok) (surjective_pairing _)) as Hx.
  rewrite Hn in Hx. apply Hx.
Defined.

Lemma round_robin_rotates_witness :
  round_robin (fst (send_all (H := Runtime_exec) [Examples.msg "x"; Examples.msg "y"] Examples.b2))
  = [bs "a"; bs "b"].
Proof.
  apply (round_robin_rotates (H := Runtime_exec) [bs "a"; bs "b"] [] [Examples.msg "x"; Examples.msg "y"]
    Examples.b2 _ [Ok tt; Ok tt]).
  - apply Examples.b2_ok.
  - by vm_compute.
  - by vm_compute.
  - repeat constructor; apply (bool_decide_unpack _); by vm_compute.
  - done.
  - apply pair_snd. by vm_compute.
  - by repeat constructor.
Defined.

Lemma reconnect_doubles_turn_witness :
  let b := generic_peer_connected (H := Runtime_exec) (bs "a") (Examples.io 2)
             (generic_peer_disconnected (H := Runtime_exec) (bs "a") Examples.b2) in
  exists before after, round_robin b = before ++ bs "a" :: after ++ [bs "a"].
Proof.
  apply (reconnect_doubles_turn (H := Runtime_exec) (bs "a") (Examples.io 2) Examples.b2).
  - apply Examples.b2_ok.
  - apply (bool_decide_unpack _); by vm_compute.
Defined.

Lemma refresh_race_witness :
  let n := read_peer_count (H := Runtime_exec) Examples.b1 in
  let b := refresh_single_peer_cache (H := Runtime_exec)
             (set_peers (<[bs "b" := mkPeer (H := Runtime_exec) (1, 1)%nat]> (peers Examples.b1)) Examples.b1) in
  ~ coherent (H := Runtime_exec) (store_single_peer n (store_peer_count n b)).
Proof.
  apply (refresh_race (H := Runtime_exec) (bs "b") (1, 1)%nat Examples.b1); by vm_compute.
Defined.
