(* ===== verification/Handshake.v ===== *)
(** Connecting (src/src/util.rs): peer identities, version negotiation, the greeting and
    READY exchanges, the timeout around them and the retries of [connect_forever].

    An asynchronous function is its completion: a result, a panic, or never. Where time
    matters a future also has the time it takes. *)

From S2P Require Import Prelude Utf8 Message Endpoint Errors SocketTypes Greeting Command Codec.
From S2P Require Import FairQueue Channels Runtime.

Local Open Scope Z_scope.

(** How an [async fn] that returns a [ZmqResult<A>] ends. *)
Inductive completion (A : Type) : Type :=
  | Completed (r : result A ZmqError)
  | Hangs
  | Panicked.
Arguments Completed {A} r.
Arguments Hangs {A}.
Arguments Panicked {A}.

Definition and_then {A B} (c : completion A) (k : A -> completion B) : completion B :=
  match c with
  | Completed (Ok a) => k a
  | Completed (Err e) => Completed (Err e)
  | Hangs => Hangs
  | Panicked => Panicked
  end.

(** ** Identities *)

Definition MAX_LENGTH : Z := 255.

(** [TryFrom<Bytes> for PeerIdentity]; [uuid] are the bytes of the [Uuid] that
    [PeerIdentity::new] draws. *)
Definition peer_identity_try_from (uuid : bytes) (data : bytes) : result PeerIdentity ZmqError :=
  if bool_decide (data = []) then Ok uuid
  else if MAX_LENGTH <? len data then Err PeerIdentityErr
  else Ok data.

(** [FromStr], [TryFrom<&[u8]>] and [TryFrom<Vec<u8>>] make [Bytes] of what they are given. *)
Definition peer_identity_try_from_slice (uuid data : bytes) : result PeerIdentity ZmqError :=
  peer_identity_try_from uuid data.
Definition peer_identity_try_from_vec (uuid data : bytes) : result PeerIdentity ZmqError :=
  peer_identity_try_from uuid data.
Definition peer_identity_from_str (uuid : bytes) (s : string) : result PeerIdentity ZmqError :=
  peer_identity_try_from_slice uuid (bs s).

(** [Default for PeerIdentity], [From<PeerIdentity> for Bytes] and [for Vec<u8>], and the
    bytes that [AsRef] and [Deref] show. *)
Definition peer_identity_default (uuid : bytes) : PeerIdentity := uuid.
Definition identity_into_bytes (p_id : PeerIdentity) : bytes := p_id.
Definition identity_into_vec (p_id : PeerIdentity) : bytes := p_id.
Definition identity_as_ref (p_id : PeerIdentity) : bytes := p_id.

(** An identity that a peer can have. *)
Definition identity_ok (p_id : PeerIdentity) : Prop := p_id <> [] /\ len p_id <= MAX_LENGTH.

(** Identities: whatever bytes an identity is made of, it is valid, and no other bytes than
    too long ones are refused; the bytes of a valid identity are read back as the same, so an
    identity frame that a ROUTER's user sends back names the peer it came from. *)
Theorem identity_conversions (uuid : bytes) :
  identity_ok uuid ->
  (forall data, match peer_identity_try_from uuid data with
                | Ok p_id => identity_ok p_id /\ len data <= MAX_LENGTH
                | Err e => MAX_LENGTH < len data /\ e = PeerIdentityErr
                end)
  /\ forall p_id, identity_ok p_id -> peer_identity_try_from_vec uuid (identity_into_vec p_id) = Ok p_id.
Proof.
  intros Hu. split.
  - intros data. unfold peer_identity_try_from. case_bool_decide as Hd; [by subst|].
    destruct (Z.ltb_spec MAX_LENGTH (len data)); [done|]. by split; [split|].
  - intros p_id [Hp Hl]. unfold peer_identity_try_from_vec, peer_identity_try_from, identity_into_vec.
    rewrite bool_decide_eq_false_2 by done. by rewrite (proj2 (Z.ltb_ge _ _)).
Qed.

Lemma identity_conversions_witness :
  peer_identity_try_from_vec (bs "0123456789abcdef") (identity_into_vec (bs "alice")) = Ok (bs "alice").
Proof. apply (proj2 (identity_conversions (bs "0123456789abcdef") ltac:(by vm_compute))). by vm_compute. Defined.

(** ** Version negotiation *)

(** [peer.version >= my_version] on pairs: lexicographic. *)
Definition version_ge (a b : ZmtpVersion) : bool :=
  (u8_val (fst b) <? u8_val (fst a))
  || ((u8_val (fst a) =? u8_val (fst b)) && (u8_val (snd b) <=? u8_val (snd a))).

Definition negotiate_version (greeting : Message) : result ZmtpVersion ZmqError :=
  let my_version := version default_greeting in
  match greeting with
  | MGreeting peer =>
      if version_ge (version peer) my_version then Ok my_version
      else Err (UnsupportedVersion (version peer))
  | _ => Err (Other "Failed Greeting exchange")
  end.

(** ** The exchanges *)

(** [read_half.next().await]: the next item, or [None] when it never comes. *)
Class NextMessage (S : Type) : Type := {
  next_message : S -> S * option (option (result Message CodecError));
}.

Section Exchange.
Context {S : Type} `{Runtime, NextMessage S}.

(** The connection and the sinks, through a handshake. *)
Definition handshake (A : Type) : Type := sinks -> FramedIo S -> sinks * FramedIo S * completion A.

(** [raw_socket.write_half.send(message).await?] *)
Definition write (m : Message) : handshake unit := fun o io =>
  let '(o, r) := sink_send o (write_half io) m in
  (o, io, Completed (result_map_err Codec r)).

(** [raw_socket.read_half.next().await] *)
Definition read : handshake (option (result Message CodecError)) := fun o io =>
  let '(s, x) := next_message (read_half io) in
  (o, mkIo s (write_half io), match x with Some item => Completed (Ok item) | None => Hangs end).

Definition bind {A B} (f : handshake A) (k : A -> handshake B) : handshake B := fun o io =>
  let '(o, io, c) := f o io in
  match c with
  | Completed (Ok a) => k a o io
  | Completed (Err e) => (o, io, Completed (Err e))
  | Hangs => (o, io, Hangs)
  | Panicked => (o, io, Panicked)
  end.

Definition return_ {A} (c : completion A) : handshake A := fun o io => (o, io, c).

Notation "x '<-!' f ';' k" := (bind f (fun x => k)) (at level 60, f at next level, right associativity).

Definition greet_exchange : handshake ZmtpVersion :=
  _ <-! write (MGreeting default_greeting);
  item <-! read;
  match item with
  | Some (Ok greeting) => return_ (Completed (negotiate_version greeting))
  | Some (Err e) => return_ (Completed (Err (Codec e)))
  | None => return_ (Completed (Err (Other "Failed Greeting exchange")))
  end.

(** What the reply to a READY command says about the peer. *)
Definition check_ready (uuid : bytes) (socket_type : SocketType) (command : ZmqCommand) :
    completion PeerIdentity :=
  match name command with
  | READY =>
      and_then
        (Completed match properties command !! bs "Socket-Type" with
                   | Some s => socket_type_try_from s
                   | None => Err (Other "Failed to parse other socket type")
                   end)
        (fun other_sock_type =>
           and_then
             (Completed match properties command !! bs "Identity" with
                        | Some x => peer_identity_try_from uuid x
                        | None => Ok uuid
                        end)
             (fun peer_id =>
                match compatible socket_type other_sock_type with
                | None => Panicked
                | Some true => Completed (Ok peer_id)
                | Some false =>
                    Completed (Err (Other "Provided sockets combination is not compatible"))
                end))
  end.

Definition ready_exchange (uuid : bytes) (socket_type : SocketType) (props : option PropMap) :
    handshake PeerIdentity :=
  let command := match props with
                 | Some props => add_properties (ready socket_type) props
                 | None => ready socket_type
                 end in
  _ <-! write (MCommand command);
  ready_repl <-! read;
  match ready_repl with
  | Some (Ok (MCommand command)) => return_ (check_ready uuid socket_type command)
  | Some (Ok _) => return_ (Completed (Err (Other "Failed to confirm ready state")))
  | Some (Err e) => return_ (Completed (Err (Codec e)))
  | None => return_ (Completed (Err (Other "No reply from server")))
  end.

(** The properties a socket announces: its identity, when one is configured. *)
Definition identity_props (options : SocketOptions) : option PropMap :=
  match peer_id options with
  | Some identity => Some {[ bs "Identity" := identity ]}
  | None => None
  end.

Definition peer_handshake (uuid : bytes) (socket_type : SocketType) (options : SocketOptions) :
    handshake PeerIdentity :=
  _ <-! greet_exchange;
  ready_exchange uuid socket_type (identity_props options).

(** [util::peer_connected]: the handshake, then the backend takes the connection. *)
Definition peer_connected {W} `{!MultiPeerBackend W S} (uuid : bytes) (io : FramedIo S) (w : W) :
    W * completion PeerIdentity :=
  let '(o, io, c) :=
    peer_handshake uuid (backend_socket_type w) (backend_socket_options w)
      (outputs (backend_shared w)) io in
  let w := set_backend_shared (set_outputs o (backend_shared w)) w in
  match c with
  | Completed (Ok peer_id) => (Runtime.peer_connected peer_id io w, Completed (Ok peer_id))
  | c => (w, c)
  end.
End Exchange.

(** ** Time *)

(** A future: how long it takes, and how it ends. *)
Definition future (A : Type) : Type := (Z * completion A)%type.

(** [async_rt::task::timeout]: the timer of the runtime runs beside the future; [None] is the
    error of an elapsed timer. *)
Definition timeout {A} (duration : Duration) (f : future A) : Z * option (completion A) :=
  match f with
  | (_, Hangs) => (duration, None)
  | (t, c) => if t <=? duration then (t, Some c) else (duration, None)
  end.

(** [async_rt::task::sleep], from the time [elapsed] on. *)
Definition sleep (duration : Duration) (elapsed : Z) : Z := elapsed + duration.

(** [run_with_timeout]. *)
Definition run_with_timeout {A} (duration : option Duration) (f : future A) : future A :=
  match duration with
  | Some d =>
      match timeout d f with
      | (t, Some c) => (t, c)
      | (t, None) => (t, Completed (Err (ConnectTimeout d)))
      end
  | None => f
  end.

Definition is_retryable_connect_error (endpoint : Endpoint) (error : ZmqError) : bool :=
  match error with
  | Network e =>
      if bool_decide (kind e = ConnectionRefused) then true
      else bool_decide (Endpoint.transport endpoint = TransportIpc) && bool_decide (kind e = NotFound)
  | _ => false
  end.

Definition millis : Z := 10 ^ 6.
Definition INITIAL : Duration := 50 * millis.
Definition MAX : Duration := 30000 * millis.

(** What [connect_forever] is given: how long its [i]-th [transport::connect] takes and
    what it returns, and the random jitter added to the [i]-th delay, under a tenth of it. *)
Class Connector (C : Type) : Type := {
  attempt : nat -> Z * result C ZmqError;
  jitter : nat -> Z -> Z;
  attempt_time i : 0 <= fst (attempt i);
  jitter_bound i delay : 0 <= delay -> 0 <= jitter i delay <= delay / 10;
}.

Section Connecting.
Context {C : Type} `{Connector C}.

(** The [loop]: [i] attempts have been made in the time [elapsed]. [None] is fuel that ran
    out, while the loop goes on. *)
Fixpoint connect_loop (fuel i : nat) (endpoint : Endpoint) (delay elapsed : Z) :
    option (Z * result C ZmqError) :=
  match fuel with
  | O => None
  | Datatypes.S fuel =>
      let '(t, r) := attempt i in
      let elapsed := elapsed + t in
      match r with
      | Ok res => Some (elapsed, Ok res)
      | Err e =>
          if is_retryable_connect_error endpoint e
          then connect_loop fuel (Datatypes.S i) endpoint (Z.min (delay * 2) MAX)
                 (sleep (delay + jitter i delay) elapsed)
          else Some (elapsed, Err e)
      end
  end.

Definition connect_forever (fuel : nat) (endpoint : Endpoint) : option (Z * result C ZmqError) :=
  connect_loop fuel 0 endpoint INITIAL 0.

(** The delay before the attempt after the [i]-th. *)
Definition backoff (i : nat) : Z := Z.min (INITIAL * 2 ^ Z.of_nat i) MAX.
End Connecting.

(** ** Exact behaviour of the exchanges *)

Section ExchangeLemmas.
Context {S : Type} `{Runtime, NextMessage S}.
Implicit Types io : FramedIo S.

Lemma greet_exchange_ok o io o' io' v :
  greet_exchange o io = (o', io', Completed (Ok v)) ->
  sink_send o (write_half io) (MGreeting default_greeting) = (o', Ok tt)
  /\ exists g, next_message (read_half io) = (read_half io', Some (Some (Ok (MGreeting g))))
     /\ version_ge (version g) (version default_greeting) = true
     /\ v = version default_greeting /\ write_half io' = write_half io.
Proof.
  unfold greet_exchange, bind, write, read, return_.
  destruct (sink_send o (write_half io) _) as [o1 [[]|e]]; cbn; [|done].
  destruct (next_message (read_half io)) as [s [[[[g| |]|e]|]|]]; cbn; try done.
  destruct (version_ge _ _) eqn:Hv; intros [= <- <- <-]. split; [done|]. by exists g.
Qed.

(** What [check_ready] accepts. *)
Lemma check_ready_ok uuid t cmd id :
  check_ready uuid t cmd = Completed (Ok id) <->
  exists t', properties cmd !! bs "Socket-Type" = Some (as_str t') /\ compatible t t' = Some true
    /\ id = match properties cmd !! bs "Identity" with
            | None | Some [] => uuid
            | Some x => x
            end
    /\ match properties cmd !! bs "Identity" with Some x => len x <= MAX_LENGTH | None => True end.
Proof.
  assert (Htype : forall s t', socket_type_try_from s = Ok t' <-> s = as_str t').
  { intros s t'. split; [|intros ->; by destruct t']. unfold socket_type_try_from.
    intros Hs. repeat (case_decide; [by simplify_eq|]). done. }
  unfold check_ready. destruct (name cmd).
  assert (Hid : forall x, match peer_identity_try_from uuid x with
    | Ok i => i = match x with [] => uuid | _ => x end /\ len x <= MAX_LENGTH
    | Err _ => MAX_LENGTH < len x end).
  { intros [|b x]; [done|]. unfold peer_identity_try_from. rewrite bool_decide_eq_false_2 by done.
    destruct (Z.ltb_spec MAX_LENGTH (len (b :: x))); [done|]. split; [done|lia]. }
  destruct (properties cmd !! bs "Socket-Type") as [s|]; cbn [and_then];
    [|split; [done|by intros (? & ? & _)]].
  destruct (socket_type_try_from s) as [t'|e] eqn:Hs; cbn [and_then].
  2:{ split; [done|]. intros (t' & [= ->] & _). by rewrite (proj2 (Htype _ t')) in Hs. }
  apply Htype in Hs as ->.
  assert (forall t'', Some (as_str t') = Some (as_str t'') -> t'' = t') as Hinj.
  { intros t'' [= Heq]. pose proof (proj2 (Htype _ t'') Heq) as Ht.
    rewrite (proj2 (Htype _ t') eq_refl) in Ht. congruence. }
  destruct (properties cmd !! bs "Identity") as [x|]; cbn [and_then].
  - specialize (Hid x). destruct (peer_identity_try_from uuid x) as [i|e]; cbn [and_then].
    + destruct Hid as [-> Hlen]. destruct (compatible t t') as [[]|] eqn:Hc; split; try done;
        try (intros (t'' & <-%Hinj & Hc' & _); congruence).
      * intros [= <-]. exists t'. by destruct x.
      * intros (t'' & _ & _ & -> & _). by destruct x.
    + split; [done|]. intros (_ & _ & _ & _ & ?). lia.
  - destruct (compatible t t') as [[]|] eqn:Hc; split; try done;
      try (intros (t'' & <-%Hinj & Hc' & _); congruence).
    + intros [= <-]. by exists t'.
    + by intros (t'' & _ & _ & -> & _).
Qed.

Lemma ready_exchange_ok uuid t props o io o' io' id :
  ready_exchange uuid t props o io = (o', io', Completed (Ok id)) ->
  let cmd := match props with Some p => add_properties (ready t) p | None => ready t end in
  sink_send o (write_half io) (MCommand cmd) = (o', Ok tt)
  /\ exists reply, next_message (read_half io) = (read_half io', Some (Some (Ok (MCommand reply))))
     /\ check_ready uuid t reply = Completed (Ok id) /\ write_half io' = write_half io.
Proof.
  unfold ready_exchange, bind, write, read, return_. cbv zeta.
  destruct (sink_send o (write_half io) _) as [o1 [[]|e]]; cbn; [|done].
  destruct (next_message (read_half io)) as [s [[[[|c|]|e]|]|]]; cbn; try done.
  intros [= <- <- Hc]. split; [done|]. by exists c.
Qed.
End ExchangeLemmas.

(** ** Properties of the handshake *)

(** Version negotiation: a greeting is accepted exactly when its major version is at
    least 3, and then the connection uses version 3.0; anything else is refused. *)
Theorem negotiate_version_iff (m : Message) (v : ZmtpVersion) :
  negotiate_version m = Ok v <->
  exists g, m = MGreeting g /\ 3 <= u8_val (fst (version g)) /\ v = (Byte.x03, Byte.x00).
Proof.
  assert (Hge : forall g, version_ge (version g) (version default_greeting) = true
                          <-> 3 <= u8_val (fst (version g))).
  { intros g. unfold version_ge. cbn [version default_greeting fst snd].
    change (u8_val Byte.x03) with 3. change (u8_val Byte.x00) with 0.
    pose proof (u8_val_range (snd (version g))). lia. }
  unfold negotiate_version. destruct m as [g|c|z]; [|by split; [|intros (? & ? & _)]..].
  destruct (version_ge _ _) eqn:E; split; try done.
  - intros [= <-]. exists g. by rewrite Hge in E.
  - by intros (g' & [= <-] & _ & ->).
  - intros (g' & [= <-] & Hv & _). apply Hge in Hv. congruence.
Qed.

(** The READY command a socket sends. *)
Definition announced (t : SocketType) (options : SocketOptions) : ZmqCommand :=
  match identity_props options with
  | Some props => add_properties (ready t) props
  | None => ready t
  end.

(** C32 A handshake that succeeds has sent the greeting and the READY command, in this order,
    and read a greeting of major version 3 or more and a READY command that names a
    compatible socket type, with an identity of at most 255 bytes, which becomes the peer's
    identity; without one, or with an empty one, the peer gets a fresh identity. *)
Theorem peer_handshake_ok {S} `{Runtime, NextMessage S} (uuid : bytes) (t : SocketType)
    (options : SocketOptions) (o o' : sinks) (io io' : FramedIo S) (id : PeerIdentity) :
  peer_handshake uuid t options o io = (o', io', Completed (Ok id)) ->
  written o' (write_half io)
    = written o (write_half io) ++ [MGreeting default_greeting; MCommand (announced t options)]
  /\ exists s g reply t',
       next_message (read_half io) = (s, Some (Some (Ok (MGreeting g))))
       /\ 3 <= u8_val (fst (version g))
       /\ next_message s = (read_half io', Some (Some (Ok (MCommand reply))))
       /\ properties reply !! bs "Socket-Type" = Some (as_str t') /\ compatible t t' = Some true
       /\ id = match properties reply !! bs "Identity" with
               | None | Some [] => uuid
               | Some x => x
               end
       /\ match properties reply !! bs "Identity" with Some x => len x <= 255 | None => True end.
Proof.
  unfold peer_handshake, bind. destruct (greet_exchange o io) as [[o1 io1] c] eqn:Hg.
  destruct c as [[v|e]| |]; try done. intros Hr.
  apply greet_exchange_ok in Hg as (Hs1 & g & Hn1 & Hv & -> & Hw1).
  apply ready_exchange_ok in Hr as (Hs2 & reply & Hn2 & Hc & Hw2).
  apply check_ready_ok in Hc as (t' & Ht & Hcomp & Hid & Hlen). rewrite Hw1 in Hs2.
  apply sink_send_ok in Hs1, Hs2. split.
  - rewrite Hs2, Hs1, <- app_assoc. done.
  - exists (read_half io1), g, reply, t'. split_and!; try done.
    assert (negotiate_version (MGreeting g) = Ok (version default_greeting)) as Hneg
      by (unfold negotiate_version; by rewrite Hv).
    destruct (version g) as [major minor] eqn:E. revert Hv. unfold version_ge.
    cbn [version default_greeting fst snd]. change (u8_val Byte.x03) with 3.
    change (u8_val Byte.x00) with 0. pose proof (u8_val_range minor). lia.
Qed.

(** Two sockets of compatible types accept each other: each takes the READY command that
    the other sends, and gives it its configured identity, or a fresh one without. *)
Theorem handshake_agreement (uuid uuid' : bytes) (t t' : SocketType) (o o' : SocketOptions) :
  t <> STREAM -> t' <> STREAM -> compatible t t' = Some true ->
  match peer_id o with Some x => 0 < len x <= 255 | None => True end ->
  match peer_id o' with Some x => 0 < len x <= 255 | None => True end ->
  check_ready uuid t (announced t' o') = Completed (Ok (default uuid (peer_id o')))
  /\ check_ready uuid' t' (announced t o) = Completed (Ok (default uuid' (peer_id o))).
Proof.
  intros Ht Ht' Hc Ho Ho'.
  assert (compatible t' t = Some true) as Hc' by (by destruct t, t').
  assert (Hone : forall u a b opts, compatible a b = Some true ->
    match peer_id opts with Some x => 0 < len x <= 255 | None => True end ->
    check_ready u a (announced b opts) = Completed (Ok (default u (peer_id opts)))).
  { intros u a b opts Hab Hid. apply check_ready_ok. exists b. unfold announced, identity_props.
    destruct (peer_id opts) as [x|]; cbn [add_properties ready properties default].
    - rewrite lookup_union_r, lookup_singleton_eq by by apply lookup_singleton_ne.
      rewrite (lookup_union_Some_l _ _ _ x) by apply lookup_singleton_eq.
      split_and!; try done; [destruct x; [unfold len in Hid; cbn in Hid; lia|done]|]. unfold MAX_LENGTH. lia.
    - rewrite lookup_singleton_eq, lookup_singleton_ne by done. by split_and!. }
  split; by apply Hone.
Qed.

(** A timeout bounds what it guards: with one, the future is over within it, with its own
    result if it ended in time and with [ConnectTimeout] otherwise; without one it is the
    future itself. *)
Theorem run_with_timeout_bounds {A} (duration : option Duration) (f : future A) :
  match duration with
  | None => run_with_timeout duration f = f
  | Some d =>
      let '(t, c) := run_with_timeout duration f in
      t <= d /\ c <> Hangs
      /\ ((t, c) = f \/ (c = Completed (Err (ConnectTimeout d)) /\ (snd f = Hangs \/ d < fst f)))
  end.
Proof.
  destruct duration as [d|]; [|done]. cbn. destruct f as [t []]; cbn;
    try (destruct (Z.leb_spec t d)); split_and!; auto; lia.
Qed.

(** ** Properties of the retries *)

Section Retries.
Context {C : Type} `{Connector C}.

(** The time of [n] failed attempts from the [i]-th on, without the jitter, and what the
    jitter adds at most. *)
Fixpoint spent (n i : nat) : Z :=
  match n with
  | O => 0
  | Datatypes.S n => fst (attempt i) + backoff i + spent n (Datatypes.S i)
  end.

Fixpoint slack (n i : nat) : Z :=
  match n with
  | O => 0
  | Datatypes.S n => backoff i / 10 + slack n (Datatypes.S i)
  end.

Lemma backoff_next i : Z.min (backoff i * 2) MAX = backoff (Datatypes.S i).
Proof.
  unfold backoff. rewrite Nat2Z.inj_succ, Z.pow_succ_r by lia.
  assert (1 <= 2 ^ Z.of_nat i) by (pose proof (Z.pow_pos_nonneg 2 (Z.of_nat i)); lia).
  unfold INITIAL, MAX, millis. lia.
Qed.

Lemma backoff_range i : INITIAL <= backoff i <= MAX.
Proof.
  unfold backoff. assert (1 <= 2 ^ Z.of_nat i) by (pose proof (Z.pow_pos_nonneg 2 (Z.of_nat i)); lia).
  unfold INITIAL, MAX, millis. lia.
Qed.

Lemma spent_lower n i : Z.of_nat n * INITIAL <= spent n i.
Proof.
  revert i. induction n as [|n IH]; intros i; cbn [spent]; [lia|].
  specialize (IH (Datatypes.S i)). pose proof (attempt_time i). pose proof (backoff_range i). lia.
Qed.

Definition retried (endpoint : Endpoint) (r : result C ZmqError) : bool :=
  match r with Ok _ => false | Err e => is_retryable_connect_error endpoint e end.

Lemma connect_loop_retries endpoint n i fuel elapsed :
  (forall j, (i <= j < i + n)%nat -> retried endpoint (snd (attempt j)) = true) ->
  exists elapsed', connect_loop (n + fuel) i endpoint (backoff i) elapsed
      = connect_loop fuel (i + n) endpoint (backoff (i + n)) elapsed'
    /\ elapsed + spent n i <= elapsed' <= elapsed + spent n i + slack n i.
Proof.
  revert i elapsed. induction n as [|n IH]; intros i elapsed Hr.
  { exists elapsed. rewrite Nat.add_0_r. cbn. split; [done|lia]. }
  cbn [Nat.add connect_loop]. pose proof (Hr i ltac:(lia)) as Hi. unfold retried in Hi.
  pose proof (jitter_bound i (backoff i)) as Hj. pose proof (backoff_range i) as Hb.
  unfold INITIAL, millis in Hb. cbn [spent slack].
  destruct (attempt i) as [t [c|e]]; cbn [snd fst] in *; [done|]. unfold sleep. rewrite Hi, backoff_next.
  destruct (IH (Datatypes.S i) (elapsed + t + (backoff i + jitter i (backoff i)))) as (el & -> & Hel).
  { intros j Hj'. apply Hr. lia. }
  exists el. rewrite Nat.add_succ_r. split; [done|]. lia.
Qed.

(** After [n] attempts that are retried, the next one is the result. *)
Lemma connect_forever_ends endpoint n fuel :
  (forall j, (j < n)%nat -> retried endpoint (snd (attempt j)) = true) ->
  retried endpoint (snd (attempt n)) = false -> (n < fuel)%nat ->
  exists elapsed, connect_forever fuel endpoint = Some (elapsed + fst (attempt n), snd (attempt n))
    /\ spent n 0 <= elapsed <= spent n 0 + slack n 0.
Proof.
  intros Hr Hn Hf. unfold connect_forever. change INITIAL with (backoff 0).
  destruct (connect_loop_retries endpoint n 0 (fuel - n) 0) as (el & Hl & He).
  { intros j Hj. apply Hr. lia. }
  replace (n + (fuel - n))%nat with fuel in Hl by lia. exists el. rewrite Hl.
  destruct (fuel - n)%nat as [|k] eqn:E; [lia|]. cbn [Nat.add connect_loop].
  unfold retried in Hn. split; [|lia].
  destruct (attempt n) as [t [c|e]]; [done|]. cbn [snd fst] in *. by rewrite Hn.
Qed.

(** It succeeds by the first attempt that is not worth a retry. *)
Lemma connect_loop_ok endpoint fuel i delay elapsed t c :
  connect_loop fuel i endpoint delay elapsed = Some (t, Ok c) ->
  exists k, (i <= k)%nat /\ snd (attempt k) = Ok c
    /\ forall j, (i <= j < k)%nat -> retried endpoint (snd (attempt j)) = true.
Proof.
  revert i delay elapsed. induction fuel as [|fuel IH]; intros i delay elapsed; [done|].
  cbn [connect_loop]. destruct (attempt i) as [ti [c'|e]] eqn:E.
  - intros [= _ ->]. exists i. rewrite E. split_and!; [lia|done|]. intros; lia.
  - destruct (is_retryable_connect_error endpoint e) eqn:Er; [|done].
    intros (k & Hk & Hc & Hj)%IH. exists k. split_and!; [lia|done|]. intros j Hj'.
    destruct (decide (j = i)) as [->|]; [by rewrite E|]. apply Hj. lia.
Qed.

Lemma connect_forever_ok endpoint fuel t c :
  connect_forever fuel endpoint = Some (t, Ok c) ->
  exists k, snd (attempt k) = Ok c /\ forall j, (j < k)%nat -> retried endpoint (snd (attempt j)) = true.
Proof.
  intros (k & _ & Hc & Hj)%connect_loop_ok. exists k. split; [done|]. intros j Hlt. apply Hj. lia.
Qed.

Lemma connect_forever_goes_on endpoint n fuel :
  (forall j, (j < n)%nat -> retried endpoint (snd (attempt j)) = true) -> (fuel <= n)%nat ->
  connect_forever fuel endpoint = None.
Proof.
  intros Hr Hf. unfold connect_forever. change INITIAL with (backoff 0).
  destruct (connect_loop_retries endpoint fuel 0 0 0) as (el & Hl & _).
  { intros j Hj. apply Hr. lia. }
  by rewrite Nat.add_0_r in Hl; rewrite Hl.
Qed.
End Retries.

(** The retries of [connect_forever]: while attempts are refused it tries again after
    delays that double from 50 ms up to 30 s, plus at most a tenth; the first attempt that
    succeeds, or fails otherwise, is its result. It never gives up on its own, and [n]
    attempts take at least [n] times 50 ms. *)
Theorem connect_forever_retries {C} `{Connector C} (endpoint : Endpoint) (n : nat) :
  (forall j, (j < n)%nat -> retried endpoint (snd (attempt j)) = true) ->
  (retried endpoint (snd (attempt n)) = false ->
     forall fuel, (n < fuel)%nat -> exists elapsed,
       connect_forever fuel endpoint = Some (elapsed + fst (attempt n), snd (attempt n))
       /\ spent n 0 <= elapsed <= spent n 0 + slack n 0 /\ Z.of_nat n * INITIAL <= elapsed)
  /\ (forall fuel, (fuel <= n)%nat -> connect_forever fuel endpoint = None).
Proof.
  intros Hr. split.
  - intros Hn fuel Hf. destruct (connect_forever_ends endpoint n fuel Hr Hn Hf) as (el & Hc & He).
    pose proof (spent_lower n 0). exists el. split; [done|lia].
  - intros fuel Hf. by apply (connect_forever_goes_on endpoint n).
Qed.

(** ** Concrete connections *)

Module HandshakeExamples.
#[local] Existing Instance Runtime_exec.

(** A peer that sends what is in a list, and then closes. *)
#[global] Instance list_messages : NextMessage (list Message) := {|
  next_message l := match l with [] => ([], Some None) | m :: l => (l, Some (Some (Ok m))) end
|}.

Definition dealer_options : SocketOptions := SocketTypes.peer_identity default_options (bs "client").
Definition router_io : FramedIo (list Message) :=
  mkIo [MGreeting default_greeting; MCommand (announced DEALER dealer_options)] 0%nat.

Lemma router_accepts :
  snd (peer_handshake [] ROUTER default_options Recording.empty router_io)
  = Completed (Ok (bs "client")).
Proof. by vm_compute. Qed.

(** Refused twice, then connected. *)
#[global] Program Instance third_time : Connector nat := {|
  attempt i := (0, if (i <? 2)%nat then Err (Network (IoError ConnectionRefused)) else Ok 7%nat);
  jitter _ _ := 0;
|}.
Next Obligation. done. Qed.
Next Obligation. intros. split; [lia|]. apply Z.div_pos; lia. Qed.
End HandshakeExamples.

Lemma peer_handshake_ok_witness :
  exists g : ZmqGreeting, 3 <= u8_val (fst (version g)).
Proof.
  pose proof HandshakeExamples.router_accepts as Hr.
  destruct (peer_handshake (H := Runtime_exec) [] ROUTER default_options Recording.empty
    HandshakeExamples.router_io) as [[o' io'] c] eqn:E. cbn [snd] in Hr. subst c.
  destruct (peer_handshake_ok (H := Runtime_exec) [] ROUTER default_options Recording.empty o'
    HandshakeExamples.router_io io' (bs "client") E) as (_ & s & g & reply & t' & _ & Hg & _).
  by exists g.
Defined.

Lemma handshake_agreement_witness :
  check_ready [] ROUTER (announced DEALER HandshakeExamples.dealer_options)
  = Completed (Ok (bs "client")).
Proof.
  apply (handshake_agreement [] [] ROUTER DEALER default_options HandshakeExamples.dealer_options);
    try done; by vm_compute.
Defined.

Lemma connect_forever_retries_witness :
  let e := Tcp (Domain (bs "host")) 5555 in
  exists elapsed, connect_forever 10 e = Some (elapsed, Ok 7%nat) /\ 2 * INITIAL <= elapsed.
Proof.
  destruct (connect_forever_retries (Tcp (Domain (bs "host")) 5555) 2) as [H1 _].
  { intros [|[|j]] Hj; [done|done|lia]. }
  destruct (H1 eq_refl 10%nat ltac:(lia)) as (el & Hc & _ & Hl).
  exists (el + 0). split; [exact Hc|lia].
Defined.
