(* ===== verification/Receive.v ===== *)
(** Receiving (the [recv] of every socket: src/src/dealer.rs, router.rs, pull.rs, rep.rs,
    sub.rs, xsub.rs, xpub.rs): a loop over the socket's fair queue that ends with the first
    item the socket answers with.

    A [recv] is polled; between two of its polls its only state is the socket's. What a
    socket does with an item is its handler, and [recv_poll] is the loop around it. *)

From S2P Require Import Prelude Message Endpoint Errors SocketTypes Greeting Command Codec.
From S2P Require Import FairQueue.

(** What a peer's stream yields. *)
Abbreviation item := (result Message CodecError).

(** Streams that yield finitely many messages before they are pending, fail or end; they may
    fail any number of times. *)
Class FiniteStream (S : Type) `{Stream S item} : Type := {
  remaining : S -> nat;
  remaining_pending s s' wk : poll_stream s = (s', Pending, wk) -> (remaining s' <= remaining s)%nat;
  remaining_item s s' m wk : poll_stream s = (s', Ready (Some (Ok m)), wk) -> (remaining s' < remaining s)%nat;
  remaining_error s s' e wk : poll_stream s = (s', Ready (Some (Err e)), wk) -> (remaining s' <= remaining s)%nat;
}.

(** What a socket does with an item: it answers, or ([None]) waits for the next one. On its
    queue a handler does nothing, except that an error may remove the peer; an error that is
    not answered does remove it. *)
Class Receiver (W S A : Type) `{!HasQueue W S PeerIdentity} : Type := {
  handle : PeerIdentity -> item -> W -> W * option (result A ZmqError);
  handle_queue p x w :
    queue (fst (handle p x w)) = queue w
    \/ (exists e, x = Err e /\ queue (fst (handle p x w)) = remove p (queue w));
  handle_error p e w :
    snd (handle p (Err e) w) = None -> queue (fst (handle p (Err e) w)) = remove p (queue w);
}.

Section Receiving.
Context {W S A : Type} `{!HasQueue W S PeerIdentity, !OnDisconnect W S PeerIdentity,
  !Stream S item, !FiniteStream S, !Receiver W S A}.
Implicit Types w : W.

(** [loop { match self.fair_queue.next().await { .. } }]; every socket's queue was made by
    [FairQueue::new(true)]. The outer [None] is fuel that ran out. *)
Fixpoint recv_loop (fuel : nat) (cx : task) w : W * option (poll (result A ZmqError)) :=
  match fuel with
  | O => (w, None)
  | Datatypes.S fuel =>
      match poll_next cx true w with
      | (w, Pending) => (w, Some Pending)
      | (w, Ready None) => (w, Some (Ready (Err NoMessage)))
      | (w, Ready (Some (peer_id, x))) =>
          match handle peer_id x w with
          | (w, Some r) => (w, Some (Ready r))
          | (w, None) => recv_loop fuel cx w
          end
      end
  end.

(** The messages that the streams of a queue can still yield, and the streams. *)
Definition total (m : gmap PeerIdentity S) : nat :=
  map_fold (fun _ s n => Datatypes.S (remaining s) + n)%nat 0%nat m.

Definition recv_poll (cx : task) w : W * poll (result A ZmqError) :=
  let '(w, r) := recv_loop (Datatypes.S (total (streams (queue w)))) cx w in
  (w, default Pending r).

(** ** The loop ends *)

Lemma total_delete m k s :
  m !! k = Some s -> total m = (Datatypes.S (remaining s) + total (delete k m))%nat.
Proof. intros Hk. unfold total. rewrite (map_fold_delete_L _ _ k s m); [done|intros; lia|done]. Qed.

Lemma total_le m m' :
  (forall k s', m' !! k = Some s' -> exists s, m !! k = Some s /\ (remaining s' <= remaining s)%nat) ->
  (total m' <= total m)%nat.
Proof.
  revert m. induction m' as [|k s' m' Hk IH] using map_ind; intros m Hle.
  { unfold total. rewrite map_fold_empty. lia. }
  destruct (Hle k s') as (s & Hs & Hrem); [apply lookup_insert_eq|].
  rewrite (total_delete _ k s') by apply lookup_insert_eq. rewrite (total_delete m k s) by done.
  rewrite delete_insert_id by done. apply Nat.add_le_mono; [lia|]. apply IH.
  intros k' s'' Hs''. destruct (Hle k' s'') as (s0 & Hs0 & ?).
  { rewrite lookup_insert_ne; [done|congruence]. }
  exists s0. rewrite lookup_delete_ne; [done|congruence].
Qed.

(** The messages among the items. *)
Definition oks (l : list item) : list Message :=
  flat_map (fun x => match x with Ok m => [m] | Err _ => [] end) l.

Lemma trace_remaining s l s' :
  trace s l s' -> (remaining s' + length (oks l) <= remaining s)%nat.
Proof.
  induction 1 as [s|s s1 wk l s' Hp Ht IH|s s1 [m|e] wk l s' Hp Ht IH]; cbn in *; [lia|..].
  - apply remaining_pending in Hp. lia.
  - apply remaining_item in Hp. change (flat_map _ l) with (oks l). lia.
  - apply remaining_error in Hp. change (flat_map _ l) with (oks l). lia.
Qed.

Lemma flows_remaining (before after : option S) (l : list item) s' :
  flows before l after -> after = Some s' ->
  exists s, before = Some s /\ (remaining s' + length (oks l) <= remaining s)%nat.
Proof.
  intros Hf ->. destruct before as [s|]; [|done]. exists s. split; [done|]. by apply trace_remaining.
Qed.

(** An item, and what its handler does: a message takes one off its stream's, and an error that
    is not answered a stream. *)
Lemma round_total w w1 p (x : item) :
  (forall k, flows (streams (queue w) !! k) (items_of k (Some (Ready (Some (p, x))))) (streams (queue w1) !! k)) ->
  snd (handle p x w1) = None ->
  (total (streams (queue (fst (handle p x w1)))) < total (streams (queue w)))%nat.
Proof.
  intros Hf Hnone. set (m := streams (queue w)) in *. set (m1 := streams (queue w1)) in *.
  assert (Hle : forall k s', m1 !! k = Some s' -> exists s, m !! k = Some s /\ (remaining s' <= remaining s)%nat).
  { intros k s' Hs'. destruct (flows_remaining _ _ _ s' (Hf k) Hs') as (s & Hs & ?).
    exists s. split; [done|lia]. }
  pose proof (Hf p) as Hp. cbn in Hp. rewrite decide_True in Hp by done.
  destruct (m !! p) as [s|] eqn:Es; [|by destruct (m1 !! p)].
  destruct (m1 !! p) as [s1|] eqn:Es1; [|by destruct Hp].
  assert (total (delete p m1) <= total (delete p m))%nat as Hdel.
  { apply total_le. intros k s' [Hne Hs']%lookup_delete_Some. destruct (Hle k s' Hs') as (s0 & Hs0 & ?).
    exists s0. by rewrite lookup_delete_ne. }
  rewrite (total_delete m p s) by done. destruct x as [msg|e].
  - destruct (handle_queue p (Ok msg) w1) as [->|(e & [=] & _)]. fold m1.
    rewrite (total_delete m1 p s1) by done. apply trace_remaining in Hp. cbn in Hp. lia.
  - rewrite handle_error by done. cbn. fold m1. lia.
Qed.

Lemma recv_loop_ends fuel cx w :
  (total (streams (queue w)) < fuel)%nat -> exists w' r, recv_loop fuel cx w = (w', Some r).
Proof.
  revert w. induction fuel as [|fuel IH]; intros w Hf; [lia|]. cbn [recv_loop].
  destruct (poll_next cx true w) as [w1 r] eqn:Hp. destruct r as [[[p x]|]|]; [|by do 2 eexists..].
  pose proof (round_total w w1 p x (fun k => poll_next_flows _ _ _ _ _ Hp k)) as Ht.
  destruct (handle p x w1) as [w2 [r|]]; [by do 2 eexists|]. apply IH. specialize (Ht eq_refl). cbn in Ht. lia.
Qed.

(** More fuel makes no difference. *)
Lemma recv_loop_more fuel fuel' cx w w' r :
  recv_loop fuel cx w = (w', Some r) -> (fuel <= fuel')%nat -> recv_loop fuel' cx w = (w', Some r).
Proof.
  revert fuel' w. induction fuel as [|fuel IH]; intros [|fuel'] w; cbn [recv_loop]; try done; [lia|].
  destruct (poll_next cx true w) as [w1 [[[p x]|]|]]; [|done..].
  destruct (handle p x w1) as [w2 [o|]]; [done|]. intros Hl Hle. apply IH; [done|lia].
Qed.

Lemma recv_poll_loop cx w w' r fuel :
  recv_poll cx w = (w', r) -> (total (streams (queue w)) < fuel)%nat ->
  recv_loop fuel cx w = (w', Some r).
Proof.
  unfold recv_poll. intros Hp Hf.
  destruct (recv_loop_ends (Datatypes.S (total (streams (queue w)))) cx w) as (w1 & r1 & Hl); [lia|].
  rewrite Hl in Hp. injection Hp as <- <-. by eapply recv_loop_more.
Qed.

(** ** What a receive takes out of the streams *)

(** The items taken from the peers, oldest first. *)
Definition taken_from (k : PeerIdentity) (l : list (PeerIdentity * item)) : list item :=
  flat_map (fun '(p, x) => if decide (k = p) then [x] else []) l.

(** The stream of one peer while the items [l] are taken from it: it advances by polls that
    yield exactly them; it is dropped only after it ended or failed. *)
Definition consumed (before : option S) (l : list item) (after : option S) : Prop :=
  match before with
  | None => l = [] /\ after = None
  | Some s =>
      match after with
      | Some s' => trace s l s'
      | None => exists s', trace s l s' /\ (ended s' \/ exists e, last l = Some (Err e))
      end
  end.

Lemma consumed_refl o : consumed o [] o.
Proof. destruct o; [constructor|done]. Qed.

Lemma consumed_trans o1 l1 o2 l2 o3 :
  consumed o1 l1 o2 -> consumed o2 l2 o3 -> consumed o1 (l1 ++ l2) o3.
Proof.
  destruct o1 as [s1|]; [|by intros [-> ->]].
  destruct o2 as [s2|]; cbn.
  - intros H1. destruct o3 as [s3|]; [by apply trace_app|].
    intros (s' & H2 & Hd). exists s'. split; [by eapply trace_app|].
    destruct Hd as [?|(e & He)]; [by left|right; exists e]. by rewrite last_app, He.
  - intros (s' & H1 & Hd) [-> ->]. exists s'. by rewrite app_nil_r.
Qed.

Lemma flows_consumed o l o' : flows o l o' -> consumed o l o'.
Proof.
  destruct o as [s|], o' as [s'|]; cbn; try done.
  intros [-> He]. exists s. split; [constructor|by left].
Qed.

(** One item and its handler. *)
Lemma handle_consumed p x w w1 k :
  flows (streams (queue w) !! k) (items_of k (Some (Ready (Some (p, x))))) (streams (queue w1) !! k) ->
  consumed (streams (queue w) !! k) (taken_from k [(p, x)])
    (streams (queue (fst (handle p x w1))) !! k).
Proof.
  intros Hf. unfold taken_from. cbn [flat_map]. rewrite app_nil_r. cbn [items_of] in Hf.
  destruct (handle_queue p x w1) as [->|(e & -> & ->)]; [by apply flows_consumed|]. cbn.
  destruct (decide (k = p)) as [->|Hne]; [|rewrite lookup_delete_ne by done; by apply flows_consumed].
  rewrite lookup_delete_eq. destruct (streams (queue w) !! p) as [s|]; [|by destruct (streams _ !! p)].
  destruct (streams (queue w1) !! p) as [s'|]; [|by destruct Hf]. exists s'.
  split; [done|]. right. by exists e.
Qed.

(** The answers of a receive that ends in [w']: the items before the last have been skipped,
    and the last one has been answered; or everything that was there has been skipped, and
    it waits. *)
Definition answers (l : list (PeerIdentity * item)) (r : poll (result A ZmqError)) w' : Prop :=
  let skipped := Forall (fun '(p, x) => exists w, snd (handle p x w) = None) in
  match r with
  | Pending => skipped l
  | Ready res =>
      exists l0 p x w, l = l0 ++ [(p, x)] /\ skipped l0 /\ handle p x w = (w', Some res)
  end.

Lemma recv_loop_consumes fuel cx w w' r :
  recv_loop fuel cx w = (w', Some r) ->
  exists l, answers l r w'
    /\ forall k, consumed (streams (queue w) !! k) (taken_from k l) (streams (queue w') !! k).
Proof.
  revert w. induction fuel as [|fuel IH]; intros w; cbn [recv_loop]; [done|].
  destruct (poll_next cx true w) as [w1 r1] eqn:Hp.
  pose proof (poll_next_flows _ _ _ _ _ Hp) as Hf. destruct r1 as [[[p x]|]|].
  - assert (Hc := fun k => handle_consumed p x w w1 k (Hf k)).
    destruct (handle p x w1) as [w2 o] eqn:Hh. cbn [fst] in Hc. destruct o as [res|].
    + intros [= <- <-]. exists [(p, x)]. split; [|exact Hc]. exists [], p, x, w1.
      split_and!; [done|constructor|done].
    + intros Hl. destruct (IH _ Hl) as (l & Ha & Hl'). exists ((p, x) :: l).
      assert ((exists w, snd (handle p x w) = None)) as Hs by (exists w1; by rewrite Hh).
      split.
      * unfold answers in *. destruct r as [res|]; [|by constructor].
        destruct Ha as (l0 & p' & x' & w0 & -> & Hsk & Hres). exists ((p, x) :: l0), p', x', w0.
        split_and!; [done|by constructor|done].
      * intros k. specialize (Hl' k). specialize (Hc k).
        pose proof (consumed_trans _ _ _ _ _ Hc Hl') as Ht. unfold taken_from in *. cbn in *.
        by rewrite app_nil_r in Ht.
  - by apply poll_next_end in Hp as [? _].
  - intros [= <- <-]. exists []. split; [constructor|]. intros k. by apply flows_consumed.
Qed.

Lemma recv_poll_consumes cx w w' r :
  recv_poll cx w = (w', r) ->
  exists l, answers l r w'
    /\ forall k, consumed (streams (queue w) !! k) (taken_from k l) (streams (queue w') !! k).
Proof.
  unfold recv_poll.
  destruct (recv_loop_ends (Datatypes.S (total (streams (queue w)))) cx w) as (w1 & r1 & Hl); [lia|].
  rewrite Hl. intros [= <- <-]. by eapply recv_loop_consumes.
Qed.

(** What a receive changes besides the queue: the callback's doings and, at last, the handler's. *)
Lemma recv_poll_frame (P : W -> Prop) cx w w' r :
  (forall q w, P w -> P (set_queue q w)) -> (forall k w, P w -> P (callback k w)) ->
  (forall p x w, snd (handle p x w) = None -> P w -> P (fst (handle p x w))) ->
  recv_poll cx w = (w', r) -> P w ->
  match r with
  | Pending => P w'
  | Ready res => exists p x w1, P w1 /\ handle p x w1 = (w', Some res)
  end.
Proof.
  intros Hset Hcb Hh. unfold recv_poll.
  destruct (recv_loop_ends (Datatypes.S (total (streams (queue w)))) cx w) as (w1 & r1 & Hl); [lia|].
  rewrite Hl. intros [= -> <-]. cbn [default]. revert Hl.
  generalize (Datatypes.S (total (streams (queue w)))) as fuel. intros fuel. revert w.
  induction fuel as [|fuel IH]; intros w; cbn [recv_loop]; [done|].
  destruct (poll_next cx true w) as [w2 r2] eqn:Hp. intros Hl HP.
  pose proof (poll_next_frame P _ _ _ _ _ Hset Hcb Hp HP) as HP2. destruct r2 as [[[p x]|]|].
  - pose proof (Hh p x w2) as Hskip. destruct (handle p x w2) as [w3 [o|]] eqn:E.
    + simplify_eq. by exists p, x, w2.
    + eapply IH; [exact Hl|by apply Hskip].
  - by apply poll_next_end in Hp as [? _].
  - by simplify_eq.
Qed.

(** ** What is left when a receive waits *)

Lemma handle_armed p x w : armed (queue w) -> armed (queue (fst (handle p x w))).
Proof. destruct (handle_queue p x w) as [->|(e & _ & ->)]; [done|apply armed_remove]. Qed.

Lemma recv_loop_armed fuel cx w w' r :
  recv_loop fuel cx w = (w', r) -> armed (queue w) -> armed (queue w').
Proof.
  revert w. induction fuel as [|fuel IH]; intros w; cbn [recv_loop]; [by intros [= <- <-]|].
  destruct (poll_next cx true w) as [w1 r1] eqn:Hp. intros Hl Ha.
  pose proof (poll_next_armed _ _ _ _ _ Hp Ha) as Ha1. destruct r1 as [[[p x]|]|]; [|by simplify_eq..].
  pose proof (handle_armed p x w1 Ha1) as Ha2. destruct (handle p x w1) as [w2 [o|]]; [by simplify_eq|].
  by eapply IH.
Qed.

Lemma recv_poll_armed cx w w' r : recv_poll cx w = (w', r) -> armed (queue w) -> armed (queue w').
Proof.
  unfold recv_poll. destruct (recv_loop _ cx w) as [w1 r1] eqn:Hl. intros [= <- _]. by eapply recv_loop_armed.
Qed.

Lemma handle_wakes p x w : wakes (queue (fst (handle p x w))) = wakes (queue w).
Proof. by destruct (handle_queue p x w) as [->|(e & _ & ->)]. Qed.

(** A receive waits only when its queue does. *)
Lemma recv_loop_waits fuel cx w w' :
  armed (queue w) -> recv_loop fuel cx w = (w', Some Pending) ->
  waits cx (wakes (queue w)) (queue w').
Proof.
  revert w. induction fuel as [|fuel IH]; intros w Ha; cbn [recv_loop]; [done|].
  destruct (poll_next cx true w) as [w1 r1] eqn:Hp.
  destruct r1 as [[[p x]|]|]; [|done|intros [= <-]; by apply poll_next_waits with true].
  pose proof (handle_armed p x w1 (poll_next_armed _ _ _ _ _ Hp Ha)) as Ha2.
  pose proof (handle_wakes p x w1) as Hw2. apply poll_next_wakes in Hp.
  destruct (handle p x w1) as [w2 [o|]]; [done|]. cbn [fst] in *. intros Hl.
  eapply waits_suffix; [exact Hp|]. rewrite <- Hw2. by apply IH.
Qed.

(** A receive waits when every stream of its queue does. *)
Lemma recv_loop_parked fuel cx w w' :
  (forall s : S, snd (poll_stream s) = false) -> armed (queue w) ->
  recv_loop fuel cx w = (w', Some Pending) ->
  forall k s, streams (queue w') !! k = Some s -> parked s.
Proof.
  intros Hq. revert w. induction fuel as [|fuel IH]; intros w Ha; cbn [recv_loop]; [done|].
  destruct (poll_next cx true w) as [w1 r1] eqn:Hp.
  destruct r1 as [[[p x]|]|]; [|done|intros [= <-]; by eapply poll_next_parked].
  pose proof (handle_armed p x w1 (poll_next_armed _ _ _ _ _ Hp Ha)) as Ha2.
  destruct (handle p x w1) as [w2 [o|]]; [done|]. by apply IH.
Qed.

Lemma recv_poll_parked cx w w' :
  (forall s : S, snd (poll_stream s) = false) -> armed (queue w) ->
  recv_poll cx w = (w', Pending) ->
  forall k s, streams (queue w') !! k = Some s -> parked s.
Proof.
  intros Hq Ha. unfold recv_poll.
  destruct (recv_loop_ends (Datatypes.S (total (streams (queue w)))) cx w) as (w1 & r1 & Hl); [lia|].
  rewrite Hl. cbn. intros [= -> ->]. by eapply recv_loop_parked.
Qed.
End Receiving.

(** C19 Receiving: whatever the socket's handler, one poll of its [recv] comes to an end, however
    much fuel it has beyond what its streams can yield. It takes items from the peers' streams
    in the order of each stream, without losing one; all but the last are items the handler
    skips, and the last is the one it answers. A peer's stream is dropped only after it ended,
    or when an error of it was the last item taken from it. The poll is pending only when all
    that it took was skipped and nothing is left to take: the task's waker is registered, and
    every stream that is there was pending when it was last polled; or one of the streams has
    woken the task meanwhile, so that it is polled again. ([armed] is what every operation on
    the queue keeps: a stream that is not parked has an event.) *)
Theorem recv_conserves {W S A : Type} `{!HasQueue W S PeerIdentity, !OnDisconnect W S PeerIdentity,
    !Stream S item, !FiniteStream S, !Receiver W S A} (cx : task) (w w' : W)
    (r : poll (result A ZmqError)) :
  recv_poll cx w = (w', r) ->
  (forall fuel, (total (streams (queue w)) < fuel)%nat -> recv_loop fuel cx w = (w', Some r))
  /\ (exists l, answers l r w'
       /\ forall k, consumed (streams (queue w) !! k) (taken_from k l) (streams (queue w') !! k))
  /\ (armed (queue w) ->
      armed (queue w') /\ (r = Pending -> waits cx (wakes (queue w)) (queue w'))).
Proof.
  intros Hp. split_and!.
  - intros fuel. by apply recv_poll_loop.
  - by apply recv_poll_consumes with cx.
  - intros Ha. split; [by eapply recv_poll_armed|]. intros ->.
    eapply recv_loop_waits; [exact Ha|]. eapply recv_poll_loop; [exact Hp|]. apply Nat.lt_succ_diag_r.
Qed.

(** ** Streams to evaluate the definitions on *)

Module Items.
(** The items that have arrived; then the stream waits. *)
#[local] Instance stream : Stream (list item) item :=
  {| poll_stream l := match l with [] => ([], Pending, false)
                                 | x :: l => (l, Ready (Some x), false) end |}.

(** The same, then the stream ends. *)
Definition ending : Stream (list item) item :=
  {| poll_stream l := match l with [] => ([], Ready None, false)
                                 | x :: l => (l, Ready (Some x), false) end |}.

#[local] Program Instance finite : FiniteStream (list item) := {| remaining := length |}.
Next Obligation. intros [|x l] s' wk [= <- <-]. done. Qed.
Next Obligation. intros [|x l] s' y wk; [done|]. intros [= <- -> <-]. cbn. lia. Qed.
Next Obligation. intros [|x l] s' y wk; [done|]. intros [= <- -> <-]. cbn. lia. Qed.

(** A socket that is its queue: messages and errors are answered, everything else is skipped. *)
Definition answer_message (p : PeerIdentity) (x : item) (q : QueueInner (list item) PeerIdentity) :
    QueueInner (list item) PeerIdentity * option (result ZmqMessage.t ZmqError) :=
  (q, match x with Ok (MMessage m) => Some (Ok m) | Ok _ => None | Err e => Some (Err (Codec e)) end).

#[local] Program Instance messages_only :
    Receiver (QueueInner (list item) PeerIdentity) (list item) ZmqMessage.t :=
  {| handle := answer_message |}.
Next Obligation. intros p x q. by left. Qed.
Next Obligation. done. Qed.

Definition one (l : list item) : QueueInner (list item) PeerIdentity := insert [] l new_queue.
End Items.

(** Two peers with two items each, and a socket with a peer whose items are skipped. *)
Module Polled.
Import Items.
#[local] Existing Instances stream finite messages_only.

Definition hello : ZmqMessage.t := ZmqMessage.mk [bs "x"].
Definition queue0 : QueueInner (list item) PeerIdentity :=
  insert (bs "a") [Ok (MCommand (ready DEALER)); Ok (MMessage hello)]
    (insert (bs "b") [Ok (MCommand (ready DEALER)); Ok (MCommand (ready DEALER))] new_queue).
Definition queue1 : QueueInner (list item) PeerIdentity := fst (recv_poll 0%nat queue0).
End Polled.

(** The first poll skips what is before the message; the second skips the rest, and waits. *)
Lemma recv_conserves_witness :
  let poll := recv_poll (Receiver0 := Items.messages_only) (FiniteStream0 := Items.finite) 0%nat in
  let queue2 := fst (poll Polled.queue1) in
  snd (poll Polled.queue0) = Ready (Ok Polled.hello) /\ snd (poll Polled.queue1) = Pending
  /\ (exists l, answers (Receiver0 := Items.messages_only) l (Ready (Ok Polled.hello)) Polled.queue1
      /\ forall k, consumed (Stream0 := Items.stream) (streams (queue Polled.queue0) !! k) (taken_from k l)
          (streams (queue Polled.queue1) !! k))
  /\ waits (Stream0 := Items.stream) 0%nat (wakes (queue Polled.queue1)) (queue queue2).
Proof.
  cbv zeta.
  assert (snd (recv_poll (Receiver0 := Items.messages_only) (FiniteStream0 := Items.finite) 0%nat Polled.queue0)
    = Ready (Ok Polled.hello)) as H1 by (vm_compute; reflexivity).
  assert (snd (recv_poll (Receiver0 := Items.messages_only) (FiniteStream0 := Items.finite) 0%nat Polled.queue1)
    = Pending) as H2 by (vm_compute; reflexivity).
  destruct (recv_conserves (FiniteStream0 := Items.finite) (Receiver0 := Items.messages_only) 0%nat
    Polled.queue0 Polled.queue1 _ (pair_snd _ _ H1)) as (_ & Hl & Ha).
  destruct (recv_conserves (FiniteStream0 := Items.finite) (Receiver0 := Items.messages_only) 0%nat
    Polled.queue1 _ _ (pair_snd _ _ H2)) as (_ & _ & Hw).
  split; [exact H1|]. split; [exact H2|]. split; [exact Hl|].
  apply Hw; [|reflexivity]. apply Ha. apply armed_insert_op, armed_insert_op, new_queue_armed.
Defined.
