(* ===== verification/Sockets.v ===== *)
(** The sockets on the generic backend: PUSH (src/src/push.rs), PULL (src/src/pull.rs),
    DEALER (src/src/dealer.rs) and ROUTER (src/src/router.rs), whole and split into halves.

    The state of such a socket is its backend, which holds the queue that the socket's
    [FairQueue] shares with it; the map of its binds is in [Binds.v]. *)

From S2P Require Import Prelude Message Endpoint Errors SocketTypes Greeting Command Codec.
From S2P Require Import FairQueue Channels Runtime Backend Handshake Receive.

Local Open Scope Z_scope.

Section Sockets.
Context {S : Type} `{Runtime}.
Abbreviation socket := (GenericSocketBackend S).
Implicit Types (b : socket) (message : ZmqMessage.t) (cx : task).

(** A handler that looks at messages only: [deliver] answers them, [on_error] is what the
    socket does with an error, everything else is skipped. *)
Definition message_handler (deliver : PeerIdentity -> ZmqMessage.t -> ZmqMessage.t)
    (on_error : PeerIdentity -> CodecError -> socket -> socket * option (result ZmqMessage.t ZmqError))
    (peer_id : PeerIdentity) (x : item) b : socket * option (result ZmqMessage.t ZmqError) :=
  match x with
  | Ok (MMessage message) => (b, Some (Ok (deliver peer_id message)))
  | Ok _ => (b, None)
  | Err e => on_error peer_id e b
  end.

(** The three ways the sockets treat an error: answer it; disconnect the peer and answer it;
    disconnect the peer and go on. *)
Definition answer_error (peer_id : PeerIdentity) (e : CodecError) b :
    socket * option (result ZmqMessage.t ZmqError) := (b, Some (Err (Codec e))).

Definition disconnect_and_answer (peer_id : PeerIdentity) (e : CodecError) b :
    socket * option (result ZmqMessage.t ZmqError) :=
  (generic_peer_disconnected peer_id b, Some (Err (Codec e))).

Definition disconnect_and_continue (peer_id : PeerIdentity) (e : CodecError) b :
    socket * option (result ZmqMessage.t ZmqError) :=
  (generic_peer_disconnected peer_id b, None).

Lemma disconnected_queue p b : queue (generic_peer_disconnected p b) = remove p (queue b).
Proof.
  unfold queue, generic_queue. rewrite generic_peer_disconnected_queue.
  destruct (fair_queue_inner b) as [q|]; [done|]. cbn. unfold remove, new_queue. cbn.
  rewrite delete_empty. f_equal. set_solver.
Qed.

(** ** DEALER *)

Definition dealer_with_options (options : SocketOptions) (sh : Shared S) : socket :=
  with_options (Some (set_on_disconnect new_queue)) DEALER options sh.

Program Definition dealer_receiver : Receiver socket S ZmqMessage.t :=
  {| handle := message_handler (fun _ message => message) answer_error |}.
Next Obligation. intros p [[g|c|m]|e] b; by left. Qed.
Next Obligation. done. Qed.

Definition dealer_send message b : socket * result unit ZmqError :=
  send_round_robin (MMessage message) b.

(** ** ROUTER *)

Definition router_with_options (options : SocketOptions) (sh : Shared S) : socket :=
  with_options (Some (set_on_disconnect new_queue)) ROUTER options sh.

Program Definition router_receiver : Receiver socket S ZmqMessage.t :=
  {| handle := message_handler (fun peer_id message => ZmqMessage.push_front message peer_id)
                 disconnect_and_continue |}.
Next Obligation.
  intros p [[g|c|m]|e] b; [by left..|]. right. exists e. split; [done|]. apply disconnected_queue.
Qed.
Next Obligation. intros p e b _. apply disconnected_queue. Qed.

(** [uuid] is what an empty identity frame is replaced by. *)
Definition router_send (uuid : bytes) message b : socket * result unit ZmqError :=
  if ZmqMessage.len message <=? 1
  then (b, Err (SocketErr "ROUTER send requires at least 2 frames: identity frame + message"))
  else
    match ZmqMessage.pop_front message with
    | Some (identity, message) =>
        match peer_identity_try_from uuid identity with
        | Ok peer_id => send_to_peer peer_id (MMessage message) b
        | Err e => (b, Err e)
        end
    | None => (b, Err (SocketErr "unreachable: the message has two frames"))
    end.

(** ** PULL and PUSH *)

Definition pull_with_options (options : SocketOptions) (sh : Shared S) : socket :=
  with_options (Some (set_on_disconnect new_queue)) PULL options sh.

Program Definition pull_receiver : Receiver socket S ZmqMessage.t :=
  {| handle := message_handler (fun _ message => message) disconnect_and_answer |}.
Next Obligation.
  intros p [[g|c|m]|e] b; [by left..|]. right. exists e. split; [done|]. apply disconnected_queue.
Qed.
Next Obligation. intros p e b _. apply disconnected_queue. Qed.

Definition push_with_options (options : SocketOptions) (sh : Shared S) : socket :=
  with_options None PUSH options sh.

Definition push_send message b : socket * result unit ZmqError :=
  send_round_robin (MMessage message) b.

(** [Drop]: DEALER, ROUTER and PUSH sockets shut their backend down; PULL has no [Drop]. *)
Definition dealer_drop b : socket := generic_shutdown b.
Definition router_drop b : socket := generic_shutdown b.
Definition push_drop b : socket := generic_shutdown b.

(** [Socket::monitor]: a new channel replaces the one before. *)
Definition monitor (events' : net SocketEvent) (s : sender SocketEvent) b : socket :=
  let sh := shared b in
  set_monitor (Some s) (set_shared (mkShared (messages sh) events' (notices sh) (outputs sh) (tasks sh)) b).

Definition open_monitor b : socket :=
  let '(n, s) := channel (events (shared b)) 1024 in monitor n s b.

Section Receives.
Context `{!Stream S item, !FiniteStream S}.

Definition dealer_recv cx b := recv_poll (Receiver0 := dealer_receiver) cx b.
Definition router_recv cx b := recv_poll (Receiver0 := router_receiver) cx b.
Definition pull_recv cx b := recv_poll (Receiver0 := pull_receiver) cx b.
End Receives.

(** ** Split sockets *)

(** [DealerSocketInner] and [RouterSocketInner], behind an [Arc] that counts the halves. *)
Record SocketInner : Type := mkInner { inner_backend : socket; owners : nat }.

(** [DealerSocket::split], [RouterSocket::split]: the socket that is consumed keeps a dummy backend without peers, so that its
    [Drop] shuts nothing down. *)
Definition split b : SocketInner := mkInner b 2.

Definition router_split b : SocketInner := mkInner b 2.

Definition clone_half (i : SocketInner) : SocketInner :=
  mkInner (inner_backend i) (Datatypes.S (owners i)).

(** A half is dropped; the last one drops the inner socket, which shuts its backend down. *)
Definition drop_half (i : SocketInner) : SocketInner :=
  match owners i with
  | O => i
  | Datatypes.S n => mkInner (if bool_decide (n = 0%nat) then generic_shutdown (inner_backend i)
                              else inner_backend i) n
  end.

Definition with_inner {A} (f : socket -> socket * A) (i : SocketInner) : SocketInner * A :=
  let '(b, a) := f (inner_backend i) in (mkInner b (owners i), a).

Definition dealer_half_send message : SocketInner -> SocketInner * result unit ZmqError :=
  with_inner (dealer_send message).
Definition router_half_send uuid message : SocketInner -> SocketInner * result unit ZmqError :=
  with_inner (router_send uuid message).
Definition dealer_half_recv `{!Stream S item, !FiniteStream S} cx : SocketInner -> _ :=
  with_inner (dealer_recv cx).
Definition router_half_recv `{!Stream S item, !FiniteStream S} cx : SocketInner -> _ :=
  with_inner (router_recv cx).
End Sockets.

(** ** Replies of a ROUTER *)

Lemma disconnects_answer_nothing {S} `{Runtime} p x (b b' : GenericSocketBackend S) m :
  handle (Receiver := router_receiver) p x b = (b', Some (Ok m)) ->
  exists m', x = Ok (MMessage m') /\ m = ZmqMessage.push_front m' p.
Proof. destruct x as [[]|]; cbn; naive_solver. Qed.

(** A message behind an identity goes to that peer. *)
Lemma router_send_identity {S} `{Runtime} uuid p m (b : GenericSocketBackend S) :
  p <> [] -> len p <= MAX_LENGTH -> ZmqMessage.is_empty m = false ->
  router_send uuid (ZmqMessage.push_front m p) b = send_to_peer p (MMessage m) b.
Proof.
  intros Hp Hlen Hm%ZmqMessage.len_pos. unfold router_send, peer_identity_try_from.
  rewrite ZmqMessage.pop_push_front, bool_decide_eq_false_2 by done.
  assert (ZmqMessage.len (ZmqMessage.push_front m p) = ZmqMessage.len m + 1) as -> by apply len_cons.
  rewrite (proj2 (Z.leb_gt _ _)), (proj2 (Z.ltb_ge _ _)) by lia. done.
Qed.

(** ROUTER: what [recv] returns is a message that the stream of a peer yielded, behind
    that peer's identity. Sent back with whatever frames its user puts behind the identity,
    it goes to that peer, without the identity; so a ROUTER answers whom it heard. *)
Theorem router_reply {S} `{Runtime, !Stream S item, !FiniteStream S} (cx : task)
    (b b' : GenericSocketBackend S) (message : ZmqMessage.t) :
  router_recv cx b = (b', Ready (Ok message)) ->
  exists p m s l,
    message = ZmqMessage.push_front m p
    /\ streams (queue b) !! p = Some s
    /\ consumed (Some s) (l ++ [Ok (MMessage m)]) (streams (queue b') !! p)
    /\ forall uuid (b2 : GenericSocketBackend S) m2, p <> [] -> len p <= MAX_LENGTH -> ZmqMessage.is_empty m2 = false ->
         router_send uuid (ZmqMessage.push_front m2 p) b2 = send_to_peer p (MMessage m2) b2.
Proof.
  intros Hr. destruct (recv_poll_consumes _ _ _ _ Hr) as (l & (l0 & p & x & w & -> & _ & Hx) & Hc).
  destruct (disconnects_answer_nothing _ _ _ _ _ Hx) as (m & -> & ->). specialize (Hc p).
  unfold taken_from in Hc. rewrite flat_map_app in Hc. cbn [flat_map] in Hc.
  rewrite decide_True in Hc by done. cbn [app] in Hc.
  destruct (streams (queue b) !! p) as [s|] eqn:Es; [|destruct Hc as [Hn _]; by apply app_nil in Hn as [_ ?]].
  exists p, m, s, (taken_from p l0). split_and!; [done..|].
  intros uuid b2 m2. apply router_send_identity.
Qed.

(** ** Halves *)

(** Split sockets: however the halves of a split socket are cloned and dropped, its
    backend is shut down exactly when the last of them goes; until then its peers stay. *)
Theorem halves_shutdown {S} `{Runtime} (b : GenericSocketBackend S) (cloned : nat) :
  let i := Nat.iter cloned clone_half (split b) in
  (forall dropped, (dropped < 2 + cloned)%nat -> inner_backend (Nat.iter dropped drop_half i) = b)
  /\ inner_backend (Nat.iter (2 + cloned) drop_half i) = generic_shutdown b.
Proof.
  assert (Nat.iter cloned clone_half (split b) = mkInner b (2 + cloned)) as ->.
  { induction cloned as [|n IH]; [done|]. rewrite Nat.iter_succ, IH. unfold clone_half. cbn. f_equal; lia. }
  assert (forall d n, (d < n)%nat -> Nat.iter d drop_half (mkInner b n) = mkInner b (n - d)) as Hd.
  { intros d n. induction d as [|d IH]; intros Hd; [by rewrite Nat.sub_0_r|].
    rewrite Nat.iter_succ, IH by lia.
    replace (n - d)%nat with (Datatypes.S (n - Datatypes.S d)) by lia. unfold drop_half.
    cbn [owners inner_backend].
    rewrite bool_decide_eq_false_2 by lia. done. }
  cbv zeta. split; [intros d Hlt; by rewrite Hd by lia|].
  cbn [Nat.add]. rewrite Nat.iter_succ, (Hd (Datatypes.S cloned)) by lia.
  assert (Datatypes.S (Datatypes.S cloned) - Datatypes.S cloned = 1)%nat as -> by lia. done.
Qed.

(** ** A ROUTER with one peer *)

Module Example.
#[local] Existing Instance Runtime_exec.
#[local] Existing Instances Items.stream Items.finite.

Definition request : ZmqMessage.t := ZmqMessage.mk [bs "hello"].

Definition peer_io : FramedIo (list item) := mkIo [Ok (MMessage request)] 0%nat.

Definition router : GenericSocketBackend (list item) :=
  generic_peer_connected (bs "alice") peer_io (router_with_options default_options new_process).

Definition received : GenericSocketBackend (list item) * poll (result ZmqMessage.t ZmqError) :=
  router_recv 0%nat router.
End Example.

Lemma router_reply_witness :
  exists m, ZmqMessage.push_front Example.request (bs "alice") = ZmqMessage.push_front m (bs "alice")
  /\ forall b2 : @GenericSocketBackend (list item) Runtime_exec,
       router_send [] (ZmqMessage.push_front Example.request (bs "alice")) b2
       = send_to_peer (bs "alice") (MMessage Example.request) b2.
Proof.
  destruct (router_reply (H := Runtime_exec) (Stream0 := Items.stream) (FiniteStream0 := Items.finite)
    0%nat Example.router (fst Example.received) (ZmqMessage.push_front Example.request (bs "alice")))
    as (p & m & s & l & Hm & _ & _ & Hs).
  - apply pair_snd. by vm_compute.
  - injection Hm as <- Hm. exists Example.request. split; [done|]. intros b2.
    apply (Hs [] b2 Example.request); [done|by vm_compute|done].
Defined.
