(* ===== verification/Req.v ===== *)
(** REQ sockets (src/src/req.rs): a request is sent to the next connected server of a
    round-robin queue, behind an empty delimiter, and its reply is awaited from that server
    before the next request. A REQ socket has no fair queue and no writer tasks: it writes
    to and reads from the connection itself. *)

From S2P Require Import Prelude Message Endpoint Errors SocketTypes Greeting Command Codec.
From S2P Require Import FairQueue Channels Runtime Receive.

Local Open Scope Z_scope.

(** [util::Peer]. *)
Record Peer (S : Type) `{Runtime} : Type := mkPeer { send_queue : writer; recv_queue : S }.
Arguments mkPeer {S _} _ _.
Arguments send_queue {S _} _.
Arguments recv_queue {S _} _.

Record ReqSocket (S : Type) `{Runtime} : Type := mkReq {
  peers : gmap PeerIdentity (Peer S);
  round_robin : list PeerIdentity;
  req_monitor : option (sender SocketEvent);
  req_options : SocketOptions;
  current_request : option PeerIdentity;
  shared : Shared S;
}.
Arguments mkReq {S _} _ _ _ _ _ _.
Arguments peers {S _} _.
Arguments round_robin {S _} _.
Arguments req_monitor {S _} _.
Arguments req_options {S _} _.
Arguments current_request {S _} _.
Arguments shared {S _} _.

Section Req.
Context {S : Type} `{Runtime, !Stream S item}.
Abbreviation socket := (ReqSocket S).
Implicit Types (w : socket) (message : ZmqMessage.t).

Definition req_with_options (options : SocketOptions) (sh : Shared S) : socket :=
  mkReq ∅ [] None options None sh.

Definition set_peers (p : gmap PeerIdentity (Peer S)) w : socket :=
  mkReq p (round_robin w) (req_monitor w) (req_options w) (current_request w) (shared w).

Definition set_round_robin (rr : list PeerIdentity) w : socket :=
  mkReq (peers w) rr (req_monitor w) (req_options w) (current_request w) (shared w).

Definition set_monitor (m : option (sender SocketEvent)) w : socket :=
  mkReq (peers w) (round_robin w) m (req_options w) (current_request w) (shared w).

Definition set_current (c : option PeerIdentity) w : socket :=
  mkReq (peers w) (round_robin w) (req_monitor w) (req_options w) c (shared w).

Definition set_shared (sh : Shared S) w : socket :=
  mkReq (peers w) (round_robin w) (req_monitor w) (req_options w) (current_request w) sh.

(** [MultiPeerBackend] and [SocketBackend]. *)
Definition req_peer_connected (peer_id : PeerIdentity) (io : FramedIo S) w : socket :=
  let '(recv_queue, send_queue) := into_parts io in
  let w := set_peers (<[peer_id := mkPeer send_queue recv_queue]> (peers w)) w in
  set_round_robin (round_robin w ++ [peer_id]) w.

Definition req_peer_disconnected (peer_id : PeerIdentity) w : socket :=
  set_peers (delete peer_id (peers w)) w.

Definition req_shutdown w : socket := set_peers ∅ w.

(** [Drop]. *)
Definition req_drop w : socket := req_shutdown w.

(** The [loop] of [send], over the queue [rr]. *)
Fixpoint req_send_loop (rr : list PeerIdentity) message w : socket * result unit ZmqError :=
  match rr with
  | [] => (set_round_robin [] w,
           Err (ReturnToSender "Not connected to peers. Unable to send messages" message))
  | next_peer_id :: rr =>
      match peers w !! next_peer_id with
      | Some peer =>
          let w := set_round_robin (rr ++ [next_peer_id]) w in
          let message := ZmqMessage.push_front message [] in
          match sink_send (outputs (shared w)) (send_queue peer) (MMessage message) with
          | (o, Ok _) => (set_current (Some next_peer_id) (set_shared (set_outputs o (shared w)) w), Ok tt)
          | (o, Err e) => (set_shared (set_outputs o (shared w)) w, Err (Codec e))
          end
      | None => req_send_loop rr message w
      end
  end.

Definition req_send message w : socket * result unit ZmqError :=
  match current_request w with
  | Some _ => (w, Err (ReturnToSender "Unable to send message. Request already in progress" message))
  | None => req_send_loop (round_robin w) message w
  end.

(** What a reply is to the socket. *)
Definition reply_of (x : option item) : result ZmqMessage.t ZmqError :=
  match x with
  | Some (Ok (MMessage m)) =>
      if ZmqMessage.len m <? 2 then Err (Other "Invalid message format: too few frames")
      else
        match ZmqMessage.pop_front m with
        | Some ([], m) => Ok m
        | _ => Err (Other "Invalid message format: missing delimiter")
        end
  | Some (Ok _) => Err (Other "Received non-message frame")
  | Some (Err error) => Err (Codec error)
  | None => Err NoMessage
  end.

(** One poll of [recv]. The server's entry in the map is locked from its first poll to its
    last, so every poll finds the same peer there. *)
Definition req_recv w : socket * poll (result ZmqMessage.t ZmqError) :=
  match current_request w with
  | None => (w, Ready (Err (Other "Unable to recv. No request in progress")))
  | Some peer_id =>
      match peers w !! peer_id with
      | None => (set_current None w, Ready (Err (Other "Server disconnected")))
      | Some peer =>
          let '(s, x, _) := poll_stream (recv_queue peer) in
          let w := set_peers (<[peer_id := mkPeer (send_queue peer) s]> (peers w)) w in
          match x with
          | Pending => (w, Pending)
          | Ready x => (set_current None w, Ready (reply_of x))
          end
      end
  end.

#[export] Instance req_backend : MultiPeerBackend socket S := {|
  backend_socket_type := fun _ => REQ;
  backend_socket_options := req_options;
  backend_monitor := req_monitor;
  backend_shared := shared;
  set_backend_shared := set_shared;
  peer_connected := req_peer_connected;
  peer_disconnected := req_peer_disconnected;
  shutdown := req_shutdown;
|}.

(** ** Sending *)

(** The only effect of a request: behind a delimiter, it is written to the connection of
    [p], which becomes the last of the queue. *)
Definition requested (p : PeerIdentity) message w w' : Prop :=
  exists peer skipped rest,
    peers w !! p = Some peer /\ peers w' = peers w
    /\ round_robin w = skipped ++ p :: rest /\ round_robin w' = rest ++ [p]
    /\ Forall (fun k => peers w !! k = None) skipped
    /\ (forall out, out <> send_queue peer ->
          written (outputs (shared w')) out = written (outputs (shared w)) out)
    /\ written (outputs (shared w')) (send_queue peer)
       = written (outputs (shared w)) (send_queue peer)
         ++ [MMessage (ZmqMessage.push_front message [])].

(** A request that the connection of [p] did not take. *)
Definition refused (p : PeerIdentity) w w' : Prop :=
  is_Some (peers w !! p) /\ peers w' = peers w /\ current_request w' = current_request w.

Lemma req_send_loop_spec rr message w w' r skipped :
  req_send_loop rr message w = (w', r) -> round_robin w = skipped ++ rr ->
  Forall (fun k => peers w !! k = None) skipped ->
  match r with
  | Ok _ => exists p, requested p message w w' /\ current_request w' = Some p
  | Err (Codec e) => exists p, refused p w w'
  | Err e => e = ReturnToSender "Not connected to peers. Unable to send messages" message
      /\ Forall (fun k => peers w !! k = None) (round_robin w) /\ w' = set_round_robin [] w
  end.
Proof.
  revert skipped. induction rr as [|p rr IH]; cbn [req_send_loop]; intros skipped Hs Hrr Hsk.
  { simplify_eq. rewrite app_nil_r in Hrr. by rewrite Hrr. }
  destruct (peers w !! p) as [peer|] eqn:Hp.
  - destruct (sink_send _ _ _) as [o [u|e]] eqn:Hw; simplify_eq.
    + exists p. split; [|done]. exists peer, skipped, rr. cbn in *.
      destruct (sink_send_written _ _ _ _ _ Hw) as [Hother _].
      split_and!; [done..|exact Hother|by eapply sink_send_ok].
    + exists p. by split_and!.
  - apply (IH (skipped ++ [p])); [done|by rewrite <- app_assoc|]. by apply Forall_app_2; [|constructor].
Qed.

(** ** Receiving *)

(** What one poll of [recv] does for a request to [p]: it takes the next item of [p]'s
    stream, if it has come, answers with it, and ends the request. *)
Definition awaits (p : PeerIdentity) w w' (r : poll (result ZmqMessage.t ZmqError)) : Prop :=
  match peers w !! p with
  | None => w' = set_current None w /\ r = Ready (Err (Other "Server disconnected"))
  | Some peer =>
      exists s x wk, poll_stream (recv_queue peer) = (s, x, wk)
        /\ peers w' = <[p := mkPeer (send_queue peer) s]> (peers w)
        /\ round_robin w' = round_robin w
        /\ match x with
           | Pending => r = Pending /\ current_request w' = Some p
           | Ready x => r = Ready (reply_of x) /\ current_request w' = None
           end
  end.

Lemma req_recv_spec w w' r :
  req_recv w = (w', r) ->
  match current_request w with
  | None => w' = w /\ r = Ready (Err (Other "Unable to recv. No request in progress"))
  | Some p => awaits p w w' r
  end.
Proof.
  unfold req_recv, awaits. destruct (current_request w) as [p|] eqn:Hc; [|intros [= <- <-]; done].
  destruct (peers w !! p) as [peer|]; [|intros [= <- <-]; done].
  destruct (poll_stream (recv_queue peer)) as [[s x] wk]. intros Hr. exists s, x, wk.
  destruct x; simplify_eq; by split_and!.
Qed.

(** ** Runs of a socket *)

(** What its user and its connections do. *)
Inductive req_op : Type :=
  | Send (message : ZmqMessage.t)
  | Recv
  | Connected (peer_id : PeerIdentity) (io : FramedIo S)
  | PeerDisconnected (peer_id : PeerIdentity)
  | Outside (sh : Shared S).

(** What an operation returns. *)
Inductive req_outcome : Type :=
  | Sent (r : result unit ZmqError)
  | Received (r : poll (result ZmqMessage.t ZmqError))
  | Done.

Definition req_apply (op : req_op) w : socket * req_outcome :=
  match op with
  | Send message => let '(w, r) := req_send message w in (w, Sent r)
  | Recv => let '(w, r) := req_recv w in (w, Received r)
  | Connected p io => (req_peer_connected p io w, Done)
  | PeerDisconnected p => (req_peer_disconnected p w, Done)
  | Outside sh => (set_shared sh w, Done)
  end.

Fixpoint req_run (ops : list req_op) w : socket * list (req_op * req_outcome) :=
  match ops with
  | [] => (w, [])
  | op :: ops =>
      let '(w, r) := req_apply op w in
      let '(w, l) := req_run ops w in
      (w, (op, r) :: l)
  end.

(** ** The protocol that a user of the socket sees *)

(** A request that went nowhere: there is no server, or the connection of one did not take it. *)
Definition unsent message (e : ZmqError) w w' : Prop :=
  peers w' = peers w
  /\ match e with
     | Codec _ => exists p, is_Some (peers w !! p) /\ p ∈ round_robin w
     | _ => e = ReturnToSender "Not connected to peers. Unable to send messages" message
            /\ shared w' = shared w /\ Forall (fun k => peers w !! k = None) (round_robin w)
     end.

(** A poll of a receive from the server [p]: the next item of its connection, and what it is to
    the user. Nothing is written, and no other connection is read from. *)
Definition polled (p : PeerIdentity) w w' (r : poll (result ZmqMessage.t ZmqError)) : Prop :=
  shared w' = shared w /\ round_robin w' = round_robin w
  /\ match peers w !! p with
     | None => peers w' = peers w /\ r = Ready (Err (Other "Server disconnected"))
     | Some peer =>
         exists s x wk, poll_stream (recv_queue peer) = (s, x, wk)
           /\ peers w' = <[p := mkPeer (send_queue peer) s]> (peers w)
           /\ r = match x with Pending => Pending | Ready x => Ready (reply_of x) end
     end.

(** Sequences of operations and what they return, while the user waits for a reply of [Some p],
    or of nobody; the rules do not look at the socket's own record of this. *)
Inductive lockstep : option PeerIdentity -> socket -> list (req_op * req_outcome) ->
    option PeerIdentity -> socket -> Prop :=
  | at_last a w : lockstep a w [] a w
  | asks p m w w1 l a' w' :
      requested p m w w1 -> lockstep (Some p) w1 l a' w' ->
      lockstep None w ((Send m, Sent (Ok tt)) :: l) a' w'
  | asks_in_vain m e w w1 l a' w' :
      unsent m e w w1 -> lockstep None w1 l a' w' ->
      lockstep None w ((Send m, Sent (Err e)) :: l) a' w'
  | asks_too_early p m w l a' w' :
      lockstep (Some p) w l a' w' ->
      lockstep (Some p) w
        ((Send m, Sent (Err (ReturnToSender "Unable to send message. Request already in progress" m))) :: l) a' w'
  | is_answered p r w w1 l a' w' :
      polled p w w1 (Ready r) -> lockstep None w1 l a' w' ->
      lockstep (Some p) w ((Recv, Received (Ready r)) :: l) a' w'
  | waits_on p w w1 l a' w' :
      polled p w w1 Pending -> lockstep (Some p) w1 l a' w' ->
      lockstep (Some p) w ((Recv, Received Pending) :: l) a' w'
  | listens_too_early w l a' w' :
      lockstep None w l a' w' ->
      lockstep None w ((Recv, Received (Ready (Err (Other "Unable to recv. No request in progress")))) :: l) a' w'
  | meanwhile op a w w1 l a' w' :
      match op with Send _ | Recv => False | _ => True end -> req_apply op w = (w1, Done) ->
      lockstep a w1 l a' w' -> lockstep a w ((op, Done) :: l) a' w'.

Lemma req_send_unsent m w w' e :
  current_request w = None -> req_send m w = (w', Err e) -> unsent m e w w' /\ current_request w' = None.
Proof.
  unfold req_send. intros Hc. rewrite Hc. intros Hs. unfold unsent.
  assert (forall rr w w' e, req_send_loop rr m w = (w', Err e) ->
    match e with Codec _ => exists p, is_Some (peers w !! p) /\ p ∈ rr | _ => True end) as Hloop.
  { clear. induction rr as [|p rr IH]; cbn [req_send_loop]; intros w w' e; [by intros [= <- <-]|].
    destruct (peers w !! p) as [peer|] eqn:Hp.
    - destruct (sink_send _ _ _) as [o [u|c]]; [done|]. intros [= _ <-]. exists p. rewrite Hp. set_solver.
    - intros Hs%IH. destruct e; try done. destruct Hs as (k & Hk & Hin). exists k. set_solver. }
  pose proof (Hloop _ _ _ _ Hs) as Hp.
  pose proof (req_send_loop_spec _ _ _ _ _ [] Hs eq_refl ltac:(constructor)) as Hr.
  destruct e; try (destruct Hr as (He & Hall & ->); by split_and!).
  destruct Hr as (p & _ & Hpe & Hcur). rewrite Hcur. by split_and!.
Qed.

Lemma req_recv_polled p w w' r :
  current_request w = Some p -> req_recv w = (w', r) ->
  polled p w w' r /\ current_request w' = match r with Pending => Some p | Ready _ => None end.
Proof.
  unfold req_recv, polled. intros Hc. rewrite Hc. destruct (peers w !! p) as [peer|]; [|by intros [= <- <-]].
  destruct (poll_stream (recv_queue peer)) as [[s [x|]] wk]; intros [= <- <-]; cbn;
    (split; [split_and!; [done..|by do 3 eexists]|done]).
Qed.

Lemma req_run_lockstep ops w w' l :
  req_run ops w = (w', l) -> lockstep (current_request w) w l (current_request w') w'.
Proof.
  revert w w' l. induction ops as [|op ops IH]; intros w w' l; cbn [req_run]; [intros [= <- <-]; constructor|].
  destruct (req_apply op w) as [w1 r] eqn:Ha. destruct (req_run ops w1) as [w2 l2] eqn:Hr.
  intros [= <- <-]. apply IH in Hr.
  destruct op as [m| |p io|p|sh]; cbn [req_apply] in Ha;
    [..|by simplify_eq; eapply meanwhile|by simplify_eq; eapply meanwhile|by simplify_eq; eapply meanwhile].
  - destruct (req_send m w) as [w0 [[]|e]] eqn:Hs; injection Ha as -> <-;
      destruct (current_request w) as [c|] eqn:Hc; try (unfold req_send in Hs; rewrite Hc in Hs; simplify_eq).
    + pose proof (req_send_loop_spec _ _ _ _ _ [] Hs eq_refl ltac:(constructor)) as (p & Hq & Hp).
      rewrite Hp in Hr. by eapply asks.
    + rewrite Hc in Hr. by apply asks_too_early.
    + destruct (req_send_unsent m w w1 e Hc) as [Hu Hc1]; [unfold req_send; by rewrite Hc|].
      rewrite Hc1 in Hr. by eapply asks_in_vain.
  - destruct (req_recv w) as [w0 x] eqn:Hs. injection Ha as -> <-.
    destruct (current_request w) as [c|] eqn:Hc.
    + destruct (req_recv_polled _ _ _ _ Hc Hs) as [Hp Hc1]. rewrite Hc1 in Hr.
      destruct x; [by eapply is_answered|by eapply waits_on].
    + unfold req_recv in Hs. rewrite Hc in Hs. simplify_eq. rewrite Hc in Hr. by apply listens_too_early.
Qed.
End Req.
Arguments req_op S {_}.

(** C20 REQ in lockstep: whatever its user and its connections do, in any order, a new REQ socket
    keeps to the protocol [lockstep]. A request that [send] accepts goes, behind a delimiter,
    to the first connected server of the queue; then each further request comes back at once,
    and nothing happens to it, until a receive has answered. A receive polls the connection of
    the server that was asked, and no other; what it answers, a reply or an error, is the next
    item of that connection, and then it is the user's turn again. A receive out of turn is
    refused and touches nothing. And what the socket records as its request is the server
    whose answer is awaited by these rules. *)
Theorem req_lockstep {S} `{Runtime, !Stream S item} (options : SocketOptions) (sh : Shared S)
    (ops : list (req_op S)) :
  let w0 := req_with_options options sh in
  let '(w, l) := req_run ops w0 in
  l.*1 = ops /\ lockstep None w0 l (current_request w) w.
Proof.
  cbv zeta. destruct (req_run ops _) as [w l] eqn:Hr. split; [|by apply (req_run_lockstep _ _ _ _ Hr)].
  revert Hr. generalize (req_with_options options sh) as w0. revert w l.
  induction ops as [|op ops IH]; intros w l w0; cbn [req_run]; [by intros [= _ <-]|].
  destruct (req_apply op w0) as [w1 r]. destruct (req_run ops w1) as [w2 l2] eqn:Hr.
  intros [= _ <-]. cbn. f_equal. by eapply IH.
Qed.

(** A request and its reply: a request that is accepted goes, behind an empty delimiter,
    to the first connected server of the queue and to nobody else; a receive then polls that
    server's connection only, takes its next item, and answers its body if it is a message
    behind a delimiter, an error otherwise. While a request is in progress, or without
    servers, a request comes back to the caller, and nothing is written. *)
Theorem req_request {S} `{Runtime, !Stream S item} (message : ZmqMessage.t) (w w1 : ReqSocket S)
    (r : result unit ZmqError) :
  req_send message w = (w1, r) ->
  match r with
  | Ok _ => exists p, requested p message w w1 /\ current_request w1 = Some p
      /\ forall w2 w3 answer, current_request w2 = Some p -> req_recv w2 = (w3, answer) ->
           awaits p w2 w3 answer
  | Err (Codec _) => current_request w = None /\ exists p, refused p w w1
  | Err e => shared w1 = shared w /\ peers w1 = peers w
      /\ ((is_Some (current_request w) /\ w1 = w
           /\ e = ReturnToSender "Unable to send message. Request already in progress" message)
          \/ (Forall (fun k => peers w !! k = None) (round_robin w)
              /\ e = ReturnToSender "Not connected to peers. Unable to send messages" message))
  end.
Proof.
  unfold req_send. destruct (current_request w) as [c|] eqn:Hc.
  { intros [= <- <-]. split_and!; [done..|]. left. by split_and!. }
  intros Hs. pose proof (req_send_loop_spec _ _ _ _ _ [] Hs eq_refl ltac:(constructor)) as Hr.
  destruct r as [u|e].
  - destruct Hr as (p & Hreq & Hp). exists p. split_and!; [done..|].
    intros w2 w3 answer Hc2 Hrecv%req_recv_spec. by rewrite Hc2 in Hrecv.
  - destruct e; try (destruct Hr as (-> & Hrr & ->); split_and!; [done..|]; by right). done.
Qed.

(** A server that is gone: when its connection ends, a receive answers [NoMessage] and
    nothing removes the server, since the REQ backend's [peer_disconnected] has no caller.
    As the only server of the queue it gets every later request: none of them is told that
    there is nobody to send to. *)
Theorem req_dead_server {S} `{Runtime, !Stream S item} (w : ReqSocket S) (p : PeerIdentity)
    (peer : Peer S) (s : S) (wk : bool) (message : ZmqMessage.t) :
  current_request w = Some p -> round_robin w = [p] -> peers w !! p = Some peer ->
  poll_stream (recv_queue peer) = (s, Ready None, wk) ->
  let '(w1, r) := req_recv w in
  r = Ready (Err NoMessage) /\ is_Some (peers w1 !! p)
  /\ let '(w2, r2) := req_send message w1 in
     round_robin w2 = [p] /\ is_Some (peers w2 !! p)
     /\ (r2 = Ok tt \/ exists e, r2 = Err (Codec e)).
Proof.
  intros Hc Hrr Hp Hs. unfold req_recv. rewrite Hc, Hp, Hs.
  assert ((<[p := mkPeer (send_queue peer) s]> (peers w)) !! p = Some (mkPeer (send_queue peer) s))
    as Hp' by apply lookup_insert_eq.
  cbn [peers set_current set_peers]. split_and!; [done|by rewrite Hp'|].
  unfold req_send. cbn [current_request set_current round_robin set_peers req_send_loop]. rewrite Hrr.
  cbn [req_send_loop peers set_current set_peers]. rewrite Hp'. cbn [send_queue].
  destruct (sink_send _ _ _) as [o [[]|e]]; cbn; rewrite Hp'; split_and!; try done; [by left|].
  right. by exists e.
Qed.

(** A frame to be ignored: a non-message item ends the request in progress with an error,
    so the caller that ignores it cannot receive the reply behind it: the next receive is
    refused, although the reply is there. *)
Theorem req_non_message_ends_request {S} `{Runtime, !Stream S item} (w : ReqSocket S)
    (p : PeerIdentity) (peer : Peer S) (s s' : S) (wk wk' : bool) (c : ZmqCommand) (m : ZmqMessage.t) :
  current_request w = Some p -> peers w !! p = Some peer ->
  poll_stream (recv_queue peer) = (s, Ready (Some (Ok (MCommand c))), wk) ->
  poll_stream s = (s', Ready (Some (Ok (MMessage m))), wk') ->
  let '(w1, r1) := req_recv w in
  let '(w2, r2) := req_recv w1 in
  r1 = Ready (Err (Other "Received non-message frame"))
  /\ r2 = Ready (Err (Other "Unable to recv. No request in progress"))
  /\ peers w2 !! p = Some (mkPeer (send_queue peer) s).
Proof.
  intros Hc Hp Hs Hs'. unfold req_recv at 1. rewrite Hc, Hp, Hs. cbn. split_and!; [done..|].
  by rewrite lookup_insert_eq.
Qed.

(** ** A REQ with one server *)

Module Example.
#[local] Existing Instance Runtime_exec.
#[local] Existing Instances Items.stream.

Definition io (l : list item) : FramedIo (list item) := mkIo l 0%nat.

(** A server whose connection has the items [l]. *)
Definition req (l : list item) : ReqSocket (list item) :=
  req_peer_connected (bs "server") (io l) (req_with_options default_options new_process).

Definition question : ZmqMessage.t := ZmqMessage.from_bytes (bs "question").
Definition answer : ZmqMessage.t := ZmqMessage.from_bytes (bs "answer").
Definition reply : item := Ok (MMessage (ZmqMessage.push_front answer [])).

Definition asked (l : list item) : ReqSocket (list item) := fst (req_send question (req l)).

Example exchange :
  (snd (req_run [Recv; Send question; Send question; Recv; Recv] (req [reply]))).*2
  = [Received (Ready (Err (Other "Unable to recv. No request in progress")));
     Sent (Ok tt);
     Sent (Err (ReturnToSender "Unable to send message. Request already in progress" question));
     Received (Ready (Ok answer));
     Received (Ready (Err (Other "Unable to recv. No request in progress")))].
Proof. by vm_compute. Qed.
End Example.

Lemma req_request_witness :
  exists p, requested (H := Runtime_exec) p Example.question (Example.req [Example.reply])
              (Example.asked [Example.reply]).
Proof.
  destruct (req_request (H := Runtime_exec) (Stream0 := Items.stream) Example.question
    (Example.req [Example.reply]) (Example.asked [Example.reply]) (Ok tt)) as (p & Hp & _).
  - apply pair_snd. by vm_compute.
  - by exists p.
Defined.

Lemma req_dead_server_witness :
  let w := Example.asked [] in
  let w1 := fst (req_recv (H := Runtime_exec) (Stream0 := Items.ending) w) in
  round_robin (fst (req_send (H := Runtime_exec) Example.question w1)) = [bs "server"].
Proof.
  pose proof (req_dead_server (H := Runtime_exec) (Stream0 := Items.ending) (Example.asked [])
    (bs "server") (mkPeer (H := Runtime_exec) 0%nat []) [] false Example.question
    ltac:(by vm_compute) ltac:(by vm_compute) ltac:(by vm_compute) eq_refl) as Hd.
  cbv zeta. destruct (req_recv (Example.asked [])) as [w1 r]. destruct Hd as (_ & _ & Hd). cbn [fst].
  destruct (req_send Example.question w1) as [w2 r2]. apply Hd.
Defined.

Lemma req_non_message_ends_request_witness :
  let w := Example.asked [Ok (MCommand (ready REP)); Example.reply] in
  let w1 := fst (req_recv (H := Runtime_exec) (Stream0 := Items.stream) w) in
  snd (req_recv (H := Runtime_exec) (Stream0 := Items.stream) w1)
  = Ready (Err (Other "Unable to recv. No request in progress")).
Proof.
  pose proof (req_non_message_ends_request (H := Runtime_exec) (Stream0 := Items.stream)
    (Example.asked [Ok (MCommand (ready REP)); Example.reply]) (bs "server")
    (mkPeer (H := Runtime_exec) 0%nat [Ok (MCommand (ready REP)); Example.reply])
    [Example.reply] [] false false (ready REP) (ZmqMessage.push_front Example.answer [])
    ltac:(by vm_compute) ltac:(by vm_compute) eq_refl eq_refl) as Hd.
  cbv zeta. destruct (req_recv (Example.asked _)) as [w1 r1]. cbn [fst].
  destruct (req_recv w1) as [w2 r2]. apply Hd.
Defined.
