(* ===== verification/Rep.v ===== *)
(** REP sockets (src/src/rep.rs): a request is received through the fair queue, its envelope
    (the frames up to the empty delimiter) is kept, and the next message that is sent goes
    behind that envelope to the peer of the request. *)

From S2P Require Import Prelude Message Endpoint Errors SocketTypes Greeting Command Codec.
From S2P Require Import FairQueue Channels Runtime Receive Req.

Local Open Scope Z_scope.

Record RepSocket (S : Type) `{Runtime} : Type := mkRep {
  rep_peers : gmap PeerIdentity writer;
  rep_queue : QueueInner S PeerIdentity;
  rep_monitor : option (sender SocketEvent);
  rep_options : SocketOptions;
  envelope : option ZmqMessage.t;
  rep_request : option PeerIdentity;
  rep_shared : Shared S;
}.
Arguments mkRep {S _} _ _ _ _ _ _ _.
Arguments rep_peers {S _} _.
Arguments rep_queue {S _} _.
Arguments rep_monitor {S _} _.
Arguments rep_options {S _} _.
Arguments envelope {S _} _.
Arguments rep_request {S _} _.
Arguments rep_shared {S _} _.

Section Rep.
Context {S : Type} `{Runtime}.
Abbreviation socket := (RepSocket S).
Implicit Types (w : socket) (message : ZmqMessage.t).

(** [with_options]; the callback of the fair queue is the backend's [peer_disconnected]. *)
Definition rep_with_options (options : SocketOptions) (sh : Shared S) : socket :=
  mkRep ∅ (set_on_disconnect new_queue) None options None None sh.

Definition set_rep_peers (p : gmap PeerIdentity writer) w : socket :=
  mkRep p (rep_queue w) (rep_monitor w) (rep_options w) (envelope w) (rep_request w) (rep_shared w).

Definition set_rep_queue (q : QueueInner S PeerIdentity) w : socket :=
  mkRep (rep_peers w) q (rep_monitor w) (rep_options w) (envelope w) (rep_request w) (rep_shared w).

Definition set_rep_monitor (m : option (sender SocketEvent)) w : socket :=
  mkRep (rep_peers w) (rep_queue w) m (rep_options w) (envelope w) (rep_request w) (rep_shared w).

Definition set_envelope (e : option ZmqMessage.t) w : socket :=
  mkRep (rep_peers w) (rep_queue w) (rep_monitor w) (rep_options w) e (rep_request w) (rep_shared w).

Definition set_rep_request (c : option PeerIdentity) w : socket :=
  mkRep (rep_peers w) (rep_queue w) (rep_monitor w) (rep_options w) (envelope w) c (rep_shared w).

Definition set_rep_shared (sh : Shared S) w : socket :=
  mkRep (rep_peers w) (rep_queue w) (rep_monitor w) (rep_options w) (envelope w) (rep_request w) sh.

(** [MultiPeerBackend] and [SocketBackend]. *)
Definition rep_peer_connected (peer_id : PeerIdentity) (io : FramedIo S) w : socket :=
  let '(recv_queue, send_queue) := into_parts io in
  let w := set_rep_peers (<[peer_id := send_queue]> (rep_peers w)) w in
  set_rep_queue (insert peer_id recv_queue (rep_queue w)) w.

Definition rep_peer_disconnected (peer_id : PeerIdentity) w : socket :=
  let w := set_rep_shared (emit (rep_monitor w) (Disconnected peer_id) (rep_shared w)) w in
  set_rep_peers (delete peer_id (rep_peers w)) w.

Definition rep_shutdown w : socket := set_rep_peers ∅ w.

(** [Drop]. *)
Definition rep_drop w : socket := rep_shutdown w.

Definition rep_send message w : socket * result unit ZmqError :=
  match rep_request w with
  | Some peer_id =>
      let w := set_rep_request None w in
      match rep_peers w !! peer_id with
      | Some out =>
          let message := match envelope w with
                         | Some envelope => ZmqMessage.prepend message envelope
                         | None => message
                         end in
          let w := set_envelope None w in
          let '(o, r) := sink_send (outputs (rep_shared w)) out (MMessage message) in
          (set_rep_shared (set_outputs o (rep_shared w)) w, result_map_err Codec r)
      | None => (w, Err (ReturnToSender "Client disconnected" message))
      end
  | None => (w, Err (ReturnToSender "Unable to send reply. No request in progress" message))
  end.

(** The loop of [recv] over the frames: where the envelope ends. *)
Fixpoint envelope_end (index : nat) (frames : list bytes) : nat :=
  match frames with
  | [] => 1
  | [] :: _ => index + 1
  | _ :: frames => envelope_end (index + 1) frames
  end.

Definition rep_handle (peer_id : PeerIdentity) (x : item) w :
    socket * option (result ZmqMessage.t ZmqError) :=
  match x with
  | Ok (MMessage m) =>
      if ZmqMessage.len m <? 2 then (w, Some (Err (Other "Invalid message format")))
      else
        match ZmqMessage.split_off m (envelope_end 0 (ZmqMessage.iter m)) with
        | Some (m, data) => (set_rep_request (Some peer_id) (set_envelope (Some m) w), Some (Ok data))
        | None => (w, Some (Err (Other "unreachable: the envelope ends within the message")))
        end
  | Ok (MGreeting _) | Ok (MCommand _) => (w, None)
  | Err e => (rep_peer_disconnected peer_id w, Some (Err (Codec e)))
  end.

#[export] Program Instance rep_has_queue : HasQueue socket S PeerIdentity :=
  {| queue := rep_queue; set_queue := set_rep_queue |}.
Next Obligation. done. Qed.

#[export] Program Instance rep_on_disconnect : OnDisconnect socket S PeerIdentity :=
  {| callback := rep_peer_disconnected |}.
Next Obligation. intros p w. by left. Qed.

Definition rep_receiver : Receiver socket S ZmqMessage.t.
Proof.
  refine {| handle := rep_handle |}; [|done]. intros p x w. left. unfold rep_handle.
  destruct x as [[g|c|m]|e]; [done..| |done]. by repeat case_match.
Defined.

Definition rep_recv `{!Stream S item, !FiniteStream S} (cx : task) w :
    socket * poll (result ZmqMessage.t ZmqError) :=
  recv_poll (Receiver0 := rep_receiver) cx w.

#[export] Instance rep_backend : MultiPeerBackend socket S := {|
  backend_socket_type := fun _ => REP;
  backend_socket_options := rep_options;
  backend_monitor := rep_monitor;
  backend_shared := rep_shared;
  set_backend_shared := set_rep_shared;
  peer_connected := rep_peer_connected;
  peer_disconnected := rep_peer_disconnected;
  shutdown := rep_shutdown;
|}.

(** ** Envelopes *)

(** The routing frames before the delimiter are not empty. *)
Definition route (l : list bytes) : Prop := Forall (fun f => f <> []) l.

Lemma envelope_end_delimiter l body i :
  route l -> envelope_end i (l ++ [] :: body) = (i + length l + 1)%nat.
Proof.
  intros Hl. revert i. induction Hl as [|f l Hf Hl IH]; intros i; cbn; [lia|].
  destruct f; [done|]. rewrite IH. lia.
Qed.

Lemma envelope_end_le l i : (1 <= length l)%nat -> (envelope_end i l <= i + length l)%nat.
Proof.
  intros Hlen. assert (envelope_end i l <= i + length l \/ envelope_end i l = 1)%nat as Hle.
  { clear Hlen. revert i. induction l as [|[|? ?] l IH]; intros i; cbn; [by right|left; lia|].
    destruct (IH (i + 1)%nat); [left; lia|by right]. }
  lia.
Qed.

Lemma envelope_end_pos l i : (1 <= envelope_end i l)%nat.
Proof. revert i. induction l as [|[|? ?] l IH]; intros i; cbn; [lia..|apply IH]. Qed.

(** A request keeps everything: the envelope and the data are its frames. *)
Lemma rep_handle_splits p m w w' r :
  rep_handle p (Ok (MMessage m)) w = (w', Some r) ->
  (ZmqMessage.len m < 2 /\ w' = w /\ r = Err (Other "Invalid message format"))
  \/ exists e data, r = Ok data /\ w' = set_rep_request (Some p) (set_envelope (Some e) w)
       /\ ZmqMessage.split_off m (envelope_end 0 (ZmqMessage.iter m)) = Some (e, data)
       /\ ZmqMessage.prepend data e = m /\ ZmqMessage.is_empty e = false.
Proof.
  unfold rep_handle. destruct (Z.ltb_spec (ZmqMessage.len m) 2) as [Hl|Hl]; [intros; simplify_eq; by left|].
  destruct (ZmqMessage.split_off m _) as [[e data]|] eqn:Hs; intros; simplify_eq; right.
  - exists e, data. split_and!; [done..|by eapply ZmqMessage.split_off_prepend|].
    unfold ZmqMessage.split_off in Hs. case_bool_decide as Hle; [|done]. injection Hs as <- _.
    pose proof (envelope_end_pos (ZmqMessage.iter m) 0) as Hpos.
    destruct m as [[|f fs]]; [done|]. by destruct (envelope_end 0 _); [lia|].
  - exfalso. unfold ZmqMessage.split_off in Hs. case_bool_decide as Hle; [done|]. apply Hle.
    apply (envelope_end_le _ 0). unfold ZmqMessage.len, Prelude.len, ZmqMessage.iter in *. lia.
Qed.
End Rep.

Section RepReplies.
Context {S : Type} `{Runtime}.
Implicit Types (w : RepSocket S).

(** What sending [reply] does while the request of [p] with the envelope [e] is in progress:
    it is over, and the connection of [p], if it is still there, is written to. *)
Definition replied (p : PeerIdentity) (e reply : ZmqMessage.t) w w' (r : result unit ZmqError) : Prop :=
  rep_request w' = None /\ rep_peers w' = rep_peers w
  /\ match rep_peers w !! p with
     | Some out =>
         (forall out', out' <> out ->
            written (outputs (rep_shared w')) out' = written (outputs (rep_shared w)) out')
         /\ (written (outputs (rep_shared w')) out
             = written (outputs (rep_shared w)) out ++ [MMessage (ZmqMessage.prepend reply e)]
             \/ exists e', r = Err (Codec e'))
     | None => r = Err (ReturnToSender "Client disconnected" reply)
               /\ outputs (rep_shared w') = outputs (rep_shared w)
     end.

Lemma rep_send_spec p e reply w w' r :
  rep_request w = Some p -> envelope w = Some e -> rep_send reply w = (w', r) -> replied p e reply w w' r.
Proof.
  intros Hp He. unfold rep_send, replied. rewrite Hp. cbn [rep_peers set_rep_request envelope]. rewrite He.
  destruct (rep_peers w !! p) as [out|]; [|by intros [= <- <-]].
  destruct (sink_send _ _ _) as [o r1] eqn:Hs. intros [= <- <-].
  destruct (sink_send_written _ _ _ _ _ Hs) as [Hother Hout]. split_and!; [done..|].
  cbn. destruct Hout as [->|(e' & -> & _)]; [by left|right]. by exists e'.
Qed.

Lemma rep_handle_route p l body w :
  route l -> body <> [] ->
  rep_handle p (Ok (MMessage (ZmqMessage.mk (l ++ [] :: body)))) w
  = (set_rep_request (Some p) (set_envelope (Some (ZmqMessage.mk (l ++ [[]]))) w),
     Some (Ok (ZmqMessage.mk body))).
Proof.
  intros Hl Hb. unfold rep_handle. cbn [ZmqMessage.iter ZmqMessage.frames].
  rewrite envelope_end_delimiter by done. unfold ZmqMessage.len. cbn [ZmqMessage.frames].
  assert (len (l ++ [] :: body) = len l + len body + 1) as -> by zlen.
  destruct (Z.ltb_spec (len l + len body + 1) 2) as [Hlt|_].
  { destruct body; [done|]. rewrite len_cons in Hlt. pose proof (len_nonneg l).
    pose proof (len_nonneg body). lia. }
  unfold ZmqMessage.split_off. cbn [ZmqMessage.frames].
  rewrite bool_decide_eq_true_2 by (rewrite length_app; cbn; lia).
  replace (l ++ [] :: body) with ((l ++ [[]]) ++ body) by by rewrite <- app_assoc.
  assert (0 + length l + 1 = length (l ++ [[] : bytes]))%nat as -> by (rewrite length_app; cbn; lia).
  by rewrite take_app_length, drop_app_length.
Qed.
End RepReplies.

(** C21 A REP answers its requester: what [recv] returns, behind the envelope the socket keeps,
    is exactly the message that the stream of a peer yielded; and the next reply, behind that
    envelope, is written to the connection of that peer, to no other, and once: the request
    is over, even when the peer is gone and the reply comes back. *)
Theorem rep_reply {S} `{Runtime, !Stream S item, !FiniteStream S} (cx : task)
    (w w' : RepSocket S) (data : ZmqMessage.t) :
  rep_recv cx w = (w', Ready (Ok data)) ->
  exists p e l,
    rep_request w' = Some p /\ envelope w' = Some e /\ ZmqMessage.is_empty e = false
    /\ consumed (streams (queue w) !! p) (l ++ [Ok (MMessage (ZmqMessage.prepend data e))])
         (streams (queue w') !! p)
    /\ forall (w2 : RepSocket S) reply w3 r, rep_request w2 = Some p -> envelope w2 = Some e ->
         rep_send reply w2 = (w3, r) -> replied p e reply w2 w3 r.
Proof.
  intros Hr. destruct (recv_poll_consumes _ _ _ _ Hr) as (l & (l0 & p & x & w0 & -> & _ & Hx) & Hc).
  specialize (Hc p). unfold taken_from in Hc. rewrite flat_map_app in Hc. cbn [flat_map] in Hc.
  rewrite decide_True in Hc by done. cbn [app] in Hc.
  destruct x as [[g|c|m]|e]; [done..| |done].
  apply (rep_handle_splits p m) in Hx as [(_ & _ & ?)|(e & d & [= <-] & -> & _ & <- & He)]; [done|].
  exists p, e, (taken_from p l0). split_and!; [done..|].
  intros w2 reply w3 r. by apply rep_send_spec.
Qed.

(** A request and its reply, end to end: a REP that hears the request of a REQ, through
    any number of ROUTER sockets that put a peer's identity in front of it, gives its user
    the body that was sent; the reply it then writes carries the same identities, and behind
    them is what the REQ answers as the body of that reply. *)
Theorem req_rep_exchange {S} `{Runtime} (l : list bytes) (body reply : ZmqMessage.t)
    (w w1 w2 : RepSocket S) (k : PeerIdentity) (out : writer) a :
  route l -> ZmqMessage.is_empty body = false -> ZmqMessage.is_empty reply = false ->
  rep_peers w !! k = Some out ->
  rep_handle k (Ok (MMessage (ZmqMessage.mk (l ++ ZmqMessage.frames (ZmqMessage.push_front body []))))) w
  = (w1, a) ->
  rep_send reply w1 = (w2, Ok tt) ->
  a = Some (Ok body)
  /\ exists m, written (outputs (rep_shared w2)) out
               = written (outputs (rep_shared w)) out ++ [MMessage (ZmqMessage.mk (l ++ ZmqMessage.frames m))]
     /\ reply_of (Some (Ok (MMessage m))) = Ok reply.
Proof.
  intros Hl Hb Hr Hk Hh Hs. cbn [ZmqMessage.frames ZmqMessage.push_front] in Hh.
  rewrite rep_handle_route in Hh by (try done; by destruct body as [[]]).
  injection Hh as <- <-. split; [by rewrite ZmqMessage.frames_mk|].
  apply (rep_send_spec k (ZmqMessage.mk (l ++ [[]]))) in Hs; [|done..].
  destruct Hs as (_ & _ & Hs). cbn [rep_peers set_rep_request set_envelope rep_shared] in Hs.
  rewrite Hk in Hs. destruct Hs as [_ [Hs|(? & ?)]]; [|done].
  exists (ZmqMessage.push_front reply []). split.
  - rewrite Hs, ZmqMessage.prepend_mk. cbn. by rewrite <- app_assoc.
  - apply ZmqMessage.len_pos in Hr. unfold reply_of. rewrite ZmqMessage.pop_push_front.
    assert (ZmqMessage.len (ZmqMessage.push_front reply []) = ZmqMessage.len reply + 1) as -> by apply len_cons.
    destruct (Z.ltb_spec (ZmqMessage.len reply + 1) 2); [lia|done].
Qed.

(** A REP keeps the stream of a peer it has disconnected: after an error from a peer the
    socket has no connection to answer it on, but the peer's stream and its turn stay in the
    fair queue; a request that comes from it is received like any other, and its reply
    always comes back. *)
Theorem rep_error_keeps_stream {S} `{Runtime, !Stream S item} (w w1 : RepSocket S)
    (event : ReadyEvent PeerIdentity) (s : S) (e : CodecError) :
  poll_taken event s w = (w1, Some (Ready (Some (key event, Err e)))) ->
  let '(w2, a) := rep_handle (key event) (Err e) w1 in
  a = Some (Err (Codec e)) /\ rep_peers w2 !! key event = None
  /\ is_Some (streams (queue w2) !! key event) /\ key event ∈ queued (queue w2)
  /\ forall m w3 data reply, rep_handle (key event) (Ok (MMessage m)) w2 = (w3, Some (Ok data)) ->
       snd (rep_send reply w3) = Err (ReturnToSender "Client disconnected" reply).
Proof.
  intros Hp. cbn [rep_handle].
  assert (rep_peers (rep_peer_disconnected (key event) w1) !! key event = None) as Hnone
    by apply lookup_delete_eq.
  unfold poll_taken in Hp. destruct (poll_stream s) as [[s1 x] wk].
  destruct x as [[x|]|]; [|by destruct (on_disconnect _)|done]. injection Hp as <- ->.
  split_and!; [done|done|exists s1|apply push_ready_queued|].
  - cbn. by rewrite push_ready_streams; apply lookup_insert_eq.
  - intros m w3 data reply. set (w2 := rep_peer_disconnected _ _) in *.
    intros [(_ & _ & ?)|(e' & d & _ & -> & _)]%rep_handle_splits; [done|].
    unfold rep_send. cbn [rep_request set_rep_request rep_peers set_envelope].
    by rewrite Hnone.
Qed.

(** ** A REP with one client *)

Module Example.
#[local] Existing Instance Runtime_exec.
#[local] Existing Instances Items.stream Items.finite.

(** A client whose connection has the items [l]. *)
Definition rep (l : list item) : RepSocket (list item) :=
  rep_peer_connected (bs "client") (mkIo l 0%nat) (rep_with_options default_options new_process).

Definition question : ZmqMessage.t := ZmqMessage.from_bytes (bs "question").
Definition answer : ZmqMessage.t := ZmqMessage.from_bytes (bs "answer").
Definition request : ZmqMessage.t := ZmqMessage.push_front question [].

Definition asked : RepSocket (list item) * poll (result ZmqMessage.t ZmqError) :=
  rep_recv 0%nat (rep [Ok (MMessage request)]).

(** The reply takes the envelope back. *)
Example reply_example :
  written (outputs (rep_shared (fst (rep_send answer (fst asked))))) 0%nat
  = [MMessage (ZmqMessage.push_front answer [])].
Proof. by vm_compute. Qed.

(** The request of a client behind a ROUTER that knows it as [id]. *)
Definition routed : RepSocket (list item) * option (result ZmqMessage.t ZmqError) :=
  rep_handle (bs "client") (Ok (MMessage (ZmqMessage.push_front request (bs "id")))) (rep []).

Definition failed : RepSocket (list item) * option (poll (option (PeerIdentity * item))) :=
  poll_taken (mkEvent 0 (bs "client")) [Err (Io (IoError UnexpectedEof)); Ok (MMessage request)] (rep []).
End Example.

Lemma rep_reply_witness :
  exists p e, rep_request (fst Example.asked) = Some p /\ envelope (fst Example.asked) = Some e.
Proof.
  destruct (rep_reply (H := Runtime_exec) (Stream0 := Items.stream) (FiniteStream0 := Items.finite)
    0%nat (Example.rep [Ok (MMessage Example.request)]) (fst Example.asked) Example.question)
    as (p & e & l & Hp & He & _).
  - apply pair_snd. by vm_compute.
  - by exists p, e.
Defined.

Lemma req_rep_exchange_witness :
  snd Example.routed = Some (Ok Example.question).
Proof.
  apply (req_rep_exchange (H := Runtime_exec) [bs "id"] Example.question Example.answer
    (Example.rep []) (fst Example.routed) (fst (rep_send Example.answer (fst Example.routed)))
    (bs "client") 0%nat).
  - by repeat constructor.
  - done.
  - done.
  - by vm_compute.
  - apply surjective_pairing.
  - apply pair_snd. by vm_compute.
Defined.

Lemma rep_error_keeps_stream_witness :
  rep_peers (fst (rep_handle (H := Runtime_exec) (bs "client") (Err (Io (IoError UnexpectedEof)))
                    (fst Example.failed))) !! bs "client" = None.
Proof.
  pose proof (rep_error_keeps_stream (H := Runtime_exec) (Stream0 := Items.stream) (Example.rep [])
    (fst Example.failed) (mkEvent 0 (bs "client"))
    [Err (Io (IoError UnexpectedEof)); Ok (MMessage Example.request)] (Io (IoError UnexpectedEof))
    (pair_snd _ _ ltac:(by vm_compute))) as Hk.
  cbn [key] in Hk. destruct (rep_handle _ _ (fst Example.failed)) as [w2 a]. apply Hk.
Defined.
