(* ===== verification/Subscriptions.v ===== *)
(** Subscriptions: the matching of PUB and XPUB (src/src/pub.rs, src/src/xpub.rs), the
    subscription messages of SUB and XSUB (src/src/sub_backend.rs) and what PUB and XPUB make
    of them, and the loops that write one message to several connections. *)

From S2P Require Import Prelude Message Endpoint Errors SocketTypes Greeting Command Codec Channels.

Local Open Scope Z_scope.

(** ** Matching *)

(** [sub_filter.len() <= first_frame.len() && sub_filter == &first_frame[0..sub_filter.len()]] *)
Definition filter_matches (first_frame sub_filter : bytes) : bool :=
  (len sub_filter <=? len first_frame) && bool_decide (sub_filter = ztake (len sub_filter) first_frame).

Definition subscription_matches (subscriptions : list bytes) (first_frame : bytes) : bool :=
  if len subscriptions <=? 1 then existsb (filter_matches first_frame) subscriptions
  else
    let first_byte := head first_frame in
    existsb (fun sub_filter =>
      match head sub_filter with
      | Some prefix_first =>
          if bool_decide (Some prefix_first <> first_byte) then false
          else filter_matches first_frame sub_filter
      | None => filter_matches first_frame sub_filter
      end) subscriptions.

Lemma filter_matches_iff first_frame sub_filter :
  filter_matches first_frame sub_filter = true <-> sub_filter `prefix_of` first_frame.
Proof.
  unfold filter_matches. rewrite andb_true_iff, Z.leb_le, bool_decide_eq_true. split.
  - intros [_ ->]. exists (zdrop (len sub_filter) first_frame). by rewrite ztake_zdrop.
  - intros [rest ->]. rewrite len_app, ztake_app by done. pose proof (len_nonneg rest).
    split; [lia|done].
Qed.

Lemma subscription_matches_spec (subscriptions : list bytes) (first_frame : bytes) :
  subscription_matches subscriptions first_frame = true
  <-> exists sub_filter, sub_filter ∈ subscriptions /\ sub_filter `prefix_of` first_frame.
Proof.
  unfold subscription_matches. destruct (len subscriptions <=? 1); rewrite existsb_exists.
  - by setoid_rewrite filter_matches_iff; setoid_rewrite list_elem_of_In.
  - setoid_rewrite <- list_elem_of_In. apply exist_proper. intros f.
    assert (forall P Q R : Prop, (Q <-> R) -> P /\ Q <-> P /\ R) as Hand by tauto.
    apply Hand. destruct f as [|b f]; cbn; [by apply filter_matches_iff|].
    case_bool_decide as Hb; [|by apply filter_matches_iff].
    split; [done|]. intros [rest ->]. by destruct Hb.
Qed.

(** ** Subscription messages *)

Inductive SubscriptionMessageType : Type := Unsubscribe | Subscribe.

(** [msg_type as u8] *)
Definition type_byte (t : SubscriptionMessageType) : byte :=
  match t with Unsubscribe => Byte.x00 | Subscribe => Byte.x01 end.

Definition create_subs_message (subscription : bytes) (msg_type : SubscriptionMessageType) : ZmqMessage.t :=
  ZmqMessage.from_bytes (type_byte msg_type :: subscription).

(** [if let Some(index) = subscriptions.iter().position(|s| s == &sub) { .. remove(index) }] *)
Fixpoint remove_first (sub : bytes) (subscriptions : list bytes) : list bytes :=
  match subscriptions with
  | [] => []
  | s :: l => if bool_decide (s = sub) then l else s :: remove_first sub l
  end.

(** [message_received], on the subscriptions of the peer. *)
Definition update_subscriptions (message : Message) (subscriptions : list bytes) : list bytes :=
  match message with
  | MMessage m =>
      if negb (ZmqMessage.len m =? 1) then subscriptions
      else
        match default [] (last (ZmqMessage.into_vec m)) with
        | [] => subscriptions
        | b :: sub =>
            if bool_decide (b = Byte.x01) then subscriptions ++ [sub]
            else if bool_decide (b = Byte.x00) then remove_first sub subscriptions
            else subscriptions
        end
  | _ => subscriptions
  end.

Lemma update_created t sub l :
  update_subscriptions (MMessage (create_subs_message sub t)) l
  = match t with Subscribe => l ++ [sub] | Unsubscribe => remove_first sub l end.
Proof. by destruct t. Qed.

(** ** What a publisher knows *)

Fixpoint occurrences (sub : bytes) (l : list bytes) : nat :=
  match l with
  | [] => 0
  | s :: l => (if bool_decide (s = sub) then 1 else 0) + occurrences sub l
  end.

Lemma occurrences_app sub l l' : occurrences sub (l ++ l') = (occurrences sub l + occurrences sub l')%nat.
Proof. induction l as [|s l IH]; cbn; [done|]. rewrite IH. lia. Qed.

Lemma occurrences_pos sub l : (0 < occurrences sub l)%nat <-> sub ∈ l.
Proof.
  induction l as [|s l IH]; cbn; [split; [lia|by intros ?%not_elem_of_nil]|].
  rewrite elem_of_cons, <- IH. case_bool_decide; split.
  - intros _. by left.
  - lia.
  - intros. right. lia.
  - intros [->|?]; [done|lia].
Qed.

(** A publisher counts the subscriptions to a topic up and, while there are some, down. *)
Definition count_step (sub : bytes) (n : nat) (m : Message) : nat :=
  if bool_decide (m = MMessage (create_subs_message sub Subscribe)) then S n
  else if bool_decide (m = MMessage (create_subs_message sub Unsubscribe)) then pred n
  else n.

Lemma occurrences_remove sub sub' l :
  occurrences sub (remove_first sub' l) = if bool_decide (sub' = sub) then pred (occurrences sub l) else occurrences sub l.
Proof.
  induction l as [|s l IH]; cbn; [by case_bool_decide|].
  destruct (bool_decide_reflect (s = sub')) as [->|Hs]; cbn; rewrite ?IH;
    repeat case_bool_decide; subst; try done; lia.
Qed.

(** The frames a message has to have to be a subscription message. *)
Lemma update_cases m l :
  (exists sub t, m = MMessage (create_subs_message sub t))
  \/ (update_subscriptions m l = l /\ forall sub t, m <> MMessage (create_subs_message sub t)).
Proof.
  destruct m as [g|c|[fs]]; try (by right). unfold update_subscriptions, ZmqMessage.len. cbn.
  destruct fs as [|f [|g fs]]; [by right| |].
  - cbn. destruct f as [|b sub]; [by right|].
    case_bool_decide as H1; [subst; left; by exists sub, Subscribe|].
    case_bool_decide as H0; [subst; left; by exists sub, Unsubscribe|].
    right. split; [done|]. intros sub' []; unfold create_subs_message, ZmqMessage.from_bytes; cbn; congruence.
  - right. split; [|done]. destruct (Z.eqb_spec (len (f :: g :: fs)) 1) as [Hl|]; [|done].
    rewrite !len_cons in Hl. pose proof (len_nonneg fs). lia.
Qed.

Lemma update_occurrences sub m l :
  occurrences sub (update_subscriptions m l) = count_step sub (occurrences sub l) m.
Proof.
  unfold count_step. destruct (update_cases m l) as [(sub' & t & ->)|[-> Hm]].
  - rewrite update_created. destruct t.
    + rewrite bool_decide_eq_false_2 by done. rewrite occurrences_remove.
      destruct (decide (sub' = sub)) as [->|Hne]; [by rewrite !bool_decide_eq_true_2|].
      by rewrite !bool_decide_eq_false_2 by (try done; intros [=]; congruence).
    + rewrite occurrences_app. cbn.
      destruct (decide (sub' = sub)) as [->|Hne].
      * rewrite !bool_decide_eq_true_2 by done. cbn. lia.
      * rewrite !bool_decide_eq_false_2 by (try done; intros [=]; congruence). cbn. lia.
  - rewrite !bool_decide_eq_false_2; [done|apply Hm..].
Qed.

(** C22 What a publisher sends: after any messages from a subscriber it sends it a message
    exactly when the first frame has a prefix whose subscriptions, less its
    unsubscriptions (of those that counted), are positive. Other messages change nothing. *)
Theorem publisher_matches_counts (ms : list Message) (first_frame : bytes) :
  subscription_matches (fold_left (fun l m => update_subscriptions m l) ms []) first_frame = true
  <-> exists sub, (0 < fold_left (count_step sub) ms 0)%nat /\ sub `prefix_of` first_frame.
Proof.
  assert (forall sub l, occurrences sub (fold_left (fun l m => update_subscriptions m l) ms l)
                        = fold_left (count_step sub) ms (occurrences sub l)) as Hfold.
  { intros sub. induction ms as [|m ms IH]; intros l; cbn; [done|]. by rewrite IH, update_occurrences. }
  setoid_rewrite (fun sub => eq_sym (Hfold sub [])). setoid_rewrite occurrences_pos.
  apply subscription_matches_spec.
Qed.

(** ** Writing to several connections *)

Definition broken_pipe (e : CodecError) : bool :=
  match e with Io e => bool_decide (kind e = BrokenPipe) | _ => false end.

Section Targets.
Context `{Sinks}.
Abbreviation target := (PeerIdentity * writer)%type.
Implicit Types (o : sinks) (targets : list target).

(** The loop of [XPubSocket::send] and of [SubSocketBackend::fanout_message]: the peers whose
    pipe is broken; an error that is not the transport's ends it. *)
Fixpoint write_targets o targets (m : Message) : sinks * result (list PeerIdentity) CodecError :=
  match targets with
  | [] => (o, Ok [])
  | (peer_id, out) :: targets =>
      match sink_send o out m with
      | (o, Ok _) => write_targets o targets m
      | (o, Err (Io e)) =>
          let '(o, r) := write_targets o targets m in
          (o, if broken_pipe (Io e) then result_map (cons peer_id) r else r)
      | (o, Err e) => (o, Err e)
      end
  end.

(** The loop of [SubSocketBackend::broadcast_control_message], which goes on after every
    error: the dead peers and the first error. *)
Fixpoint write_control o targets (m : Message) : sinks * list PeerIdentity * option CodecError :=
  match targets with
  | [] => (o, [], None)
  | (peer_id, out) :: targets =>
      match sink_send o out m with
      | (o, Ok _) => write_control o targets m
      | (o, Err e) =>
          let '(o, dead, _) := write_control o targets m in
          (o, if broken_pipe e then peer_id :: dead else dead, Some e)
      end
  end.

(** What the send to the connection [out], in the midst of the others, returned, and whether it
    wrote the message: it did if there was no error. *)
Definition offered o o' (m : Message) (out : writer) (r : result unit CodecError) : Prop :=
  exists o1 o2, sink_send o1 out m = (o2, r)
    /\ written o1 out = written o out /\ written o' out = written o2 out.

Lemma offered_written o o' m out r :
  offered o o' m out r ->
  written o' out = written o out ++ [m] \/ (written o' out = written o out /\ r <> Ok tt).
Proof.
  intros (o1 & o2 & Hs & H1 & ->). rewrite <- H1.
  destruct (sink_send_written _ _ _ _ _ Hs) as [_ [Hw|(e & -> & Hw)]]; [by left|by right].
Qed.

Lemma offered_ok o o' m out : offered o o' m out (Ok tt) -> written o' out = written o out ++ [m].
Proof. by intros [?|[_ ?]]%offered_written. Qed.

Definition untouched o o' targets : Prop :=
  forall out, out ∉ snd <$> targets -> written o' out = written o out.

(** The outcomes of the sends to all targets, and who is found dead. *)
Definition broken (r : result unit CodecError) : bool :=
  match r with Ok _ => false | Err e => broken_pipe e end.

Definition all_offered o o' m targets (dead : list PeerIdentity) (f : PeerIdentity -> result unit CodecError) : Prop :=
  untouched o o' targets
  /\ Forall (fun '(p, out) => offered o o' m out (f p)) targets
  /\ forall p, p ∈ dead <-> p ∈ fst <$> targets /\ broken (f p) = true.

Lemma all_offered_nil o m f : all_offered o o m [] [] f.
Proof. split_and!; [done|constructor|]. intros p. rewrite !elem_of_nil. tauto. Qed.

Lemma all_offered_cons o o1 o2 m p out r targets dead f :
  sink_send o out m = (o1, r) -> p ∉ fst <$> targets -> out ∉ snd <$> targets ->
  all_offered o1 o2 m targets dead f ->
  all_offered o o2 m ((p, out) :: targets) (if broken r then p :: dead else dead)
    (fun q => if decide (q = p) then r else f q).
Proof.
  intros Hs Hp Hout (Hu & Hf & Hd). destruct (sink_send_written _ _ _ _ _ Hs) as [Hother _]. split_and!.
  - intros out'. rewrite fmap_cons, not_elem_of_cons. intros [Hne Hn]. by rewrite Hu, Hother.
  - constructor; [rewrite decide_True by done; exists o, o1; by rewrite Hu|].
    rewrite Forall_forall in Hf |- *. intros [q out'] Hq.
    assert (q <> p /\ out' <> out) as [Hqp Hne].
    { split; intros ->; [apply Hp|apply Hout]; apply list_elem_of_fmap; [by exists (p, out')|by exists (q, out)]. }
    rewrite decide_False by done. destruct (Hf _ Hq) as (a & b & Ha & Hb & Hc). exists a, b.
    by rewrite Hb, Hother.
  - intros q. rewrite fmap_cons, elem_of_cons. cbn [fst]. destruct (decide (q = p)) as [->|Hne].
    + destruct (broken r); [set_solver|].
      rewrite Hd. naive_solver.
    + destruct (broken r); set_solver.
Qed.

Lemma write_control_spec o targets m o' dead e :
  write_control o targets m = (o', dead, e) -> NoDup (fst <$> targets) -> NoDup (snd <$> targets) ->
  exists f, all_offered o o' m targets dead f.
Proof.
  revert o o' dead e. induction targets as [|[p out] targets IH]; intros o o' dead e; cbn [write_control].
  { intros [= <- <- <-] _ _. exists (fun _ => Ok tt). apply all_offered_nil. }
  rewrite !fmap_cons, !NoDup_cons. intros Hw [Hp Hnp] [Hn Hnd].
  destruct (sink_send o out m) as [o1 r] eqn:Hs.
  destruct (write_control o1 targets m) as [[o2 dead1] e1] eqn:Hrec.
  destruct (IH _ _ _ _ Hrec Hnp Hnd) as (f & Hf). eexists.
  pose proof (all_offered_cons _ _ _ _ _ _ _ _ _ _ Hs Hp Hn Hf) as Hc.
  destruct r as [u|e0]; simplify_eq; exact Hc.
Qed.

(** Without an error everybody has the message. *)
Lemma write_control_ok o targets m o' dead :
  write_control o targets m = (o', dead, None) -> NoDup (fst <$> targets) -> NoDup (snd <$> targets) ->
  dead = [] /\ Forall (fun t => written o' (snd t) = written o (snd t) ++ [m]) targets.
Proof.
  revert o. induction targets as [|[p out] targets IH]; intros o; cbn [write_control].
  { intros [= <- <-] _. by split. }
  destruct (sink_send o out m) as [o1 [u|e]] eqn:Hs; [|by destruct (write_control o1 targets m) as [[]]].
  rewrite !fmap_cons, !NoDup_cons. intros Hw [Hp Hnp] [Hn Hnd]. destruct (IH _ Hw Hnp Hnd) as [Hd Hf]. split; [done|].
  destruct (sink_send_written _ _ _ _ _ Hs) as [Hother _]. constructor.
  - destruct (write_control_spec _ _ _ _ _ _ Hw Hnp Hnd) as (f & Hu & _). cbn [snd] in *.
    rewrite (Hu _ Hn). by eapply sink_send_ok.
  - rewrite Forall_forall in Hf |- *. intros t Ht. rewrite (Hf _ Ht), Hother; [done|].
    intros Heq. apply Hn. cbn [snd]. rewrite <- Heq. apply list_elem_of_fmap. by exists t.
Qed.

(** When the other loop is not ended by an error, the transport's are the only ones. *)
Lemma write_targets_spec o targets m o' dead :
  write_targets o targets m = (o', Ok dead) -> NoDup (fst <$> targets) -> NoDup (snd <$> targets) ->
  exists f, all_offered o o' m targets dead f
    /\ Forall (fun '(p, _) => f p = Ok tt \/ exists e, f p = Err (Io e)) targets.
Proof.
  revert o dead. induction targets as [|[p out] targets IH]; intros o dead; cbn [write_targets].
  { intros [= <- <-] _ _. exists (fun _ => Ok tt). split; [apply all_offered_nil|constructor]. }
  rewrite !fmap_cons, !NoDup_cons. intros Hw [Hp Hnp] [Hn Hnd].
  destruct (sink_send o out m) as [o1 r] eqn:Hs.
  assert (exists dead1, write_targets o1 targets m = (o', Ok dead1)
          /\ dead = (if broken r then p :: dead1 else dead1)
          /\ (r = Ok tt \/ exists e, r = Err (Io e))) as (dead1 & Hrec & -> & Hr).
  { destruct r as [[]|e0]; [exists dead; by split_and!; [..|left]|]. destruct e0 as [| | | |e0|]; try done.
    destruct (write_targets o1 targets m) as [o2 [dead1|e1]] eqn:Hrec; [|by destruct (broken_pipe _)].
    exists dead1. cbn [broken]. destruct (broken_pipe (Io e0)); injection Hw as <- <-; split_and!; eauto. }
  destruct (IH _ _ Hrec Hnp Hnd) as (f & Hf & Hio). eexists. split; [by eapply all_offered_cons|].
  constructor; [by rewrite decide_True|]. rewrite Forall_forall in Hio |- *. intros [q out'] Hq.
  rewrite decide_False; [by apply (Hio _ Hq)|]. intros ->. apply Hp, list_elem_of_fmap. by exists (p, out').
Qed.
End Targets.
