(* ===== verification/Fanout.v ===== *)
(** The queue between [PubSocket::send] and the task that fans messages out
    ([PubFanoutQueue] and [spawn_pub_fanout_queue], src/src/pub.rs): a bounded queue, an
    atomic flag that says whether the task has been woken, and a channel of wake-ups.

    The socket and the task run concurrently; every access to the shared state is a step.
    [tso] says whether the task's stores to the flag may wait in a store buffer while its
    later loads are done, as x86 processors and the memory model of the language allow;
    without it the steps interleave sequentially consistently. *)

From S2P Require Import Prelude Message.

(** Where the socket is in [publish]. *)
Inductive publisher_pc : Type :=
  | Idle          (** not in [publish] *)
  | Pushed        (** before [wake_pending.load] *)
  | Swapping      (** before [wake_pending.swap] *)
  | Waking.       (** before [wake_sender.unbounded_send] *)

(** Where the task is in its loops. *)
Inductive worker_pc : Type :=
  | Waiting       (** at [wake_receiver.next()] *)
  | Draining      (** before [worker_queue.pop()] *)
  | Drained       (** before [worker_pending.store(false)] *)
  | Cleared       (** before [worker_queue.is_empty()] *)
  | Refilled.     (** before [worker_pending.store(true)] *)

#[export] Instance publisher_pc_eq_dec : EqDecision publisher_pc.
Proof. solve_decision. Defined.
#[export] Instance worker_pc_eq_dec : EqDecision worker_pc.
Proof. solve_decision. Defined.

(** [enqueued] and [fanned_out] are the history: what the queue took, and what the task gave
    to [fanout_message]. *)
Record fanout : Type := mkFanout {
  fifo : list ZmqMessage.t;
  wake_pending : bool;
  store_buffer : option bool;
  wakes : nat;
  publisher : publisher_pc;
  worker : worker_pc;
  enqueued : list ZmqMessage.t;
  fanned_out : list ZmqMessage.t;
}.

(** [spawn_pub_fanout_queue] *)
Definition new_fanout : fanout := mkFanout [] false None 0 Idle Waiting [] [].

Section Steps.
Variable capacity : Z.
Implicit Types (q : fanout).

(** [publish], from its call to its return, when nothing runs between its steps. *)
Definition push (message : ZmqMessage.t) q : fanout :=
  if bool_decide (len (fifo q) < capacity)%Z
  then mkFanout (fifo q ++ [message]) (wake_pending q) (store_buffer q) (wakes q) Pushed (worker q)
         (enqueued q ++ [message]) (fanned_out q)
  else q.

Definition load_pending q : fanout :=
  mkFanout (fifo q) (wake_pending q) (store_buffer q) (wakes q)
    (if wake_pending q then Idle else Swapping) (worker q) (enqueued q) (fanned_out q).

Definition swap_pending q : fanout :=
  mkFanout (fifo q) true (store_buffer q) (wakes q)
    (if wake_pending q then Idle else Waking) (worker q) (enqueued q) (fanned_out q).

Definition send_wake q : fanout :=
  mkFanout (fifo q) (wake_pending q) (store_buffer q) (S (wakes q)) Idle (worker q) (enqueued q) (fanned_out q).

Definition publish_step q : fanout :=
  match publisher q with
  | Idle => q
  | Pushed => load_pending q
  | Swapping => swap_pending q
  | Waking => send_wake q
  end.

Definition publish (message : ZmqMessage.t) q : fanout :=
  publish_step (publish_step (publish_step (push message q))).

(** A store of the task to the flag. *)
Definition store (tso : bool) (v : bool) (w : worker_pc) q : fanout :=
  if tso
  then mkFanout (fifo q) (wake_pending q) (Some v) (wakes q) (publisher q) w (enqueued q) (fanned_out q)
  else mkFanout (fifo q) v (store_buffer q) (wakes q) (publisher q) w (enqueued q) (fanned_out q).

Definition at_worker (w : worker_pc) q : fanout :=
  mkFanout (fifo q) (wake_pending q) (store_buffer q) (wakes q) (publisher q) w (enqueued q) (fanned_out q).

(** One step of the task; [None] when it has to wait. A pop, a receive and a second store
    wait for the store before them. *)
Definition worker_step (tso : bool) q : option fanout :=
  match worker q, fifo q, store_buffer q with
  | Waiting, _, None =>
      match wakes q with
      | O => None
      | S n => Some (mkFanout (fifo q) (wake_pending q) None n (publisher q) Draining (enqueued q) (fanned_out q))
      end
  | Draining, [], None => Some (at_worker Drained q)
  | Draining, message :: l, None =>
      Some (mkFanout l (wake_pending q) None (wakes q) (publisher q) Draining (enqueued q)
              (fanned_out q ++ [message]))
  | Drained, _, None => Some (store tso false Cleared q)
  | Cleared, [], _ => Some (at_worker Waiting q)
  | Cleared, _ :: _, _ => Some (at_worker Refilled q)
  | Refilled, _, None => Some (store tso true Draining q)
  | _, _, Some _ => None
  end.

(** The buffered store reaches memory. *)
Definition drain_buffer q : option fanout :=
  match store_buffer q with
  | Some v => Some (mkFanout (fifo q) v None (wakes q) (publisher q) (worker q) (enqueued q) (fanned_out q))
  | None => None
  end.

Inductive step (tso : bool) q : fanout -> Prop :=
  | step_publish message : publisher q = Idle -> step tso q (push message q)
  | step_publisher : step tso q (publish_step q)
  | step_worker q' : worker_step tso q = Some q' -> step tso q q'
  | step_store q' : drain_buffer q = Some q' -> step tso q q'.

Lemma publish_steps tso message q : publisher q = Idle -> rtc (step tso) q (publish message q).
Proof.
  intros Hi. eapply rtc_l; [by apply step_publish|].
  do 3 (eapply rtc_l; [apply step_publisher|]). apply rtc_refl.
Qed.

(** ** Messages are neither lost, nor duplicated, nor reordered *)

Definition conserved q : Prop :=
  enqueued q = fanned_out q ++ fifo q /\ (len (fifo q) <= capacity)%Z.

Lemma step_conserved tso q q' : step tso q q' -> conserved q -> conserved q'.
Proof.
  unfold conserved. intros Hs [Ha Hl]. destruct Hs as [m Hi| |q' Hw|q' Hd].
  - unfold push. case_bool_decide; [|done]. cbn. rewrite Ha, len_app, <- app_assoc. split; [done|zlen].
  - unfold publish_step. by destruct (publisher q).
  - unfold worker_step, store in Hw. destruct (worker q), (fifo q) eqn:Hf, (store_buffer q), (wakes q), tso;
      simplify_eq; cbn in *; rewrite ?Hf in *; rewrite ?Ha; cbn in *; (split; [by rewrite <- ?app_assoc|zlen]).
  - unfold drain_buffer in Hd. destruct (store_buffer q); by simplify_eq.
Qed.

(** ** Wake-ups *)

(** Somebody still has to look at the queue: a wake-up is on its way, or the task is in its
    loop. *)
Definition will_look q : Prop :=
  (0 < wakes q)%nat \/ publisher q = Waking \/ worker q = Draining \/ worker q = Drained.

Definition live q : Prop :=
  store_buffer q = None
  /\ (wake_pending q = true -> will_look q)
  /\ (fifo q <> [] -> will_look q \/ publisher q = Pushed \/ publisher q = Swapping
      \/ worker q = Cleared \/ worker q = Refilled).

Lemma step_live q q' : step false q q' -> live q -> live q'.
Proof.
  unfold live, will_look. intros Hs (Hb & Hp & Hq). destruct Hs as [m Hi| |q' Hw|q' Hd].
  - unfold push. case_bool_decide; [|done]. cbn. split_and!; [done| |tauto].
    intros Ht. destruct (Hp Ht) as [?|[?|?]]; [tauto|congruence|tauto].
  - unfold publish_step, load_pending, swap_pending, send_wake.
    destruct (publisher q) eqn:He, (wake_pending q) eqn:Hpe; cbn in *; rewrite ?Hpe in *;
      split_and!; try done; try tauto; intuition (try done; try lia).
  - unfold worker_step, store in Hw. rewrite Hb in Hw.
    destruct (worker q) eqn:Hwk, (fifo q) eqn:Hf, (wakes q) eqn:Hwa; simplify_eq; cbn in *;
      rewrite ?Hb, ?Hf, ?Hwa, ?Hwk in *; split_and!; try done;
      intuition (try done; try lia; try congruence).
  - unfold drain_buffer in Hd. rewrite Hb in Hd. done.
Qed.

Lemma reachable_live q : rtc (step false) new_fanout q -> live q.
Proof.
  intros Hr. assert (live new_fanout) as H0 by (by split_and!).
  revert H0. induction Hr as [|a b c Hs _ IH]; [done|]. intros Ha. by eapply IH, step_live.
Qed.

(** ** The task alone *)

Fixpoint work (fuel : nat) q : fanout :=
  match fuel with
  | O => q
  | S fuel => match worker_step false q with Some q => work fuel q | None => q end
  end.

(** How many steps the task has left at most. *)
Definition steps_left q : nat :=
  match worker q, fifo q with
  | Waiting, _ => 0 | Cleared, [] => 1 | Drained, [] => 2 | Draining, [] => 3 | Refilled, [] => 4
  | Draining, _ => 4 | Refilled, _ => 5 | Cleared, _ => 6 | Drained, _ => 7
  end + 5 * wakes q + 10 * length (fifo q).

Lemma worker_step_left q q' : worker_step false q = Some q' -> (steps_left q' < steps_left q)%nat.
Proof.
  unfold worker_step, store, steps_left. destruct q as [f p b w pu wk a o]. cbn.
  destruct wk, f as [|m l], b, w; intros; simplify_eq; cbn; try lia; destruct l; cbn; lia.
Qed.

Lemma work_ends q fuel : (steps_left q <= fuel)%nat -> worker_step false (work fuel q) = None.
Proof.
  revert q. induction fuel as [|fuel IH]; intros q Hf; cbn.
  - destruct (worker_step false q) as [q'|] eqn:Hw; [|done]. apply worker_step_left in Hw. lia.
  - destruct (worker_step false q) as [q'|] eqn:Hw; [|done]. apply IH.
    apply worker_step_left in Hw. lia.
Qed.

Lemma work_steps q fuel : rtc (step false) q (work fuel q).
Proof.
  revert q. induction fuel as [|fuel IH]; intros q; cbn; [done|].
  destruct (worker_step false q) as [q'|] eqn:Hw; [|done].
  eapply rtc_l; [by apply step_worker|apply IH].
Qed.

Lemma worker_step_frame q q' :
  worker_step false q = Some q' -> enqueued q' = enqueued q /\ publisher q' = publisher q.
Proof.
  unfold worker_step, store. destruct (worker q), (fifo q), (store_buffer q), (wakes q);
    intros; by simplify_eq.
Qed.

Lemma work_frame q fuel : enqueued (work fuel q) = enqueued q /\ publisher (work fuel q) = publisher q.
Proof.
  revert q. induction fuel as [|fuel IH]; intros q; cbn; [done|].
  destruct (worker_step false q) as [q'|] eqn:Hw; [|done].
  destruct (worker_step_frame _ _ Hw) as [<- <-]. apply IH.
Qed.
End Steps.

Lemma reachable_conserved (capacity : Z) (tso : bool) (q : fanout) :
  (0 <= capacity)%Z -> rtc (step capacity tso) new_fanout q ->
  enqueued q = fanned_out q ++ fifo q /\ (len (fifo q) <= capacity)%Z.
Proof.
  intros Hcap Hr. assert (conserved capacity new_fanout) as H0 by (split; [done|zlen]).
  revert H0. induction Hr as [|a b c Hs _ IH]; [done|]. intros Ha. by eapply IH, step_conserved.
Qed.

Lemma work_delivers (capacity : Z) (q : fanout) :
  (0 <= capacity)%Z -> rtc (step capacity false) new_fanout q -> publisher q = Idle ->
  let q' := work (steps_left q) q in
  worker q' = Waiting /\ fifo q' = [] /\ fanned_out q' = enqueued q.
Proof.
  intros Hcap Hr Hi. pose proof (work_steps capacity q (steps_left q)) as Hw.
  assert (rtc (step capacity false) new_fanout (work (steps_left q) q)) as Hr' by by etrans.
  destruct (reachable_live _ _ Hr') as (Hb & _ & Hl).
  destruct (work_frame q (steps_left q)) as [Ha Hp]. rewrite Hi in Hp.
  pose proof (work_ends q (steps_left q) (le_n _)) as Hend. cbv zeta.
  set (q' := work (steps_left q) q) in *.
  assert (worker q' = Waiting /\ wakes q' = 0) as [Hwk Hwa].
  { unfold worker_step in Hend. rewrite Hb in Hend.
    destruct (worker q'), (fifo q'), (wakes q'); done. }
  assert (fifo q' = []) as Hf.
  { destruct (fifo q') eqn:Hf; [done|]. exfalso. unfold will_look in Hl.
    rewrite Hp, Hwk, Hwa in Hl. destruct Hl as [[|[|[|]]]|[|[|[|]]]]; (done || lia). }
  split_and!; [done..|]. rewrite <- Ha.
  assert (conserved capacity q') as [-> _]; [|by rewrite Hf, app_nil_r].
  assert (conserved capacity new_fanout) as H0 by (split; [done|zlen]).
  revert H0. clear -Hr'. induction Hr' as [|a b c Hs _ IH]; [done|]. intros Hc. by eapply IH, step_conserved.
Qed.

(** What a publish takes: the message, at the end, or nothing when the queue is full. *)
Lemma publish_takes (capacity : Z) (m : ZmqMessage.t) (q : fanout) :
  publisher q = Idle ->
  let taken := if bool_decide (len (fifo q) < capacity)%Z then [m] else [] in
  publisher (publish capacity m q) = Idle
  /\ enqueued (publish capacity m q) = enqueued q ++ taken
  /\ fifo (publish capacity m q) = fifo q ++ taken.
Proof.
  intros Hi. unfold publish, push. cbv zeta. case_bool_decide; cbn.
  - unfold publish_step at 2. cbn. unfold load_pending. cbn. unfold publish_step, swap_pending, send_wake, load_pending.
    destruct (wake_pending q) eqn:E; cbn; rewrite ?E; cbn; by split_and!.
  - assert (publish_step q = q) as Hq by (unfold publish_step; by rewrite Hi).
    by rewrite !Hq, !app_nil_r.
Qed.

(** C23 No message stays behind in the fan-out queue, and none is lost, duplicated or reordered.
    In every interleaving of the socket's and the task's accesses: the messages taken so far
    are those fanned out followed by those queued, never more than the capacity, and this even
    when the task's stores are delayed. When accesses are sequentially consistent, the task
    never sleeps on a message: it is at its [wake_receiver.next()] without a wake-up only if
    the queue is empty or a [publish] is still under way; and whenever [publish] has returned,
    the task, run alone for a number of steps that the definition computes, fans out
    everything the queue ever took, and waits. A publish adds its message at the end, and
    drops it when the queue is full. ([fanout_tso_lost_wakeup] shows that with delayed stores
    a message can stay.) *)
Theorem fanout_delivers (capacity : Z) (tso : bool) (q : fanout) :
  (0 <= capacity)%Z -> rtc (step capacity tso) new_fanout q ->
  (enqueued q = fanned_out q ++ fifo q /\ (len (fifo q) <= capacity)%Z)
  /\ (tso = false -> publisher q = Idle ->
      (worker_step false q = None -> fifo q = [] /\ fanned_out q = enqueued q)
      /\ (let q' := work (steps_left q) q in
          worker q' = Waiting /\ fifo q' = [] /\ fanned_out q' = enqueued q)
      /\ forall m,
          let q' := publish capacity m q in
          let q'' := work (steps_left q') q' in
          rtc (step capacity false) q q'
          /\ fanned_out q'' = enqueued q ++ (if bool_decide (len (fifo q) < capacity)%Z then [m] else [])).
Proof.
  intros Hcap Hr. pose proof (reachable_conserved _ _ _ Hcap Hr) as Hcons. split; [exact Hcons|].
  intros -> Hi. destruct (work_delivers _ _ Hcap Hr Hi) as (Hw & Hf & Ho). split_and!; [|done..|].
  - intros Hstuck. assert (forall n, work n q = q) as Hwork by (intros [|n]; cbn; by rewrite ?Hstuck).
    by rewrite Hwork in Hf, Ho.
  - intros m. pose proof (publish_steps capacity false m q Hi) as Hs. cbv zeta. split; [exact Hs|].
    destruct (publish_takes capacity m q Hi) as (Hi' & He & _). rewrite <- He.
    by apply (work_delivers capacity); [|etrans|].
Qed.

(** The task's store to the flag is a release and the load after it is of another
    location, so the load may be done first. Then the queue is seen empty, the next message
    is published, its publisher finds the flag still set, and the task waits: the message
    stays in the queue, and no step of the task or of the memory is left. *)
Theorem fanout_tso_lost_wakeup (capacity : Z) (m1 m2 : ZmqMessage.t) :
  (1 <= capacity)%Z ->
  exists q, rtc (step capacity true) new_fanout q
    /\ publisher q = Idle /\ fifo q = [m2] /\ fanned_out q = [m1]
    /\ worker_step true q = None /\ drain_buffer q = None.
Proof.
  intros Hc.
  assert (forall m q, fifo q = [] -> push capacity m q
            = mkFanout [m] (wake_pending q) (store_buffer q) (wakes q) Pushed (worker q)
                (enqueued q ++ [m]) (fanned_out q)) as Hpush.
  { intros m q Hf. unfold push. rewrite Hf. by rewrite bool_decide_eq_true_2 by zlen. }
  eexists. split.
  - eapply rtc_l; [by apply (step_publish _ _ _ m1)|]. rewrite Hpush by done.
    do 3 (eapply rtc_l; [apply step_publisher|]).
    do 4 (eapply rtc_l; [apply step_worker; reflexivity|]).
    eapply rtc_l; [apply step_worker; reflexivity|].
    eapply rtc_l; [by apply (step_publish _ _ _ m2)|]. rewrite Hpush by done.
    eapply rtc_l; [apply step_publisher|]. eapply rtc_l; [apply step_store; reflexivity|].
    apply rtc_refl.
  - by split_and!.
Qed.

(** ** Runs *)

Module Example.
Definition hello : ZmqMessage.t := ZmqMessage.from_bytes (bs "hello").
Definition published : fanout := publish 1 hello new_fanout.

(** The repository's [test_fanout_queue_drops_new_message_when_full_without_extra_wake]. *)
Example full_queue_drops : publish 1 (ZmqMessage.from_bytes (bs "dropped")) published = published.
Proof. by vm_compute. Qed.

Example one_wake : wakes published = 1.
Proof. by vm_compute. Qed.
End Example.

Lemma fanout_delivers_witness :
  worker_step false Example.published <> None
  /\ fanned_out (work (steps_left Example.published) Example.published) = [Example.hello].
Proof.
  destruct (fanout_delivers 1 false Example.published) as (_ & Hd); [done|by apply publish_steps|].
  destruct (Hd eq_refl) as (_ & (_ & _ & Hf) & _); [by vm_compute|]. split; [|exact Hf].
  intros Hn. vm_compute in Hn. discriminate.
Defined.

Lemma fanout_tso_lost_wakeup_witness :
  exists q, rtc (step 1 true) new_fanout q /\ fifo q = [Example.hello] /\ worker_step true q = None.
Proof.
  destruct (fanout_tso_lost_wakeup 1 Example.hello Example.hello) as (q & Hr & _ & Hf & _ & Hw & _);
    [lia|by exists q].
Defined.
