(* ===== verification/Pub.v ===== *)
(** PUB sockets (src/src/pub.rs): the subscribers with their subscriptions and queues, the
    fan-out of a message to those that match, the tasks that read the subscribers' messages,
    and the socket, which hands its messages to the fan-out queue of [Fanout.v]. *)

From S2P Require Import Prelude Message Endpoint Errors SocketTypes Greeting Command Codec.
From S2P Require Import FairQueue Channels Runtime Receive Subscriptions Fanout.

Local Open Scope Z_scope.

Definition PUB_SEND_QUEUE_CAPACITY : Z := 100000.

(** The sender of the reader's stop channel is its number. *)
Record Subscriber `{Runtime} : Type := mkSubscriber {
  subscriptions : list bytes;
  send_queue : sender Message;
  subscription_coro_stop : nat;
}.
Arguments mkSubscriber {_} _ _ _.
Arguments subscriptions {_} _.
Arguments send_queue {_} _.
Arguments subscription_coro_stop {_} _.

(** [PubSocketBackend], and the number of the next stop channel. *)
Record PubSocketBackend (S : Type) `{Runtime} : Type := mkPub {
  subscribers : gmap PeerIdentity Subscriber;
  subscriber_count : Z;
  pub_monitor : option (sender SocketEvent);
  pub_options : SocketOptions;
  next_stop : nat;
  pub_shared : Shared S;
}.
Arguments mkPub {S _} _ _ _ _ _ _.
Arguments subscribers {S _} _.
Arguments subscriber_count {S _} _.
Arguments pub_monitor {S _} _.
Arguments pub_options {S _} _.
Arguments next_stop {S _} _.
Arguments pub_shared {S _} _.

Section Pub.
Context {S : Type} `{Runtime}.
Abbreviation backend := (PubSocketBackend S).
Implicit Types (b : backend) (message : ZmqMessage.t).

Definition pub_with_options (options : SocketOptions) (sh : Shared S) : backend :=
  mkPub ∅ 0 None options 0 sh.

Definition set_subscribers (m : gmap PeerIdentity Subscriber) b : backend :=
  mkPub m (subscriber_count b) (pub_monitor b) (pub_options b) (next_stop b) (pub_shared b).

Definition set_count (n : Z) b : backend :=
  mkPub (subscribers b) n (pub_monitor b) (pub_options b) (next_stop b) (pub_shared b).

Definition set_pub_monitor (m : option (sender SocketEvent)) b : backend :=
  mkPub (subscribers b) (subscriber_count b) m (pub_options b) (next_stop b) (pub_shared b).

Definition set_pub_shared (sh : Shared S) b : backend :=
  mkPub (subscribers b) (subscriber_count b) (pub_monitor b) (pub_options b) (next_stop b) sh.

(** [fetch_add] and [fetch_sub] on an [AtomicUsize]. *)
Definition fetch_add (n d : Z) : Z := (n + d) mod 2 ^ 64.

(** Both errors of [try_send] drop the message. *)
Definition send_to_subscriber (n : net Message) (send_queue : sender Message) message : net Message :=
  match try_send n send_queue (MMessage message) with
  | (n, Ok _) => n
  | (n, Err _) => n
  end.

(** The loop of [fanout_message], over the subscribers in the order of the map. *)
Fixpoint fanout_loop (n : net Message) (l : list (PeerIdentity * Subscriber)) (first_frame : bytes)
    message : net Message :=
  match l with
  | [] => n
  | (_, subscriber) :: l =>
      let n :=
        if subscription_matches (subscriptions subscriber) first_frame
        then let '(n, s) := clone_sender n (send_queue subscriber) in send_to_subscriber n s message
        else n in
      fanout_loop n l first_frame message
  end.

Definition fanout_message message b : backend :=
  match ZmqMessage.get message 0 with
  | None => b
  | Some first_frame =>
      set_pub_shared
        (set_messages (fanout_loop (messages (pub_shared b)) (map_to_list (subscribers b)) first_frame message)
           (pub_shared b)) b
  end.

Definition message_received (peer_id : PeerIdentity) (m : Message) b : backend :=
  match subscribers b !! peer_id with
  | Some s =>
      set_subscribers
        (<[peer_id := mkSubscriber (update_subscriptions m (subscriptions s)) (send_queue s)
                        (subscription_coro_stop s)]> (subscribers b)) b
  | None => b
  end.

(** [SocketBackend] and [MultiPeerBackend]. *)
Definition pub_shutdown b : backend := set_count 0 (set_subscribers ∅ b).

Definition pub_peer_connected (peer_id : PeerIdentity) (io : FramedIo S) b : backend :=
  let '(recv_queue, out) := into_parts io in
  let '(n, queue_sender) := channel (messages (pub_shared b)) PUB_SEND_QUEUE_CAPACITY in
  let stop := next_stop b in
  let old_subscriber := subscribers b !! peer_id in
  let sh := set_messages n (pub_shared b) in
  let sh := spawn (WriterTask peer_id (chan_of queue_sender) out) sh in
  let sh := spawn (SubscriptionTask peer_id recv_queue stop) sh in
  mkPub (<[peer_id := mkSubscriber [] queue_sender stop]> (subscribers b))
    (match old_subscriber with None => fetch_add (subscriber_count b) 1 | Some _ => subscriber_count b end)
    (pub_monitor b) (pub_options b) (Datatypes.S stop) sh.

Definition pub_peer_disconnected (peer_id : PeerIdentity) b : backend :=
  let b := set_pub_shared (emit (pub_monitor b) (Disconnected peer_id) (pub_shared b)) b in
  match subscribers b !! peer_id with
  | Some _ => set_count (fetch_add (subscriber_count b) (-1))
                (set_subscribers (delete peer_id (subscribers b)) b)
  | None => b
  end.

Definition pub_drop b : backend := pub_shutdown b.

#[export] Instance pub_backend : MultiPeerBackend backend S := {|
  backend_socket_type := fun _ => PUB;
  backend_socket_options := pub_options;
  backend_monitor := pub_monitor;
  backend_shared := pub_shared;
  set_backend_shared := set_pub_shared;
  peer_connected := pub_peer_connected;
  peer_disconnected := pub_peer_disconnected;
  shutdown := pub_shutdown;
|}.

(** The task that reads a subscriber. Its stop channel fires when the subscriber that holds
    the sender is gone; when both branches of the [select!] are ready it picks either. One
    round: the backend, the stream, and whether the task ends. *)
Definition stop_fired (peer_id : PeerIdentity) (stop : nat) b : bool :=
  match subscribers b !! peer_id with
  | Some s => negb (bool_decide (subscription_coro_stop s = stop))
  | None => true
  end.

Definition subscription_round `{!Stream S item} (pick_stop : bool) (peer_id : PeerIdentity)
    (input : S) (stop : nat) b : backend * S * bool :=
  let '(input, x, _) := poll_stream input in
  if stop_fired peer_id stop b && (pick_stop || bool_decide (x = Pending)) then (b, input, true)
  else
    match x with
    | Pending => (b, input, false)
    | Ready (Some (Ok m)) => (message_received peer_id m b, input, false)
    | Ready (Some (Err _)) | Ready None => (pub_peer_disconnected peer_id b, input, true)
    end.

(** ** The invariant *)

(** The count is the number of subscribers, and each has a channel of its own. *)
Definition pub_ok b : Prop :=
  subscriber_count b = Z.of_nat (size (subscribers b)) mod 2 ^ 64
  /\ (forall p s, subscribers b !! p = Some s -> allocated (messages (pub_shared b)) (chan_of (send_queue s)))
  /\ (forall p q s t, subscribers b !! p = Some s -> subscribers b !! q = Some t -> p <> q ->
        chan_of (send_queue s) <> chan_of (send_queue t)).

Lemma fetch_add_mod n d m : n = m mod 2 ^ 64 -> fetch_add n d = (m + d) mod 2 ^ 64.
Proof. intros ->. unfold fetch_add. by rewrite Z.add_mod_idemp_l. Qed.

(** ** Fanning out *)

(** What a fan-out does to the channels. *)
Inductive net_step (n : net Message) : net Message -> Prop :=
  | net_clone q n' q' : clone_sender n q = (n', q') -> net_step n n'
  | net_try q m n' r : try_send n q m = (n', r) -> net_step n n'.

(** The message is the next of the channel, or the channel had no receiver at its turn. It is
    never dropped because the queue is full: a new clone of its sender has room. *)
Definition given (n n' : net Message) (q : sender Message) (m : Message) : Prop :=
  accepted n' (chan_of q) = accepted n (chan_of q) ++ [m]
  \/ accepted n' (chan_of q) = accepted n (chan_of q)
     /\ exists n1 n2 q' n3, rtc net_step n n1 /\ clone_sender n1 q = (n2, q')
          /\ try_send n2 q' m = (n3, Err SendDisconnected).

Lemma send_clone_given n q message c :
  let '(n1, q1) := clone_sender n q in
  let n' := send_to_subscriber n1 q1 message in
  given n n' q (MMessage message) /\ rtc net_step n n'
  /\ (c <> chan_of q -> accepted n' c = accepted n c) /\ (allocated n' c <-> allocated n c).
Proof.
  destruct (clone_sender n q) as [n1 q1] eqn:Hc. unfold send_to_subscriber.
  destruct (clone_same _ _ _ _ c Hc) as (Hch & Hacc & Hall).
  destruct (clone_same _ _ _ _ (chan_of q) Hc) as (_ & Hacc' & _).
  destruct (try_send n1 q1 (MMessage message)) as [n2 r] eqn:Ht.
  pose proof (try_send_accepted _ _ _ _ _ c Ht) as [H1 H2].
  pose proof (try_send_accepted _ _ _ _ _ (chan_of q) Ht) as [H3 _].
  rewrite Hch, decide_True in H3 by done. rewrite Hch in H1. rewrite Hacc' in H3.
  assert (match r with Ok _ => n2 | Err _ => n2 end = n2) as -> by by destruct r.
  split_and!.
  - destruct r as [u|[]]; [by left|by apply (clone_slot _ _ _ _ _ _ Hc) in Ht|right].
    cbn in H3. rewrite app_nil_r in H3. split; [done|]. by exists n, n1, q1, n2.
  - eapply rtc_l; [by eapply net_clone|]. eapply rtc_once. by eapply net_try.
  - intros Hne. rewrite H1, decide_False by done. destruct (is_ok r); by rewrite app_nil_r.
  - by rewrite H2.
Qed.

(** What a subscriber gets of a message with this first frame. *)
Definition served (n n' : net Message) (s : Subscriber) (first_frame : bytes) message : Prop :=
  if subscription_matches (subscriptions s) first_frame
  then given n n' (send_queue s) (MMessage message)
  else accepted n' (chan_of (send_queue s)) = accepted n (chan_of (send_queue s)).

Abbreviation chans l := ((fun t => chan_of (send_queue (snd t))) <$> l).

Lemma fanout_loop_others l n first_frame message c :
  (c ∉ chans l -> accepted (fanout_loop n l first_frame message) c = accepted n c)
  /\ (allocated (fanout_loop n l first_frame message) c <-> allocated n c).
Proof.
  revert n. induction l as [|[p s] l IH]; intros n; cbn [fanout_loop]; [done|].
  rewrite fmap_cons, not_elem_of_cons. cbn [snd].
  destruct (subscription_matches (subscriptions s) first_frame).
  - pose proof (send_clone_given n (send_queue s) message c) as Hs.
    destruct (clone_sender n (send_queue s)) as [n1 q1]. destruct Hs as (_ & _ & Hacc & Hall).
    destruct (IH (send_to_subscriber n1 q1 message)) as [IH1 IH2]. split.
    + intros [Hne Hn]. by rewrite IH1, Hacc.
    + by rewrite IH2.
  - destruct (IH n) as [IH1 IH2]. split; [|done]. intros [_ Hn]. by apply IH1.
Qed.

Lemma fanout_loop_served l n first_frame message :
  NoDup (chans l) ->
  Forall (fun t => served n (fanout_loop n l first_frame message) (snd t) first_frame message) l.
Proof.
  revert n. induction l as [|[p s] l IH]; intros n; cbn [fanout_loop]; [constructor|].
  rewrite fmap_cons, NoDup_cons. cbn [snd]. intros [Hn Hnd].
  set (n1 := if subscription_matches _ _ then _ else n).
  assert (served n n1 s first_frame message /\ rtc net_step n n1
          /\ forall c, c <> chan_of (send_queue s) -> accepted n1 c = accepted n c) as (Hs & Hsteps & Hother).
  { unfold served, n1. destruct (subscription_matches (subscriptions s) first_frame); [|done].
    split_and!; [| |intros c];
      match goal with |- context [?c <> chan_of _] => pose proof (send_clone_given n (send_queue s) message c) as Hs
                    | _ => pose proof (send_clone_given n (send_queue s) message 0%nat) as Hs end;
      destruct (clone_sender n (send_queue s)); by apply Hs. }
  constructor.
  - destruct (fanout_loop_others l n1 first_frame message (chan_of (send_queue s))) as [Ho _].
    specialize (Ho Hn). unfold served, given in *. cbn [snd]. by rewrite Ho.
  - specialize (IH n1 Hnd). rewrite Forall_forall in IH |- *. intros [q t] Ht. specialize (IH _ Ht).
    assert (chan_of (send_queue t) <> chan_of (send_queue s)) as Hne.
    { intros Heq. apply Hn. rewrite <- Heq. apply list_elem_of_fmap. by exists (q, t). }
    unfold served, given in *. cbn [snd] in *. rewrite !(Hother _ Hne) in IH.
    destruct (subscription_matches (subscriptions t) first_frame); [|done].
    destruct IH as [IH|[IH (n2 & n3 & q' & n4 & Hr & Hc)]]; [by left|right]. split; [done|].
    exists n2, n3, q', n4. split; [by etrans|done].
Qed.

Lemma fanout_loop_steps l n first_frame message : rtc net_step n (fanout_loop n l first_frame message).
Proof.
  revert n. induction l as [|[p s] l IH]; intros n; cbn [fanout_loop]; [done|].
  destruct (subscription_matches _ _); [|apply IH].
  pose proof (send_clone_given n (send_queue s) message 0%nat) as Hs.
  destruct (clone_sender n (send_queue s)) as [n1 q1]. destruct Hs as (_ & Hs & _). by etrans.
Qed.

Lemma pub_ok_chans b : pub_ok b -> NoDup (chans (map_to_list (subscribers b))).
Proof.
  intros (_ & _ & Hd). apply NoDup_fmap_2_strong; [|apply NoDup_map_to_list].
  intros [p s] [q t] Hp%elem_of_map_to_list Hq%elem_of_map_to_list Heq. cbn in Heq.
  destruct (decide (p = q)) as [->|Hne]; [congruence|]. by destruct (Hd _ _ _ _ Hp Hq Hne).
Qed.
End Pub.

(** ** Operations as steps *)

(** What can happen to a PUB backend; a round of a reader is one of its last two. Outside it
    the channels can be used and read, and others made. *)
Inductive pub_step {S} `{Runtime} (b : PubSocketBackend S) : PubSocketBackend S -> Prop :=
  | pub_fanout message : pub_step b (fanout_message message b)
  | pub_connected p io : pub_step b (pub_peer_connected p io b)
  | pub_shut : pub_step b (pub_shutdown b)
  | pub_monitored m : pub_step b (set_pub_monitor m b)
  | pub_outside sh :
      (forall c, allocated (messages (pub_shared b)) c -> allocated (messages sh) c) ->
      pub_step b (set_pub_shared sh b)
  | pub_received p m : pub_step b (message_received p m b)
  | pub_disconnected p : pub_step b (pub_peer_disconnected p b).

Section PubInvariant.
Context {S : Type} `{Runtime}.
Implicit Types (b : PubSocketBackend S).

Lemma fanout_frame message b :
  subscribers (fanout_message message b) = subscribers b
  /\ subscriber_count (fanout_message message b) = subscriber_count b
  /\ forall c, allocated (messages (pub_shared (fanout_message message b))) c
               <-> allocated (messages (pub_shared b)) c.
Proof.
  unfold fanout_message. destruct (ZmqMessage.get message 0); [|done]. split_and!; [done..|].
  intros c. apply fanout_loop_others.
Qed.

Lemma disconnected_frame p b :
  subscribers (pub_peer_disconnected p b) = delete p (subscribers b)
  /\ messages (pub_shared (pub_peer_disconnected p b)) = messages (pub_shared b)
  /\ subscriber_count (pub_peer_disconnected p b)
     = match subscribers b !! p with Some _ => fetch_add (subscriber_count b) (-1) | None => subscriber_count b end.
Proof.
  unfold pub_peer_disconnected. cbn [subscribers set_pub_shared]. destruct (subscribers b !! p) eqn:Hp.
  - split_and!; [done|by destruct (pub_monitor b)|done].
  - split_and!; [by rewrite delete_id|by destruct (pub_monitor b)|done].
Qed.

Lemma pub_step_ok b b' : pub_step b b' -> pub_ok b -> pub_ok b'.
Proof.
  intros Hs (Hc & Ha & Hd). destruct Hs as [message|p io| |m|sh Hsh|p m|p].
  - destruct (fanout_frame message b) as (H1 & H2 & H3). split_and!; rewrite ?H1, ?H2; [done| |done].
    intros p s Hp. apply H3. by eapply Ha.
  - unfold pub_peer_connected, into_parts.
    destruct (channel (messages (pub_shared b)) PUB_SEND_QUEUE_CAPACITY) as [n q] eqn:Hch.
    assert (forall c, ~ allocated (messages (pub_shared b)) (chan_of q)
                      /\ (allocated n c <-> allocated (messages (pub_shared b)) c \/ c = chan_of q)) as Hf.
    { intros c. by destruct (channel_fresh _ _ _ _ c Hch) as (? & ? & _). }
    split_and!; cbn.
    + rewrite map_size_insert. destruct (subscribers b !! p) as [s|] eqn:Hp; cbn; [done|].
      rewrite (fetch_add_mod _ 1 _ Hc). f_equal. lia.
    + intros k s. rewrite lookup_insert. case_decide; [|intros Hk; apply Hf; left; by eapply Ha].
      intros [= <-]. cbn. apply Hf. by right.
    + intros k k' s t. rewrite !lookup_insert. repeat case_decide; intros; simplify_eq; cbn; [| |by eapply Hd].
      * intros Heq. apply (Hf 0%nat). rewrite Heq. by eapply Ha.
      * intros Heq. apply (Hf 0%nat). rewrite <- Heq. by eapply Ha.
  - split_and!; cbn; [by rewrite map_size_empty| |]; intros *; by rewrite lookup_empty.
  - by split_and!.
  - split_and!; cbn; [done| |done]. intros p s Hp. apply Hsh. by eapply Ha.
  - unfold message_received. destruct (subscribers b !! p) as [s|] eqn:Hp; [|by split_and!]. split_and!; cbn.
    + by rewrite map_size_insert, Hp.
    + intros k t. rewrite lookup_insert. case_decide; [intros [= <-]; cbn; subst; by eapply Ha|by eapply Ha].
    + intros k k' t t'. rewrite !lookup_insert.
      repeat case_decide; intros; simplify_eq; cbn; by (eapply Hd || (subst; eapply Hd)).
  - destruct (disconnected_frame p b) as (H1 & H2 & H3). split_and!; rewrite ?H1, ?H2, ?H3.
    + rewrite map_size_delete. destruct (subscribers b !! p) as [s|] eqn:Hp; [|done].
      rewrite (fetch_add_mod _ (-1) _ Hc). f_equal.
      assert (size (subscribers b) <> 0%nat) by (intros Hz%map_size_empty_iff; by rewrite Hz in Hp). lia.
    + intros k s [_ Hk]%lookup_delete_Some. by eapply Ha.
    + intros k k' s t [_ Hk]%lookup_delete_Some [_ Hk']%lookup_delete_Some. by eapply Hd.
Qed.

Lemma pub_reachable_ok options (sh : Shared S) b :
  rtc pub_step (pub_with_options options sh) b -> pub_ok b.
Proof.
  intros Hr. assert (pub_ok (pub_with_options options sh)) as H0.
  { split_and!; cbn; [by rewrite map_size_empty| |]; intros *; by rewrite lookup_empty. }
  revert H0. induction Hr as [|x y z Hs _ IH]; [done|]. intros Hx. by eapply IH, pub_step_ok.
Qed.
Lemma fanout_served message first_frame b p s :
  pub_ok b -> ZmqMessage.get message 0 = Some first_frame -> subscribers b !! p = Some s ->
  served (messages (pub_shared b)) (messages (pub_shared (fanout_message message b))) s first_frame message.
Proof.
  intros Hok Hm Hp. unfold fanout_message. rewrite Hm. cbn.
  pose proof (fanout_loop_served _ (messages (pub_shared b)) first_frame message (pub_ok_chans _ Hok)) as Hf.
  rewrite Forall_forall in Hf. apply (Hf (p, s)). by apply elem_of_map_to_list.
Qed.
End PubInvariant.

(** C24 The fan-out of PUB, in every state its operations reach: each subscriber with a
    subscription that is a prefix of the first frame is given the message exactly once, on a
    channel that is its own, unless that channel has no receiver at its turn, when the message
    is dropped; nobody else gets anything; and the subscribers stay as they were, those whose
    channel is closed too. A full queue does not drop the message: the fan-out sends it through a
    new clone of the sender, for which there is always room ([pub_slow_subscriber]). *)
Theorem pub_fanout_delivers {S} `{Runtime} (options : SocketOptions) (sh : Shared S)
    (b : PubSocketBackend S) (message : ZmqMessage.t) (first_frame : bytes) :
  rtc pub_step (pub_with_options options sh) b -> ZmqMessage.get message 0 = Some first_frame ->
  let b' := fanout_message message b in
  subscribers b' = subscribers b
  /\ (forall p s, subscribers b !! p = Some s ->
        served (messages (pub_shared b)) (messages (pub_shared b')) s first_frame message)
  /\ (forall c, (forall p s, subscribers b !! p = Some s -> chan_of (send_queue s) <> c) ->
        accepted (messages (pub_shared b')) c = accepted (messages (pub_shared b)) c).
Proof.
  intros Hok%pub_reachable_ok Hm. split_and!; [apply fanout_frame|by intros p s; apply fanout_served|].
  intros c Hc. unfold fanout_message. rewrite Hm. cbn. apply fanout_loop_others.
  intros ([p s] & -> & Hp%elem_of_map_to_list)%list_elem_of_fmap. by apply (Hc p s).
Qed.

(** ** The socket *)

(** [PubSocket], with the task of its fan-out queue. *)
Record PubSocket (S : Type) `{Runtime} : Type := mkPubSocket {
  socket_backend : PubSocketBackend S;
  fanout_queue : fanout;
}.
Arguments mkPubSocket {S _} _ _.
Arguments socket_backend {S _} _.
Arguments fanout_queue {S _} _.

Section PubSocket.
Context {S : Type} `{Runtime}.
Implicit Types (s : PubSocket S).

Definition pub_send message s : PubSocket S * result unit ZmqError :=
  match ZmqMessage.get message 0 with
  | None => (s, Ok tt)
  | Some _ =>
      if subscriber_count (socket_backend s) =? 0 then (s, Ok tt)
      else (mkPubSocket (socket_backend s) (publish PUB_SEND_QUEUE_CAPACITY message (fanout_queue s)), Ok tt)
  end.

(** A step of the task: what it pops is fanned out. *)
Definition pub_work_step s : option (PubSocket S) :=
  match worker_step false (fanout_queue s) with
  | Some q =>
      Some (mkPubSocket
              (match worker (fanout_queue s), fifo (fanout_queue s) with
               | Draining, message :: _ => fanout_message message (socket_backend s)
               | _, _ => socket_backend s
               end) q)
  | None => None
  end.

Fixpoint pub_work (fuel : nat) s : PubSocket S :=
  match fuel with
  | O => s
  | Datatypes.S fuel => match pub_work_step s with Some s => pub_work fuel s | None => s end
  end.

Lemma pub_work_queue fuel s : fanout_queue (pub_work fuel s) = work fuel (fanout_queue s).
Proof.
  revert s. induction fuel as [|fuel IH]; intros s; cbn; [done|]. unfold pub_work_step.
  destruct (worker_step false (fanout_queue s)) as [q|] eqn:Hw; [|done]. by rewrite IH.
Qed.

Lemma worker_step_pops q q' :
  store_buffer q = None -> worker_step false q = Some q' ->
  store_buffer q' = None
  /\ fanned_out q' = fanned_out q ++ match worker q, fifo q with Draining, m :: _ => [m] | _, _ => [] end.
Proof.
  unfold worker_step, Fanout.store. intros Hb. rewrite Hb.
  destruct (worker q), (fifo q) eqn:Hf, (wakes q) eqn:Hw; intros; simplify_eq; cbn; by rewrite ?app_nil_r.
Qed.

Lemma pub_work_fans_out fuel s :
  store_buffer (fanout_queue s) = None ->
  exists l, fanned_out (fanout_queue (pub_work fuel s)) = fanned_out (fanout_queue s) ++ l
    /\ socket_backend (pub_work fuel s) = fold_left (fun b m => fanout_message m b) l (socket_backend s).
Proof.
  revert s. induction fuel as [|fuel IH]; intros s Hb; cbn [pub_work]; [exists []; by rewrite app_nil_r|].
  destruct (pub_work_step s) as [s'|] eqn:Hs; [|exists []; by rewrite app_nil_r].
  unfold pub_work_step in Hs. destruct (worker_step false (fanout_queue s)) as [q|] eqn:Hw; [|done].
  destruct (worker_step_pops _ _ Hb Hw) as [Hb' Hf]. injection Hs as <-.
  set (b1 := match worker _ with Draining => _ | _ => _ end).
  set (popped := match worker (fanout_queue s) with Draining => _ | _ => _ end) in Hf.
  destruct (IH (mkPubSocket b1 q) Hb') as (l & Hl1 & Hl2). exists (popped ++ l).
  rewrite Hl1, Hl2. cbn [fanout_queue socket_backend]. rewrite Hf, app_assoc. split; [done|].
  rewrite fold_left_app. f_equal. unfold b1, popped.
  by destruct (worker (fanout_queue s)), (fifo (fanout_queue s)).
Qed.
End PubSocket.

(** From [send] to the subscribers: whatever was sent before, once [send] has returned the
    task, run alone (and with sequentially consistent memory), fans out exactly the messages
    that wait in the queue, in the order they were sent, and then has nothing left to do.
    The message is among them if the queue has room, the socket has subscribers and the
    message a frame; otherwise it is dropped, and [send] succeeds all the same. *)
Theorem pub_send_fans_out {S} `{Runtime} (message : ZmqMessage.t) (s : PubSocket S) :
  rtc (step PUB_SEND_QUEUE_CAPACITY false) new_fanout (fanout_queue s) ->
  publisher (fanout_queue s) = Idle ->
  let '(s1, r) := pub_send message s in
  let s2 := pub_work (steps_left (fanout_queue s1)) s1 in
  let sent := negb (ZmqMessage.is_empty message) && negb (subscriber_count (socket_backend s) =? 0)
              && (len (fifo (fanout_queue s)) <? PUB_SEND_QUEUE_CAPACITY) in
  r = Ok tt
  /\ socket_backend s2
     = fold_left (fun b m => fanout_message m b)
         (fifo (fanout_queue s) ++ if sent then [message] else []) (socket_backend s)
  /\ fifo (fanout_queue s2) = [] /\ worker (fanout_queue s2) = Waiting.
Proof.
  intros Hr Hi. destruct (pub_send message s) as [s1 r] eqn:Hs. cbv zeta.
  set (sent := _ && _).
  assert (r = Ok tt /\ socket_backend s1 = socket_backend s
    /\ fanout_queue s1 = (if negb (ZmqMessage.is_empty message) && negb (subscriber_count (socket_backend s) =? 0)
                          then publish PUB_SEND_QUEUE_CAPACITY message (fanout_queue s) else fanout_queue s))
    as (Hok & Hb1 & Hq1).
  { unfold pub_send in Hs. destruct message as [[|f fs]]; cbn in Hs |- *; [by simplify_eq|].
    destruct (subscriber_count (socket_backend s) =? 0); by simplify_eq. }
  assert (publisher (fanout_queue s1) = Idle
    /\ fifo (fanout_queue s1) = fifo (fanout_queue s) ++ (if sent then [message] else [])
    /\ rtc (step PUB_SEND_QUEUE_CAPACITY false) new_fanout (fanout_queue s1)) as (Hi1 & Hf1 & Hr1).
  { rewrite Hq1. subst sent. destruct (negb _ && negb _); cbn [andb]; [|by rewrite app_nil_r].
    split_and!; [| |by etrans; [|apply publish_steps]]; unfold publish, push;
      destruct (Z.ltb_spec (len (fifo (fanout_queue s))) PUB_SEND_QUEUE_CAPACITY) as [Hlt|Hge];
      [rewrite bool_decide_eq_true_2 by done|rewrite bool_decide_eq_false_2 by lia|
       rewrite bool_decide_eq_true_2 by done|rewrite bool_decide_eq_false_2 by lia];
      unfold publish_step; rewrite ?Hi; cbn; rewrite ?Hi; cbn; try done; rewrite ?app_nil_r; try done;
      destruct (wake_pending (fanout_queue s)); done. }
  destruct (reachable_live _ _ Hr1) as (Hb & _).
  destruct (pub_work_fans_out (steps_left (fanout_queue s1)) s1 Hb) as (l & Hl1 & Hl2).
  rewrite pub_work_queue in Hl1 |- *.
  destruct (work_delivers PUB_SEND_QUEUE_CAPACITY (fanout_queue s1) ltac:(done) Hr1 Hi1) as (Hw & Hf & Ho).
  split_and!; [done| |done..]. rewrite Hl2, Hb1, <- Hf1. f_equal.
  destruct (reachable_conserved PUB_SEND_QUEUE_CAPACITY false _ ltac:(done) Hr1) as [He _]. rewrite Ho, He in Hl1. by apply app_inv_head in Hl1.
Qed.

(** ** A stalled subscriber *)

Module Example.
#[local] Existing Instance Runtime_exec.

Definition io : FramedIo (list item) := mkIo [] 0%nat.

(** One subscriber, subscribed to everything, whose writer does not read its queue. *)
Definition stalled : PubSocketBackend (list item) :=
  message_received (bs "sub") (MMessage (create_subs_message [] Subscribe))
    (pub_peer_connected (bs "sub") io (pub_with_options default_options new_process)).

Definition news : ZmqMessage.t := ZmqMessage.from_bytes (bs "news").

Definition socket : PubSocket (list item) := mkPubSocket stalled new_fanout.

(** The channels of the process, and what the channel of the subscriber has taken. *)
Definition channels (b : PubSocketBackend (list item)) : Bounded.state Message := messages (pub_shared b).
Definition taken (b : PubSocketBackend (list item)) : list Message := accepted (messages (pub_shared b)) 0%nat.

(** Fanning out several messages. *)
Definition fan_out (ms : list ZmqMessage.t) (b : PubSocketBackend (list item)) : PubSocketBackend (list item) :=
  fold_left (fun b m => fanout_message m b) ms b.

Lemma stalled_reachable : rtc pub_step (pub_with_options default_options new_process) stalled.
Proof. eapply rtc_l; [apply pub_connected|]. eapply rtc_l; [apply pub_received|]. apply rtc_refl. Qed.
End Example.

(** What the messages do to the channel of the stalled subscriber: it takes them all. *)
Definition holds (n : Bounded.state Message) (l : list Message) : Prop :=
  exists parked handles, n = Bounded.mkState [Bounded.mkChan PUB_SEND_QUEUE_CAPACITY l 0 parked false] handles.

Lemma holds_send n l message (q : nat * nat) :
  fst q = 0%nat -> holds n l ->
  let '(n1, q1) := clone_sender (Channels := @rt_messages Runtime_exec) n q in
  holds (send_to_subscriber (H := Runtime_exec) n1 q1 message) (l ++ [MMessage message]).
Proof.
  destruct q as [c h0]. cbn [fst]. intros -> (pk & h & ->). cbn.
  unfold send_to_subscriber. cbn. unfold Bounded.try. cbn.
  assert (h ∉ filter (.≠ h) pk) as Hn by (by intros [? _]%list_elem_of_filter).
  rewrite (bool_decide_eq_false_2 _ Hn). by eexists _, _.
Qed.

(** A slow subscriber's queue has no bound: every message fanned out to a subscriber that
    does not read is kept, however many there are and whatever the capacity of its queue,
    since each is sent through a new clone of the sender, which has a slot of its own. *)
Theorem pub_slow_subscriber (ms : list ZmqMessage.t) :
  Forall (fun m => ZmqMessage.is_empty m = false) ms ->
  Example.taken (Example.fan_out ms Example.stalled) = MMessage <$> ms.
Proof.
  intros Hms. unfold Example.fan_out.
  assert (forall b l, map_to_list (subscribers b) = map_to_list (subscribers Example.stalled) ->
    holds (Example.channels b) l ->
    holds (Example.channels (fold_left (fun b m => fanout_message m b) ms b)) (l ++ (MMessage <$> ms)))
    as Hall.
  { assert (exists q, map_to_list (subscribers Example.stalled) = [(bs "sub", mkSubscriber (H := Runtime_exec) [[]] q 0%nat)]
              /\ fst q = 0%nat) as (q & Hq & Hq0) by (eexists (0, 0)%nat; split; [by vm_compute|done]).
    induction Hms as [|m ms Hm _ IH]; intros b l Hs Hl; cbn [fold_left]; [by rewrite app_nil_r|].
    rewrite fmap_cons. change (?x :: ?y) with ([x] ++ y). rewrite app_assoc. apply IH.
    - exact (eq_trans (f_equal map_to_list (proj1 (fanout_frame m b))) Hs).
    - destruct m as [[|f fs]]; [discriminate Hm|]. unfold fanout_message.
      cbn [ZmqMessage.get ZmqMessage.frames lookup list_lookup].
      unfold Example.channels. cbn [pub_shared set_pub_shared messages set_messages].
      rewrite Hs, Hq. cbn [fanout_loop subscriptions send_queue].
      rewrite (proj2 (subscription_matches_spec [[]] f)).
      { pose proof (holds_send _ _ (ZmqMessage.mk (f :: fs)) q Hq0 Hl) as Hh.
        unfold Example.channels in Hh. destruct (clone_sender _ q). exact Hh. }
      exists []. split; [by left|]. apply prefix_nil. }
  destruct (Hall Example.stalled [] eq_refl) as (pk & h & Hn); [by eexists _, _|].
  unfold Example.taken. change (messages (pub_shared ?b)) with (Example.channels b). by rewrite Hn.
Qed.

Lemma pub_slow_subscriber_witness :
  length (Example.taken (Example.fan_out (replicate 3 Example.news) Example.stalled)) = 3%nat.
Proof. rewrite (pub_slow_subscriber (replicate 3 Example.news)); [done|by repeat constructor]. Defined.

Lemma pub_fanout_delivers_witness :
  exists s, served (H := Runtime_exec) (messages (pub_shared Example.stalled))
    (messages (pub_shared (fanout_message Example.news Example.stalled))) s (bs "news") Example.news.
Proof.
  destruct (pub_fanout_delivers (H := Runtime_exec) default_options new_process Example.stalled
    Example.news (bs "news") Example.stalled_reachable eq_refl) as (_ & Hs & _).
  assert (is_Some (subscribers Example.stalled !! bs "sub")) as [s Hp] by (apply (bool_decide_unpack _); by vm_compute).
  exists s. by apply (Hs (bs "sub")).
Defined.

Lemma pub_send_fans_out_witness :
  let s1 := fst (pub_send (H := Runtime_exec) Example.news Example.socket) in
  fifo (fanout_queue (pub_work (H := Runtime_exec) (steps_left (fanout_queue s1)) s1)) = [].
Proof.
  pose proof (pub_send_fans_out (H := Runtime_exec) Example.news Example.socket (rtc_refl _ _) eq_refl) as Hf.
  cbv zeta. destruct (pub_send Example.news Example.socket) as [s1 r]. apply Hf.
Defined.

(** ** A reader that outlives its subscriber *)

(** A peer that reconnects under its identity replaces its subscriber, and so fires the stop
    channel of the old reader. When the old connection has ended too, the reader's [select!]
    may pick that first, and then disconnects the new subscriber. *)
Theorem pub_stale_reader {S} `{Runtime, !Stream S item} (b : PubSocketBackend S) (p : PeerIdentity)
    (io : FramedIo S) (old old' : S) (stop : nat) (wk : bool) :
  poll_stream old = (old', Ready None, wk) ->
  let b2 := pub_peer_connected p io b in
  is_Some (subscribers b2 !! p)
  /\ subscribers (fst (fst (subscription_round false p old stop b2))) !! p = None.
Proof.
  intros Hp b2. assert (is_Some (subscribers b2 !! p)) as Hs.
  { unfold b2, pub_peer_connected, into_parts. destruct (channel _ _) as [n q]. cbn.
    rewrite lookup_insert_eq. by eexists. }
  split; [done|]. unfold subscription_round. rewrite Hp, bool_decide_eq_false_2 by done.
  rewrite andb_false_r. cbn [fst]. rewrite (proj1 (disconnected_frame p b2)). apply lookup_delete_eq.
Qed.
