(* ===== verification/XPub.v ===== *)
(** XPUB sockets (src/src/xpub.rs): like PUB, a message goes to the subscribers that match,
    but [send] writes it to their connections itself; and the messages of the subscribers are
    received through the fair queue, update the subscriptions, and are answered to the user. *)

From S2P Require Import Prelude Message Endpoint Errors SocketTypes Greeting Command Codec.
From S2P Require Import FairQueue Channels Runtime Receive Subscriptions.

Local Open Scope Z_scope.

Record XPubSubscriber `{Runtime} : Type := mkXSubscriber { xsubscriptions : list bytes; xsend_queue : writer }.
Arguments mkXSubscriber {_} _ _.
Arguments xsubscriptions {_} _.
Arguments xsend_queue {_} _.

Record XPubSocketBackend (S : Type) `{Runtime} : Type := mkXPub {
  xsubscribers : gmap PeerIdentity XPubSubscriber;
  xpub_queue : QueueInner S PeerIdentity;
  xpub_monitor : option (sender SocketEvent);
  xpub_options : SocketOptions;
  xpub_shared : Shared S;
}.
Arguments mkXPub {S _} _ _ _ _ _.
Arguments xsubscribers {S _} _.
Arguments xpub_queue {S _} _.
Arguments xpub_monitor {S _} _.
Arguments xpub_options {S _} _.
Arguments xpub_shared {S _} _.

Section XPub.
Context {S : Type} `{Runtime}.
Abbreviation backend := (XPubSocketBackend S).
Implicit Types (b : backend) (message : ZmqMessage.t).

Definition xpub_with_options (options : SocketOptions) (sh : Shared S) : backend :=
  mkXPub ∅ (set_on_disconnect new_queue) None options sh.

Definition set_xsubscribers (m : gmap PeerIdentity XPubSubscriber) b : backend :=
  mkXPub m (xpub_queue b) (xpub_monitor b) (xpub_options b) (xpub_shared b).

Definition set_xpub_queue (q : QueueInner S PeerIdentity) b : backend :=
  mkXPub (xsubscribers b) q (xpub_monitor b) (xpub_options b) (xpub_shared b).

Definition set_xpub_monitor (m : option (sender SocketEvent)) b : backend :=
  mkXPub (xsubscribers b) (xpub_queue b) m (xpub_options b) (xpub_shared b).

Definition set_xpub_shared (sh : Shared S) b : backend :=
  mkXPub (xsubscribers b) (xpub_queue b) (xpub_monitor b) (xpub_options b) sh.

Definition xpub_message_received (peer_id : PeerIdentity) (m : Message) b : backend :=
  match xsubscribers b !! peer_id with
  | Some s => set_xsubscribers
                (<[peer_id := mkXSubscriber (update_subscriptions m (xsubscriptions s)) (xsend_queue s)]>
                   (xsubscribers b)) b
  | None => b
  end.

Definition xpub_shutdown b : backend := set_xsubscribers ∅ b.

Definition xpub_drop b : backend := xpub_shutdown b.

Definition xpub_peer_connected (peer_id : PeerIdentity) (io : FramedIo S) b : backend :=
  let '(recv_queue, send_queue) := into_parts io in
  let b := set_xsubscribers (<[peer_id := mkXSubscriber [] send_queue]> (xsubscribers b)) b in
  set_xpub_queue (insert peer_id recv_queue (xpub_queue b)) b.

Definition xpub_peer_disconnected (peer_id : PeerIdentity) b : backend :=
  let b := set_xsubscribers (delete peer_id (xsubscribers b)) b in
  set_xpub_queue (remove peer_id (xpub_queue b)) b.

(** The subscribers that match, in the order of the map; XPUB compares every subscription. *)
Definition xpub_targets (first_frame : bytes) b : list (PeerIdentity * writer) :=
  omap (fun '(peer_id, s) =>
          if existsb (filter_matches first_frame) (xsubscriptions s)
          then Some (peer_id, xsend_queue s) else None) (map_to_list (xsubscribers b)).

Definition xpub_send message b : backend * result unit ZmqError :=
  match ZmqMessage.get message 0 with
  | None => (b, Ok tt)
  | Some first_frame =>
      let '(o, r) := write_targets (outputs (xpub_shared b)) (xpub_targets first_frame b) (MMessage message) in
      let b := set_xpub_shared (set_outputs o (xpub_shared b)) b in
      match r with
      | Ok dead_peers => (fold_left (fun b peer => xpub_peer_disconnected peer b) dead_peers b, Ok tt)
      | Err e => (b, Err (Codec e))
      end
  end.

Definition xpub_handle (peer_id : PeerIdentity) (x : item) b :
    backend * option (result ZmqMessage.t ZmqError) :=
  match x with
  | Ok (MMessage message) => (xpub_message_received peer_id (MMessage message) b, Some (Ok message))
  | Ok _ => (b, None)
  | Err e => (xpub_peer_disconnected peer_id b, Some (Err (Codec e)))
  end.

#[export] Program Instance xpub_has_queue : HasQueue backend S PeerIdentity :=
  {| queue := xpub_queue; set_queue := set_xpub_queue |}.
Next Obligation. done. Qed.

#[export] Program Instance xpub_on_disconnect : OnDisconnect backend S PeerIdentity :=
  {| callback := xpub_peer_disconnected |}.
Next Obligation. intros p b. by right. Qed.

Definition xpub_receiver : Receiver backend S ZmqMessage.t.
Proof.
  refine {| handle := xpub_handle |}; [|done]. intros p [[g|c|m]|e] b; [by left..| |right; by exists e].
  left. cbn. unfold xpub_message_received. by destruct (xsubscribers b !! p).
Defined.

Definition xpub_recv `{!Stream S item, !FiniteStream S} (cx : task) b :
    backend * poll (result ZmqMessage.t ZmqError) :=
  recv_poll (Receiver0 := xpub_receiver) cx b.

#[export] Instance xpub_backend : MultiPeerBackend backend S := {|
  backend_socket_type := fun _ => XPUB;
  backend_socket_options := xpub_options;
  backend_monitor := xpub_monitor;
  backend_shared := xpub_shared;
  set_backend_shared := set_xpub_shared;
  peer_connected := xpub_peer_connected;
  peer_disconnected := xpub_peer_disconnected;
  shutdown := xpub_shutdown;
|}.

(** ** Sending *)

(** XPUB's comparison is the one of PUB. *)
Lemma xpub_matches l first_frame :
  existsb (filter_matches first_frame) l = subscription_matches l first_frame.
Proof.
  apply eq_true_iff_eq. rewrite subscription_matches_spec, existsb_exists.
  setoid_rewrite filter_matches_iff. by setoid_rewrite list_elem_of_In.
Qed.

Lemma elem_of_targets first_frame b p out :
  (p, out) ∈ xpub_targets first_frame b
  <-> exists s, xsubscribers b !! p = Some s /\ xsend_queue s = out
        /\ subscription_matches (xsubscriptions s) first_frame = true.
Proof.
  unfold xpub_targets. rewrite list_elem_of_omap. split.
  - intros ([q s] & Hq%elem_of_map_to_list & Hif). rewrite xpub_matches in Hif.
    destruct (subscription_matches _ _) eqn:Hm; [|done]. injection Hif as <- <-. by exists s.
  - intros (s & Hp & <- & Hm). exists (p, s). split; [by apply elem_of_map_to_list|].
    by rewrite xpub_matches, Hm.
Qed.

(** Every connection has a sink of its own. *)
Definition separate b : Prop :=
  forall p q s t, xsubscribers b !! p = Some s -> xsubscribers b !! q = Some t ->
    xsend_queue s = xsend_queue t -> p = q.

Lemma targets_nodup first_frame b : separate b -> NoDup (snd <$> xpub_targets first_frame b).
Proof.
  intros Hsep. unfold xpub_targets.
  assert (forall l, NoDup l.*1 -> (forall p s, (p, s) ∈ l -> xsubscribers b !! p = Some s) ->
    NoDup (snd <$> omap (fun '(peer_id, s) =>
          if existsb (filter_matches first_frame) (xsubscriptions s)
          then Some (peer_id, xsend_queue s) else None) l)) as Hl.
  { induction l as [|[p s] l IH]; [constructor|]. rewrite fmap_cons, NoDup_cons. intros [Hn Hnd] Hin. cbn.
    assert (NoDup (snd <$> omap (fun '(peer_id, s) =>
          if existsb (filter_matches first_frame) (xsubscriptions s)
          then Some (peer_id, xsend_queue s) else None) l)) as Hrec.
    { apply IH; [done|]. intros q t Hq. apply Hin. by right. }
    destruct (existsb _ _); [|exact Hrec]. rewrite fmap_cons, NoDup_cons. split; [|exact Hrec].
    cbn. intros ([q out] & Heq & Hq)%list_elem_of_fmap. cbn in Heq. subst out.
    apply list_elem_of_omap in Hq as ([q' t] & Ht & Hif).
    destruct (existsb _ _); [|done]. injection Hif as -> Heq.
    assert (p = q) as ->; [|apply Hn, list_elem_of_fmap; by exists (q, t)].
    eapply Hsep; [apply Hin; by left|apply Hin; by right|done]. }
  apply Hl; [apply NoDup_fst_map_to_list|]. intros p s. by rewrite elem_of_map_to_list.
Qed.

Lemma targets_keys first_frame b : NoDup (fst <$> xpub_targets first_frame b).
Proof.
  unfold xpub_targets. eapply sublist_NoDup; [apply (NoDup_fst_map_to_list (xsubscribers b))|].
  induction (map_to_list (xsubscribers b)) as [|[p s] l IH]; [done|]. cbn.
  destruct (existsb _ _); cbn; [by apply sublist_skip|by apply sublist_cons].
Qed.

Lemma disconnect_all dead b :
  let b' := fold_left (fun b peer => xpub_peer_disconnected peer b) dead b in
  xpub_shared b' = xpub_shared b
  /\ forall p, xsubscribers b' !! p = if decide (p ∈ dead) then None else xsubscribers b !! p.
Proof.
  revert b. induction dead as [|d dead IH]; intros b; cbn [fold_left]; [done|].
  destruct (IH (xpub_peer_disconnected d b)) as [H1 H2]. split; [by rewrite H1|].
  intros p. rewrite H2. cbn. destruct (decide (p = d)) as [->|Hne].
  - rewrite (decide_True (P := d ∈ d :: dead)) by by left. rewrite lookup_delete_eq. by destruct (decide _).
  - rewrite lookup_delete_ne by done. destruct (decide (p ∈ dead)).
    + rewrite decide_True; [done|by right].
    + rewrite decide_False; [done|]. by rewrite not_elem_of_cons.
Qed.
End XPub.


(** ** Four subscribers *)

Module Example.
#[local] Existing Instance Runtime_exec.

Definition topic (t : string) : Message := MMessage (create_subs_message (bs t) Subscribe).

(** The pipe of the third connection is broken, the fourth fails otherwise. *)
Definition failing : Shared (list item) :=
  set_outputs (Recording.mkState ∅ {[2 := BrokenPipe; 3 := WouldBlock]}%nat []) new_process.

Definition joins (p : string) (out : nat) (t : string) (b : XPubSocketBackend (list item)) :
    XPubSocketBackend (list item) :=
  xpub_message_received (bs p) (topic t) (xpub_peer_connected (bs p) (mkIo [] out) b).

Definition subscribed (t : string) (out : nat) : XPubSubscriber := mkXSubscriber [bs t] out.

(** [b] is subscribed to [y], the others to [x]. *)
Definition four : XPubSocketBackend (list item) :=
  joins "d" 3 "x" (joins "c" 2 "x" (joins "b" 1 "y" (joins "a" 0 "x"
    (xpub_with_options default_options failing)))).

Definition message : ZmqMessage.t := ZmqMessage.from_bytes (bs "x marks").

Definition sent : XPubSocketBackend (list item) * result unit ZmqError := xpub_send message four.

Definition wrote (w : nat) : list Message := written (outputs (xpub_shared (fst sent))) w.

Definition places : list (PeerIdentity * nat) := [(bs "a", 0); (bs "b", 1); (bs "c", 2); (bs "d", 3)]%nat.

Lemma four_lookup p s : xsubscribers four !! p = Some s -> (p, xsend_queue s) ∈ places.
Proof.
  revert p s. change (map_Forall (fun p s => (p, xsend_queue s) ∈ places) (xsubscribers four)).
  apply (bool_decide_unpack _). by vm_compute.
Qed.

Lemma four_separate : separate four.
Proof.
  intros p q s t Hs%four_lookup Ht%four_lookup Heq. rewrite Heq in Hs. revert Hs Ht.
  unfold places. rewrite !elem_of_cons, !elem_of_nil.
  intros [Hs|[Hs|[Hs|[Hs|[]]]]] [Ht|[Ht|[Ht|[Ht|[]]]]]; injection Hs as -> Hs; injection Ht as -> Ht; congruence.
Qed.
End Example.

