(* ===== verification/SubBackend.v ===== *)
(** SUB and XSUB sockets (src/src/sub_backend.rs, src/src/sub.rs, src/src/xsub.rs): a set of
    subscriptions, which a new connection is told before it becomes a peer, and which every
    peer is told of when it changes. *)

From S2P Require Import Prelude Message Endpoint Errors SocketTypes Greeting Command Codec.
From S2P Require Import FairQueue Channels Runtime Receive Subscriptions.

Local Open Scope Z_scope.

(** [SubSocketBackend]; the fair queue is there in both sockets. *)
Record SubSocketBackend (S : Type) `{Runtime} : Type := mkSub {
  sub_peers : gmap PeerIdentity writer;
  sub_queue : QueueInner S PeerIdentity;
  sub_type : SocketType;
  sub_options : SocketOptions;
  sub_monitor : option (sender SocketEvent);
  subs : gset bytes;
  sub_notifiers : gmap PeerIdentity (sender PeerIdentity);
  sub_shared : Shared S;
}.
Arguments mkSub {S _} _ _ _ _ _ _ _ _.
Arguments sub_peers {S _} _.
Arguments sub_queue {S _} _.
Arguments sub_type {S _} _.
Arguments sub_options {S _} _.
Arguments sub_monitor {S _} _.
Arguments subs {S _} _.
Arguments sub_notifiers {S _} _.
Arguments sub_shared {S _} _.

Section Sub.
Context {S : Type} `{Runtime}.
Abbreviation backend := (SubSocketBackend S).
Implicit Types (b : backend) (message : ZmqMessage.t) (t : SubscriptionMessageType).

Definition sub_with_options (socket_type : SocketType) (options : SocketOptions) (sh : Shared S) : backend :=
  mkSub ∅ (set_on_disconnect new_queue) socket_type options None ∅ ∅ sh.

(** [SubSocket::with_options] and [XSubSocket::with_options]. *)
Definition sub_socket : SocketOptions -> Shared S -> backend := sub_with_options SUB.
Definition xsub_socket : SocketOptions -> Shared S -> backend := sub_with_options XSUB.

Definition set_sub_peers (m : gmap PeerIdentity writer) b : backend :=
  mkSub m (sub_queue b) (sub_type b) (sub_options b) (sub_monitor b) (subs b) (sub_notifiers b) (sub_shared b).

Definition set_sub_queue (q : QueueInner S PeerIdentity) b : backend :=
  mkSub (sub_peers b) q (sub_type b) (sub_options b) (sub_monitor b) (subs b) (sub_notifiers b) (sub_shared b).

Definition set_sub_monitor (m : option (sender SocketEvent)) b : backend :=
  mkSub (sub_peers b) (sub_queue b) (sub_type b) (sub_options b) m (subs b) (sub_notifiers b) (sub_shared b).

Definition set_subs (s : gset bytes) b : backend :=
  mkSub (sub_peers b) (sub_queue b) (sub_type b) (sub_options b) (sub_monitor b) s (sub_notifiers b) (sub_shared b).

Definition set_sub_notifiers (n : gmap PeerIdentity (sender PeerIdentity)) b : backend :=
  mkSub (sub_peers b) (sub_queue b) (sub_type b) (sub_options b) (sub_monitor b) (subs b) n (sub_shared b).

Definition set_sub_shared (sh : Shared S) b : backend :=
  mkSub (sub_peers b) (sub_queue b) (sub_type b) (sub_options b) (sub_monitor b) (subs b) (sub_notifiers b) sh.

Definition set_sub_outputs (o : sinks) b : backend := set_sub_shared (set_outputs o (sub_shared b)) b.

Definition remember_subscription (subscription : bytes) b : backend := set_subs ({[subscription]} ∪ subs b) b.
Definition forget_subscription (subscription : bytes) b : backend := set_subs (subs b ∖ {[subscription]}) b.

Definition apply_subscription_message message b : backend * bool :=
  match ZmqMessage.get message 0 with
  | None => (b, false)
  | Some frame =>
      if negb (ZmqMessage.len message =? 1) || bool_decide (frame = []) then (b, false)
      else
        match frame with
        | x :: subscription =>
            if bool_decide (x = Byte.x01) then (remember_subscription subscription b, true)
            else if bool_decide (x = Byte.x00) then (forget_subscription subscription b, true)
            else (b, false)
        | [] => (b, false)
        end
  end.

Definition sub_register_disconnect_notifier (peer_id : PeerIdentity) (notifier : sender PeerIdentity) b : backend :=
  set_sub_notifiers (<[peer_id := notifier]> (sub_notifiers b)) b.

(** [MultiPeerBackend::peer_disconnected]. *)
Definition sub_peer_disconnected (peer_id : PeerIdentity) b : backend :=
  let b := set_sub_shared (emit (sub_monitor b) (Disconnected peer_id) (sub_shared b)) b in
  let b := set_sub_peers (delete peer_id (sub_peers b)) b in
  let b := set_sub_queue (remove peer_id (sub_queue b)) b in
  let notifier := sub_notifiers b !! peer_id in
  let b := set_sub_notifiers (delete peer_id (sub_notifiers b)) b in
  set_sub_shared (notify notifier peer_id (sub_shared b)) b.

Definition disconnect_peers (dead_peers : list PeerIdentity) b : backend :=
  fold_left (fun b peer_id => sub_peer_disconnected peer_id b) dead_peers b.

(** [broadcast_control_message], and the two operations that call it. *)
Definition broadcast_control_message message b : backend * result unit ZmqError :=
  let '(o, dead_peers, first_error) :=
    write_control (outputs (sub_shared b)) (map_to_list (sub_peers b)) (MMessage message) in
  (disconnect_peers dead_peers (set_sub_outputs o b),
   match first_error with None => Ok tt | Some e => Err (Codec e) end).

Definition broadcast_message_reliably message b : backend * result unit ZmqError :=
  broadcast_control_message message b.

Definition broadcast_subscription (subscription : bytes) t b : backend * result unit ZmqError :=
  broadcast_message_reliably (create_subs_message subscription t) b.

Definition sub_fanout_message message b : backend * result unit ZmqError :=
  if ZmqMessage.is_empty message then (b, Ok tt)
  else
    let '(o, r) := write_targets (outputs (sub_shared b)) (map_to_list (sub_peers b)) (MMessage message) in
    match r with
    | Ok dead_peers => (disconnect_peers dead_peers (set_sub_outputs o b), Ok tt)
    | Err e => (set_sub_outputs o b, Err (Codec e))
    end.

Definition subscription_messages b : list ZmqMessage.t :=
  (fun subscription => create_subs_message subscription Subscribe) <$> elements (subs b).

(** The steps of [peer_connected]: the subscriptions are read; told to the new connection, up
    to the first failure; and the peer is added. Other operations can run in between. *)
Fixpoint resend (o : sinks) (out : writer) (l : list ZmqMessage.t) : sinks * bool :=
  match l with
  | [] => (o, true)
  | message :: l =>
      match sink_send o out (MMessage message) with
      | (o, Ok _) => resend o out l
      | (o, Err _) => (o, false)
      end
  end.

Definition add_peer (peer_id : PeerIdentity) (io : FramedIo S) b : backend :=
  let '(recv_queue, send_queue) := into_parts io in
  let b := set_sub_peers (<[peer_id := send_queue]> (sub_peers b)) b in
  set_sub_queue (insert peer_id recv_queue (sub_queue b)) b.

Definition tell_and_add (l : list ZmqMessage.t) (peer_id : PeerIdentity) (io : FramedIo S) b : backend :=
  let '(o, told) := resend (outputs (sub_shared b)) (write_half io) l in
  let b := set_sub_outputs o b in
  if told then add_peer peer_id io b else b.

Definition sub_peer_connected (peer_id : PeerIdentity) (io : FramedIo S) b : backend :=
  tell_and_add (subscription_messages b) peer_id io b.

Definition sub_shutdown b : backend := set_sub_queue (clear (sub_queue b)) (set_sub_peers ∅ b).

#[export] Instance sub_backend : MultiPeerBackend backend S := {|
  backend_socket_type := sub_type;
  backend_socket_options := sub_options;
  backend_monitor := sub_monitor;
  backend_shared := sub_shared;
  set_backend_shared := set_sub_shared;
  peer_connected := sub_peer_connected;
  peer_disconnected := sub_peer_disconnected;
  shutdown := sub_shutdown;
|}.

(** ** The sockets *)

(** [SubSocket::subscribe] and [unsubscribe]. *)
Definition subscribe (subscription : bytes) b : backend * result unit ZmqError :=
  broadcast_subscription subscription Subscribe (remember_subscription subscription b).

Definition unsubscribe (subscription : bytes) b : backend * result unit ZmqError :=
  broadcast_subscription subscription Unsubscribe (forget_subscription subscription b).

(** [XSubSocket::subscribe] and [unsubscribe], which are the same code. *)
Definition xsub_subscribe (subscription : bytes) b : backend * result unit ZmqError :=
  broadcast_subscription subscription Subscribe (remember_subscription subscription b).

Definition xsub_unsubscribe (subscription : bytes) b : backend * result unit ZmqError :=
  broadcast_subscription subscription Unsubscribe (forget_subscription subscription b).

(** [XSubSocket::send]. *)
Definition xsub_send message b : backend * result unit ZmqError :=
  match apply_subscription_message message b with
  | (b, true) => broadcast_message_reliably message b
  | (b, false) => sub_fanout_message message b
  end.

Definition sub_handle (peer_id : PeerIdentity) (x : item) b :
    backend * option (result ZmqMessage.t ZmqError) :=
  match x with
  | Ok (MMessage message) => (b, Some (Ok message))
  | Ok _ => (b, None)
  | Err e => (sub_peer_disconnected peer_id b, Some (Err (Codec e)))
  end.

#[export] Program Instance sub_has_queue : HasQueue backend S PeerIdentity :=
  {| queue := sub_queue; set_queue := set_sub_queue |}.
Next Obligation. done. Qed.

#[export] Program Instance sub_on_disconnect : OnDisconnect backend S PeerIdentity :=
  {| callback := sub_peer_disconnected |}.
Next Obligation. intros p b. by right. Qed.

Definition sub_receiver : Receiver backend S ZmqMessage.t.
Proof. refine {| handle := sub_handle |}; [|done]. intros p [[g|c|m]|e] b; [by left..|right; by exists e]. Defined.

Definition sub_recv `{!Stream S item, !FiniteStream S} (cx : task) b :
    backend * poll (result ZmqMessage.t ZmqError) :=
  recv_poll (Receiver0 := sub_receiver) cx b.

(** [XSubSocket::recv], the same loop. *)
Definition xsub_recv `{!Stream S item, !FiniteStream S} (cx : task) b :
    backend * poll (result ZmqMessage.t ZmqError) :=
  recv_poll (Receiver0 := sub_receiver) cx b.

(** ** What the publishers are told *)

(** The subscriptions that a publisher has, which has received what [out] wrote. *)
Definition publisher_has (o : sinks) (out : writer) : list bytes :=
  fold_left (fun l m => update_subscriptions m l) (written o out) [].

(** The publisher at [p] has the socket's subscriptions, each once. *)
Definition synced b (p : PeerIdentity) : Prop :=
  exists out, sub_peers b !! p = Some out
    /\ publisher_has (outputs (sub_shared b)) out ≡ₚ elements (subs b).

(** Every connection has a sink of its own. *)
Definition separate b : Prop :=
  forall p q out, sub_peers b !! p = Some out -> sub_peers b !! q = Some out -> p = q.

Lemma publisher_has_snoc o o' out m :
  written o' out = written o out ++ [m] ->
  publisher_has o' out = update_subscriptions m (publisher_has o out).
Proof. unfold publisher_has. intros ->. by rewrite fold_left_app. Qed.

Lemma resend_ok o out l o' :
  resend o out l = (o', true) -> written o' out = written o out ++ (MMessage <$> l).
Proof.
  revert o. induction l as [|m l IH]; intros o; cbn [resend]; [intros [= <-]; by rewrite app_nil_r|].
  destruct (sink_send o out (MMessage m)) as [o1 [u|e]] eqn:Hs; [|done].
  intros Hr. rewrite (IH _ Hr), (sink_send_ok _ _ _ _ _ Hs), fmap_cons. by rewrite <- app_assoc.
Qed.

Lemma resend_others o out l o' told w :
  resend o out l = (o', told) -> w <> out -> written o' w = written o w.
Proof.
  intros Hr Hw. revert o Hr. induction l as [|m l IH]; intros o; cbn [resend]; [by intros [= <- <-]|].
  destruct (sink_send o out (MMessage m)) as [o1 r] eqn:Hs.
  destruct (sink_send_written _ _ _ _ _ Hs) as [Ho _]. destruct r; [|intros [= <- <-]; by apply Ho].
  intros Hr. by rewrite (IH _ Hr), Ho.
Qed.

Lemma publisher_told o o' out l :
  publisher_has o out = [] ->
  written o' out = written o out ++ (MMessage <$> ((fun s => create_subs_message s Subscribe) <$> l)) ->
  publisher_has o' out = l.
Proof.
  unfold publisher_has. intros Ho ->. rewrite fold_left_app, Ho.
  assert (forall k, fold_left (fun l m => update_subscriptions m l)
    (MMessage <$> ((fun s => create_subs_message s Subscribe) <$> l)) k = k ++ l) as Hk.
  { induction l as [|s l IH]; intros k; [by rewrite app_nil_r|]. rewrite !fmap_cons. cbn [fold_left].
    rewrite update_created, IH. by rewrite <- app_assoc. }
  apply (Hk []).
Qed.

Lemma map_to_list_separate b : separate b -> NoDup (snd <$> map_to_list (sub_peers b)).
Proof.
  intros Hs. apply NoDup_fmap_2_strong; [|apply NoDup_map_to_list].
  intros [p u] [q v] Hp%elem_of_map_to_list Hq%elem_of_map_to_list Heq. cbn in Heq. subst v.
  f_equal. by eapply Hs.
Qed.

(** A broadcast that succeeds reaches every peer, and disconnects none. *)
Lemma broadcast_ok message b b' :
  separate b -> broadcast_control_message message b = (b', Ok tt) ->
  subs b' = subs b /\ sub_peers b' = sub_peers b
  /\ forall p out, sub_peers b !! p = Some out ->
       written (outputs (sub_shared b')) out = written (outputs (sub_shared b)) out ++ [MMessage message].
Proof.
  intros Hsep. unfold broadcast_control_message.
  destruct (write_control _ _ _) as [[o dead] e] eqn:Hw. destruct e as [e|]; [done|].
  destruct (write_control_ok _ _ _ _ _ Hw (NoDup_fst_map_to_list _) (map_to_list_separate _ Hsep)) as [-> Hf].
  intros [= <-]. split_and!; [done..|]. intros p out Hp. rewrite Forall_forall in Hf.
  apply (Hf (p, out)). by apply elem_of_map_to_list.
Qed.

Lemma disconnect_peers_spec dead b :
  outputs (sub_shared (disconnect_peers dead b)) = outputs (sub_shared b)
  /\ subs (disconnect_peers dead b) = subs b
  /\ forall p, sub_peers (disconnect_peers dead b) !! p = if decide (p ∈ dead) then None else sub_peers b !! p.
Proof.
  unfold disconnect_peers. revert b. induction dead as [|d dead IH]; intros b; cbn [fold_left]; [done|].
  destruct (IH (sub_peer_disconnected d b)) as (Ho & Hs & Hp). rewrite Ho, Hs. split_and!; [|done|].
  - cbn. rewrite notify_outputs. cbn. by rewrite emit_outputs.
  - intros p. rewrite Hp. cbn. destruct (decide (p = d)) as [->|Hne].
    + rewrite (decide_True (P := d ∈ d :: dead)) by by left. rewrite lookup_delete_eq. by case_decide.
    + rewrite lookup_delete_ne by done. destruct (decide (p ∈ dead)).
      * rewrite decide_True; [done|by right].
      * rewrite decide_False; [done|]. by rewrite not_elem_of_cons.
Qed.

(** Whatever becomes of a broadcast: each peer's connection has taken the message or not; only
    peers whose pipe is broken are gone. *)
Lemma broadcast_any message b b' r :
  separate b -> broadcast_control_message message b = (b', r) ->
  subs b' = subs b
  /\ (forall out, (forall p, sub_peers b !! p <> Some out) ->
        written (outputs (sub_shared b')) out = written (outputs (sub_shared b)) out)
  /\ exists outcome, forall p out, sub_peers b !! p = Some out ->
       offered (outputs (sub_shared b)) (outputs (sub_shared b')) (MMessage message) out (outcome p)
       /\ sub_peers b' !! p = if broken (outcome p) then None else Some out.
Proof.
  intros Hsep. unfold broadcast_control_message.
  destruct (write_control _ _ _) as [[o dead] e] eqn:Hw.
  destruct (write_control_spec _ _ _ _ _ _ Hw (NoDup_fst_map_to_list _) (map_to_list_separate _ Hsep))
    as (f & Hu & Hf & Hd).
  destruct (disconnect_peers_spec dead (set_sub_outputs o b)) as (Ho & Hs & Hp).
  intros [= <- _]. rewrite Hs, Ho. cbn. split_and!; [done| |].
  - intros out Hn. apply Hu. intros ([p out'] & Heq & Hin%elem_of_map_to_list)%list_elem_of_fmap.
    cbn in Heq. subst out'. by apply (Hn p).
  - exists f. intros p out Hpo. rewrite Forall_forall in Hf.
    assert ((p, out) ∈ map_to_list (sub_peers b)) as Hin by by apply elem_of_map_to_list.
    split; [exact (Hf _ Hin)|]. rewrite Hp. cbn. rewrite Hpo.
    destruct (broken (f p)) eqn:Hb; [rewrite decide_True|rewrite decide_False]; [done| |done|].
    + apply Hd. split; [|done]. apply list_elem_of_fmap. by exists (p, out).
    + intros [_ Hb']%Hd. congruence.
Qed.

(** Nobody gains a peer by it. *)
Lemma broadcast_peers message b b' r p :
  separate b -> broadcast_control_message message b = (b', r) -> sub_peers b !! p = None -> sub_peers b' !! p = None.
Proof.
  intros Hsep. unfold broadcast_control_message.
  destruct (write_control _ _ _) as [[o dead] e]. intros [= <- _] Hn.
  destruct (disconnect_peers_spec dead (set_sub_outputs o b)) as (_ & _ & ->). cbn. rewrite Hn. by case_decide.
Qed.

Lemma broadcast_separate message b b' r :
  separate b -> broadcast_control_message message b = (b', r) -> separate b'.
Proof.
  intros Hsep Hb. destruct (broadcast_any _ _ _ _ Hsep Hb) as (_ & _ & f & Hf).
  assert (forall p out, sub_peers b' !! p = Some out -> sub_peers b !! p = Some out) as Hsub.
  { intros p out Hp. destruct (sub_peers b !! p) as [out'|] eqn:E.
    - destruct (Hf _ _ E) as [_ Hp']. rewrite Hp in Hp'. destruct (broken (f p)); by simplify_eq.
    - by rewrite (broadcast_peers _ _ _ _ _ Hsep Hb E) in Hp. }
  intros p q out Hp Hq. by eapply Hsep; apply Hsub.
Qed.

Lemma remove_first_elem s l : NoDup l -> s ∈ l -> l ≡ₚ s :: remove_first s l.
Proof.
  induction l as [|x l IH]; [by intros _ ?%not_elem_of_nil|]. rewrite NoDup_cons. intros [Hn Hnd] Hs. cbn.
  case_bool_decide as Hx; [by subst|]. apply elem_of_cons in Hs as [->|Hs]; [done|].
  rewrite (IH Hnd Hs) at 1. apply Permutation_swap.
Qed.

Lemma remove_first_not s l : s ∉ l -> remove_first s l = l.
Proof.
  induction l as [|x l IH]; [done|]. rewrite not_elem_of_cons. intros [Hne Hn]. cbn.
  rewrite bool_decide_eq_false_2 by congruence. by rewrite IH.
Qed.

Lemma synced_update b b' (f : list bytes -> list bytes) m p :
  (forall out, sub_peers b !! p = Some out ->
     written (outputs (sub_shared b')) out = written (outputs (sub_shared b)) out ++ [m]) ->
  sub_peers b' = sub_peers b -> (forall l, update_subscriptions m l = f l) ->
  (forall l, l ≡ₚ elements (subs b) -> f l ≡ₚ elements (subs b')) ->
  synced b p -> synced b' p.
Proof.
  intros Hw Hp Hf Hl (out & Hout & Hsync). exists out. split; [by rewrite Hp|].
  rewrite (publisher_has_snoc _ _ _ _ (Hw _ Hout)), Hf. by apply Hl.
Qed.

Lemma subscribe_synced s b b' p :
  separate b -> s ∉ subs b -> subscribe s b = (b', Ok tt) ->
  subs b' = {[s]} ∪ subs b /\ separate b' /\ (synced b p -> synced b' p).
Proof.
  intros Hsep Hs Hb. unfold subscribe, broadcast_subscription, broadcast_message_reliably in Hb.
  apply broadcast_ok in Hb as (Hsubs & Hp & Hw); [|done].
  split_and!; [done|by unfold separate; rewrite Hp|].
  eapply (synced_update _ _ (fun l => l ++ [s]) (MMessage (create_subs_message s Subscribe)));
    [|exact Hp|intros l; apply (update_created Subscribe)|].
  - intros out Hout. by apply (Hw p).
  - intros l Hl. rewrite Hsubs. cbn [subs remember_subscription set_subs].
    rewrite elements_union_singleton by done. rewrite Permutation_app_comm. cbn. by rewrite Hl.
Qed.

(** Changes of the subscriptions; a topic is subscribed to only while it is not. *)
Fixpoint disciplined (s : gset bytes) (l : list (SubscriptionMessageType * bytes)) : Prop :=
  match l with
  | [] => True
  | (Subscribe, topic) :: l => (topic ∉ s) /\ disciplined ({[topic]} ∪ s) l
  | (Unsubscribe, topic) :: l => disciplined (s ∖ {[topic]}) l
  end.

(** The changes, whatever their broadcasts answer, and the set they make. *)
Definition change (c : SubscriptionMessageType * bytes) b : backend * result unit ZmqError :=
  match c with
  | (Subscribe, topic) => subscribe topic b
  | (Unsubscribe, topic) => unsubscribe topic b
  end.

Definition change_all (l : list (SubscriptionMessageType * bytes)) b : backend :=
  fold_left (fun b c => fst (change c b)) l b.

Definition changed (c : SubscriptionMessageType * bytes) (s : gset bytes) : gset bytes :=
  match c with
  | (Subscribe, topic) => {[topic]} ∪ s
  | (Unsubscribe, topic) => s ∖ {[topic]}
  end.

Definition changes_all (l : list (SubscriptionMessageType * bytes)) (s : gset bytes) : gset bytes :=
  fold_left (fun s c => changed c s) l s.

Definition change_message (c : SubscriptionMessageType * bytes) : Message :=
  MMessage (create_subs_message (snd c) (fst c)).

(** One change: who is still a peer was one, and its connection has taken the message or not. *)
Lemma change_spec (c : SubscriptionMessageType * bytes) b :
  separate b ->
  let b' := fst (change c b) in
  separate b' /\ subs b' = changed c (subs b)
  /\ forall p out, sub_peers b' !! p = Some out ->
       sub_peers b !! p = Some out
       /\ (written (outputs (sub_shared b')) out = written (outputs (sub_shared b)) out ++ [change_message c]
           \/ written (outputs (sub_shared b')) out = written (outputs (sub_shared b)) out).
Proof.
  intros Hsep. cbv zeta.
  assert (exists b1 r, broadcast_control_message (create_subs_message (snd c) (fst c)) b1 = (fst (change c b), r)
    /\ sub_peers b1 = sub_peers b /\ sub_shared b1 = sub_shared b /\ subs b1 = changed c (subs b))
    as (b1 & r & Hb & Hp1 & Hs1 & Hsubs).
  { destruct c as [[] topic]; cbn [change fst snd]; do 2 eexists;
      (split; [unfold subscribe, unsubscribe, broadcast_subscription, broadcast_message_reliably; by rewrite <- surjective_pairing|done]). }
  assert (separate b1) as Hsep1 by (unfold separate; by rewrite Hp1).
  destruct (broadcast_any _ _ _ _ Hsep1 Hb) as (Hs & _ & f & Hf). split_and!.
  - by eapply broadcast_separate.
  - by rewrite Hs.
  - intros p out Hp. destruct (sub_peers b1 !! p) as [out'|] eqn:E.
    + destruct (Hf _ _ E) as [Ho Hp']. rewrite Hp in Hp'. destruct (broken (f p)); [done|]. injection Hp' as <-.
      rewrite <- Hp1, <- Hs1. split; [done|]. destruct (offered_written _ _ _ _ _ Ho) as [?|[? _]]; [by left|by right].
    + by rewrite (broadcast_peers _ _ _ _ _ Hsep1 Hb E) in Hp.
Qed.

(** A publisher that has the subscriptions has them after a change that it takes. *)
Lemma change_in_step (c : SubscriptionMessageType * bytes) (s : gset bytes) l :
  match c with (Subscribe, topic) => topic ∉ s | _ => True end ->
  l ≡ₚ elements s -> update_subscriptions (change_message c) l ≡ₚ elements (changed c s).
Proof.
  intros Hc Hl. destruct c as [[] topic]; unfold change_message; cbn [fst snd changed]; rewrite update_created.
  - assert (NoDup l) as Hnd by (rewrite Hl; apply NoDup_elements). destruct (decide (topic ∈ s)) as [Hin|Hn].
    + assert (topic ∈ l) as Ht by (by rewrite Hl, elem_of_elements).
      apply (Permutation_cons_inv (a := topic)). rewrite <- (remove_first_elem topic l Hnd Ht), Hl.
      rewrite <- elements_union_singleton by set_solver. f_equiv. intros x.
      destruct (decide (x = topic)) as [->|]; set_solver.
    + rewrite remove_first_not; [|by rewrite Hl, elem_of_elements]. rewrite Hl. f_equiv. set_solver.
  - rewrite elements_union_singleton by done. rewrite Permutation_app_comm. cbn. by rewrite Hl.
Qed.

(** All changes. *)
Lemma change_all_spec l b p out :
  separate b -> sub_peers (change_all l b) !! p = Some out ->
  let o := outputs (sub_shared b) in
  let o' := outputs (sub_shared (change_all l b)) in
  subs (change_all l b) = changes_all l (subs b) /\ sub_peers b !! p = Some out
  /\ (length (written o' out) <= length (written o out) + length l)%nat
  /\ (disciplined (subs b) l -> publisher_has o out ≡ₚ elements (subs b) ->
      length (written o' out) = (length (written o out) + length l)%nat ->
      publisher_has o' out ≡ₚ elements (changes_all l (subs b))).
Proof.
  cbv zeta. revert b. induction l as [|c l IH]; intros b Hsep Hp.
  { cbn in *. split_and!; [done|done|lia|done]. }
  change (change_all (c :: l) b) with (change_all l (fst (change c b))) in *.
  destruct (change_spec c b Hsep) as (Hsep1 & Hs1 & Hp1). cbv zeta in *. set (b1 := fst (change c b)) in *.
  destruct (IH b1 Hsep1 Hp) as (Hs & Hpb1 & Hle & Hall). destruct (Hp1 _ _ Hpb1) as [Hpb Hw].
  rewrite Hs1 in *. split_and!; [done|done| |].
  - destruct Hw as [Hw|Hw]; rewrite Hw in Hle; rewrite ?length_app in Hle; cbn in *; lia.
  - intros Hd Hl Hlen. destruct Hw as [Hw|Hw]; [|rewrite Hw in Hle; cbn in Hlen; lia].
    apply Hall.
    + by destruct c as [[] topic]; cbn in *; [|destruct Hd].
    + rewrite (publisher_has_snoc _ _ _ _ Hw). apply change_in_step; [|done].
      by destruct c as [[] topic]; cbn in *; [|destruct Hd].
    + rewrite Hlen, Hw, length_app. cbn. lia.
Qed.

Lemma tell_and_add_peers l p io b :
  let b' := tell_and_add l p io b in
  subs b' = subs b
  /\ (forall out, out <> write_half io ->
        written (outputs (sub_shared b')) out = written (outputs (sub_shared b)) out)
  /\ ((sub_peers b' = <[p := write_half io]> (sub_peers b)
       /\ written (outputs (sub_shared b')) (write_half io)
          = written (outputs (sub_shared b)) (write_half io) ++ (MMessage <$> l))
      \/ sub_peers b' = sub_peers b).
Proof.
  unfold tell_and_add. destruct (resend _ _ l) as [o told] eqn:Hr.
  assert (forall out, out <> write_half io -> written o out = written (outputs (sub_shared b)) out) as Ho
    by (intros out Hout; by eapply resend_others).
  destruct told; cbn; split_and!; [done|exact Ho| |done|exact Ho|by right].
  left. split; [done|]. by apply resend_ok.
Qed.
End Sub.

(** A new publisher is told everything: when a connection, whose sink has carried no
    subscription yet, becomes a peer, the publisher behind it has exactly the socket's
    subscriptions, each once, and the other peers are as before; if telling it fails it does
    not become a peer, and nothing else changes. *)
Theorem sub_connect_syncs {S} `{Runtime} (p : PeerIdentity) (io : FramedIo S) (b : SubSocketBackend S) :
  publisher_has (outputs (sub_shared b)) (write_half io) = [] ->
  (forall q out, sub_peers b !! q = Some out -> out <> write_half io) ->
  let b' := sub_peer_connected p io b in
  subs b' = subs b
  /\ (forall q, q <> p -> synced b q -> synced b' q)
  /\ ((sub_peers b' = <[p := write_half io]> (sub_peers b) /\ synced b' p) \/ sub_peers b' = sub_peers b).
Proof.
  intros Hfresh Hout. unfold sub_peer_connected.
  destruct (tell_and_add_peers (subscription_messages b) p io b) as (Hs & Ho & Hp). cbv zeta in *.
  set (b' := tell_and_add _ p io b) in *. split_and!; [done| |].
  - intros q Hq (out & Hq' & Hsync). exists out. split.
    + destruct Hp as [[-> _]| -> ]; [by rewrite lookup_insert_ne|done].
    + unfold publisher_has. rewrite Ho by (by eapply Hout). rewrite Hs. exact Hsync.
  - destruct Hp as [[Hp Hw]|Hp]; [left|by right]. split; [done|]. exists (write_half io).
    split; [by rewrite Hp, lookup_insert_eq|]. rewrite Hs.
    by rewrite (publisher_told _ _ _ _ Hfresh Hw).
Qed.


(** A topic subscribed to twice is not unsubscribed from: SUB keeps a set and PUB a list, so
    after two subscriptions and one unsubscription the socket has forgotten the topic, and
    every publisher still sends it; one that connects then does not. *)
Theorem sub_repeat_desyncs {S} `{Runtime} (topic : bytes) (b b1 b2 : SubSocketBackend S)
    (p : PeerIdentity) :
  separate b -> synced b p -> topic ∈ subs b ->
  subscribe topic b = (b1, Ok tt) -> unsubscribe topic b1 = (b2, Ok tt) ->
  (topic ∉ subs b2)
  /\ exists out, sub_peers b2 !! p = Some out
       /\ subscription_matches (publisher_has (outputs (sub_shared b2)) out) topic = true.
Proof.
  intros Hsep (out & Hp & Hl) Hin H1 H2.
  unfold subscribe, unsubscribe, broadcast_subscription, broadcast_message_reliably in *.
  apply broadcast_ok in H1 as (Hs1 & Hp1 & Hw1); [|done].
  apply broadcast_ok in H2 as (Hs2 & Hp2 & Hw2); [|unfold separate; cbn; by rewrite Hp1].
  cbn [subs forget_subscription remember_subscription set_subs sub_peers sub_shared] in *.
  split; [rewrite Hs2; set_solver|]. exists out. rewrite Hp2, Hp1. split; [done|].
  apply subscription_matches_spec. exists topic. split; [|done].
  rewrite (publisher_has_snoc _ _ _ _ (Hw2 p out ltac:(by rewrite Hp1))), update_created.
  rewrite (publisher_has_snoc _ _ _ _ (Hw1 p out Hp)), update_created.
  assert (NoDup (publisher_has (outputs (sub_shared b)) out)) as Hnd by (rewrite Hl; apply NoDup_elements).
  set (l := publisher_has (outputs (sub_shared b)) out) in *.
  assert (topic ∈ l) as Ht by (by rewrite Hl, elem_of_elements).
  clear -Ht. induction l as [|x l IH]; [by apply not_elem_of_nil in Ht|]. cbn.
  case_bool_decide as Hx; [apply elem_of_app; right; by left|].
  apply elem_of_cons in Ht as [?|Ht]; [congruence|]. right. by apply IH.
Qed.

(** A subscription made while a connection is being told of the others: the subscriptions
    were read before, and the connection is not yet a peer, so nobody ever tells it. *)
Theorem sub_connect_race {S} `{Runtime} (topic : bytes) (p : PeerIdentity) (io : FramedIo S)
    (b b1 : SubSocketBackend S) :
  separate b -> publisher_has (outputs (sub_shared b)) (write_half io) = [] ->
  (forall q out, sub_peers b !! q = Some out -> out <> write_half io) ->
  (topic ∉ subs b) -> subscribe topic b = (b1, Ok tt) ->
  let b2 := tell_and_add (subscription_messages b) p io b1 in
  sub_peers b2 <> sub_peers b1 ->
  topic ∈ subs b2 /\ sub_peers b2 !! p = Some (write_half io)
  /\ topic ∉ publisher_has (outputs (sub_shared b2)) (write_half io).
Proof.
  intros Hsep Hfresh Hout Hn Hb b2 Hne.
  destruct (subscribe_synced _ _ _ p Hsep Hn Hb) as (Hs1 & _ & _).
  destruct (tell_and_add_peers (subscription_messages b) p io b1) as (Hs & _ & [[Hp Hw]|Hp]); [|done].
  fold b2 in Hs, Hp, Hw. split_and!; [rewrite Hs, Hs1; set_solver|by rewrite Hp, lookup_insert_eq|].
  rewrite (publisher_told (outputs (sub_shared b1)) _ _ (elements (subs b))); [by rewrite elem_of_elements| |exact Hw].
  unfold subscribe, broadcast_subscription, broadcast_message_reliably, broadcast_control_message in Hb.
  destruct (write_control _ _ _) as [[o dead] e] eqn:Hc. destruct e; [done|].
  destruct (write_control_ok _ _ _ _ _ Hc (NoDup_fst_map_to_list _) (map_to_list_separate _ Hsep)) as [-> _].
  destruct (write_control_spec _ _ _ _ _ _ Hc (NoDup_fst_map_to_list _) (map_to_list_separate _ Hsep)) as (f & Hu & _).
  injection Hb as <-. unfold publisher_has in *. cbn. rewrite Hu; [exact Hfresh|].
  intros ([q out] & Heq & Hq%elem_of_map_to_list)%list_elem_of_fmap. by apply (Hout q out).
Qed.

(** ** A SUB with one publisher *)

Module Example.
#[local] Existing Instance Runtime_exec.

Definition io (w : nat) : FramedIo (list item) := mkIo [] w.

Definition alone : SubSocketBackend (list item) :=
  fst (subscribe (bs "a") (sub_socket default_options new_process)).

(** The publisher connects after the first subscription. *)
Definition sub : SubSocketBackend (list item) := sub_peer_connected (bs "pub") (io 0) alone.

Definition changes : list (SubscriptionMessageType * bytes) :=
  [(Subscribe, bs "b"); (Unsubscribe, bs "a"); (Subscribe, bs "a")].

(** A socket with the subscription [a] and a peer whose connection takes nothing. *)
Definition shaky : SubSocketBackend (list item) :=
  fst (subscribe (bs "a") (sub_peer_connected (bs "bad") (io 1)
    (sub_socket default_options (set_outputs (Recording.mkState ∅ {[1 := WouldBlock]}%nat []) new_process)))).

Definition changed : SubSocketBackend (list item) := change_all changes (sub_peer_connected (bs "pub") (io 0) shaky).

Definition first_change : result unit ZmqError :=
  snd (change (Subscribe, bs "b") (sub_peer_connected (bs "pub") (io 0) shaky)).

Lemma shaky_peer q out : sub_peers shaky !! q = Some out -> q = bs "bad" /\ out = 1%nat.
Proof.
  revert q out. change (map_Forall (fun q (out : nat) => q = bs "bad" /\ out = 1%nat) (sub_peers shaky)).
  apply (bool_decide_unpack _). by vm_compute.
Qed.

Definition twice : SubSocketBackend (list item) := fst (subscribe (bs "a") sub).
Definition once : SubSocketBackend (list item) := fst (unsubscribe (bs "a") twice).

Lemma only_peer q out : sub_peers sub !! q = Some out -> q = bs "pub" /\ out = 0%nat.
Proof.
  revert q out. change (map_Forall (fun q (out : nat) => q = bs "pub" /\ out = 0%nat) (sub_peers sub)).
  apply (bool_decide_unpack _). by vm_compute.
Qed.

Lemma sub_separate : separate sub.
Proof. by intros p q out [-> _]%only_peer [-> _]%only_peer. Qed.

Lemma sub_synced : synced sub (bs "pub").
Proof.
  exists 0%nat. split; [apply (bool_decide_unpack _); by vm_compute|].
  assert (publisher_has (outputs (sub_shared sub)) 0%nat = [bs "a"]) as -> by by vm_compute.
  assert (elements (subs sub) = [bs "a"]) as -> by by vm_compute. done.
Qed.
End Example.

Lemma sub_connect_syncs_witness :
  subs Example.sub = subs Example.alone.
Proof.
  apply (sub_connect_syncs (H := Runtime_exec) (bs "pub") (Example.io 0) Example.alone).
  - by vm_compute.
  - intros q out. revert q out. change (map_Forall (fun q (out : nat) => out <> 0%nat) (sub_peers Example.alone)).
    apply (bool_decide_unpack _). by vm_compute.
Defined.


Lemma sub_repeat_desyncs_witness : bs "a" ∉ subs Example.once.
Proof.
  apply (sub_repeat_desyncs (H := Runtime_exec) (bs "a") Example.sub Example.twice Example.once (bs "pub")).
  - apply Example.sub_separate.
  - apply Example.sub_synced.
  - apply (bool_decide_unpack _); by vm_compute.
  - apply pair_snd. by vm_compute.
  - apply pair_snd. by vm_compute.
Defined.

Lemma sub_connect_race_witness :
  let b1 := fst (subscribe (H := Runtime_exec) (bs "b") Example.alone) in
  let b2 := tell_and_add (H := Runtime_exec) (subscription_messages Example.alone) (bs "pub") (Example.io 0) b1 in
  bs "b" ∈ subs b2.
Proof.
  apply (sub_connect_race (H := Runtime_exec) (bs "b") (bs "pub") (Example.io 0) Example.alone).
  - intros p q out. assert (sub_peers Example.alone = ∅) as -> by by vm_compute. by rewrite lookup_empty.
  - by vm_compute.
  - intros q out. assert (sub_peers Example.alone = ∅) as -> by by vm_compute. by rewrite lookup_empty.
  - apply (bool_decide_unpack _); by vm_compute.
  - apply pair_snd. by vm_compute.
  - apply (bool_decide_unpack _); by vm_compute.
Defined.
