(* ===== verification/WriteQueue.v ===== *)
(** The writer of a peer (src/src/write_queue.rs): it moves messages from the peer's channel
    into its sink, in batches of at most [WRITE_BATCH_LIMIT] per flush.

    The channel is filled while the writer runs: messages arrive, and the senders leave,
    between any two of its steps. *)

From S2P Require Import Prelude Message Endpoint Errors SocketTypes Greeting Command Codec Channels.

Local Open Scope Z_scope.

Definition WRITE_BATCH_LIMIT : Z := 128.

(** Where the writer is: [n] messages are, with the one in hand, in the batch. *)
Inductive writer_phase : Type :=
  | Receiving                            (** at [queue_receiver.next()] *)
  | Feeding (message : Message) (n : Z)  (** before [send_queue.feed(message)] *)
  | Trying (n : Z)                       (** before [queue_receiver.try_recv()] *)
  | Flushing                             (** before [send_queue.flush()] *)
  | Returned (r : result unit CodecError).

(** [arrived] and [fed] are the history, [unflushed] what was fed since the last flush. *)
Record writer_state `{Sinks} : Type := mkWriter {
  received : list Message;
  senders_gone : bool;
  phase : writer_phase;
  sink_state : sinks;
  arrived : list Message;
  fed : list Message;
  unflushed : Z;
  flushed_times : nat;
}.
Arguments mkWriter {_} _ _ _ _ _ _ _ _.
Arguments received {_} _.
Arguments senders_gone {_} _.
Arguments phase {_} _.
Arguments sink_state {_} _.
Arguments arrived {_} _.
Arguments fed {_} _.
Arguments unflushed {_} _.
Arguments flushed_times {_} _.

Section Writer.
Context `{Sinks}.
Variable out : writer.
Implicit Types (w : writer_state).

Definition new_writer (o : sinks) : writer_state := mkWriter [] false Receiving o [] [] 0 0.

Definition at_phase (p : writer_phase) (q : list Message) w : writer_state :=
  mkWriter q (senders_gone w) p (sink_state w) (arrived w) (fed w) (unflushed w) (flushed_times w).

(** One step of [write_message_queue]; [None] when it waits for a message. *)
Definition write_step w : option writer_state :=
  match phase w with
  | Receiving =>
      match received w with
      | message :: q => Some (at_phase (Feeding message 1) q w)
      | [] => if senders_gone w then Some (at_phase (Returned (Ok tt)) [] w) else None
      end
  | Feeding message n =>
      match feed (sink_state w) out message with
      | (o, Ok _) =>
          Some (mkWriter (received w) (senders_gone w)
                  (if n <? WRITE_BATCH_LIMIT then Trying n else Flushing) o (arrived w)
                  (fed w ++ [message]) (unflushed w + 1) (flushed_times w))
      | (o, Err e) =>
          Some (mkWriter (received w) (senders_gone w) (Returned (Err e)) o (arrived w) (fed w)
                  (unflushed w) (flushed_times w))
      end
  | Trying n =>
      match received w with
      | message :: q => Some (at_phase (Feeding message (n + 1)) q w)
      | [] => Some (at_phase Flushing [] w)
      end
  | Flushing =>
      match flush (sink_state w) out with
      | (o, Ok _) =>
          Some (mkWriter (received w) (senders_gone w) Receiving o (arrived w) (fed w) 0
                  (S (flushed_times w)))
      | (o, Err e) =>
          Some (mkWriter (received w) (senders_gone w) (Returned (Err e)) o (arrived w) (fed w)
                  (unflushed w) (flushed_times w))
      end
  | Returned _ => None
  end.

(** A message arrives, or the last sender leaves. *)
Definition arrive (message : Message) w : writer_state :=
  mkWriter (received w ++ [message]) (senders_gone w) (phase w) (sink_state w)
    (arrived w ++ [message]) (fed w) (unflushed w) (flushed_times w).

Definition leave w : writer_state :=
  mkWriter (received w) true (phase w) (sink_state w) (arrived w) (fed w) (unflushed w) (flushed_times w).

Inductive queue_step w : writer_state -> Prop :=
  | queue_write w' : write_step w = Some w' -> queue_step w w'
  | queue_arrive message : senders_gone w = false -> queue_step w (arrive message w)
  | queue_leave : queue_step w (leave w).

(** ** The invariant *)

Definition in_hand w : list Message :=
  match phase w with Feeding message _ => [message] | _ => [] end.

(** Between two messages the batch is counted exactly, and the writer never waits, nor
    returns without an error, with something unflushed. *)
Definition batch_ok w : Prop :=
  0 <= unflushed w <= WRITE_BATCH_LIMIT
  /\ match phase w with
     | Receiving => unflushed w = 0
     | Feeding _ n => n = unflushed w + 1 /\ n <= WRITE_BATCH_LIMIT
     | Trying n => n = unflushed w /\ 0 < n < WRITE_BATCH_LIMIT
     | Flushing => 0 < unflushed w
     | Returned (Ok _) => unflushed w = 0 /\ senders_gone w = true /\ received w = []
     | Returned (Err _) => True
     end.

Definition moves (o : sinks) w : Prop :=
  written (sink_state w) out = written o out ++ fed w
  /\ (exists lost, arrived w = fed w ++ lost ++ in_hand w ++ received w
        /\ (lost <> [] -> exists e, phase w = Returned (Err e)))
  /\ forall out', out' <> out -> written (sink_state w) out' = written o out'.

Lemma write_step_ok o w w' :
  write_step w = Some w' -> batch_ok w -> moves o w -> batch_ok w' /\ moves o w'.
Proof.
  unfold write_step, batch_ok, moves. intros Hs [Hu Hb] (Hw & (lost & Ha & Hl) & Ho).
  assert ((forall r, phase w <> Returned r) -> lost = []) as Hnone.
  { intros Hr. destruct lost; [done|]. destruct Hl as [e' He]; [done|]. by apply Hr in He. }
  unfold in_hand in *. unfold WRITE_BATCH_LIMIT in *.
  destruct (phase w) as [|m n|n| |r] eqn:Hp; [| | | |done]; rewrite (Hnone ltac:(done)) in Ha; cbn in Ha.
  - destruct (received w) as [|m q] eqn:Hq; [destruct (senders_gone w) eqn:Hg; [|done]|]; simplify_eq; cbn.
    + split; [done|]. split_and!; [done| |done]. exists []. by rewrite Ha.
    + split; [lia|]. split_and!; [done| |done]. exists []. by rewrite Ha.
  - destruct (feed (sink_state w) out m) as [o' [u|e]] eqn:Hf; simplify_eq; cbn;
      pose proof (fun x => feed_written _ _ _ _ _ x Hf) as Hfw; cbn in Hfw.
    + split; [split; [lia|destruct (Z.ltb_spec n 128); lia]|]. split_and!.
      * rewrite Hfw, decide_True by done. by rewrite Hw, <- app_assoc.
      * exists []. rewrite Ha. split; [|done]. destruct (n <? 128); cbn; by rewrite <- app_assoc.
      * intros out' Hne. rewrite Hfw, decide_False, app_nil_r by done. by apply Ho.
    + split; [lia|]. split_and!.
      * by rewrite Hfw, app_nil_r.
      * exists [m]. rewrite Ha. split; [done|]. intros _. by exists e.
      * intros out' Hne. rewrite Hfw, app_nil_r. by apply Ho.
  - destruct (received w) as [|m q] eqn:Hq; simplify_eq; cbn.
    + split; [|split_and!; [done| |done]; exists []; by rewrite Ha].
      split; lia.
    + split; [lia|]. split_and!; [done| |done]. exists []. by rewrite Ha.
  - destruct (flush (sink_state w) out) as [o' [u|e]] eqn:Hf; simplify_eq; cbn;
      pose proof (fun x => flush_written _ _ _ _ x Hf) as Hfw.
    + split; [lia|]. split_and!; [by rewrite Hfw|exists []; by rewrite Ha|].
      intros out' Hne. rewrite Hfw. by apply Ho.
    + split; [lia|]. split_and!; [by rewrite Hfw|exists []; by rewrite Ha|].
      intros out' Hne. rewrite Hfw. by apply Ho.
Qed.

(** Every flush covers at least one message and at most a batch. *)
Definition batches w : Prop :=
  Z.of_nat (flushed_times w) + unflushed w <= len (fed w) <= WRITE_BATCH_LIMIT * Z.of_nat (flushed_times w) + unflushed w.

Lemma write_step_batches w w' : write_step w = Some w' -> batch_ok w -> batches w -> batches w'.
Proof.
  unfold write_step, batch_ok, batches, WRITE_BATCH_LIMIT. intros Hs [Hu Hb] Hbt.
  destruct (phase w) as [|m n|n| |r] eqn:Hp; [| | | |done].
  - destruct (received w); [destruct (senders_gone w); [|done]|]; simplify_eq; cbn; lia.
  - destruct (feed (sink_state w) out m) as [o' [u|e]]; simplify_eq; cbn; [|lia]. zlen.
  - destruct (received w); simplify_eq; cbn; lia.
  - destruct (flush (sink_state w) out) as [o' [u|e]]; simplify_eq; cbn; lia.
Qed.

Lemma queue_step_ok o w w' :
  queue_step w w' -> batch_ok w /\ moves o w /\ batches w -> batch_ok w' /\ moves o w' /\ batches w'.
Proof.
  intros Hs (Hb & Hm & Hbt). destruct Hs as [w' Hw|m Hg|].
  - destruct (write_step_ok o _ _ Hw Hb Hm). split_and!; [done..|by eapply write_step_batches].
  - split_and!; [| |done].
    { destruct Hb as [Hu Hb]. split; [done|]. cbn. destruct (phase w) as [| | | |[[]|]]; try done.
      destruct Hb as (_ & Hg' & _). congruence. }
    destruct Hm as (Hw & (lost & Ha & Hl) & Ho). split_and!; [done| |done].
    exists lost. cbn. rewrite Ha. split; [|done]. unfold in_hand. cbn. by rewrite <- !app_assoc.
  - split_and!; [|done|done]. destruct Hb as [Hu Hb]. split; [done|]. cbn.
    destruct (phase w) as [| | | |[[]|]]; try done. by split_and!; try apply Hb.
Qed.

Lemma reachable_writer o w :
  rtc queue_step (new_writer o) w -> batch_ok w /\ moves o w /\ batches w.
Proof.
  intros Hr. assert (batch_ok (new_writer o) /\ moves o (new_writer o) /\ batches (new_writer o)) as H0.
  { split_and!; [done|split_and!; [by rewrite app_nil_r|by exists []|done]|done]. }
  revert H0. induction Hr as [|a b c Hs _ IH]; [done|]. intros Ha. by eapply IH, queue_step_ok.
Qed.

(** ** The writer alone *)

Fixpoint write_run (fuel : nat) w : writer_state :=
  match fuel with
  | O => w
  | S fuel => match write_step w with Some w => write_run fuel w | None => w end
  end.

Definition write_left w : nat :=
  match phase w with
  | Returned _ => 0 | Receiving => 1 | Flushing => 2 | Trying _ => 3 | Feeding _ _ => 4
  end + 4 * length (received w).

Lemma write_step_left w w' : write_step w = Some w' -> (write_left w' < write_left w)%nat.
Proof.
  unfold write_step, write_left. intros Hs. destruct (phase w) as [|m n|n| |r] eqn:Hp; [| | | |done].
  - destruct (received w) eqn:Hq; [destruct (senders_gone w); [|done]|]; simplify_eq; cbn; lia.
  - destruct (feed (sink_state w) out m) as [o' [u|e]]; simplify_eq; cbn; [|lia].
    destruct (n <? WRITE_BATCH_LIMIT); lia.
  - destruct (received w) eqn:Hq; simplify_eq; cbn; lia.
  - destruct (flush (sink_state w) out) as [o' [u|e]]; simplify_eq; cbn; lia.
Qed.

Lemma write_run_ends fuel w : (write_left w <= fuel)%nat -> write_step (write_run fuel w) = None.
Proof.
  revert w. induction fuel as [|fuel IH]; intros w Hf; cbn.
  - unfold write_left in Hf. destruct (phase w) eqn:Hp; try lia. unfold write_step. by rewrite Hp.
  - destruct (write_step w) as [w'|] eqn:Hw; [|done]. apply IH. apply write_step_left in Hw. lia.
Qed.

Lemma write_run_steps fuel w : rtc queue_step w (write_run fuel w).
Proof.
  revert w. induction fuel as [|fuel IH]; intros w; cbn; [done|].
  destruct (write_step w) as [w'|] eqn:Hw; [|done]. eapply rtc_l; [by apply queue_write|apply IH].
Qed.

(** From a good state the sink takes everything, and stays good. *)
Definition healthy (good : sinks -> Prop) : Prop :=
  forall o, good o ->
    (forall m, exists o', feed o out m = (o', Ok tt) /\ good o')
    /\ exists o', flush o out = (o', Ok tt) /\ good o'.

Lemma write_step_frame w w' :
  write_step w = Some w' -> arrived w' = arrived w /\ senders_gone w' = senders_gone w.
Proof.
  unfold write_step. intros Hs. destruct (phase w) as [|m n|n| |r] eqn:Hp; [| | | |done].
  - destruct (received w); [destruct (senders_gone w) eqn:Hg; [|done]|]; by simplify_eq.
  - destruct (feed (sink_state w) out m) as [o' [u|e]]; by simplify_eq.
  - destruct (received w); by simplify_eq.
  - destruct (flush (sink_state w) out) as [o' [u|e]]; by simplify_eq.
Qed.

Lemma write_step_good good w w' :
  healthy good -> good (sink_state w) -> write_step w = Some w' ->
  good (sink_state w') /\ forall e, phase w' <> Returned (Err e).
Proof.
  unfold write_step. intros Hh Hg Hs. destruct (Hh _ Hg) as [Hfeed (o1 & Hflush & Ho1)].
  destruct (phase w) as [|m n|n| |r] eqn:Hp; [| | | |done].
  - destruct (received w); [destruct (senders_gone w); [|done]|]; by simplify_eq.
  - destruct (Hfeed m) as (o' & Hf & Ho'). rewrite Hf in Hs. simplify_eq. cbn. split; [done|].
    intros e. by destruct (n <? WRITE_BATCH_LIMIT).
  - destruct (received w); by simplify_eq.
  - rewrite Hflush in Hs. by simplify_eq.
Qed.

Lemma write_run_frame fuel w :
  arrived (write_run fuel w) = arrived w /\ senders_gone (write_run fuel w) = senders_gone w.
Proof.
  revert w. induction fuel as [|fuel IH]; intros w; cbn; [done|].
  destruct (write_step w) as [w'|] eqn:Hw; [|done].
  destruct (write_step_frame _ _ Hw) as (<- & <-). apply IH.
Qed.

Lemma write_run_good good fuel w :
  healthy good -> good (sink_state w) -> (forall e, phase w <> Returned (Err e)) ->
  forall e, phase (write_run fuel w) <> Returned (Err e).
Proof.
  intros Hh. revert w. induction fuel as [|fuel IH]; intros w Hg He; cbn; [done|].
  destruct (write_step w) as [w'|] eqn:Hw; [|done].
  destruct (write_step_good _ _ _ Hh Hg Hw). by apply IH.
Qed.
End Writer.

(** C30 The writer of a peer, whatever arrives while it runs: what its sink has been given are
    the messages that arrived, in order, each once; what is missing is in its hand, in the
    channel, or, after an error that it returns, the message that failed. A flush covers at
    least one message and at most 128, and the writer never waits, nor returns successfully,
    with a message that has not been flushed. No other sink is touched. *)
Theorem writer_conserves `{Sinks} (out : writer) (o : sinks) (w : writer_state) :
  rtc (queue_step out) (new_writer o) w ->
  written (sink_state w) out = written o out ++ fed w
  /\ (exists lost, arrived w = fed w ++ lost ++ in_hand w ++ received w
        /\ (lost <> [] -> exists e, phase w = Returned (Err e)))
  /\ (forall out', out' <> out -> written (sink_state w) out' = written o out')
  /\ 0 <= unflushed w <= WRITE_BATCH_LIMIT
  /\ (phase w = Receiving \/ phase w = Returned (Ok tt) -> unflushed w = 0)
  /\ Z.of_nat (flushed_times w) + unflushed w <= len (fed w)
     <= WRITE_BATCH_LIMIT * Z.of_nat (flushed_times w) + unflushed w.
Proof.
  intros ([Hu Hb] & (Hw & Ha & Ho) & Hbt)%reachable_writer.
  split_and!; [done|done|done|lia..| |apply Hbt|apply Hbt]. intros [Hp|Hp]; rewrite Hp in Hb; [done|by destruct Hb].
Qed.

(** C31 A message in a peer's queue is written: while its sink takes everything, the writer, run
    alone for a number of steps that the definition computes, comes to wait (or returns, once
    the senders have left) with every message that arrived written to the sink and flushed. *)
Theorem writer_drains `{Sinks} (out : writer) (good : sinks -> Prop) (o : sinks) (w : writer_state) :
  healthy out good -> good (sink_state w) -> rtc (queue_step out) (new_writer o) w -> (forall e, phase w <> Returned (Err e)) ->
  let w' := write_run out (write_left w) w in
  written (sink_state w') out = written o out ++ arrived w /\ unflushed w' = 0
  /\ phase w' = if senders_gone w then Returned (Ok tt) else Receiving.
Proof.
  intros Hh Hgood Hr He w'. pose proof (write_run_ends out (write_left w) w (le_n _)) as Hend.
  destruct (write_run_frame out (write_left w) w) as (Ha & Hg).
  pose proof (write_run_good out good (write_left w) w Hh Hgood He) as He'.
  assert (rtc (queue_step out) (new_writer o) w') as Hr' by (etrans; [exact Hr|apply write_run_steps]).
  apply reachable_writer in Hr' as ([_ Hb] & (Hw & (lost & Hl & Hlost) & _) & _). fold w' in Ha, Hg, He', Hend.
  assert (in_hand w' = [] /\ received w' = [] /\ unflushed w' = 0
          /\ phase w' = if senders_gone w then Returned (Ok tt) else Receiving) as (Hi & Hq & Hu & Hp).
  { rewrite <- Hg. unfold write_step in Hend. unfold in_hand.
    destruct (phase w') as [|m n|n| |[[]|e]] eqn:Hp.
    - destruct (received w'); [|done]. by destruct (senders_gone w').
    - destruct (feed (sink_state w') out m) as [? []]; done.
    - by destruct (received w').
    - destruct (flush (sink_state w') out) as [? []]; done.
    - destruct Hb as (? & -> & ?). by split_and!.
    - by destruct (He' e). }
  assert (lost = []) as ->.
  { destruct lost; [done|]. destruct Hlost as [e Hpe]; [done|]. rewrite Hpe in Hp. by destruct (senders_gone w). }
  rewrite Hi, Hq in Hl. cbn in Hl. rewrite app_nil_r, Ha in Hl.
  split_and!; [by rewrite Hw, Hl|done|done].
Qed.

(** ** A writer with two messages *)

Module Example.
#[local] Existing Instance Recording.sinks.

Definition message (s : string) : Message := MMessage (ZmqMessage.from_bytes (bs s)).

Definition two : writer_state := arrive (message "b") (arrive (message "a") (new_writer Recording.empty)).

Lemma two_reachable : rtc (queue_step 0%nat) (new_writer Recording.empty) two.
Proof. eapply rtc_l; [by apply queue_arrive|]. eapply rtc_l; [by apply queue_arrive|]. apply rtc_refl. Qed.

(** One flush for both. *)
Example one_flush : flushed_times (write_run 0%nat (write_left two) two) = 1%nat.
Proof. by vm_compute. Qed.
End Example.

Lemma writer_conserves_witness : arrived Example.two = fed Example.two ++ received Example.two.
Proof.
  destruct (writer_conserves (H := Recording.sinks) 0%nat Recording.empty Example.two Example.two_reachable)
    as (_ & (lost & -> & Hl) & _).
  destruct lost; [done|]. by destruct Hl as [e He].
Defined.

Lemma writer_drains_witness :
  unflushed (write_run (H := Recording.sinks) 0%nat (write_left Example.two) Example.two) = 0.
Proof.
  apply (writer_drains (H := Recording.sinks) 0%nat (fun o => Recording.broken o = ∅) Recording.empty Example.two).
  - intros o Ho. split; [intros m|].
    + exists (Recording.record o 0%nat m). split; [|done]. cbn. unfold Recording.feed.
      by rewrite Ho, lookup_empty.
    + by eexists.
  - done.
  - apply Example.two_reachable.
  - done.
Defined.
