(* ===== verification/Windows.v ===== *)
(** The Unix-domain sockets of the IPC transport on Windows (src/src/transport/ipc/windows.rs):
    connecting, listening and accepting with [socket2] and [async-io]. *)

From S2P Require Import Prelude Message Endpoint Errors.

(** What [socket2] and [async-io] do, on the state of the system. A call that is not allowed to
    block the thread returns; [None] is one that blocks it. [Async::new] and
    [Async::new_nonblocking] take a socket and give it back wrapped; when they fail, the caller
    is the one who drops it. *)
Class Winsock : Type := {
  wos : Type;
  sock : Type;
  sockaddr_unix : bytes -> result bytes io_error;
  socket_new : wos -> wos * result sock io_error;
  socket_set_nonblocking : sock -> bool -> wos -> wos * result unit io_error;
  socket_connect : sock -> bytes -> wos -> wos * option (result unit io_error);
  socket_bind : sock -> bytes -> wos -> wos * result unit io_error;
  socket_listen : sock -> Z -> wos -> wos * result unit io_error;
  socket_accept : sock -> wos -> wos * result (sock * bytes) io_error;
  take_error : sock -> wos -> wos * result (option io_error) io_error;
  shutdown_write : sock -> wos -> wos * result unit io_error;
  async_new : sock -> wos -> wos * result unit io_error;
  async_new_nonblocking : sock -> wos -> wos * result unit io_error;
  writable : sock -> wos -> wos * result unit io_error;
  async_read : sock -> Z -> wos -> wos * poll (result bytes io_error);
  async_write : sock -> bytes -> wos -> wos * poll (result Z io_error);
  async_flush : sock -> wos -> wos * poll (result unit io_error);
  drop_socket : sock -> wos -> wos;
}.

Section Windows.
Context `{Winsock}.
Implicit Types (n : wos) (s : sock).

(** [Ok] or [Err] when the function returns, [None] when it blocks its thread. *)
Definition io (A : Type) : Type := wos -> wos * option (result A io_error).

Definition done_with {A} (r : result A io_error) : io A := fun n => (n, Some r).

Definition call {A} (f : wos -> wos * result A io_error) : io A := fun n =>
  let '(n, r) := f n in (n, Some r).

Definition io_bind {A B} (f : io A) (k : A -> io B) : io B := fun n =>
  match f n with
  | (n, Some (Ok a)) => k a n
  | (n, Some (Err e)) => (n, Some (Err e))
  | (n, None) => (n, None)
  end.

(** A body that owns a socket drops it when it fails. *)
Definition holding {A} s (f : io A) : io A := fun n =>
  match f n with
  | (n, Some (Err e)) => (drop_socket s n, Some (Err e))
  | r => r
  end.

Notation "x '<-!' f ';' k" := (io_bind f (fun x => k)) (at level 60, f at next level, right associativity).

(** [match socket.connect(&address)]: a connection that is on its way is awaited below. *)
Definition connect_started s (address : bytes) : io unit := fun n =>
  match socket_connect s address n with
  | (n, Some (Ok _)) => (n, Some (Ok tt))
  | (n, Some (Err error)) =>
      if bool_decide (kind error = WouldBlock) then (n, Some (Ok tt)) else (n, Some (Err error))
  | (n, None) => (n, None)
  end.

(** [UnixStream::connect]. *)
Definition unix_connect (path : bytes) : io sock :=
  address <-! done_with (sockaddr_unix path);
  s <-! call socket_new;
  holding s
    (_ <-! call (socket_set_nonblocking s true);
     _ <-! connect_started s address;
     _ <-! call (async_new_nonblocking s);
     _ <-! call (writable s);
     error <-! call (take_error s);
     match error with
     | Some error => done_with (Err error)
     | None => done_with (Ok s)
     end).

(** [AsyncRead] and [AsyncWrite] of [UnixStream]. *)
Definition unix_poll_read s (len : Z) n : wos * poll (result bytes io_error) := async_read s len n.
Definition unix_poll_write s (buffer : bytes) n : wos * poll (result Z io_error) := async_write s buffer n.
Definition unix_poll_flush s n : wos * poll (result unit io_error) := async_flush s n.
Definition unix_poll_close s n : wos * poll (result unit io_error) :=
  let '(n, r) := shutdown_write s n in (n, Ready r).

(** [UnixListener::bind] and [accept], when a connection is there. *)
Definition unix_bind (path : bytes) : io sock :=
  address <-! done_with (sockaddr_unix path);
  s <-! call socket_new;
  holding s
    (_ <-! call (socket_bind s address);
     _ <-! call (socket_listen s 128);
     _ <-! call (async_new s);
     done_with (Ok s)).

Definition unix_accept (listener : sock) : io (sock * bytes) :=
  incoming <-! call (socket_accept listener);
  holding (fst incoming)
    (_ <-! call (async_new (fst incoming));
     done_with (Ok incoming)).
End Windows.

(** What is documented of these calls: which sockets are open, and which of them do not block. *)
Class WinsockLaws `{Winsock} : Type := {
  opened : wos -> list sock;
  nonblocking : wos -> sock -> Prop;
  new_opens n n' r : socket_new n = (n', r) ->
    match r with Ok s => s ∉ opened n /\ opened n' = s :: opened n | Err _ => opened n' = opened n end;
  accept_opens l n n' r : socket_accept l n = (n', r) ->
    match r with Ok (s, _) => s ∉ opened n /\ opened n' = s :: opened n | Err _ => opened n' = opened n end;
  drop_closes s n l : opened n = s :: l -> s ∉ l -> opened (drop_socket s n) = l;
  set_nonblocking_sets s n n' r : socket_set_nonblocking s true n = (n', r) ->
    opened n' = opened n /\ (r = Ok tt -> nonblocking n' s);
  connect_returns s a n n' r : socket_connect s a n = (n', r) ->
    opened n' = opened n /\ (nonblocking n s -> is_Some r /\ nonblocking n' s);
  async_new_sets s n n' r : async_new s n = (n', r) ->
    opened n' = opened n /\ (r = Ok tt -> nonblocking n' s);
  async_new_nonblocking_keeps s n n' r : async_new_nonblocking s n = (n', r) ->
    opened n' = opened n /\ (nonblocking n s -> nonblocking n' s);
  writable_keeps s n n' r : writable s n = (n', r) ->
    opened n' = opened n /\ (nonblocking n s -> nonblocking n' s);
  take_error_keeps s n n' r : take_error s n = (n', r) ->
    opened n' = opened n /\ (nonblocking n s -> nonblocking n' s);
  bind_keeps s a n n' r : socket_bind s a n = (n', r) -> opened n' = opened n;
  listen_keeps s b n n' r : socket_listen s b n = (n', r) -> opened n' = opened n;
}.

Section Laws.
Context `{WinsockLaws}.
Implicit Types (n : wos) (s : sock).

(** From [P], with the sockets [l] open, [f] returns with the same ones open and, when it
    succeeds, [Q]. *)
Definition keeps {A} (l : list sock) (P : wos -> Prop) (f : io A) (Q : A -> wos -> Prop) : Prop :=
  forall n n' r, opened n = l -> P n -> f n = (n', r) ->
    opened n' = l /\ match r with Some (Ok a) => Q a n' | Some (Err _) => True | None => False end.

Lemma keeps_bind {A B} l P (f : io A) Q (k : A -> io B) Q' :
  keeps l P f Q -> (forall a, keeps l (Q a) (k a) Q') -> keeps l P (io_bind f k) Q'.
Proof.
  intros Hf Hk n n' r Hn HP. unfold io_bind. destruct (f n) as [n1 r1] eqn:E.
  destruct (Hf _ _ _ Hn HP E) as [Hn1 Hr]. destruct r1 as [[a|e]|]; [by apply Hk|by intros [= <- <-]|done].
Qed.

Lemma keeps_call {A} l P (f : wos -> wos * result A io_error) Q :
  (forall n n' r, f n = (n', r) -> opened n' = opened n /\ (P n -> forall a, r = Ok a -> Q a n')) ->
  keeps l P (call f) Q.
Proof.
  intros Hf n n' r Hn HP. unfold call. destruct (f n) as [n1 r1] eqn:E. intros [= <- <-].
  destruct (Hf _ _ _ E) as [-> HQ]. split; [done|]. destruct r1 as [a|e]; [by apply HQ|done].
Qed.

Lemma keeps_done {A} l P (r : result A io_error) Q :
  (forall n a, P n -> r = Ok a -> Q a n) -> keeps l P (done_with r) Q.
Proof. intros HQ n n' r' Hn HP [= <- <-]. split; [done|]. destruct r; [by apply HQ|done]. Qed.

(** What a function that makes a socket does: it returns; on success there is one open socket
    more, which does not block, otherwise the open ones are as before. *)
Definition makes {A} (sock_of : A -> sock) n n' (r : option (result A io_error)) : Prop :=
  match r with
  | Some (Ok a) => sock_of a ∉ opened n /\ opened n' = sock_of a :: opened n /\ nonblocking n' (sock_of a)
  | Some (Err _) => opened n' = opened n
  | None => False
  end.

Lemma holding_makes {A} (sock_of : A -> sock) s (f : io A) n n1 n' r :
  opened n1 = s :: opened n -> s ∉ opened n ->
  keeps (s :: opened n) (fun _ => True) f (fun a n => sock_of a = s /\ nonblocking n s) ->
  holding s f n1 = (n', r) -> makes sock_of n n' r.
Proof.
  intros Hn1 Hs Hf. unfold holding. destruct (f n1) as [n2 r2] eqn:E.
  destruct (Hf _ _ _ Hn1 I E) as [Ho Hr]. destruct r2 as [[a|e]|]; intros [= <- <-]; cbn; [|by apply drop_closes|done].
  by destruct Hr as [-> ?].
Qed.

Lemma connect_keeps s address l :
  keeps l (fun n => nonblocking n s) (connect_started s address) (fun _ n => nonblocking n s).
Proof.
  intros n n' r Hn Hb. unfold connect_started. destruct (socket_connect s address n) as [m c] eqn:E.
  apply connect_returns in E as [Ho Hc]. rewrite Hn in Ho. destruct (Hc Hb) as [[c' ->] Hb'].
  destruct c' as [u|e]; [|case_bool_decide]; by intros [= <- <-].
Qed.

Lemma unix_connect_makes path n n' r : unix_connect path n = (n', r) -> makes id n n' r.
Proof.
  unfold unix_connect, io_bind at 1, done_with at 1. destruct (sockaddr_unix path) as [address|e]; [|by intros [= <- <-]].
  unfold io_bind at 1, call at 1. destruct (socket_new n) as [n1 [s|e]] eqn:Hnew; apply new_opens in Hnew;
    [|by intros [= <- <-]].
  destruct Hnew as [Hfresh Hopen]. apply (holding_makes _ _ _ _ _ _ _ Hopen Hfresh).
  eapply (keeps_bind _ _ _ (fun _ n => nonblocking n s)); [|intros ?].
  { apply keeps_call. intros m m' r1 [Ho Hb]%set_nonblocking_sets. split; [done|]. intros _ [] ->. by apply Hb. }
  eapply keeps_bind; [apply connect_keeps|intros ?].
  eapply (keeps_bind _ _ _ (fun _ n => nonblocking n s)); [|intros ?].
  { apply keeps_call. intros m m' r1 [Ho Hb]%async_new_nonblocking_keeps. split; [done|]. intros ? ? _. by apply Hb. }
  eapply (keeps_bind _ _ _ (fun _ n => nonblocking n s)); [|intros ?].
  { apply keeps_call. intros m m' r1 [Ho Hb]%writable_keeps. split; [done|]. intros ? ? _. by apply Hb. }
  eapply (keeps_bind _ _ _ (fun _ n => nonblocking n s)); [|intros [error|]].
  { apply keeps_call. intros m m' r1 [Ho Hb]%take_error_keeps. split; [done|]. intros ? ? _. by apply Hb. }
  all: apply keeps_done; naive_solver.
Qed.

Lemma unix_bind_makes path n n' r : unix_bind path n = (n', r) -> makes id n n' r.
Proof.
  unfold unix_bind, io_bind at 1, done_with at 1. destruct (sockaddr_unix path) as [address|e]; [|by intros [= <- <-]].
  unfold io_bind at 1, call at 1. destruct (socket_new n) as [n1 [s|e]] eqn:Hnew; apply new_opens in Hnew;
    [|by intros [= <- <-]].
  destruct Hnew as [Hfresh Hopen]. apply (holding_makes _ _ _ _ _ _ _ Hopen Hfresh).
  eapply (keeps_bind _ _ _ (fun _ _ => True)); [apply keeps_call; intros m m' r1 Ho%bind_keeps; done|intros ?].
  eapply (keeps_bind _ _ _ (fun _ _ => True)); [apply keeps_call; intros m m' r1 Ho%listen_keeps; done|intros ?].
  eapply (keeps_bind _ _ _ (fun _ n => nonblocking n s)); [|intros ?; apply keeps_done; naive_solver].
  apply keeps_call. intros m m' r1 [Ho Hb]%async_new_sets. split; [done|]. intros _ [] ->. by apply Hb.
Qed.

Lemma unix_accept_makes l n n' r : unix_accept l n = (n', r) -> makes fst n n' r.
Proof.
  unfold unix_accept, io_bind at 1, call at 1.
  destruct (socket_accept l n) as [n1 [[s addr]|e]] eqn:Hacc; apply accept_opens in Hacc; [|by intros [= <- <-]].
  destruct Hacc as [Hfresh Hopen]. apply (holding_makes _ _ _ _ _ _ _ Hopen Hfresh). cbn [fst].
  eapply (keeps_bind _ _ _ (fun _ n => nonblocking n s)); [|intros ?; apply keeps_done; naive_solver].
  apply keeps_call. intros m m' r1 [Ho Hb]%async_new_sets. split; [done|]. intros _ [] ->. by apply Hb.
Qed.
End Laws.

(** Unix-domain sockets on Windows: connecting, binding and accepting never block the thread of
    the executor, whatever the system answers, since the socket of a connection is made
    nonblocking before it connects; what they return does not block either; and when they fail,
    they have closed every socket that they have opened. *)
Theorem windows_sockets `{WinsockLaws} (path : bytes) (l : sock) (n : wos) :
  (let '(n', r) := unix_connect path n in makes id n n' r)
  /\ (let '(n', r) := unix_bind path n in makes id n n' r)
  /\ (let '(n', r) := unix_accept l n in makes fst n n' r).
Proof.
  split; [|split].
  - destruct (unix_connect path n) as [n' r] eqn:E. by eapply unix_connect_makes.
  - destruct (unix_bind path n) as [n' r] eqn:E. by eapply unix_bind_makes.
  - destruct (unix_accept l n) as [n' r] eqn:E. by eapply unix_accept_makes.
Qed.

(** ** A system to evaluate the definitions on *)

(** Its open sockets, with their flags; a connection is on its way when [connect] returns, and
    fails if the path is the one of nobody. *)
Module Example.
Definition state : Type := list (nat * bool).

Definition flag (s : nat) (n : state) : bool := forallb (fun '(s', b) => negb (bool_decide (s = s')) || b) n.
Definition fresh (n : state) : nat := S (list_max (map fst n)).
Definition set_flag (s : nat) (n : state) : state := map (fun '(s', b) => (s', bool_decide (s = s') || b)) n.

Definition winsock : Winsock := {|
  wos := state;
  sock := nat;
  sockaddr_unix := Ok;
  socket_new n := ((fresh n, false) :: n, Ok (fresh n));
  socket_set_nonblocking s _ n := (set_flag s n, Ok tt);
  socket_connect s a n := (n, if flag s n then Some (Err (IoError (if bool_decide (a = []) then ConnectionRefused else WouldBlock))) else None);
  socket_bind _ _ n := (n, Ok tt);
  socket_listen _ _ n := (n, Ok tt);
  socket_accept _ n := ((fresh n, false) :: n, Ok (fresh n, []));
  take_error _ n := (n, Ok None);
  shutdown_write _ n := (n, Ok tt);
  async_new s n := (set_flag s n, Ok tt);
  async_new_nonblocking _ n := (n, Ok tt);
  writable _ n := (n, Ok tt);
  async_read _ _ n := (n, Pending);
  async_write _ _ n := (n, Pending);
  async_flush _ n := (n, Ready (Ok tt));
  drop_socket s n := List.filter (fun '(s', _) => negb (bool_decide (s = s'))) n;
|}.

Lemma set_flag_opened s n : map fst (set_flag s n) = map fst n.
Proof. unfold set_flag. rewrite map_map. apply map_ext. by intros []. Qed.

Lemma set_flag_flag s n : flag s (set_flag s n) = true.
Proof.
  unfold flag, set_flag in *. induction n as [|[s' b] n IH]; [done|]. cbn [map forallb]. rewrite IH, andb_true_r.
  by case_bool_decide.
Qed.

Lemma fresh_not_opened n : fresh n ∉ map fst n.
Proof.
  intros Hin%list_elem_of_In. pose proof (proj1 (list_max_le (map fst n) _) (le_n _)) as Hall.
  rewrite List.Forall_forall in Hall. specialize (Hall _ Hin). unfold fresh in Hall. lia.
Qed.

Lemma filter_opened s (n : state) l :
  s ∉ l -> map fst n = l -> map fst (List.filter (fun '(s', _) => negb (bool_decide (s = s'))) n) = l.
Proof.
  revert l. induction n as [|[s' b] n IH]; intros [|s2 l] Hl; cbn; try done. intros [= -> Hn].
  apply not_elem_of_cons in Hl as [Hne Hl]. rewrite bool_decide_eq_false_2 by done. cbn. by rewrite (IH l).
Qed.

#[export] Program Instance winsock_laws : WinsockLaws (H := winsock) := {|
  opened := fun n : state => map fst n;
  nonblocking := fun (n : state) (s : nat) => flag s n = true;
|}.
Next Obligation. intros n n' r. cbn. intros [= <- <-]. split; [apply fresh_not_opened|done]. Qed.
Next Obligation. intros l n n' r. cbn. intros [= <- <-]. split; [apply fresh_not_opened|done]. Qed.
Next Obligation.
  intros s n l. cbn. destruct n as [|[s' b] n]; [done|]. cbn. intros [= -> Hn] Hl.
  rewrite bool_decide_eq_true_2 by done. by apply filter_opened.
Qed.
Next Obligation. intros s n n' r. cbn. intros [= <- <-]. split; [apply set_flag_opened|]. intros _. apply set_flag_flag. Qed.
Next Obligation. intros s a n n' r. cbn. intros [= <- <-]. split; [done|]. intros ->. by split. Qed.
Next Obligation. intros s n n' r. cbn. intros [= <- <-]. split; [apply set_flag_opened|]. intros _. apply set_flag_flag. Qed.
Next Obligation. intros s n n' r. cbn. by intros [= <- <-]. Qed.
Next Obligation. intros s n n' r. cbn. by intros [= <- <-]. Qed.
Next Obligation. intros s n n' r. cbn. by intros [= <- <-]. Qed.
Next Obligation. intros s a n n' r. cbn. by intros [= <- <-]. Qed.
Next Obligation. intros s b n n' r. cbn. by intros [= <- <-]. Qed.

Example connect_example :
  unix_connect (H := winsock) (bs "path") [] = ([(1%nat, true)], Some (Ok 1%nat))
  /\ unix_connect (H := winsock) [] [] = ([], Some (Err (IoError ConnectionRefused))).
Proof. by vm_compute. Qed.
End Example.

Lemma windows_sockets_witness :
  let '(n', r) := unix_connect (H := Example.winsock) (bs "path") [] in
  makes (H0 := Example.winsock_laws) id [] n' r.
Proof. exact (proj1 (windows_sockets (H0 := Example.winsock_laws) (bs "path") 0%nat [])). Defined.
