(* ===== verification/Transport.v ===== *)
(** The transports (src/src/transport/mod.rs, tcp.rs, ipc.rs): connecting, listening, and the
    tasks that accept connections, over the operating system's sockets. Both transports are
    enabled, on the tokio runtime of a Unix system, with debug assertions off. *)

From S2P Require Import Prelude Message Endpoint Errors SocketTypes Greeting Command Codec.
From S2P Require Import FairQueue Channels Runtime Handshake.

Local Open Scope Z_scope.

(** What the runtime's network types and [socket2] do, on the state of the system: streams
    ([TcpStream], [UnixStream]) and listeners, owned until they are closed by their drop.
    [framed] are the halves that [make_framed] builds on a stream, under the socket's options. *)
Class Sys (S : Type) `{Runtime} : Type := {
  os : Type;
  socket : Type;
  listener : Type;
  tcp_stream_connect : bytes -> Z -> os -> os * result socket io_error;
  unix_stream_connect : bytes -> os -> os * result socket io_error;
  tcp_listener_bind : bytes -> Z -> os -> os * result listener io_error;
  unix_listener_bind : bytes -> os -> os * result listener io_error;
  set_nodelay : socket -> bool -> os -> os * result unit io_error;
  set_recv_buffer_size : socket -> Z -> os -> os * result unit io_error;
  set_send_buffer_size : socket -> Z -> os -> os * result unit io_error;
  tcp_peer_addr : socket -> os -> os * result (IpAddr * Z) io_error;
  unix_peer_addr : socket -> os -> os * result (option bytes) io_error;
  tcp_local_addr : listener -> os -> os * result (IpAddr * Z) io_error;
  unix_local_addr : listener -> os -> os * result (option bytes) io_error;
  set_nonblocking : listener -> bool -> os -> os * result unit io_error;
  from_std : listener -> os -> os * result listener io_error;
  close_socket : socket -> os -> os;
  close_listener : listener -> os -> os;
  remove_file : bytes -> os -> os * result unit io_error;
  framed : socket -> SocketOptions -> S * writer;
}.

(** ** Paths *)

(** [Path] compares the components of its bytes: separators at the end or repeated and
    components [.] behind the first one do not count. *)
Definition slash : byte := Byte.x2f.

Fixpoint split_slash (acc : bytes) (p : bytes) : list bytes :=
  match p with
  | [] => [acc]
  | b :: p => if bool_decide (b = slash) then acc :: split_slash [] p else split_slash (acc ++ [b]) p
  end.

Definition is_component (c : bytes) : bool := negb (bool_decide (c = [])) && negb (bool_decide (c = bs ".")).

(** The root, and the other components. *)
Definition components (p : bytes) : bool * list bytes :=
  match split_slash [] p with
  | [] => (false, [])
  | first :: rest =>
      if bool_decide (head p = Some slash) then (true, List.filter is_component rest)
      else (false, (if bool_decide (first = []) then [] else [first]) ++ List.filter is_component rest)
  end.

Definition same_path (p q : bytes) : bool := bool_decide (components p = components q).

(** A path that stands for the ones equal to it. *)
Definition path_key (p : bytes) : bytes :=
  let '(root, cs) := components p in (if root : bool then [slash] else []) ++ join slash cs.

Example same_path_ex :
  same_path (bs "/tmp//a/./b/") (bs "/tmp/a/b") && same_path (bs "*/.") (bs "*")
  && negb (same_path (bs "./*") (bs "*")) && negb (same_path (bs "/") (bs "")) = true.
Proof. by vm_compute. Qed.

Section Transport.
Context {S : Type} `{Runtime, !Sys S}.
Implicit Types n : os.

(** Code that works on the system, may fail, and may panic. *)
Definition tio (A : Type) : Type := os -> os * completion A.

Definition ret {A} (a : A) : tio A := fun n => (n, Completed (Ok a)).

Definition fail {A} (e : ZmqError) : tio A := fun n => (n, Completed (Err e)).

(** [todo!()] *)
Definition panic {A} : tio A := fun n => (n, Panicked).

(** [f?]: an [io::Error] becomes a [ZmqError::Network]. *)
Definition lift {A} (f : os -> os * result A io_error) : tio A := fun n =>
  let '(n, r) := f n in (n, Completed (result_map_err Network r)).

Definition tbind {A B} (f : tio A) (k : A -> tio B) : tio B := fun n =>
  match f n with
  | (n, Completed (Ok a)) => k a n
  | (n, Completed (Err e)) => (n, Completed (Err e))
  | (n, Hangs) => (n, Hangs)
  | (n, Panicked) => (n, Panicked)
  end.

(** What the body owns is dropped when it does not succeed. *)
Definition owning {A} (drop : os -> os) (f : tio A) : tio A := fun n =>
  match f n with
  | (n, Completed (Ok a)) => (n, Completed (Ok a))
  | (n, c) => (drop n, c)
  end.

Notation "x '<-?' f ';' k" := (tbind f (fun x => k)) (at level 60, f at next level, right associativity).

Definition make_framed (raw_socket : socket) (options : SocketOptions) : FramedIo S :=
  let '(read, write) := framed raw_socket options in mkIo read write.

(** ** TCP *)

Definition TCP_SOCKET_BUFFER_SIZE : Z := 4 * 1024 * 1024.

(** Failures to set a buffer's size are logged only. *)
Definition tune_socket_buffers (raw_socket : socket) n : os :=
  let n := fst (set_recv_buffer_size raw_socket TCP_SOCKET_BUFFER_SIZE n) in
  fst (set_send_buffer_size raw_socket TCP_SOCKET_BUFFER_SIZE n).

Definition tcp_connect (host : Host) (port : Z) (options : SocketOptions) : tio (FramedIo S * Endpoint) :=
  raw_socket <-? lift (tcp_stream_connect (display_host host) port);
  owning (close_socket raw_socket)
    (_ <-? lift (set_nodelay raw_socket true);
     _ <-? (fun n => ret tt (tune_socket_buffers raw_socket n));
     peer_addr <-? lift (tcp_peer_addr raw_socket);
     ret (make_framed raw_socket options, from_tcp_addr (fst peer_addr) (snd peer_addr))).

(** An accept task: its listener, the endpoint it accepts at, the socket file it deletes
    when it stops, the options of its socket; whether its stop channel is ready, and whether it has ended. *)
Record accept_task : Type := mkTask {
  task_listener : listener;
  task_endpoint : Endpoint;
  task_file : option bytes;
  task_options : SocketOptions;
  stopping : bool;
  finished : bool;
}.

Definition tcp_begin_accept_bound (l : listener) (endpoint : Endpoint) (options : SocketOptions) :
    Endpoint * accept_task :=
  (endpoint, mkTask l endpoint None options false false).

Definition tcp_begin_accept (host : Host) (port : Z) (options : SocketOptions) : tio (Endpoint * accept_task) :=
  l <-? lift (tcp_listener_bind (display_host host) port);
  owning (close_listener l)
    (resolved_addr <-? lift (tcp_local_addr l);
     let endpoint := Tcp host (snd resolved_addr) in
     ret (tcp_begin_accept_bound l endpoint options)).

Definition tcp_begin_accept_listener (l : listener) (options : SocketOptions) : tio (Endpoint * accept_task) :=
  owning (close_listener l)
    (resolved_addr <-? lift (tcp_local_addr l);
     _ <-? lift (set_nonblocking l true);
     l <-? lift (from_std l);
     ret (tcp_begin_accept_bound l (from_tcp_addr (fst resolved_addr) (snd resolved_addr)) options)).

(** What the task makes of an [accept()] that has completed. *)
Definition tcp_accepted (incoming : result (socket * (IpAddr * Z)) io_error) (options : SocketOptions) :
    tio (FramedIo S * Endpoint) :=
  match incoming with
  | Err e => fail (Network e)
  | Ok (raw_socket, remote_addr) =>
      owning (close_socket raw_socket)
        (_ <-? lift (set_nodelay raw_socket true);
         _ <-? (fun n => ret tt (tune_socket_buffers raw_socket n));
         ret (make_framed raw_socket options, from_tcp_addr (fst remote_addr) (snd remote_addr)))
  end.

(** ** IPC *)

Definition ipc_connect (path : bytes) (options : SocketOptions) : tio (FramedIo S * Endpoint) :=
  raw_socket <-? lift (unix_stream_connect path);
  owning (close_socket raw_socket)
    (peer_addr <-? lift (unix_peer_addr raw_socket);
     ret (make_framed raw_socket options, Ipc peer_addr)).

Definition ipc_begin_accept_bound (l : listener) (resolved_addr : option bytes) (options : SocketOptions) :
    Endpoint * accept_task :=
  (Ipc resolved_addr, mkTask l (Ipc resolved_addr) resolved_addr options false false).

Definition ipc_begin_accept (path : bytes) (options : SocketOptions) : tio (Endpoint * accept_task) :=
  if same_path path (bs "*") then panic
  else
    l <-? lift (unix_listener_bind path);
    owning (close_listener l)
      (resolved_addr <-? lift (unix_local_addr l);
       ret (ipc_begin_accept_bound l resolved_addr options)).

Definition ipc_begin_accept_listener (l : listener) (options : SocketOptions) : tio (Endpoint * accept_task) :=
  owning (close_listener l)
    (resolved_addr <-? lift (unix_local_addr l);
     _ <-? lift (set_nonblocking l true);
     l <-? lift (from_std l);
     ret (ipc_begin_accept_bound l resolved_addr options)).

Definition ipc_accepted (incoming : result (socket * option bytes) io_error) (options : SocketOptions) :
    tio (FramedIo S * Endpoint) :=
  match incoming with
  | Err e => fail (Network e)
  | Ok (raw_socket, peer_addr) => ret (make_framed raw_socket options, Ipc peer_addr)
  end.

(** ** The transport of an endpoint *)

(** [Listener]. *)
Inductive Listener : Type :=
  | TcpListener (l : listener)
  | IpcListener (l : listener).

Definition transport_connect (endpoint : Endpoint) (options : SocketOptions) : tio (FramedIo S * Endpoint) :=
  match endpoint with
  | Tcp host port => tcp_connect host port options
  | Ipc (Some path) => ipc_connect path options
  | Ipc None => fail (SocketErr "Cannot connect to an unnamed ipc socket")
  end.

Definition begin_accept (endpoint : Endpoint) (options : SocketOptions) : tio (Endpoint * accept_task) :=
  match endpoint with
  | Tcp host port => tcp_begin_accept host port options
  | Ipc (Some path) => ipc_begin_accept path options
  | Ipc None => fail (SocketErr "Cannot begin accepting peers at an unnamed ipc socket")
  end.

Definition begin_accept_listener (l : Listener) (options : SocketOptions) : tio (Endpoint * accept_task) :=
  match l with
  | TcpListener l => tcp_begin_accept_listener l options
  | IpcListener l => ipc_begin_accept_listener l options
  end.

(** ** The accept task *)

(** A connection that a listener yields, or the error. *)
Inductive incoming : Type :=
  | TcpIncoming (r : result (socket * (IpAddr * Z)) io_error)
  | IpcIncoming (r : result (socket * option bytes) io_error).

Definition accepted_connection (x : incoming) (options : SocketOptions) : tio (FramedIo S * Endpoint) :=
  match x with TcpIncoming r => tcp_accepted r options | IpcIncoming r => ipc_accepted r options end.

(** The end of the task, once it has taken the stop branch of its [select!]: the listener is
    dropped, and the socket file deleted; a failure to delete it is logged only. *)
Definition release (t : accept_task) n : os :=
  let n := close_listener (task_listener t) n in
  match task_file t with Some path => fst (remove_file path n) | None => n end.

Definition ask_to_stop (t : accept_task) : accept_task :=
  mkTask (task_listener t) (task_endpoint t) (task_file t) (task_options t) true (finished t).

Definition finish (t : accept_task) : accept_task :=
  mkTask (task_listener t) (task_endpoint t) (task_file t) (task_options t) (stopping t) true.
End Transport.
Arguments accept_task S {_ _}.
Arguments incoming S {_ _}.
Arguments Listener S {_ _}.

(** [TaskHandle::shutdown] (task_handle.rs): what it makes of the task's outcome. *)
Definition shutdown_result {T} (join_result : result (result T ZmqError) JoinError) : result T ZmqError :=
  match join_result with
  | Ok (Ok a) => Ok a
  | Ok (Err e) => Err e
  | Err e => Err (Task (from_join_error e))
  end.

(** ** Lemmas on paths *)

(** A path component has no separator. *)
Definition plain (c : bytes) : Prop := slash ∉ c.

Lemma split_slash_plain acc p : plain acc -> Forall plain (split_slash acc p).
Proof.
  revert acc. induction p as [|b p IH]; intros acc Hacc; cbn [split_slash].
  - by constructor.
  - case_bool_decide; [constructor; [done|apply IH; unfold plain; set_solver]|].
    apply IH. unfold plain in *. set_solver.
Qed.

Lemma split_slash_word acc c p :
  plain c -> split_slash acc (c ++ p) = split_slash (acc ++ c) p.
Proof.
  revert acc. induction c as [|b c IH]; intros acc Hc; cbn [app split_slash].
  - by rewrite app_nil_r.
  - unfold plain in *. rewrite bool_decide_eq_false_2 by set_solver.
    rewrite IH, <- app_assoc by set_solver. done.
Qed.

Lemma split_slash_join acc c l :
  Forall plain (c :: l) -> split_slash acc (join slash (c :: l)) = (acc ++ c) :: l.
Proof.
  revert acc c. induction l as [|d l IH]; intros acc c [Hc Hl]%Forall_cons_1; cbn [join].
  - rewrite <- (app_nil_r c) at 1. by rewrite split_slash_word.
  - rewrite split_slash_word by done. cbn [split_slash]. rewrite bool_decide_eq_true_2 by done.
    f_equal. apply (IH [] d Hl).
Qed.

Lemma filter_components l : List.filter is_component (List.filter is_component l) = List.filter is_component l.
Proof. induction l as [|c l IH]; cbn; [done|]. destruct (is_component c) eqn:E; cbn; [rewrite E; by f_equal|done]. Qed.

Lemma filter_plain l : Forall plain l -> Forall plain (List.filter is_component l).
Proof. induction 1; cbn; [constructor|]. destruct (is_component _); [by constructor|done]. Qed.

Lemma components_key p : components (path_key p) = components p.
Proof.
  pose proof (split_slash_plain [] p ltac:(unfold plain; set_solver)) as Hp. unfold path_key.
  destruct (components p) as [root cs] eqn:E. unfold components in E.
  destruct (split_slash [] p) as [|first rest]; [by simplify_eq|].
  apply Forall_cons_1 in Hp as [Hfirst Hrest]. pose proof (filter_plain _ Hrest) as Hplain.
  pose proof (filter_components rest) as Hf. case_bool_decide; simplify_eq; cbn [app].
  - unfold components. cbn [split_slash head]. rewrite !bool_decide_eq_true_2 by done. f_equal.
    destruct (List.filter is_component rest) as [|c l]; [done|]. by rewrite split_slash_join.
  - assert (Hcs : forall c l, plain c -> Forall plain l -> c <> [] -> List.filter is_component l = l ->
      components (join slash (c :: l)) = (false, c :: l)).
    { intros c l Hc Hl Hne Hfl. unfold components. rewrite split_slash_join by by constructor.
      rewrite bool_decide_eq_false_2.
      - cbn [app]. by rewrite bool_decide_eq_false_2, Hfl.
      - destruct c as [|b c]; [done|]. unfold plain in Hc.
        destruct l; cbn; intros [= ->]; set_solver. }
    case_bool_decide as Hne; cbn [app].
    + destruct (List.filter is_component rest) as [|c l] eqn:Er; [done|].
      apply Forall_cons_1 in Hplain as [? ?].
      assert (is_component c = true /\ List.filter is_component l = l) as [Hc Hl].
      { cbn in Hf. destruct (is_component c) eqn:Ec; [by simplify_eq|].
        pose proof (List.filter_length_le is_component l) as Hle. rewrite Hf in Hle. cbn in Hle. lia. }
      apply Hcs; [done..|by intros ->|done].
    + by apply Hcs.
Qed.

(** Two paths have the same key exactly when they are equal paths. *)
Lemma path_key_iff p q : path_key p = path_key q <-> same_path p q = true.
Proof.
  unfold same_path. rewrite bool_decide_eq_true. split; [|unfold path_key; by intros ->].
  intros Hk. by rewrite <- (components_key p), Hk, components_key.
Qed.

(** ** A system to evaluate the definitions on: handles are numbers, and everything works. *)

Module Loopback.
#[local] Existing Instance Runtime_exec.

(** The handles given out, and the listeners and files that are gone. *)
Record state : Type := mkState { handles : nat; closed : list nat; deleted : list bytes }.

Definition give {A} (f : nat -> A) (n : state) : state * result A io_error :=
  (mkState (Datatypes.S (handles n)) (closed n) (deleted n), Ok (f (handles n))).

Definition fine {A} (a : A) (n : state) : state * result A io_error := (n, Ok a).

Definition address (port : Z) : IpAddr * Z := (V4 [127; 0; 0; 1], port).

(** A stream is what its peer sends; a listener knows the path it was bound to. *)
#[global] Instance sys : Sys (list Message) := {|
  os := state;
  socket := nat;
  listener := nat * option bytes;
  tcp_stream_connect _ _ := give (fun i => i);
  unix_stream_connect _ := give (fun i => i);
  tcp_listener_bind _ _ := give (fun i => (i, None));
  unix_listener_bind path := give (fun i => (i, Some path));
  set_nodelay _ _ := fine tt;
  set_recv_buffer_size _ _ := fine tt;
  set_send_buffer_size _ _ := fine tt;
  tcp_peer_addr i := fine (address (Z.of_nat i));
  unix_peer_addr _ := fine None;
  tcp_local_addr l := fine (address (5555 + Z.of_nat (fst l)));
  unix_local_addr l := fine (snd l);
  set_nonblocking _ _ := fine tt;
  from_std l := fine l;
  close_socket _ n := n;
  close_listener l n := mkState (handles n) (fst l :: closed n) (deleted n);
  remove_file path n := (mkState (handles n) (closed n) (path :: deleted n), Ok tt);
  framed i _ := ([MGreeting default_greeting; MCommand (announced DEALER default_options)], i);
|}.

Definition start : state := mkState 0 [] [].
End Loopback.
