(* ===== verification/Binds.v ===== *)
(** Binding (the [Socket] trait of src/src/lib.rs): what a socket listens on, its accept tasks,
    the callbacks they spawn, and the operations that start and stop them.

    [W] is the world of the socket's backend. Tasks and callbacks run between the operations;
    an operation that awaits one lets that one run to its end. *)

From S2P Require Import Prelude Message Endpoint Errors SocketTypes Greeting Command Codec.
From S2P Require Import FairQueue Channels Runtime Backend Handshake Transport.

Local Open Scope Z_scope.

(** Endpoints as keys of a [HashMap]: paths are equal by their components. *)
Definition bind_key (e : Endpoint) : Endpoint :=
  match e with Ipc (Some path) => Ipc (Some (path_key path)) | _ => e end.

Section Binds.
Context {W S : Type} `{Runtime, !MultiPeerBackend W S, !NextMessage S, !Sys S}.

(** An [AcceptStopHandle] is the number of its task. *)
Record socket_state : Type := mkSock {
  core : W;
  binds : gmap Endpoint nat;
  accept_tasks : list (accept_task S);
  callbacks : list (result (FramedIo S * Endpoint) ZmqError);
  sys : os;
}.
Implicit Types s : socket_state.

Definition set_tasks (l : list (accept_task S)) s : socket_state :=
  mkSock (core s) (binds s) l (callbacks s) (sys s).

(** [Self::with_options], of any socket. *)
Definition new_socket (w : W) (n : os) : socket_state := mkSock w ∅ [] [] n.

Definition emit_event (e : SocketEvent) (w : W) : W :=
  set_backend_shared (emit (backend_monitor w) e (backend_shared w)) w.

(** ** Accepting *)

(** The stop channel of a task becomes ready: its sender is used, or dropped. *)
Definition request_stop (i : nat) s : socket_state := set_tasks (alter ask_to_stop i (accept_tasks s)) s.

(** The task takes the branch of its [select!] for a connection, and spawns the callback. *)
Definition accept_step (i : nat) (x : incoming S) s : option socket_state :=
  match accept_tasks s !! i with
  | Some t =>
      if finished t then None
      else
        match accepted_connection x (task_options t) (sys s) with
        | (n, Completed r) => Some (mkSock (core s) (binds s) (accept_tasks s) (callbacks s ++ [r]) n)
        | (_, _) => None
        end
  | None => None
  end.

(** The task takes the branch for its stop channel, and ends. *)
Definition stop_step (i : nat) s : option socket_state :=
  match accept_tasks s !! i with
  | Some t =>
      if finished t || negb (stopping t) then None
      else Some (mkSock (core s) (binds s) (<[i := finish t]> (accept_tasks s)) (callbacks s)
                   (release t (sys s)))
  | None => None
  end.

(** The callback given to the accept task. *)
Definition accept_callback (uuid : bytes) (result : result (FramedIo S * Endpoint) ZmqError) (w : W) : W :=
  match result with
  | Err error => emit_event (AcceptFailed error) w
  | Ok (io, endpoint) =>
      match Handshake.peer_connected uuid io w with
      | (w, Completed (Ok peer_id)) => emit_event (Accepted endpoint peer_id) w
      | (w, Completed (Err error)) => emit_event (AcceptFailed error) w
      | (w, _) => w
      end
  end.

(** A spawned callback runs. *)
Definition callback_step (j : nat) (uuid : bytes) s : option socket_state :=
  match callbacks s !! j with
  | Some r => Some (mkSock (accept_callback uuid r (core s)) (binds s) (accept_tasks s)
                      (delete j (callbacks s)) (sys s))
  | None => None
  end.

(** ** Binding *)

(** [BindTarget]. *)
Inductive BindTarget : Type :=
  | TargetEndpoint (e : Endpoint)
  | TargetListener (l : Listener S).

(** The new task, and its handle in the binds; a handle that was there is dropped. *)
Definition insert_bind (endpoint : Endpoint) (task : accept_task S) s : socket_state :=
  let handle := length (accept_tasks s) in
  let s := match binds s !! bind_key endpoint with Some old => request_stop old s | None => s end in
  mkSock (core s) (<[bind_key endpoint := handle]> (binds s)) (accept_tasks s ++ [task]) (callbacks s) (sys s).

Definition bind_inner (target : BindTarget) s : socket_state * completion Endpoint :=
  let options := backend_socket_options (core s) in
  let '(n, c) := match target with
                 | TargetEndpoint endpoint => begin_accept endpoint options (sys s)
                 | TargetListener listener => begin_accept_listener listener options (sys s)
                 end in
  let s := mkSock (core s) (binds s) (accept_tasks s) (callbacks s) n in
  match c with
  | Completed (Ok (endpoint, task)) =>
      let s := mkSock (emit_event (Listening endpoint) (core s)) (binds s) (accept_tasks s) (callbacks s) (sys s) in
      (insert_bind endpoint task s, Completed (Ok endpoint))
  | Completed (Err e) => (s, Completed (Err e))
  | Hangs => (s, Hangs)
  | Panicked => (s, Panicked)
  end.

(** [Socket::bind]. *)
Definition socket_bind `{Regexes} (endpoint : bytes) s : socket_state * completion Endpoint :=
  match endpoint_from_str endpoint with
  | Ok endpoint => bind_inner (TargetEndpoint endpoint) s
  | Err e => (s, Completed (Err (EndpointErr e)))
  end.

Definition bind_listener (l : Listener S) s : socket_state * completion Endpoint :=
  bind_inner (TargetListener l) s.

(** ** Unbinding *)

(** [TaskHandle::shutdown] of the task's handle. Before the task takes the stop branch it may
    accept connections, those in [late]; its result is [Ok(())]. *)
Definition shutdown_task (i : nat) (late : list (incoming S)) s : socket_state * result unit ZmqError :=
  let s := request_stop i s in
  let s := fold_left (fun s x => default s (accept_step i x s)) late s in
  (default s (stop_step i s), shutdown_result (Ok (Ok tt))).

Definition unbind (endpoint : Endpoint) (late : list (incoming S)) s : socket_state * result unit ZmqError :=
  match binds s !! bind_key endpoint with
  | None => (s, Err (NoSuchBind endpoint))
  | Some stop_handle =>
      shutdown_task stop_handle late
        (mkSock (core s) (delete (bind_key endpoint) (binds s)) (accept_tasks s) (callbacks s) (sys s))
  end.

Fixpoint unbind_each (l : list Endpoint) (late : Endpoint -> list (incoming S)) s : socket_state * list ZmqError :=
  match l with
  | [] => (s, [])
  | endpoint :: l =>
      let '(s, r) := unbind endpoint (late endpoint) s in
      let '(s, errs) := unbind_each l late s in
      (s, match r with Err err => err :: errs | Ok _ => errs end)
  end.

Definition unbind_all (late : Endpoint -> list (incoming S)) s : socket_state * list ZmqError :=
  unbind_each (fst <$> map_to_list (binds s)) late s.

(** ** The end of a socket *)

(** [Drop] of the socket types: all shut their backend down, but [PullSocket], which has none.
    (That of [SubSocket] and [XSubSocket] also uses the handles of their reconnect tasks,
    [Reconnect.sub_drop].) *)
Definition socket_drop (w : W) : W := match backend_socket_type w with PULL => w | _ => shutdown w end.

(** The drop of the map of binds drops every handle. *)
Definition drop_binds s : socket_state :=
  let s' := fold_left (fun s i => request_stop i s) (snd <$> map_to_list (binds s)) s in
  mkSock (core s') ∅ (accept_tasks s') (callbacks s') (sys s').

(** A socket goes out of scope: its [Drop], then its fields. *)
Definition drop_socket s : socket_state :=
  drop_binds (mkSock (socket_drop (core s)) (binds s) (accept_tasks s) (callbacks s) (sys s)).

(** [Socket::close], which takes the socket: it is dropped when the call returns. *)
Definition close (late : Endpoint -> list (incoming S)) s : socket_state * list ZmqError :=
  let '(s, errs) := unbind_all late s in
  (drop_socket s, errs).
End Binds.
Arguments socket_state W S {_ _}.
Arguments BindTarget S {_ _}.

(** ** What holds of every socket *)

Section Facts.
Context {W S : Type} `{Runtime, !MultiPeerBackend W S, !NextMessage S, !Sys S}.
Implicit Types (s : socket_state W S) (t : accept_task S).

(** The binds are the tasks that have not been told to stop, by their endpoints, and those are
    running. *)
Definition binds_ok s : Prop :=
  (forall k i, binds s !! k = Some i -> exists t, accept_tasks s !! i = Some t
     /\ bind_key (task_endpoint t) = k /\ stopping t = false)
  /\ (forall i t, accept_tasks s !! i = Some t -> stopping t = false ->
        binds s !! bind_key (task_endpoint t) = Some i /\ finished t = false).

(** What can happen to a socket: its operations, its tasks and callbacks, and anything that
    happens to its backend or to the system outside them. *)
Inductive sock_step s : socket_state W S -> Prop :=
  | step_bind target : sock_step s (fst (bind_inner target s))
  | step_unbind endpoint late : sock_step s (fst (unbind endpoint late s))
  | step_accept i x s' : accept_step i x s = Some s' -> sock_step s s'
  | step_stop i s' : stop_step i s = Some s' -> sock_step s s'
  | step_callback j uuid s' : callback_step j uuid s = Some s' -> sock_step s s'
  | step_outside w n : sock_step s (mkSock w (binds s) (accept_tasks s) (callbacks s) n).

Lemma bind_key_idemp e : bind_key (bind_key e) = bind_key e.
Proof.
  destruct e as [|[p|]]; cbn; [done| |done]. do 2 f_equal. apply path_key_iff.
  unfold same_path. by rewrite components_key, bool_decide_eq_true.
Qed.

Lemma accepted_completes (x : incoming S) o n : exists n' r, accepted_connection x o n = (n', Completed r).
Proof.
  destruct x as [[[k a]|e]|[[k a]|e]]; cbn; try by do 2 eexists.
  unfold owning, tbind, lift, ret. destruct (set_nodelay k true n) as [n1 [[]|e]]; cbn; by do 2 eexists.
Qed.

Lemma accept_step_some i x s t :
  accept_tasks s !! i = Some t -> finished t = false ->
  exists n r, accept_step i x s = Some (mkSock (core s) (binds s) (accept_tasks s) (callbacks s ++ [r]) n).
Proof.
  intros Ht Hf. unfold accept_step. rewrite Ht, Hf.
  destruct (accepted_completes x (task_options t) (sys s)) as (n & r & ->). by do 2 eexists.
Qed.

Lemma accept_step_frame i x s s' :
  accept_step i x s = Some s' -> binds s' = binds s /\ accept_tasks s' = accept_tasks s /\ core s' = core s.
Proof.
  unfold accept_step. destruct (accept_tasks s !! i) as [t|]; [|done]. destruct (finished t); [done|].
  destruct (accepted_connection x (task_options t) (sys s)) as [n [r| |]]; [|done..]. by intros [= <-].
Qed.

Lemma insert_alter (i : nat) (f : accept_task S -> accept_task S) t (l : list (accept_task S)) :
  <[i := t]> (alter f i l) = <[i := t]> l.
Proof.
  revert i. induction l as [|t' l IH]; intros [|i]; cbn; [done..|]. f_equal. apply IH.
Qed.

Lemma alter_insert (i : nat) (f : accept_task S -> accept_task S) t (l : list (accept_task S)) :
  l !! i = Some t -> alter f i l = <[i := f t]> l.
Proof. revert i. induction l as [|t' l IH]; intros [|i] Ht; cbn; [done..| |f_equal; by apply IH]. by injection Ht as ->. Qed.

(** A task that runs, told to stop: it accepts what is left to it, and ends. *)
Lemma shutdown_task_ends i late s t :
  accept_tasks s !! i = Some t -> finished t = false ->
  exists n rs, length rs = length late
    /\ shutdown_task i late s
       = (mkSock (core s) (binds s) (<[i := finish (ask_to_stop t)]> (accept_tasks s)) (callbacks s ++ rs)
            (release t n), Ok tt).
Proof.
  intros Ht Hf. unfold shutdown_task.
  assert (H1 : accept_tasks (request_stop i s) !! i = Some (ask_to_stop t)) by (cbn; by rewrite list_lookup_alter_eq, Ht).
  enough (exists n rs, length rs = length late
    /\ fold_left (fun s x => default s (accept_step i x s)) late (request_stop i s)
       = mkSock (core s) (binds s) (accept_tasks (request_stop i s)) (callbacks s ++ rs) n) as (n & rs & Hl & ->).
  { exists n, rs. split; [done|]. unfold stop_step. cbn [accept_tasks]. rewrite H1. cbn.
    rewrite Hf. cbn. by rewrite insert_alter. }
  induction late as [|x late IH] using rev_ind.
  - exists (sys s), []. cbn. by rewrite app_nil_r.
  - destruct IH as (n & rs & Hl & IH). rewrite fold_left_app, IH.
    destruct (accept_step_some i x (mkSock (core s) (binds s) (accept_tasks (request_stop i s))
      (callbacks s ++ rs) n) _ H1 Hf) as (n' & r & Hx).
    cbn [fold_left]. rewrite Hx.
    exists n', (rs ++ [r]). rewrite !length_app, Hl. split; [done|]. cbn. by rewrite app_assoc.
Qed.

Lemma begin_accept_task target o n n' endpoint t :
  match target with
  | TargetEndpoint endpoint => begin_accept endpoint o n
  | TargetListener listener => begin_accept_listener listener o n
  end = (n', Completed (Ok (endpoint, t))) ->
  task_endpoint t = endpoint /\ stopping t = false /\ finished t = false.
Proof.
  assert (Hown : forall A d (f : tio A) a, owning d f n = (n', Completed (Ok a)) -> f n = (n', Completed (Ok a))).
  { intros A d f a. unfold owning. by destruct (f n) as [m [[]| |]]. }
  assert (Hbind : forall A B (f : tio A) (k : A -> tio B) b m m', tbind f k m = (m', Completed (Ok b)) ->
    exists a m1, f m = (m1, Completed (Ok a)) /\ k a m1 = (m', Completed (Ok b))).
  { intros A B f k b m m'. unfold tbind. destruct (f m) as [m1 [[]| |]]; try done. by eauto. }
  assert (Hdrop : forall A d (f : tio A) a m m', owning d f m = (m', Completed (Ok a)) -> f m = (m', Completed (Ok a))).
  { intros A d f a m m'. unfold owning. by destruct (f m) as [m1 [[]| |]]. }
  intros Hb. destruct target as [[host port|[path|]]|[l|l]]; cbn in Hb; [| |done| |].
  - apply Hbind in Hb as (l & m & _ & Hb%Hdrop). apply Hbind in Hb as (a & m1 & _ & [= _ <- <-]). done.
  - unfold ipc_begin_accept in Hb. destruct (same_path path (bs "*")); [done|].
    apply Hbind in Hb as (l & m & _ & Hb%Hdrop). apply Hbind in Hb as (a & m1 & _ & [= _ <- <-]). done.
  - apply Hdrop in Hb. repeat (apply Hbind in Hb as (? & ? & _ & Hb)). by injection Hb as _ <- <-.
  - apply Hdrop in Hb. repeat (apply Hbind in Hb as (? & ? & _ & Hb)). by injection Hb as _ <- <-.
Qed.

Lemma binds_ok_frame s s' :
  binds s' = binds s -> accept_tasks s' = accept_tasks s -> binds_ok s -> binds_ok s'.
Proof. unfold binds_ok. by intros -> ->. Qed.

(** A task that was told to stop is no longer bound, and neither is it running on. *)
Lemma binds_ok_unbound s k i t' :
  binds_ok s -> binds s !! k = Some i -> stopping t' = true ->
  (forall k' j, delete k (binds s) !! k' = Some j -> exists t, <[i := t']> (accept_tasks s) !! j = Some t
     /\ bind_key (task_endpoint t) = k' /\ stopping t = false)
  /\ (forall j t, <[i := t']> (accept_tasks s) !! j = Some t -> stopping t = false ->
        delete k (binds s) !! bind_key (task_endpoint t) = Some j /\ finished t = false).
Proof.
  intros [H1 H2] Hk Ht'. destruct (H1 k i Hk) as (t0 & Ht0 & Hk0 & Hs0). split.
  - intros k' j [Hne Hj]%lookup_delete_Some. destruct (H1 k' j Hj) as (t & Ht & Hkt & Hs).
    exists t. split; [|done]. rewrite list_lookup_insert_ne; [done|]. intros ->. congruence.
  - intros j t Hj Hs. destruct (decide (i = j)) as [<-|Hne].
    + rewrite list_lookup_insert_eq in Hj by by eapply lookup_lt_Some. congruence.
    + rewrite list_lookup_insert_ne in Hj by done. destruct (H2 j t Hj Hs) as [Hb Hf]. split; [|done].
      rewrite lookup_delete_ne; [done|]. intros ->. congruence.
Qed.

(** The same with another task in its place. *)
Lemma insert_bind_ok endpoint t s :
  binds_ok s -> task_endpoint t = endpoint -> stopping t = false -> finished t = false ->
  binds_ok (insert_bind endpoint t s).
Proof.
  intros Hok <- Hs Hf. set (k := bind_key (task_endpoint t)).
  assert (exists l, length l = length (accept_tasks s)
    /\ insert_bind (task_endpoint t) t s
       = mkSock (core s) (<[k := length l]> (binds s)) (l ++ [t]) (callbacks s) (sys s)
    /\ (forall k' j, delete k (binds s) !! k' = Some j -> exists t, l !! j = Some t
          /\ bind_key (task_endpoint t) = k' /\ stopping t = false)
    /\ (forall j t, l !! j = Some t -> stopping t = false ->
          delete k (binds s) !! bind_key (task_endpoint t) = Some j /\ finished t = false))
    as (l & Hl & -> & H1 & H2).
  { unfold insert_bind. fold k. destruct (binds s !! k) as [old|] eqn:Hold.
    - destruct (proj1 Hok k old Hold) as (t0 & Ht0 & _).
      exists (<[old := ask_to_stop t0]> (accept_tasks s)). rewrite length_insert. split; [done|]. split.
      + cbn. by rewrite (alter_insert old ask_to_stop t0).
      + by apply binds_ok_unbound.
    - exists (accept_tasks s). rewrite delete_id by done. split; [done|]. split; [done|]. exact Hok. }
  split; cbn.
  - intros k' j [[<- <-]|[Hne Hj]]%lookup_insert_Some.
    + exists t. by rewrite lookup_app_r, Nat.sub_diag by lia.
    + destruct (H1 k' j) as (t' & Ht' & ?); [by rewrite lookup_delete_ne|]. exists t'. split; [|done].
      rewrite lookup_app_l; [done|by eapply lookup_lt_Some].
  - intros j t' [Hj|[Hj Ht']]%lookup_app_Some Hs'.
    + destruct (H2 j t' Hj Hs') as [[Hne Hb]%lookup_delete_Some Hf']. by rewrite lookup_insert_ne.
    + apply list_lookup_singleton_Some in Ht' as [Hz <-]. fold k.
      rewrite lookup_insert_eq. split; [f_equal; lia|done].
Qed.

Lemma sock_step_ok s s' : sock_step s s' -> binds_ok s -> binds_ok s'.
Proof.
  intros Hst Hok. destruct Hst as [target|endpoint late|i x s' Ha|i s' Ha|j uuid s' Hc|w n].
  - unfold bind_inner.
    destruct (match target with TargetEndpoint e => begin_accept e (backend_socket_options (core s)) (sys s)
      | TargetListener l => begin_accept_listener l (backend_socket_options (core s)) (sys s) end) as [n c] eqn:Hb.
    destruct c as [[[endpoint t]|e]| |]; [|done..]. apply begin_accept_task in Hb as (He & Hs & Hf).
    by apply insert_bind_ok.
  - unfold unbind. destruct (binds s !! bind_key endpoint) as [i|] eqn:Hk; [|done].
    destruct (proj1 Hok _ _ Hk) as (t & Ht & Hkt & Hs). destruct (proj2 Hok _ _ Ht Hs) as [_ Hf].
    edestruct (shutdown_task_ends i late) as (n & rs & _ & Hsh); [|exact Hf|].
    2:{ rewrite Hsh. cbn. by apply binds_ok_unbound. } done.
  - apply accept_step_frame in Ha as (Hb & Ht & _). by eapply binds_ok_frame.
  - unfold stop_step in Ha. destruct (accept_tasks s !! i) as [t|] eqn:Ht; [|done].
    destruct (finished t || negb (stopping t)) eqn:E; [done|]. injection Ha as <-.
    destruct Hok as [H1 H2]. split; cbn.
    + intros k j Hj. destruct (H1 k j Hj) as (t' & Ht' & Hk & Hs). exists t'. split; [|done].
      rewrite list_lookup_insert_ne; [done|]. intros ->. rewrite Ht in Ht'. injection Ht' as ->.
      rewrite Hs, orb_true_r in E. done.
    + intros j t' Hj Hs. destruct (decide (i = j)) as [<-|Hne].
      * rewrite list_lookup_insert_eq in Hj by by eapply lookup_lt_Some. injection Hj as <-. cbn in Hs.
        rewrite Hs, orb_true_r in E. done.
      * rewrite list_lookup_insert_ne in Hj by done. by apply H2.
  - unfold callback_step in Hc. destruct (callbacks s !! j); [|done]. by injection Hc as <-.
  - done.
Qed.

Lemma reachable_ok w n s : rtc sock_step (new_socket w n) s -> binds_ok s.
Proof.
  assert (binds_ok (new_socket w n)) as H0 by done. intros Hr.
  induction Hr as [s|s s1 s2 Hst Hr IH]; [done|]. by eapply IH, sock_step_ok.
Qed.

(** Unbinding one endpoint, exactly. *)
Lemma unbind_spec s endpoint late :
  binds_ok s ->
  match binds s !! bind_key endpoint with
  | None => unbind endpoint late s = (s, Err (NoSuchBind endpoint))
  | Some i => exists t n rs, accept_tasks s !! i = Some t /\ bind_key (task_endpoint t) = bind_key endpoint
      /\ finished t = false /\ length rs = length late
      /\ unbind endpoint late s
        = (mkSock (core s) (delete (bind_key endpoint) (binds s))
             (<[i := finish (ask_to_stop t)]> (accept_tasks s)) (callbacks s ++ rs) (release t n), Ok tt)
  end.
Proof.
  intros Hok. unfold unbind. destruct (binds s !! bind_key endpoint) as [i|] eqn:Hk; [|done].
  destruct (proj1 Hok _ _ Hk) as (t & Ht & Hkt & Hs). destruct (proj2 Hok _ _ Ht Hs) as [_ Hf].
  destruct (shutdown_task_ends i late (mkSock (core s) (delete (bind_key endpoint) (binds s)) (accept_tasks s)
    (callbacks s) (sys s)) t Ht Hf) as (n & rs & Hl & Hsh).
  exists t, n, rs. by rewrite Hsh.
Qed.

(** How the task at [i] may have moved on while bindings were dropped. *)
Definition stopped_or_same (t t' : accept_task S) : Prop := t' = t \/ t' = finish (ask_to_stop t).

Lemma unbind_each_spec l late s :
  binds_ok s -> NoDup l -> Forall (fun k => is_Some (binds s !! k)) l ->
  exists s' rs, unbind_each l late s = (s', []) /\ binds_ok s' /\ core s' = core s
    /\ (forall k, binds s' !! k = if decide (k ∈ l) then None else binds s !! k)
    /\ (forall i t, accept_tasks s !! i = Some t -> exists t', accept_tasks s' !! i = Some t' /\ stopped_or_same t t'
          /\ (forall k, k ∈ l -> binds s !! k = Some i -> finished t' = true))
    /\ length (accept_tasks s') = length (accept_tasks s)
    /\ callbacks s' = callbacks s ++ rs /\ length rs = sum_list (length <$> (late <$> l)).
Proof using All.
  revert s. induction l as [|k l IH]; intros s Hok Hnd Hall; cbn [unbind_each].
  { exists s, []. split_and!; try done; [|by rewrite app_nil_r].
    intros i t Ht. exists t. split_and!; [done|by left|]. intros k Hk. by apply elem_of_nil in Hk. }
  apply NoDup_cons in Hnd as [Hk Hnd]. apply Forall_cons_1 in Hall as [[i Hi] Hall].
  assert (bind_key k = k) as Hkey.
  { destruct (proj1 Hok k i Hi) as (t & _ & <- & _). apply bind_key_idemp. }
  pose proof (unbind_spec s k (late k) Hok) as Hu. rewrite Hkey, Hi in Hu.
  destruct Hu as (t & n & rs & Ht & Hkt & Hf & Hl & Hu).
  assert (binds_ok (fst (unbind k (late k) s))) as Hok1 by (by apply (sock_step_ok s); [apply step_unbind|]).
  rewrite Hu in Hok1 |- *. cbn [fst] in Hok1.
  set (s1 := mkSock (core s) (delete k (binds s)) _ _ _) in *.
  destruct (IH s1 Hok1 Hnd) as (s' & rs' & -> & Hok' & Hcore & Hb & Htasks & Hlen & Hcb & Hrs').
  { apply Forall_forall. intros k' Hk'. cbn. rewrite lookup_delete_ne by (intros ->; done).
    by eapply Forall_forall in Hall. }
  exists s', (rs ++ rs'). split_and!; try done.
  - intros k'. rewrite Hb. cbn. destruct (decide (k' = k)) as [->|Hne].
    + rewrite (decide_True (P := k ∈ k :: l)) by constructor. case_decide; [done|]. apply lookup_delete_eq.
    + rewrite lookup_delete_ne by done. destruct (decide (k' ∈ l)) as [Hin|Hin].
      * by rewrite decide_True by (by constructor).
      * rewrite decide_False; [done|]. by intros [->|?]%elem_of_cons.
  - intros j tj Hj. destruct (decide (i = j)) as [<-|Hne].
    + destruct (Htasks i (finish (ask_to_stop t))) as (t' & Ht' & Hst & _).
      { cbn. apply list_lookup_insert_eq. by eapply lookup_lt_Some. }
      exists t'. assert (tj = t) as -> by congruence. split; [done|].
      assert (t' = finish (ask_to_stop t)) as -> by (by destruct Hst as [->| ->]).
      split; [by right|done].
    + destruct (Htasks j tj) as (t' & Ht' & Hst & Hfin); [cbn; by rewrite list_lookup_insert_ne|].
      exists t'. split_and!; [done..|]. intros k' [->|Hk']%elem_of_cons Hj'; [congruence|].
      apply (Hfin k' Hk'). cbn. rewrite lookup_delete_ne; [done|]. by intros ->.
  - rewrite Hlen. apply length_insert.
  - rewrite Hcb. cbn. by rewrite app_assoc.
  - rewrite length_app, Hl, Hrs'. done.
Qed.
(** All binds undone: every task has been told to stop, and those that were bound have ended. *)
Lemma unbind_all_ends late s :
  binds_ok s ->
  exists s' rs, unbind_all late s = (s', []) /\ binds s' = ∅ /\ core s' = core s
    /\ (forall i t, accept_tasks s' !! i = Some t -> stopping t = true)
    /\ (forall e i, binds s !! e = Some i -> exists t, accept_tasks s' !! i = Some t /\ finished t = true)
    /\ callbacks s' = callbacks s ++ rs
    /\ length rs = sum_list (length <$> (late <$> (fst <$> map_to_list (binds s)))).
Proof using All.
  intros Hr. unfold unbind_all.
  set (l := fst <$> map_to_list (binds s)).
  assert (Hl : forall k, k ∈ l <-> is_Some (binds s !! k)).
  { intros k. unfold l. rewrite list_elem_of_fmap. split.
    - intros ([k' i] & -> & Hi%elem_of_map_to_list). by exists i.
    - intros [i Hi]. exists (k, i). by rewrite elem_of_map_to_list. }
  destruct (unbind_each_spec l late s Hr) as (s' & rs & -> & [_ Hok] & Hc & Hb & Ht & _ & Hcb & Hlen).
  { apply NoDup_fst_map_to_list. }
  { apply Forall_forall. intros k. apply Hl. }
  assert (binds s' = ∅) as He.
  { apply map_empty. intros k. rewrite Hb. case_decide as Hk; [done|]. apply eq_None_not_Some. by rewrite <- Hl. }
  exists s', rs. split_and!; try done.
  - intros i t Hi. destruct (stopping t) eqn:Hs; [done|]. destruct (Hok i t Hi Hs) as [Hi' _].
    by rewrite He, lookup_empty in Hi'.
  - intros e i Hi. destruct (proj1 Hr e i Hi) as (t & Hti & _). destruct (Ht i t Hti) as (t' & Ht' & _ & Hf).
    exists t'. split; [done|]. apply (Hf e); [apply Hl; by exists i|done].
Qed.

(** A socket that has nothing bound only loses its backend. *)
Lemma drop_socket_unbound s :
  binds s = ∅ ->
  drop_socket s = mkSock (socket_drop (core s)) ∅ (accept_tasks s) (callbacks s) (sys s).
Proof. intros Hb. unfold drop_socket, drop_binds. cbn [binds]. by rewrite Hb, map_to_list_empty. Qed.

Lemma request_stops l s :
  let s' := fold_left (fun s i => request_stop i s) l s in
  core s' = core s /\ length (accept_tasks s') = length (accept_tasks s)
  /\ forall i t', accept_tasks s' !! i = Some t' -> exists t, accept_tasks s !! i = Some t
       /\ (stopping t = true -> stopping t' = true) /\ (i ∈ l -> stopping t' = true)
       /\ task_endpoint t' = task_endpoint t.
Proof.
  revert s. induction l as [|j l IH]; intros s; cbn.
  - split_and!; try done. intros i t Ht. exists t. split_and!; try done. by intros ?%not_elem_of_nil.
  - destruct (IH (request_stop j s)) as (Hc & Hlen & Ht). split_and!; [by rewrite Hc|by rewrite Hlen; cbn; rewrite length_alter|].
    intros i t' Hi. destruct (Ht i t' Hi) as (t & Hti & H1 & H2 & H3). cbn in Hti.
    destruct (decide (i = j)) as [->|Hne].
    + rewrite list_lookup_alter_eq in Hti. destruct (accept_tasks s !! j) as [t0|]; [|done]. injection Hti as <-.
      exists t0. split_and!; try done; intros _; by apply H1.
    + rewrite list_lookup_alter_ne in Hti by done. exists t. split_and!; try done.
      intros [?|?]%elem_of_cons; [done|by apply H2].
Qed.

Lemma drop_socket_core s : core (drop_socket s) = socket_drop (core s).
Proof. unfold drop_socket, drop_binds. cbn [core]. by rewrite (proj1 (request_stops _ _)). Qed.

(** The drop of a socket tells every task that is left to stop. *)
Lemma drop_socket_stops s i t :
  binds_ok s -> accept_tasks (drop_socket s) !! i = Some t -> stopping t = true.
Proof.
  intros [_ Hok]. unfold drop_socket, drop_binds. cbn [accept_tasks]. intros Hi.
  apply (request_stops _ _) in Hi as (t0 & Ht0 & H1 & H2 & _). cbn in Ht0.
  destruct (stopping t0) eqn:Hs; [by apply H1|]. apply H2. destruct (Hok i t0 Ht0 Hs) as [Hb _].
  apply list_elem_of_fmap. exists (bind_key (task_endpoint t0), i). split; [done|]. by apply elem_of_map_to_list.
Qed.
End Facts.

(** ** Properties of binding *)

(** C36 In every state that a socket reaches, its binds are exactly its accept tasks that have not
    been told to stop, one for each endpoint, and those tasks are running. *)
Theorem binds_invariant {W S} `{Runtime, !MultiPeerBackend W S, !NextMessage S, !Sys S}
    (w : W) (n : os) (s : socket_state W S) :
  rtc sock_step (new_socket w n) s ->
  (forall e, is_Some (binds s !! e) <-> exists i t, accept_tasks s !! i = Some t /\ stopping t = false
     /\ finished t = false /\ bind_key (task_endpoint t) = e)
  /\ (forall i j t t', accept_tasks s !! i = Some t -> accept_tasks s !! j = Some t' ->
       stopping t = false -> stopping t' = false ->
       bind_key (task_endpoint t) = bind_key (task_endpoint t') -> i = j).
Proof.
  intros [H1 H2]%reachable_ok. split.
  - intros e. split.
    + intros [i Hi]. destruct (H1 e i Hi) as (t & Ht & He & Hs). exists i, t. by destruct (H2 i t Ht Hs).
    + intros (i & t & Ht & Hs & _ & <-). exists i. by apply H2.
  - intros i j t t' Ht Ht' Hs Hs' He. apply H2 in Ht as [Hi _]; [|done].
    apply H2 in Ht' as [Hj _]; [|done]. congruence.
Qed.

(** C37 Unbinding an endpoint that is bound succeeds after its task has ended and released its
    listener and its socket file; other binds and tasks are as before. Unbinding another one
    answers [NoSuchBind] and does nothing. *)
Theorem unbind_exact {W S} `{Runtime, !MultiPeerBackend W S, !NextMessage S, !Sys S}
    (w : W) (n : os) (s : socket_state W S) (endpoint : Endpoint) (late : list (incoming S)) :
  rtc sock_step (new_socket w n) s ->
  match binds s !! bind_key endpoint with
  | None => unbind endpoint late s = (s, Err (NoSuchBind endpoint))
  | Some i => exists s' t n, unbind endpoint late s = (s', Ok tt)
      /\ accept_tasks s !! i = Some t /\ accept_tasks s' !! i = Some (finish (ask_to_stop t))
      /\ sys s' = release t n
      /\ binds s' = delete (bind_key endpoint) (binds s)
      /\ (forall j, j <> i -> accept_tasks s' !! j = accept_tasks s !! j)
      /\ stop_step i s' = None /\ (forall x, accept_step i x s' = None)
  end.
Proof.
  intros Hr. pose proof (unbind_spec s endpoint late (reachable_ok _ _ _ Hr)) as Hu.
  destruct (binds s !! bind_key endpoint) as [i|]; [|done].
  destruct Hu as (t & m & rs & Ht & _ & Hf & _ & Hu).
  eexists _, t, m. rewrite Hu. split; [done|].
  assert (Hi : <[i := finish (ask_to_stop t)]> (accept_tasks s) !! i = Some (finish (ask_to_stop t)))
    by (apply list_lookup_insert_eq; by eapply lookup_lt_Some).
  split_and!; try done; cbn.
  - intros j Hj. by rewrite list_lookup_insert_ne.
  - unfold stop_step. cbn. by rewrite Hi.
  - intros x. unfold accept_step. cbn. by rewrite Hi.
Qed.

(** C38 Closing a socket answers no error, ends every task of its binds and drops the socket:
    afterwards nothing is bound, no task is left that has not been told to stop, and the backend
    is what the [Drop] of the socket leaves, shut down unless the socket is a PULL. Just dropping
    the socket leaves the same backend and tells the same tasks to stop, without their end. *)
Theorem close_stops_all {W S} `{Runtime, !MultiPeerBackend W S, !NextMessage S, !Sys S}
    (w : W) (n : os) (s : socket_state W S) (late : Endpoint -> list (incoming S)) :
  rtc sock_step (new_socket w n) s ->
  (exists s', close late s = (s', []) /\ binds s' = ∅
     /\ core s' = match backend_socket_type (core s) with PULL => core s | _ => shutdown (core s) end
     /\ (forall i t, accept_tasks s' !! i = Some t -> stopping t = true)
     /\ (forall e i, binds s !! e = Some i -> exists t, accept_tasks s' !! i = Some t /\ finished t = true))
  /\ binds (drop_socket s) = ∅
  /\ core (drop_socket s) = match backend_socket_type (core s) with PULL => core s | _ => shutdown (core s) end
  /\ (forall i t, accept_tasks (drop_socket s) !! i = Some t -> stopping t = true).
Proof.
  intros Hr%reachable_ok. split; [|split_and!; [done|by rewrite drop_socket_core|]].
  - destruct (unbind_all_ends late s Hr) as (s' & rs & Hu & Hb & Hc & Ht & Hf & _).
    exists (drop_socket s'). unfold close. rewrite Hu, (drop_socket_unbound _ Hb), Hc. by split_and!.
  - intros i t. by apply drop_socket_stops.
Qed.

(** Binding again where something is bound, as adopting a second unnamed listener does, drops
    the handle of the first bind: its task is told to stop although it was not unbound, can
    only end, and then closes its listener and deletes the socket file. *)
Theorem rebind_stops_first {W S} `{Runtime, !MultiPeerBackend W S, !NextMessage S, !Sys S}
    (w : W) (n : os) (s s1 s2 : socket_state W S) (target1 target2 : BindTarget S) (e1 e2 : Endpoint) :
  rtc sock_step (new_socket w n) s ->
  bind_inner target1 s = (s1, Completed (Ok e1)) ->
  bind_inner target2 s1 = (s2, Completed (Ok e2)) ->
  bind_key e1 = bind_key e2 ->
  let i := length (accept_tasks s) in
  exists t s3, accept_tasks s1 !! i = Some t /\ stopping t = false
    /\ binds s2 !! bind_key e2 = Some (Datatypes.S i)
    /\ (forall e, binds s2 !! e <> Some i)
    /\ stop_step i s2 = Some s3 /\ sys s3 = release t (sys s2).
Proof.
  intros Hr Hb1 Hb2 He i.
  assert (Hspec : forall target (s s' : socket_state W S) e, bind_inner target s = (s', Completed (Ok e)) ->
    exists t w' n', s' = insert_bind e t (mkSock w' (binds s) (accept_tasks s) (callbacks s) n')
      /\ task_endpoint t = e /\ stopping t = false /\ finished t = false).
  { clear. intros target s s' e. unfold bind_inner.
    destruct (match target with TargetEndpoint e => begin_accept e (backend_socket_options (core s)) (sys s)
      | TargetListener l => begin_accept_listener l (backend_socket_options (core s)) (sys s) end) as [n c] eqn:Hb.
    destruct c as [[[endpoint t]|err]| |]; [|done..]. intros [= <- <-]. apply begin_accept_task in Hb as Ht.
    eexists t, _, n. by split. }
  pose proof (reachable_ok _ _ _ Hr) as Hok.
  assert (binds_ok s1) as Hok1 by (apply (sock_step_ok s); [replace s1 with (fst (bind_inner target1 s)) by (by rewrite Hb1); apply step_bind|done]).
  assert (binds_ok s2) as Hok2 by (apply (sock_step_ok s1); [replace s2 with (fst (bind_inner target2 s1)) by (by rewrite Hb2); apply step_bind|done]).
  destruct (Hspec _ _ _ _ Hb1) as (t & w1 & n1 & Hs1 & Ht1 & Hst & Hf).
  destruct (Hspec _ _ _ _ Hb2) as (t' & w2 & n2 & Hs2 & _).
  assert (accept_tasks s1 !! i = Some t /\ length (accept_tasks s1) = Datatypes.S i
    /\ binds s1 !! bind_key e1 = Some i) as (Hi & Hlen & Hbi).
  { rewrite Hs1. unfold insert_bind. cbn [binds accept_tasks].
    destruct (binds s !! bind_key e1) as [old|]; cbn.
    - rewrite lookup_app_r, length_app, length_alter, Nat.sub_diag, lookup_insert_eq by (by rewrite length_alter).
      split_and!; [done|cbn [length]; unfold i; lia|done].
    - rewrite lookup_app_r, length_app, Nat.sub_diag, lookup_insert_eq by done. split_and!; [done|cbn [length]; unfold i; lia|done]. }
  assert (accept_tasks s2 !! i = Some (ask_to_stop t) /\ binds s2 !! bind_key e2 = Some (Datatypes.S i)) as [Hi2 Hb2'].
  { rewrite Hs2. unfold insert_bind. cbn [binds accept_tasks]. rewrite <- He, Hbi. cbn. split.
    - rewrite lookup_app_l by (rewrite length_alter, Hlen; lia). by rewrite list_lookup_alter_eq, Hi.
    - rewrite lookup_insert_eq. by rewrite Hlen. }
  eexists t, _. split_and!; try done.
  - intros e Hbe. destruct (proj1 Hok2 e i Hbe) as (t2 & Ht2 & _ & Hs). rewrite Hi2 in Ht2.
    injection Ht2 as <-. done.
  - unfold stop_step. rewrite Hi2. cbn. by rewrite Hf.
  - done.
Qed.

(** Connections that a socket has accepted outlive its close: the callbacks spawned before and
    during it all stay, and each then adds its peer to the backend that was shut down. *)
Theorem close_keeps_callbacks {W S} `{Runtime, !MultiPeerBackend W S, !NextMessage S, !Sys S}
    (w : W) (n : os) (s s' : socket_state W S) (late : Endpoint -> list (incoming S)) (errs : list ZmqError) :
  rtc sock_step (new_socket w n) s ->
  close late s = (s', errs) ->
  (exists rs, callbacks s' = callbacks s ++ rs
     /\ length rs = sum_list (length <$> (late <$> (fst <$> map_to_list (binds s)))))
  /\ forall j uuid r, callbacks s' !! j = Some r -> exists s'', callback_step j uuid s' = Some s''
       /\ core s'' = accept_callback uuid r (socket_drop (core s)).
Proof.
  intros Hr%reachable_ok. destruct (unbind_all_ends late s Hr) as (s0 & rs & Hu & Hb & Hc & _ & _ & Hcb & Hlen).
  unfold close. rewrite Hu, (drop_socket_unbound _ Hb), Hc. intros [= <- <-].
  split; [by exists rs|]. intros j uuid r Hj. unfold callback_step. rewrite Hj. by eexists.
Qed.

(** ** A ROUTER that listens *)

Module Example.
#[local] Existing Instance Runtime_exec.
#[local] Existing Instance Regexes_exec.

Abbreviation socket := (socket_state (GenericSocketBackend (list Message)) (list Message)).

Definition router : socket :=
  new_socket (with_options (Some (set_on_disconnect new_queue)) ROUTER default_options new_process) Loopback.start.

(** It binds [tcp://127.0.0.1:0], adopts two unnamed listeners, and accepts a connection. *)
Definition bound : socket := fst (socket_bind (bs "tcp://127.0.0.1:0") router).
Definition endpoint : Endpoint := Tcp (Ipv4 [127; 0; 0; 1]) 5555.

Definition unnamed (i : nat) : BindTarget (list Message) := TargetListener (IpcListener (i, None)).
Definition adopt (i : nat) (s : socket) : socket := fst (bind_inner (unnamed i) s).

Lemma adopted i s e : snd (bind_inner (unnamed i) s) = Completed (Ok e) -> bind_inner (unnamed i) s = (adopt i s, Completed (Ok e)).
Proof. apply pair_snd. Qed.

Definition client : incoming (list Message) := TcpIncoming (Ok (7%nat, Loopback.address 9)).
Definition accepted : socket := default bound (accept_step 0 client bound).

(** The callback of that connection runs, and then another connection is accepted. *)
Definition connected : socket := default accepted (callback_step 0 (bs "fresh") accepted).
Definition busy : socket :=
  default connected (accept_step 0 (TcpIncoming (Ok (8%nat, Loopback.address 11))) connected).

Definition no_more (_ : Endpoint) : list (incoming (list Message)) := [].
Definition closed : socket := fst (close no_more busy).

Lemma bound_reachable : rtc sock_step router bound.
Proof. apply rtc_once. exact (step_bind router (TargetEndpoint (Tcp (Ipv4 [127; 0; 0; 1]) 0))). Qed.

Lemma accepted_reachable : rtc sock_step router accepted.
Proof. eapply rtc_r; [apply bound_reachable|]. by apply (step_accept _ 0 client). Qed.

Lemma busy_reachable : rtc sock_step router busy.
Proof.
  eapply rtc_r; [eapply rtc_r; [apply accepted_reachable|]|].
  - exact (step_callback accepted 0 (bs "fresh") connected eq_refl).
  - exact (step_accept connected 0 (TcpIncoming (Ok (8%nat, Loopback.address 11))) busy eq_refl).
Qed.

Lemma busy_shut_down :
  match backend_socket_type (core busy) with PULL => core busy | _ => shutdown (core busy) end
  = generic_shutdown (core busy).
Proof. assert (backend_socket_type (core busy) = ROUTER) as -> by (vm_compute; reflexivity). reflexivity. Qed.

Lemma busy_peer : is_Some (peers (core busy) !! bs "fresh").
Proof. apply (bool_decide_unpack _). vm_compute. exact I. Qed.
End Example.

Lemma binds_invariant_witness :
  exists (i : nat) t, accept_tasks Example.bound !! i = Some t /\ finished t = false.
Proof.
  destruct (binds_invariant _ _ _ Example.bound_reachable) as [H _].
  destruct (proj1 (H Example.endpoint)) as (i & t & Ht & _ & Hf & _).
  - apply (bool_decide_unpack _). by vm_compute.
  - by exists i, t.
Defined.

Lemma unbind_exact_witness :
  unbind (Ipc None) [] Example.bound = (Example.bound, Err (NoSuchBind (Ipc None)))
  /\ exists s', unbind Example.endpoint [Example.client] Example.bound = (s', Ok tt) /\ binds s' = ∅.
Proof.
  pose proof (unbind_exact _ _ _ (Ipc None) [] Example.bound_reachable) as H1.
  pose proof (unbind_exact _ _ _ Example.endpoint [Example.client] Example.bound_reachable) as H2.
  assert (binds Example.bound !! bind_key (Ipc None) = None) as E1 by (by vm_compute).
  assert (binds Example.bound !! bind_key Example.endpoint = Some 0%nat) as E2 by (by vm_compute).
  rewrite E1 in H1. rewrite E2 in H2. split; [exact H1|].
  destruct H2 as (s' & t & n & Hu & _ & _ & _ & Hb & _). exists s'. split; [exact Hu|].
  rewrite Hb. apply (bool_decide_unpack _). by vm_compute.
Defined.

(** The peer that was connected is dropped with the socket. *)
Lemma close_stops_all_witness :
  is_Some (peers (core Example.busy) !! bs "fresh")
  /\ exists s', close Example.no_more Example.busy = (s', []) /\ binds s' = ∅ /\ peers (core s') = ∅.
Proof.
  split; [exact Example.busy_peer|].
  destruct (close_stops_all _ _ _ Example.no_more Example.busy_reachable) as [(s' & Hc & Hb & Hw & _) _].
  exists s'. split; [exact Hc|]. split; [exact Hb|].
  exact (f_equal peers (eq_trans Hw Example.busy_shut_down)).
Defined.

(** The listener adopted first is closed, although it was not unbound. *)
Lemma rebind_stops_first_witness :
  exists s3, stop_step 0 (Example.adopt 1 (Example.adopt 0 Example.router)) = Some s3
    /\ Loopback.closed (sys s3) = [0%nat].
Proof.
  assert (snd (bind_inner (Example.unnamed 0) Example.router) = Completed (Ok (Ipc None))) as E1 by (by vm_compute).
  assert (snd (bind_inner (Example.unnamed 1) (Example.adopt 0 Example.router)) = Completed (Ok (Ipc None)))
    as E2 by (by vm_compute).
  destruct (rebind_stops_first (core Example.router) (sys Example.router) Example.router (Example.adopt 0 Example.router)
    (Example.adopt 1 (Example.adopt 0 Example.router)) (Example.unnamed 0) (Example.unnamed 1) (Ipc None) (Ipc None)
    (rtc_refl _ _) (Example.adopted _ _ _ E1) (Example.adopted _ _ _ E2) eq_refl)
    as (t & s3 & Ht & _ & _ & _ & Hs & Hsys).
  assert ((fun t => Loopback.closed (release t (sys (Example.adopt 1 (Example.adopt 0 Example.router)))))
    <$> accept_tasks (Example.adopt 0 Example.router) !! length (accept_tasks Example.router) = Some [0%nat])
    as E3 by (by vm_compute).
  rewrite Ht in E3. exists s3. split; [exact Hs|]. rewrite Hsys. by injection E3.
Defined.

(** The peer that was being accepted when the socket closed is added to the backend that was
    shut down. *)
Lemma close_keeps_callbacks_witness :
  exists s, callback_step 0 (bs "late") Example.closed = Some s
    /\ is_Some (peers (core s) !! bs "late") /\ peers (core Example.closed) = ∅.
Proof.
  destruct (close_keeps_callbacks _ _ _ Example.closed Example.no_more [] Example.busy_reachable) as [_ H].
  - apply pair_snd. by vm_compute.
  - assert ((fun r => bool_decide (is_Some (peers (accept_callback (bs "late") r (socket_drop (core Example.busy))) !! bs "late")))
      <$> callbacks Example.closed !! 0%nat = Some true) as E2 by (by vm_compute).
    destruct (callbacks Example.closed !! 0%nat) as [r|] eqn:E; [|discriminate E2].
    destruct (H 0%nat (bs "late") r E) as (s & Hs & Hc). exists s. split; [exact Hs|]. split.
    + rewrite Hc. apply (proj1 (bool_decide_eq_true _)). exact (f_equal (default false) E2).
    + apply (bool_decide_unpack _). vm_compute. exact I.
Defined.
