(* ===== verification/Connect.v ===== *)
(** Connecting a socket ([Socket::connect], src/src/lib.rs): attempts over the transport until
    one succeeds, the handshake, both under the socket's timeout, and then the backend. *)

From S2P Require Import Prelude Message Endpoint Errors SocketTypes Greeting Command Codec.
From S2P Require Import FairQueue Channels Runtime Backend Handshake Transport Binds.

Local Open Scope Z_scope.

(** ** The attempts of [connect_forever] over the transport *)

Section Attempts.
Context {S : Type} `{Runtime, !Sys S}.

Lemma transport_connect_completes endpoint options (n : os) :
  exists n' r, transport_connect endpoint options n = (n', Completed r).
Proof.
  destruct endpoint as [host port|[path|]]; cbn; [| |by do 2 eexists].
  - unfold tcp_connect, tbind, lift, owning, ret.
    destruct (tcp_stream_connect (display_host host) port n) as [n1 [k|e]]; cbn; [|by do 2 eexists].
    destruct (set_nodelay k true n1) as [n2 [u|e]]; cbn; [|by do 2 eexists].
    destruct (tcp_peer_addr k _) as [n3 [a|e]]; cbn; by do 2 eexists.
  - unfold ipc_connect, tbind, lift, owning, ret.
    destruct (unix_stream_connect path n) as [n1 [k|e]]; cbn; [|by do 2 eexists].
    destruct (unix_peer_addr k n1) as [n2 [a|e]]; cbn; by do 2 eexists.
Qed.

(** The outcome of an attempt, which is there by the lemma above. *)
Definition attempt_outcome (endpoint : Endpoint) (options : SocketOptions) (n : os) : result (FramedIo S * Endpoint) ZmqError :=
  match snd (transport_connect endpoint options n) with
  | Completed r => r
  | _ => Err (Other "unreachable")
  end.

(** [options] are those of the connecting socket, [env i] is the system as the [i]-th attempt finds it, [time i] how long it takes, and
    [extra i] the random jitter in permille of the delay. *)
Program Definition transport_connector (endpoint : Endpoint) (options : SocketOptions) (env : nat -> os) (time extra : nat -> Z)
    (Htime : forall i, 0 <= time i) (Hextra : forall i, 0 <= extra i <= 100) :
    Connector (FramedIo S * Endpoint) := {|
  attempt i := (time i, attempt_outcome endpoint options (env i));
  jitter i delay := delay * extra i / 1000;
|}.
Next Obligation. intros. apply Htime. Qed.
Next Obligation.
  intros endpoint options env time extra Htime Hextra i delay Hd. specialize (Hextra i). split.
  - apply Z.div_pos; nia.
  - transitivity (delay * 100 / 1000); [apply Z.div_le_mono; nia|].
    change 1000 with (10 * 100). by rewrite Z.div_mul_cancel_r.
Qed.
End Attempts.

(** ** [Socket::connect] *)

(** How [backend.peer_connected(..).await] comes back: after some time, or not at all, with what it
    had written. The SUB and XSUB backends send their subscriptions in it, which waits for the
    peer's connection to take them; the others only wait for locks. *)
Inductive joining `{Runtime} : Type :=
  | Joins (time : Z)
  | Stuck (o : sinks).

(** Attempts that are made within the timeout [d], which are all the ones it can last for. *)
Definition connect_fuel (d : Duration) : nat := Z.to_nat (d / INITIAL) + 2.

Section Connect.
Context {W S : Type} `{Runtime, !MultiPeerBackend W S, !NextMessage S, !Connector (FramedIo S * Endpoint)}.
Implicit Types w : W.

Definition set_backend_outputs (o : sinks) w : W :=
  set_backend_shared (set_outputs o (backend_shared w)) w.

(** What the timeout guards: the attempts, then the handshake, which takes the time [hs]. The
    first component are the sinks it leaves. *)
Definition connecting (fuel : nat) (endpoint : Endpoint) (hs : Z) (uuid : bytes) w :
    option (sinks * future (FramedIo S * Endpoint * PeerIdentity)) :=
  match connect_forever fuel endpoint with
  | None => None
  | Some (t, Err e) => Some (outputs (backend_shared w), (t, Completed (Err e)))
  | Some (t, Ok (socket, endpoint)) =>
      let '(o, socket, c) :=
        peer_handshake uuid (backend_socket_type w) (backend_socket_options w)
          (outputs (backend_shared w)) socket in
      Some (o, (t + hs, and_then c (fun peer_id => Completed (Ok (socket, endpoint, peer_id)))))
  end.

(** The future ends before the timer. *)
Definition in_time {A} (duration : option Duration) (f : future A) : bool :=
  match duration, f with
  | Some _, (_, Hangs) => false
  | Some d, (t, _) => t <=? d
  | None, _ => true
  end.

(** The connection made, taken by the backend and reported: the peer it is. [None]: without a
    timeout, the attempts go on. [cut] are the sinks when the timeout ends the handshake in its
    middle. The timeout does not guard what the backend does. *)
Definition connect_peer (fuel : nat) (endpoint : Endpoint) (hs : Z) (uuid : bytes) (cut : sinks) (joined : joining) w :
    option (W * future PeerIdentity) :=
  let connect_timeout := connect_timeout (backend_socket_options w) in
  let fuel := match connect_timeout with Some d => connect_fuel d | None => fuel end in
  match connecting fuel endpoint hs uuid w, connect_timeout with
  | None, None => None
  | None, Some d => Some (w, (d, Completed (Err (ConnectTimeout d))))
  | Some (o, f), _ =>
      let w := set_backend_outputs (if in_time connect_timeout f then o else cut) w in
      match run_with_timeout connect_timeout f with
      | (t, Completed (Ok (socket, endpoint, peer_id))) =>
          match joined with
          | Joins time =>
              Some (emit_event (Connected endpoint peer_id) (Runtime.peer_connected peer_id socket w),
                    (t + time, Completed (Ok peer_id)))
          | Stuck o => Some (set_backend_outputs o w, (t, Hangs))
          end
      | (t, Completed (Err e)) => Some (w, (t, Completed (Err e)))
      | (t, Hangs) => Some (w, (t, Hangs))
      | (t, Panicked) => Some (w, (t, Panicked))
      end
  end.

Definition connect (fuel : nat) (endpoint : Endpoint) (hs : Z) (uuid : bytes) (cut : sinks) (joined : joining) w :
    option (W * future unit) :=
  match connect_peer fuel endpoint hs uuid cut joined w with
  | Some (w, (t, c)) => Some (w, (t, and_then c (fun _ => Completed (Ok tt))))
  | None => None
  end.

Definition socket_connect `{Regexes} (fuel : nat) (endpoint : bytes) (hs : Z) (uuid : bytes) (cut : sinks)
    (joined : joining) w :
    option (W * future unit) :=
  match endpoint_from_str endpoint with
  | Ok endpoint => connect fuel endpoint hs uuid cut joined w
  | Err e => Some (w, (0, Completed (Err (EndpointErr e))))
  end.
End Connect.

(** ** The fuel is enough *)

Section Fuel.
Context {C : Type} `{Connector C}.

Lemma connect_loop_none endpoint fuel i delay elapsed :
  connect_loop fuel i endpoint delay elapsed = None ->
  forall j, (i <= j < i + fuel)%nat -> retried endpoint (snd (attempt j)) = true.
Proof.
  revert i delay elapsed. induction fuel as [|fuel IH]; intros i delay elapsed Hc j Hj; [lia|].
  cbn in Hc. destruct (attempt i) as [t [c|e]] eqn:E; [done|].
  destruct (is_retryable_connect_error endpoint e) eqn:Er; [|done].
  destruct (decide (j = i)) as [->|Hne]; [by rewrite E|]. apply (IH _ _ _ Hc). lia.
Qed.

Lemma connect_loop_time endpoint fuel i delay el elapsed r :
  0 <= delay -> connect_loop fuel i endpoint delay el = Some (elapsed, r) -> el <= elapsed.
Proof.
  revert i delay el. induction fuel as [|fuel IH]; intros i delay el Hd; cbn; [done|].
  pose proof (attempt_time i) as Ht. destruct (attempt i) as [t [c|e]]; cbn in Ht; [intros [= <- _]; lia|].
  pose proof (jitter_bound i delay Hd). destruct (is_retryable_connect_error endpoint e).
  - unfold sleep. intros Hl%IH; [lia|]. unfold MAX, millis. lia.
  - intros [= <- _]. lia.
Qed.

(** More attempts than the timeout allows for take longer than it. *)
Lemma connect_fuel_enough endpoint d fuel elapsed r :
  0 <= d -> connect_forever (connect_fuel d) endpoint = None ->
  connect_forever fuel endpoint = Some (elapsed, r) -> d < elapsed.
Proof.
  intros Hd Hn Hf. unfold connect_forever in Hn. pose proof (connect_loop_none _ _ _ _ _ Hn) as Hr.
  assert (connect_fuel d <= fuel)%nat as Hle.
  { destruct (decide (connect_fuel d <= fuel)%nat); [done|].
    rewrite (connect_forever_goes_on endpoint fuel fuel) in Hf; [done|intros; apply Hr; lia|done]. }
  unfold connect_forever in Hf. change INITIAL with (backoff 0) in Hf.
  destruct (connect_loop_retries endpoint (connect_fuel d) 0 (fuel - connect_fuel d) 0) as (el & Hl & He).
  { intros j Hj. apply Hr. lia. }
  replace (connect_fuel d + (fuel - connect_fuel d))%nat with fuel in Hl by lia. rewrite Hl in Hf.
  pose proof (spent_lower (connect_fuel d) 0) as Hs.
  assert (d < Z.of_nat (connect_fuel d) * INITIAL).
  { unfold connect_fuel, INITIAL, millis. pose proof (Z.div_mod d (50 * 10 ^ 6)). 
    pose proof (Z.mod_pos_bound d (50 * 10 ^ 6)). pose proof (Z.div_pos d (50 * 10 ^ 6)). lia. }
  apply connect_loop_time in Hf; [lia|].
  pose proof (backoff_range (0 + connect_fuel d)). unfold INITIAL, millis in *. lia.
Qed.
End Fuel.

(** ** Properties of connecting *)

(** A connect that succeeds has come this way, with or without a timeout. *)
Lemma connect_ok {W S} `{Runtime, !MultiPeerBackend W S, !NextMessage S, !Connector (FramedIo S * Endpoint)}
    fuel endpoint hs uuid cut joined (w w' : W) t :
  connect fuel endpoint hs uuid cut joined w = Some (w', (t, Completed (Ok tt))) ->
  exists f t0 io ep o io' p, connect_forever f endpoint = Some (t0, Ok (io, ep))
    /\ peer_handshake uuid (backend_socket_type w) (backend_socket_options w)
         (outputs (backend_shared w)) io = (o, io', Completed (Ok p))
    /\ w' = emit_event (Connected ep p) (Runtime.peer_connected p io' (set_backend_outputs o w)).
Proof.
  unfold connect, connect_peer, connecting. set (dur := connect_timeout _).
  set (f := match dur with Some d => connect_fuel d | None => fuel end).
  destruct (connect_forever f endpoint) as [[t0 [[io ep]|e]]|] eqn:Hc.
  - destruct (peer_handshake _ _ _ _ io) as [[o io'] c] eqn:Hh. intros Hr. exists f, t0, io, ep, o, io'.
    destruct dur as [d|], c as [[p|e]| |]; cbn in Hr;
      try (destruct (Z.leb_spec (t0 + hs) d)); cbn in Hr; destruct joined; simplify_eq; by exists p.
  - destruct dur as [d|]; cbn; [destruct (Z.leb_spec t0 d)|]; cbn; by intros [=].
  - destruct dur; cbn; by intros [=].
Qed.

(** C34 With a timeout, connecting and shaking hands end within it. A connect that fails is back
    within the timeout, and the backend has no new peer and reports nothing. A connect that
    succeeds has had a connection from an attempt, whose handshake was accepted, within the
    timeout; the backend has taken it and reported it, and the time that the backend took is
    the only time that a connect may have beyond the timeout. It hangs only if the backend
    does, while it joins the peer. *)
Theorem connect_bounded {W S} `{Runtime, !MultiPeerBackend W S, !NextMessage S, !Connector (FramedIo S * Endpoint)}
    (fuel : nat) (endpoint : Endpoint) (hs : Z) (uuid : bytes) (cut : sinks) (joined : joining) (w : W)
    (d : Duration) :
  connect_timeout (backend_socket_options w) = Some d -> 0 <= d ->
  exists w' t c, connect fuel endpoint hs uuid cut joined w = Some (w', (t, c))
    /\ match c with
       | Completed (Err _) | Panicked => t <= d /\ (w' = w \/ exists o, w' = set_backend_outputs o w)
       | Completed (Ok _) | Hangs => exists f t0 io ep o io' p,
           connect_forever f endpoint = Some (t0, Ok (io, ep)) /\ t0 + hs <= d
           /\ peer_handshake uuid (backend_socket_type w) (backend_socket_options w)
               (outputs (backend_shared w)) io = (o, io', Completed (Ok p))
           /\ match joined with
              | Joins time => c = Completed (Ok tt) /\ t = t0 + hs + time
                  /\ w' = emit_event (Connected ep p) (Runtime.peer_connected p io' (set_backend_outputs o w))
              | Stuck o' => c = Hangs /\ t = t0 + hs
                  /\ w' = set_backend_outputs o' (set_backend_outputs o w)
              end
       end.
Proof.
  intros Hd Hpos. unfold connect, connect_peer. rewrite Hd. unfold connecting.
  destruct (connect_forever (connect_fuel d) endpoint) as [[t0 [[io ep]|e]]|] eqn:Hc.
  - destruct (peer_handshake _ _ _ _ io) as [[o io'] c] eqn:Hh. destruct c as [[p|e]| |]; cbn.
    + destruct (Z.leb_spec (t0 + hs) d).
      * cbn. destruct joined; cbn; do 3 eexists; (split; [done|]); by eexists _, t0, io, ep, o, io', p.
      * cbn; do 3 eexists. split; [done|]. split; [lia|eauto].
    + destruct (Z.leb_spec (t0 + hs) d); cbn; do 3 eexists; (split; [done|]); (split; [lia|eauto]).
    + cbn; do 3 eexists; (split; [done|]); (split; [lia|eauto]).
    + destruct (Z.leb_spec (t0 + hs) d); cbn; do 3 eexists; (split; [done|]); (split; [lia|eauto]).
  - cbn. destruct (Z.leb_spec t0 d); cbn; do 3 eexists; (split; [done|]); (split; [lia|eauto]).
  - cbn; do 3 eexists; (split; [done|]); (split; [lia|eauto]).
Qed.

(** C35 A connect succeeds when it can: if attempts that fail in a way worth a retry are followed
    by one that succeeds, in time for its handshake to be accepted before the timeout, the
    peer is connected and reported, when the backend has taken it. *)
Theorem connect_succeeds {W S} `{Runtime, !MultiPeerBackend W S, !NextMessage S, !Connector (FramedIo S * Endpoint)}
    (fuel n : nat) (endpoint ep : Endpoint) (hs : Z) (uuid : bytes) (cut o : sinks) (w : W) (d : Duration)
    (io io' : FramedIo S) (p : PeerIdentity) (time : Z) :
  connect_timeout (backend_socket_options w) = Some d ->
  (forall j, (j < n)%nat -> retried endpoint (snd (attempt j)) = true) ->
  snd (attempt n) = Ok (io, ep) ->
  peer_handshake uuid (backend_socket_type w) (backend_socket_options w) (outputs (backend_shared w)) io
    = (o, io', Completed (Ok p)) ->
  0 <= hs -> spent n 0 + slack n 0 + fst (attempt n) + hs <= d ->
  exists t, t <= d /\ connect fuel endpoint hs uuid cut (Joins time) w
    = Some (emit_event (Connected ep p) (Runtime.peer_connected p io' (set_backend_outputs o w)),
            (t + time, Completed (Ok tt))).
Proof.
  intros Hd Hr Hn Hh Hhs Ht. pose proof (spent_lower n 0) as Hs.
  assert (0 <= slack n 0) as Hsl.
  { clear. generalize 0%nat as i. induction n as [|n IH]; intros i; cbn [slack]; [lia|].
    specialize (IH (Datatypes.S i)). pose proof (backoff_range i). unfold INITIAL, millis in *.
    assert (0 <= backoff i / 10) by (apply Z.div_pos; lia). lia. }
  assert (n < connect_fuel d)%nat as Hf.
  { unfold connect_fuel. pose proof (attempt_time n).
    assert (Z.of_nat n <= d / INITIAL) by (apply Z.div_le_lower_bound; unfold INITIAL, millis in *; lia). lia. }
  destruct (connect_forever_ends endpoint n (connect_fuel d) Hr) as (el & Hc & He); [by rewrite Hn|done|].
  exists (el + fst (attempt n) + hs). split; [lia|]. unfold connect, connect_peer. rewrite Hd. unfold connecting.
  rewrite Hc, Hn, Hh. cbn. by rewrite (proj2 (Z.leb_le _ _)) by lia.
Qed.

(** ** A DEALER that connects *)

Module Example.
#[local] Existing Instance Runtime_exec.

Abbreviation backend := (GenericSocketBackend (list Message)).

Definition dealer : backend := with_options (Some (set_on_disconnect new_queue)) ROUTER default_options new_process.
Definition endpoint : Endpoint := Tcp (Domain (bs "localhost")) 5555.

(** The first attempt reaches the peer, after a millisecond. *)
#[global] Instance attempts : Connector (FramedIo (list Message) * Endpoint) :=
  transport_connector endpoint default_options (fun _ => Loopback.start) (fun _ => millis) (fun _ => 50)
    (fun _ => ltac:(done)) (fun _ => ltac:(done)).

Definition connection : FramedIo (list Message) * Endpoint :=
  (mkIo [MGreeting default_greeting; MCommand (announced DEALER default_options)] 0%nat,
   from_tcp_addr (V4 [127; 0; 0; 1]) 0).

Definition shaken := peer_handshake (bs "fresh") ROUTER default_options Recording.empty (fst connection).

Definition connected : option (backend * future unit) :=
  connect 0 endpoint millis (bs "fresh") Recording.empty (Joins 0) dealer.

Lemma attempt_connected : option_map (fun x => snd (snd x)) connected = Some (Completed (Ok tt)).
Proof. vm_compute. reflexivity. Qed.

Definition impatient : backend :=
  with_options (Some (set_on_disconnect new_queue)) ROUTER (SocketTypes.with_connect_timeout default_options millis) new_process.

Definition hurried : option (backend * future unit) :=
  connect 0 endpoint millis (bs "fresh") Recording.empty (Joins 0) impatient.

Lemma hurried_fails :
  option_map (fun x => snd (snd x)) hurried = Some (Completed (Err (ConnectTimeout millis))).
Proof. vm_compute. reflexivity. Qed.
End Example.

(** With a timeout of a millisecond the handshake comes too late. *)
Lemma connect_bounded_witness :
  (exists w t, Example.connected = Some (w, (t, Completed (Ok tt))) /\ t <= DEFAULT_CONNECT_TIMEOUT)
  /\ exists w t e, Example.hurried = Some (w, (t, Completed (Err e))) /\ t <= millis.
Proof.
  split.
  - destruct (connect_bounded (H := Runtime_exec) 0 Example.endpoint millis (bs "fresh") Recording.empty (Joins 0)
      Example.dealer DEFAULT_CONNECT_TIMEOUT) as (w & t & c & Hc & Ht); [reflexivity|done|].
    assert (c = Completed (Ok tt)) as ->.
    { pose proof (eq_trans (eq_sym (f_equal (option_map (fun x => snd (snd x))) Hc)) Example.attempt_connected) as E.
      by injection E. }
    destruct Ht as (f & t0 & io & ep & o & io' & p & _ & Ht0 & _ & _ & -> & _). exists w, (t0 + millis + 0).
    split; [exact Hc|lia].
  - destruct (connect_bounded (H := Runtime_exec) 0 Example.endpoint millis (bs "fresh") Recording.empty (Joins 0)
      Example.impatient millis) as (w & t & c & Hc & Ht); [reflexivity|done|].
    pose proof (eq_trans (eq_sym (f_equal (option_map (fun x => snd (snd x))) Hc)) Example.hurried_fails) as E.
    injection E as ->. destruct Ht as [Ht _]. exists w, t, (ConnectTimeout millis). split; [exact Hc|exact Ht].
Defined.

Lemma connect_succeeds_witness :
  exists w t, Example.connected = Some (w, (t + 0, Completed (Ok tt))).
Proof.
  assert (snd Example.shaken = Completed (Ok (bs "fresh"))) as Hh by (by vm_compute).
  destruct (connect_succeeds (H := Runtime_exec) 0 0 Example.endpoint (snd Example.connection) millis (bs "fresh")
    Recording.empty (fst (fst Example.shaken)) Example.dealer DEFAULT_CONNECT_TIMEOUT
    (fst Example.connection) (snd (fst Example.shaken)) (bs "fresh") 0) as (t & _ & Hc);
    [done|intros j Hj; lia|by vm_compute| |done|by vm_compute|].
  - revert Hh. unfold Example.shaken. destruct (peer_handshake _ _ _ _ _) as [[o io] c]. cbn. by intros ->.
  - eexists _, t. exact Hc.
Defined.
