(* ===== verification/Reconnect.v ===== *)
(** Reconnecting (src/src/reconnect.rs, and [connect_with_reconnect] of sub_backend.rs): the
    background task of a SUB or XSUB connection, which waits to be told that its peer is gone
    and then tries to connect again, after delays that grow. *)

From S2P Require Import Prelude Message Endpoint Errors SocketTypes Greeting Command Codec.
From S2P Require Import FairQueue Channels Runtime Handshake Transport Binds Connect.
From S2P Require Import Subscriptions SubBackend.

Local Open Scope Z_scope.

(** [ReconnectConfig]. The multiplier is an integer, as in the only configuration the library
    uses; the [f64] computations with it are then exact to the nanosecond. *)
Record ReconnectConfig : Type := mkConfig {
  initial_interval : Duration;
  max_interval : Duration;
  backoff_multiplier : Z;
}.

Definition default_config : ReconnectConfig := mkConfig (100 * millis) (30000 * millis) 2.

(** [jitter] is the random [0.0..0.1] of seconds, in nanoseconds. *)
Definition MAX_JITTER : Z := 100 * millis.

Definition next_interval (config : ReconnectConfig) (current_interval jitter : Duration) : Duration :=
  Z.min (current_interval * backoff_multiplier config + jitter) (max_interval config).

(** Where the task is in its two loops: at the [select!] of the outer one; in the [retry] loop, at
    the [select!] around the sleep, with the number of the attempt and the interval; or in
    [try_reconnect]. *)
Inductive reconnect_phase : Type :=
  | Waiting
  | Sleeping (attempt : Z) (current_interval : Duration)
  | Trying (attempt : Z) (current_interval : Duration)
  | Ended.

(** The task: [seen] are the notices it has read of its channel, and [stop_ready] says that its
    shutdown channel is ready. *)
Record reconnect_task `{Runtime} : Type := mkReconnect {
  reconnect_endpoint : Endpoint;
  reconnect_config : ReconnectConfig;
  disconnect_tx : sender PeerIdentity;
  seen : nat;
  phase : reconnect_phase;
  stop_ready : bool;
}.
Arguments mkReconnect {_} _ _ _ _ _ _.

Section Reconnect.
Context {W S : Type} `{Runtime, !MultiPeerBackend W S, !NextMessage S, !Sys S}.

(** [RegisterDisconnectFn]. *)
Context (register_disconnect_fn : PeerIdentity -> sender PeerIdentity -> W -> W).
Implicit Types (w : W) (st : reconnect_task).

Definition set_phase (p : reconnect_phase) st : reconnect_task :=
  mkReconnect (reconnect_endpoint st) (reconnect_config st) (disconnect_tx st) (seen st) p (stop_ready st).

Definition set_notices (n : net PeerIdentity) w : W :=
  let sh := backend_shared w in
  set_backend_shared (mkShared (messages sh) (events sh) n (outputs sh) (tasks sh)) w.

(** [register_disconnect_fn(peer_id, disconnect_tx.clone())] *)
Definition register (peer_id : PeerIdentity) (tx : sender PeerIdentity) w : W :=
  let '(n, tx) := clone_sender (notices (backend_shared w)) tx in
  register_disconnect_fn peer_id tx (set_notices n w).

Definition spawn_reconnect_task (endpoint : Endpoint) (initial_peer_id : PeerIdentity)
    (config : ReconnectConfig) w : W * reconnect_task :=
  let '(n, disconnect_tx) := channel (notices (backend_shared w)) 1 in
  (register initial_peer_id disconnect_tx (set_notices n w),
   mkReconnect endpoint config disconnect_tx 0 Waiting false).

(** The handle's sender is used by [ReconnectHandle::shutdown], or dropped: either way the
    [oneshot] channel is ready. *)
Definition handle_shutdown st : reconnect_task :=
  mkReconnect (reconnect_endpoint st) (reconnect_config st) (disconnect_tx st) (seen st) (phase st) true.

Definition drop_handle st : reconnect_task :=
  mkReconnect (reconnect_endpoint st) (reconnect_config st) (disconnect_tx st) (seen st) (phase st) true.

(** [try_reconnect], on the system as the attempt finds it. *)
Definition try_reconnect (endpoint : Endpoint) (uuid : bytes) (n : os) w :
    W * completion (PeerIdentity * Endpoint) :=
  match snd (transport_connect endpoint (backend_socket_options w) n) with
  | Completed (Ok (raw_socket, resolved_endpoint)) =>
      let '(o, io, c) :=
        bind greet_exchange
          (fun _ => ready_exchange uuid (backend_socket_type w) (identity_props (backend_socket_options w)))
          (outputs (backend_shared w)) raw_socket in
      let w := set_backend_outputs o w in
      match c with
      | Completed (Ok peer_id) =>
          (Runtime.peer_connected peer_id io w, Completed (Ok (peer_id, resolved_endpoint)))
      | Completed (Err e) => (w, Completed (Err e))
      | Hangs => (w, Hangs)
      | Panicked => (w, Panicked)
      end
  | Completed (Err e) => (w, Completed (Err e))
  | Hangs => (w, Hangs)
  | Panicked => (w, Panicked)
  end.

(** [disconnect_rx.next()]: the next notice; the task holds a sender of its own, so the channel
    does not end. *)
Definition next_disconnect st w : option PeerIdentity :=
  accepted (notices (backend_shared w)) (chan_of (disconnect_tx st)) !! seen st.

(** What the task may go on with: a branch of a [select!], or the end of [try_reconnect]. *)
Inductive reconnect_event : Type :=
  | DisconnectBranch
  | ShutdownBranch
  | SleepBranch
  | AttemptEnds (uuid : bytes) (n : os) (jitter : Duration).

Definition reconnect_step (ev : reconnect_event) st w : option (reconnect_task * W) :=
  match phase st, ev with
  | Waiting, DisconnectBranch =>
      match next_disconnect st w with
      | Some _ =>
          Some (mkReconnect (reconnect_endpoint st) (reconnect_config st) (disconnect_tx st)
                  (Datatypes.S (seen st)) (Sleeping 1 (initial_interval (reconnect_config st))) (stop_ready st), w)
      | None => None
      end
  | Waiting, ShutdownBranch | Sleeping _ _, ShutdownBranch =>
      if stop_ready st then Some (set_phase Ended st, w) else None
  | Sleeping attempt current_interval, SleepBranch => Some (set_phase (Trying attempt current_interval) st, w)
  | Trying attempt current_interval, AttemptEnds uuid n jitter =>
      match try_reconnect (reconnect_endpoint st) uuid n w with
      | (w, Completed (Ok (new_peer_id, resolved_endpoint))) =>
          Some (set_phase Waiting st,
                register new_peer_id (disconnect_tx st) (emit_event (Connected resolved_endpoint new_peer_id) w))
      | (w, Completed (Err _)) =>
          Some (set_phase (Sleeping ((attempt + 1) mod 2 ^ 32)
                             (next_interval (reconnect_config st) current_interval jitter)) st, w)
      | (_, Hangs) => None
      | (w, Panicked) => Some (set_phase Ended st, w)
      end
  | _, _ => None
  end.

Fixpoint reconnect_run (evs : list reconnect_event) st w : option (reconnect_task * W) :=
  match evs with
  | [] => Some (st, w)
  | ev :: evs => match reconnect_step ev st w with
                 | Some (st, w) => reconnect_run evs st w
                 | None => None
                 end
  end.

(** One round of the [retry] loop. *)
Definition round (x : bytes * os * Duration) : list reconnect_event :=
  let '(uuid, n, jitter) := x in [SleepBranch; AttemptEnds uuid n jitter].

(** What can happen while the task runs: its steps, its handle, and anything outside it. *)
Inductive reconnect_moves : reconnect_task * W -> reconnect_task * W -> Prop :=
  | move_step ev st w st' w' :
      match ev with AttemptEnds _ _ jitter => 0 <= jitter <= MAX_JITTER | _ => True end ->
      reconnect_step ev st w = Some (st', w') -> reconnect_moves (st, w) (st', w')
  | move_shutdown st w : reconnect_moves (st, w) (handle_shutdown st, w)
  | move_drop st w : reconnect_moves (st, w) (drop_handle st, w)
  | move_outside st w w' : reconnect_moves (st, w) (st, w').
End Reconnect.
Arguments reconnect_event S {_ _}.

(** ** [connect_with_reconnect] *)

Section ConnectWithReconnect.
Context {S : Type} `{Runtime, !NextMessage S, !Sys S, !Connector (FramedIo S * Endpoint)}.
Implicit Types b : SubSocketBackend S.

(** The task of a connection that was made, next to the result. *)
Definition connect_with_reconnect (fuel : nat) (endpoint : Endpoint) (hs : Z) (uuid : bytes) (cut : sinks)
    (joined : joining) b : option (SubSocketBackend S * future (reconnect_task)) :=
  match connect_peer fuel endpoint hs uuid cut joined b with
  | Some (b, (t, Completed (Ok peer_id))) =>
      let '(b, handle) := spawn_reconnect_task sub_register_disconnect_notifier endpoint peer_id default_config b in
      Some (b, (t, Completed (Ok handle)))
  | Some (b, (t, Completed (Err e))) => Some (b, (t, Completed (Err e)))
  | Some (b, (t, Hangs)) => Some (b, (t, Hangs))
  | Some (b, (t, Panicked)) => Some (b, (t, Panicked))
  | None => None
  end.

(** [Drop for SubSocket], [Drop for XSubSocket]: the tasks are told to stop, the backend is shut
    down. *)
Definition sub_drop (handles : list reconnect_task) b : SubSocketBackend S * list reconnect_task :=
  (sub_shutdown b, handle_shutdown <$> handles).

Definition xsub_drop (handles : list reconnect_task) b : SubSocketBackend S * list reconnect_task :=
  (sub_shutdown b, handle_shutdown <$> handles).

(** To the backend they are the drop of any socket, so that closing a SUB or an XSUB shuts its
    backend down as [close] says, and tells its tasks to stop. *)
Lemma sub_drop_socket handles b :
  backend_socket_type b <> PULL ->
  fst (sub_drop handles b) = socket_drop b /\ fst (xsub_drop handles b) = socket_drop b.
Proof. intros Ht. unfold socket_drop. by destruct (backend_socket_type b). Qed.
End ConnectWithReconnect.

(** ** The delays *)

Section Backoff.
Context {W S : Type} `{Runtime, !MultiPeerBackend W S, !NextMessage S, !Sys S}.
Context (register_disconnect_fn : PeerIdentity -> sender PeerIdentity -> W -> W).
Implicit Types (w : W) (st : reconnect_task).

(** The intervals before the attempt after [k] failed ones. *)
Definition interval_bounds (config : ReconnectConfig) (k : nat) (i : Duration) : Prop :=
  let m := backoff_multiplier config ^ Z.of_nat k in
  Z.min (initial_interval config * m) (max_interval config) <= i
  /\ i <= Z.min ((initial_interval config + MAX_JITTER) * m - MAX_JITTER) (max_interval config).

Definition config_ok (config : ReconnectConfig) : Prop :=
  0 <= initial_interval config <= max_interval config /\ 2 <= backoff_multiplier config.

Lemma next_interval_bounds config k i jitter :
  config_ok config -> 0 <= jitter <= MAX_JITTER -> interval_bounds config k i ->
  interval_bounds config (Datatypes.S k) (next_interval config i jitter).
Proof.
  intros [HI Hm] Hj. unfold interval_bounds, next_interval. rewrite Nat2Z.inj_succ, Z.pow_succ_r by lia.
  assert (1 <= backoff_multiplier config ^ Z.of_nat k)
    by (pose proof (Z.pow_pos_nonneg (backoff_multiplier config) (Z.of_nat k)); lia).
  assert (0 <= MAX_JITTER) by lia. cbv zeta.
  generalize dependent (backoff_multiplier config ^ Z.of_nat k). intros p Hp [Hlo Hhi].
  generalize dependent (initial_interval config). generalize dependent (max_interval config).
  generalize dependent (backoff_multiplier config). intros m Hm M I HI Hlo Hhi. split.
  - apply Z.min_glb_iff. split; [|lia]. destruct (Z.min_spec (I * p) M) as [[_ E]|[_ E]]; rewrite E in Hlo; nia.
  - apply Z.min_le_compat; [nia|done].
Qed.

Definition phase_ok st : Prop :=
  match phase st with
  | Sleeping a i | Trying a i => exists k, a = (Z.of_nat k + 1) mod 2 ^ 32 /\ interval_bounds (reconnect_config st) k i
  | _ => True
  end.

Lemma reconnect_move_ok st w st' w' :
  reconnect_moves register_disconnect_fn (st, w) (st', w') ->
  reconnect_config st' = reconnect_config st
  /\ (config_ok (reconnect_config st) -> phase_ok st -> phase_ok st').
Proof.
  intros Hm. remember (st, w) as x eqn:Ex. remember (st', w') as y eqn:Ey. revert st w Ex st' w' Ey.
  destruct Hm as [ev st0 w0 st1 w1 Hj Hstep|st0 w0|st0 w0|st0 w0 w1]; intros st w [= -> ->] st' w' [= <- <-]; [|done..].
  unfold reconnect_step in Hstep. destruct (phase st) as [|a i|a i|] eqn:Hp; destruct ev as [| | |uuid n jitter]; try done.
  - destruct (next_disconnect st w); [|done]. injection Hstep as <- <-. split; [done|]. intros [HI Hmul] _.
    exists 0%nat. split; [done|]. unfold interval_bounds. cbn. unfold MAX_JITTER in *. lia.
  - destruct (stop_ready st); [|done]. by injection Hstep as <- <-.
  - destruct (stop_ready st); [|done]. by injection Hstep as <- <-.
  - injection Hstep as <- <-. split; [done|]. unfold phase_ok. by rewrite Hp.
  - destruct (try_reconnect _ _ _ _) as [w2 [[[q ep]|e]| |]]; [..|done|]; injection Hstep as <- <-; [done| |done].
    split; [done|]. unfold phase_ok. rewrite Hp. intros Hc (k & -> & Hi). exists (Datatypes.S k).
    cbn [set_phase phase reconnect_config]. rewrite Nat2Z.inj_succ. split; [|by apply next_interval_bounds].
    by rewrite Zplus_mod_idemp_l.
Qed.
End Backoff.

(** C29 Backing off: whatever happens, before the attempt after [k] failed ones the task waits at
    least the initial interval doubled [k] times and at most what the jitter adds to that,
    and never longer than the maximal interval. *)
Theorem reconnect_backoff {W S} `{Runtime, !MultiPeerBackend W S, !NextMessage S, !Sys S}
    (register_disconnect_fn : PeerIdentity -> sender PeerIdentity -> W -> W)
    (endpoint : Endpoint) (p : PeerIdentity) (config : ReconnectConfig) (w w' : W) (st : reconnect_task)
    (a i : Z) :
  config_ok config ->
  rtc (reconnect_moves register_disconnect_fn)
    (let '(w, st) := spawn_reconnect_task register_disconnect_fn endpoint p config w in (st, w)) (st, w') ->
  phase st = Sleeping a i ->
  exists k, a = (Z.of_nat k + 1) mod 2 ^ 32
    /\ Z.min (initial_interval config * backoff_multiplier config ^ Z.of_nat k) (max_interval config) <= i
    /\ i <= (initial_interval config + MAX_JITTER) * backoff_multiplier config ^ Z.of_nat k - MAX_JITTER
    /\ i <= max_interval config.
Proof.
  intros Hc Hr Hp.
  assert (reconnect_config st = config /\ phase_ok st) as [Hcfg Hok].
  { unfold spawn_reconnect_task in Hr. destruct (channel _ 1) as [n tx].
    set (x := (mkReconnect _ _ _ _ _ _, _)) in Hr. assert (reconnect_config (fst x) = config /\ phase_ok (fst x)) as Hx by done.
    change st with (fst (st, w')). revert Hx. clear Hp. induction Hr as [x|[x1 w1] [x2 w2] y Hm Hr IH]; [done|].
    intros [Hx1 Hx2]. apply reconnect_move_ok in Hm as [Hm1 Hm2]. cbn [fst] in *. apply IH.
    split; [by rewrite Hm1|]. apply Hm2; [by rewrite Hx1|done]. }
  unfold phase_ok in Hok. rewrite Hp, Hcfg in Hok. destruct Hok as (k & -> & Hlo & Hhi).
  exists k. split_and!; [done|done|lia|lia].
Qed.

(** ** Reconnecting a SUB socket *)

Section SubReconnect.
Context {S : Type} `{Runtime, !NextMessage S, !Sys S}.
Abbreviation step := (reconnect_step sub_register_disconnect_notifier).
Abbreviation run := (reconnect_run sub_register_disconnect_notifier).
Implicit Types (b : SubSocketBackend S) (st : reconnect_task).

(** Attempts that all fail, from one state of the backend to another. *)
Fixpoint fails (endpoint : Endpoint) (l : list (bytes * os * Duration)) b b' : Prop :=
  match l with
  | [] => b' = b
  | (uuid, n, _) :: l => exists b1 e, try_reconnect endpoint uuid n b = (b1, Completed (Err e)) /\ fails endpoint l b1 b'
  end.

Lemma rounds_fail endpoint l evs st b b' a i :
  reconnect_endpoint st = endpoint -> phase st = Sleeping a i -> fails endpoint l b b' ->
  exists a' i', run (flat_map round l ++ evs) st b = run evs (set_phase (Sleeping a' i') st) b'.
Proof.
  intros <-. revert st b a i. induction l as [|[[uuid n] jitter] l IH]; intros st b a i Hp Hf.
  - exists a, i. cbn in *. subst b'. by destruct st; cbn in *; subst.
  - destruct Hf as (b1 & e & Ht & Hf). cbn [flat_map round app reconnect_run]. unfold reconnect_step at 1.
    rewrite Hp. cbn [reconnect_run]. unfold reconnect_step at 1. cbn [phase set_phase reconnect_endpoint].
    rewrite Ht. match goal with |- context [set_phase (Sleeping ?a1 ?i1) ?st1] =>
      destruct (IH (set_phase (Sleeping a1 i1) st1) b1 a1 i1 eq_refl Hf) as (a' & i' & ->) end.
    by exists a', i'.
Qed.

(** What an attempt that fails changes: the sinks. *)
Definition same_sub b b' : Prop := exists o, b' = set_sub_outputs o b.

Lemma same_sub_refl b : same_sub b b.
Proof. exists (outputs (sub_shared b)). destruct b as [???????[]]. done. Qed.

Lemma same_sub_trans b1 b2 b3 : same_sub b1 b2 -> same_sub b2 b3 -> same_sub b1 b3.
Proof. intros [o ->] [o' ->]. by exists o'. Qed.

Lemma try_reconnect_err endpoint uuid n b b' e :
  try_reconnect endpoint uuid n b = (b', Completed (Err e)) -> same_sub b b'.
Proof.
  unfold try_reconnect. destruct (snd (transport_connect endpoint (backend_socket_options b) n)) as [[[io ep]|e0]| |]; [|intros [= <- _]; apply same_sub_refl|done..].
  destruct (bind _ _ _ io) as [[o io'] [[p|e1]| |]]; [done|intros [= <- _]; by exists o|done..].
Qed.

Lemma fails_same endpoint l b b' : fails endpoint l b b' -> same_sub b b'.
Proof.
  revert b. induction l as [|[[uuid n] j] l IH]; intros b; [intros ->; apply same_sub_refl|].
  intros (b1 & e & Ht & Hf). eapply same_sub_trans; [by eapply try_reconnect_err|by apply IH].
Qed.

(** An attempt that succeeds has shaken hands over the connection [raw], and given it to the
    backend; a publisher behind it has had no subscription before. *)
Lemma try_reconnect_ok endpoint uuid n b b' q ep :
  try_reconnect endpoint uuid n b = (b', Completed (Ok (q, ep))) ->
  exists raw io o, snd (transport_connect endpoint (backend_socket_options b) n) = Completed (Ok (raw, ep))
    /\ write_half io = write_half raw
    /\ (written (outputs (sub_shared b)) (write_half raw) = [] -> publisher_has o (write_half raw) = [])
    /\ b' = sub_peer_connected q io (set_sub_outputs o b).
Proof.
  unfold try_reconnect. destruct (snd (transport_connect endpoint (backend_socket_options b) n)) as [[[raw ep']|e0]| |]; [|done..].
  destruct (bind _ _ _ raw) as [[o io] [[p|e1]| |]] eqn:Hb; [|done..]. intros [= <- -> ->].
  exists raw, io, o. split; [done|]. unfold bind in Hb.
  destruct (greet_exchange _ raw) as [[o1 io1] c] eqn:Hg. destruct c as [[v|e]| |]; try done.
  apply greet_exchange_ok in Hg as (Hw1 & g & _ & _ & _ & Ho1). apply ready_exchange_ok in Hb as (Hw2 & r & _ & _ & Ho2).
  rewrite Ho1 in *. split; [done|]. split; [|done]. intros Hnone. unfold publisher_has.
  rewrite (sink_send_ok _ _ _ _ _ Hw2), (sink_send_ok _ _ _ _ _ Hw1).
  cbn [backend_shared sub_backend]. by rewrite Hnone.
Qed.

(** Registering is remembered under the peer, with a sender of the task's channel. *)
Lemma register_sub q tx b :
  exists s n, clone_sender (notices (sub_shared b)) tx = (n, s) /\ chan_of s = chan_of tx
    /\ sub_notifiers (register sub_register_disconnect_notifier q tx b) = <[q := s]> (sub_notifiers b)
    /\ sub_peers (register sub_register_disconnect_notifier q tx b) = sub_peers b
    /\ subs (register sub_register_disconnect_notifier q tx b) = subs b
    /\ outputs (sub_shared (register sub_register_disconnect_notifier q tx b)) = outputs (sub_shared b)
    /\ notices (sub_shared (register sub_register_disconnect_notifier q tx b)) = n
    /\ sub_queue (register sub_register_disconnect_notifier q tx b) = sub_queue b.
Proof.
  unfold register. cbn [backend_shared sub_backend].
  destruct (clone_sender (notices (sub_shared b)) tx) as [n s] eqn:Hc.
  exists s, n. split; [done|]. by destruct (clone_none _ _ _ _ Hc).
Qed.

Lemma emit_frame m e (sh : Shared S) :
  outputs (emit m e sh) = outputs sh /\ notices (emit m e sh) = notices sh.
Proof. by destruct m. Qed.

(** The end of the peer that is registered is the next notice. *)
Lemma told_of_end st p s b :
  seen st = length (accepted (notices (sub_shared b)) (chan_of (disconnect_tx st))) ->
  sub_notifiers b !! p = Some s -> chan_of s = chan_of (disconnect_tx st) ->
  is_ok (snd (try_send (notices (sub_shared b)) s p)) = true ->
  next_disconnect st (sub_peer_disconnected p b) = Some p.
Proof.
  intros Hseen Hn Hc Hok. unfold next_disconnect, sub_peer_disconnected. cbn. rewrite Hn. cbn.
  rewrite (proj2 (emit_frame _ _ _)). destruct (try_send _ s p) as [n' r] eqn:Hs. unfold offer. rewrite Hs.
  destruct (try_send_accepted _ _ _ _ _ (chan_of s) Hs) as [Ha _]. cbn in Hok |- *. rewrite Hok, decide_True in Ha by done.
  rewrite <- Hc, Ha, Hseen, <- Hc. rewrite lookup_app_r, Nat.sub_diag by done. done.
Qed.

(** The backend takes the new connection, or not, and it is reported. *)
Lemma reconnected q ep (io : FramedIo S) o b :
  let b' := emit_event (Connected ep q) (Runtime.peer_connected q io (set_sub_outputs o b)) in
  subs b' = subs b
  /\ if snd (resend o (write_half io) (subscription_messages b))
     then sub_peers b' = <[q := write_half io]> (sub_peers b)
          /\ streams (sub_queue b') = <[q := read_half io]> (streams (sub_queue b))
          /\ written (outputs (sub_shared b')) (write_half io)
             = written o (write_half io) ++ (MMessage <$> subscription_messages b)
     else sub_peers b' = sub_peers b.
Proof.
  cbv zeta. unfold emit_event. cbn [backend_monitor backend_shared set_backend_shared Runtime.peer_connected sub_backend].
  unfold sub_peer_connected, tell_and_add.
  change (outputs (sub_shared (set_sub_outputs o b))) with o.
  change (subscription_messages (set_sub_outputs o b)) with (subscription_messages b).
  destruct (resend o (write_half io) (subscription_messages b)) as [o' told] eqn:Hr. cbn [snd].
  destruct told; [|done]. split; [done|]. split_and!; [done| |].
  - cbn. by rewrite push_ready_streams.
  - cbn. rewrite (proj1 (emit_frame _ _ _)). cbn. by apply resend_ok.
Qed.
End SubReconnect.

(** C28 Reconnecting: when the connection that the task watches ends, it is told, and however many
    attempts fail before one succeeds, it then waits for the end of the new connection, for
    which it is registered with the backend. The socket's subscriptions are unchanged. What
    becomes of the new connection [raw] depends on whether the socket could send it its
    subscriptions. If every one was sent, the publisher is a peer, it is received from, and it
    has exactly the socket's subscriptions, each once, when nothing was written on [raw] before
    the handshake. If one of them was not, the publisher is no peer, although the connection
    was reported and the task waits for its end ([reconnect_untold]). *)
Theorem sub_reconnects {S} `{Runtime, !NextMessage S, !Sys S} (st : reconnect_task)
    (p q : PeerIdentity) (s : sender PeerIdentity) (b b1 b2 : SubSocketBackend S) (l : list (bytes * os * Duration))
    (uuid : bytes) (n : os) (jitter : Duration) (ep : Endpoint) :
  phase st = Waiting ->
  seen st = length (accepted (notices (sub_shared b)) (chan_of (disconnect_tx st))) ->
  sub_notifiers b !! p = Some s -> chan_of s = chan_of (disconnect_tx st) ->
  is_ok (snd (try_send (notices (sub_shared b)) s p)) = true ->
  fails (reconnect_endpoint st) l (sub_peer_disconnected p b) b1 ->
  try_reconnect (reconnect_endpoint st) uuid n b1 = (b2, Completed (Ok (q, ep))) ->
  exists st' b' s' raw o, reconnect_run sub_register_disconnect_notifier
      (DisconnectBranch :: flat_map round l ++ round (uuid, n, jitter)) st (sub_peer_disconnected p b) = Some (st', b')
    /\ phase st' = Waiting /\ subs b' = subs b
    /\ sub_notifiers b' !! q = Some s' /\ chan_of s' = chan_of (disconnect_tx st')
    /\ snd (transport_connect (reconnect_endpoint st) (sub_options b1) n) = Completed (Ok (raw, ep))
    /\ if snd (resend o (write_half raw) (subscription_messages b))
       then sub_peers b' = <[q := write_half raw]> (delete p (sub_peers b))
            /\ is_Some (streams (sub_queue b') !! q)
            /\ written (outputs (sub_shared b')) (write_half raw)
               = written o (write_half raw) ++ (MMessage <$> subscription_messages b)
            /\ (written (outputs (sub_shared b1)) (write_half raw) = [] -> synced b' q)
       else sub_peers b' = delete p (sub_peers b).
Proof.
  intros Hp Hseen Hn Hc Hok Hf Ht.
  set (b0 := sub_peer_disconnected p b) in *.
  assert (next_disconnect st b0 = Some p) as Hnext by by eapply told_of_end.
  cbn [reconnect_run]. unfold reconnect_step at 1. rewrite Hp, Hnext.
  set (st1 := mkReconnect _ _ _ _ (Sleeping 1 _) _).
  destruct (rounds_fail (reconnect_endpoint st) l (round (uuid, n, jitter)) st1 b0 b1 _ _ eq_refl eq_refl Hf)
    as (a' & i' & ->).
  cbn [round reconnect_run]. unfold reconnect_step at 1. cbn [phase set_phase reconnect_run].
  unfold reconnect_step at 1. cbn [phase set_phase reconnect_endpoint st1]. rewrite Ht.
  apply try_reconnect_ok in Ht as (raw & io & o & Hraw & Hio & Hfresh & ->).
  assert (exists o1, b1 = set_sub_outputs o1 b0) as [o1 ->] by by eapply fails_same.
  set (b3 := emit_event _ _).
  destruct (register_sub q (disconnect_tx st) b3) as (s' & n' & _ & Hc' & Hn' & Hp' & Hs' & Ho' & _ & Hq').
  pose proof (reconnected q ep io o (set_sub_outputs o1 b0)) as H3. cbv zeta in H3.
  change (emit_event _ _) with b3 in H3. destruct H3 as [Hs3 Hpeers].
  rewrite Hio in Hpeers. change (subscription_messages (set_sub_outputs o1 b0)) with (subscription_messages b) in Hpeers.
  eexists _, (register sub_register_disconnect_notifier q (disconnect_tx st) b3), s', raw, o.
  split; [reflexivity|]. cbn [phase set_phase disconnect_tx].
  split_and!; [done|by rewrite Hs'|by rewrite Hn', lookup_insert_eq|done|done|].
  destruct (snd (resend _ _ _)); [|by rewrite Hp'].
  destruct Hpeers as (Hpe & Hst & Hw). rewrite Hp', Hq', Ho'. split_and!; [done|by rewrite Hst, lookup_insert_eq|done|].
  intros Hnone. exists (write_half raw). rewrite Hp', Hpe, lookup_insert_eq, Ho', Hs', Hs3. split; [done|].
  by rewrite (publisher_told _ _ _ _ (Hfresh Hnone) Hw).
Qed.

(** A disconnection can be missed: if the peer that an attempt has connected is disconnected
    before the task registers for it, then the task waits, the peer and its stream are gone,
    nothing was sent to the task's channel, and nothing else will tell it. *)
Theorem reconnect_missed {S} `{Runtime, !NextMessage S, !Sys S} (st : reconnect_task)
    (q : PeerIdentity) (b b1 : SubSocketBackend S) (uuid : bytes) (n : os) (ep : Endpoint) :
  sub_notifiers b !! q = None -> next_disconnect st b = None ->
  try_reconnect (reconnect_endpoint st) uuid n b = (b1, Completed (Ok (q, ep))) ->
  let b2 := sub_peer_disconnected q b1 in
  let b3 := register sub_register_disconnect_notifier q (disconnect_tx st) (emit_event (Connected ep q) b2) in
  sub_peers b3 !! q = None /\ streams (sub_queue b3) !! q = None /\ is_Some (sub_notifiers b3 !! q)
  /\ reconnect_step sub_register_disconnect_notifier DisconnectBranch (set_phase Waiting st) b3 = None.
Proof.
  intros Hn Hnext Ht b2 b3. apply try_reconnect_ok in Ht as (raw & io & o & _ & _ & _ & ->).
  assert (sub_peers b2 !! q = None /\ streams (sub_queue b2) !! q = None /\
    notices (sub_shared b2) = notices (sub_shared b)) as (Hp2 & Hq2 & Hs2).
  { assert (forall b' : SubSocketBackend S, sub_notifiers b' = sub_notifiers b -> notices (sub_shared b') = notices (sub_shared b) ->
      let b2 := sub_peer_disconnected q b' in
      sub_peers b2 !! q = None /\ streams (sub_queue b2) !! q = None /\
      notices (sub_shared b2) = notices (sub_shared b)) as Hd.
    { intros b' Hb Hsb. unfold sub_peer_disconnected. cbn. rewrite Hb, Hn. cbn.
      rewrite (proj2 (emit_frame _ _ _)). split_and!; [apply lookup_delete_eq..|done]. }
    apply Hd; unfold sub_peer_connected, tell_and_add;
      destruct (resend _ _ _) as [o' told]; destruct told; try done; unfold add_peer; by destruct (into_parts io). }
  destruct (register_sub q (disconnect_tx st) (emit_event (Connected ep q) b2))
    as (s & m & Hc & _ & Hn3 & Hp3 & _ & _ & Hm & _). fold b3 in Hn3, Hp3, Hm.
  split_and!.
  - rewrite Hp3. exact Hp2.
  - unfold b3, register. destruct (clone_sender _ _) as [n1 tx1]. exact Hq2.
  - exists s. rewrite Hn3. apply lookup_insert_eq.
  - unfold reconnect_step. cbn [phase set_phase].
    enough (next_disconnect (set_phase Waiting st) b3 = None) as -> by done.
    unfold next_disconnect in Hnext |- *. cbn [disconnect_tx seen set_phase backend_shared sub_backend] in Hnext |- *.
    rewrite Hm, (proj1 (clone_none _ _ _ _ Hc)).
    assert (notices (sub_shared (emit_event (Connected ep q) b2)) = notices (sub_shared b)) as ->; [|exact Hnext].
    exact (eq_trans (proj2 (emit_frame _ _ _)) Hs2).
Qed.

(** A connection whose peer could not be told the subscriptions is reported and registered, but
    the peer is not connected: the task waits for an end that does not come. *)
Theorem reconnect_untold {S} `{Runtime, !NextMessage S, !Sys S} (q : PeerIdentity)
    (io : FramedIo S) (tx : sender PeerIdentity) (ep : Endpoint) (b : SubSocketBackend S) :
  sub_peers b !! q = None ->
  snd (resend (outputs (sub_shared b)) (write_half io) (subscription_messages b)) = false ->
  let b' := register sub_register_disconnect_notifier q tx
              (emit_event (Connected ep q) (Runtime.peer_connected q io b)) in
  sub_peers b' !! q = None /\ is_Some (sub_notifiers b' !! q).
Proof.
  intros Hq Hr b'. unfold b'.
  destruct (register_sub q tx (emit_event (Connected ep q) (Runtime.peer_connected q io b)))
    as (s & m & _ & _ & Hn & Hp & _). rewrite Hn, Hp, lookup_insert_eq. split; [|done].
  cbn. unfold sub_peer_connected, tell_and_add. destruct (resend _ _ _) as [o told]. cbn in Hr. by subst told.
Qed.

(** A task whose handle was dropped ends at its next [select!]. *)
Theorem reconnect_dropped_handle {W S} `{Runtime, !MultiPeerBackend W S, !NextMessage S, !Sys S}
    (register_disconnect_fn : PeerIdentity -> sender PeerIdentity -> W -> W) (st : reconnect_task) (w : W) :
  match phase st with
  | Waiting | Sleeping _ _ =>
      reconnect_step register_disconnect_fn ShutdownBranch (drop_handle st) w = Some (set_phase Ended (drop_handle st), w)
  | _ => reconnect_step register_disconnect_fn ShutdownBranch (drop_handle st) w = None
  end.
Proof. unfold reconnect_step, drop_handle. by destruct st as [? ? ? ? []]. Qed.

(** ** A SUB socket whose publisher goes away *)

Module Example.
#[local] Existing Instance Runtime_exec.

Abbreviation backend := (SubSocketBackend (list Message)).

Definition endpoint : Endpoint := Tcp (Domain (bs "localhost")) 5555.

(** A system whose peer is a publisher, at the time its [i]-th connection is made. *)
#[local] Instance publisher : Sys (list Message) :=
  {| os := nat; socket := nat; listener := nat;
     tcp_stream_connect _ _ n := (n, if Nat.eqb n 0 then Err (IoError ConnectionRefused) else Ok n);
     unix_stream_connect _ n := (n, Ok n); tcp_listener_bind _ _ n := (n, Ok n); unix_listener_bind _ n := (n, Ok n);
     set_nodelay _ _ n := (n, Ok tt); set_recv_buffer_size _ _ n := (n, Ok tt); set_send_buffer_size _ _ n := (n, Ok tt);
     tcp_peer_addr _ n := (n, Ok (V4 [127; 0; 0; 1], 5555)); unix_peer_addr _ n := (n, Ok None);
     tcp_local_addr _ n := (n, Ok (V4 [127; 0; 0; 1], 5555)); unix_local_addr _ n := (n, Ok None);
     set_nonblocking _ _ n := (n, Ok tt); from_std l n := (n, Ok l); close_socket _ n := n; close_listener _ n := n;
     remove_file _ n := (n, Ok tt);
     framed i _ := ([MGreeting default_greeting; MCommand (announced PUB default_options)], i) |}.

#[local] Instance attempts : Connector (FramedIo (list Message) * Endpoint) :=
  transport_connector endpoint default_options (fun _ => 1%nat) (fun _ => millis) (fun _ => 50) (fun _ => ltac:(done)) (fun _ => ltac:(done)).

(** Connected to the publisher [one], and subscribed to everything. *)
Definition connected : option (backend * future reconnect_task) :=
  connect_with_reconnect 0 endpoint millis (bs "one") Recording.empty (Joins 0) (fst (subscribe [] (sub_socket default_options new_process))).

Definition one : backend := match connected with Some (b, _) => b | None => sub_socket default_options new_process end.
Definition task : reconnect_task :=
  match connected with
  | Some (_, (_, Completed (Ok st))) => st
  | _ => mkReconnect endpoint default_config (0, 0)%nat 0 Waiting false
  end.

(** The first attempt is refused, the second one reaches the publisher, now [two]. *)
Definition refused : list (bytes * os * Duration) := [(bs "two", 0%nat, 0)].
Definition reached : bytes * os * Duration := (bs "two", 2%nat, 0).
Definition two : backend * completion (PeerIdentity * Endpoint) :=
  try_reconnect (reconnect_endpoint task) (bs "two") 2%nat (sub_peer_disconnected (bs "one") one).

Lemma two_ok : two = (fst two, Completed (Ok (bs "two", from_tcp_addr (V4 [127; 0; 0; 1]) 5555))).
Proof. apply pair_snd. by vm_compute. Qed.

Lemma refused_fails :
  fails (reconnect_endpoint task) refused (sub_peer_disconnected (bs "one") one) (sub_peer_disconnected (bs "one") one).
Proof. exists (sub_peer_disconnected (bs "one") one), (Network (IoError ConnectionRefused)). split; [|done].
  assert (reconnect_endpoint task = endpoint) as -> by (by vm_compute). done.
Qed.

(** A task whose peer goes away. *)
Definition base : backend := sub_peer_connected (bs "one") (mkIo [] 7%nat) (sub_socket default_options new_process).
Definition spawned : backend * reconnect_task :=
  spawn_reconnect_task sub_register_disconnect_notifier endpoint (bs "one") default_config base.
Definition told : backend := sub_peer_disconnected (bs "one") (fst spawned).
Definition sleeping : reconnect_task :=
  mkReconnect endpoint default_config (disconnect_tx (snd spawned)) 1 (Sleeping 1 (initial_interval default_config)) false.

Lemma told_sleeps :
  reconnect_step sub_register_disconnect_notifier DisconnectBranch (snd spawned) told = Some (sleeping, told).
Proof.
  unfold reconnect_step. assert (next_disconnect (snd spawned) told = Some (bs "one")) as Hn by (by vm_compute).
  assert (phase (snd spawned) = Waiting) as -> by done. rewrite Hn. done.
Qed.

Lemma sleeping_reachable :
  rtc (reconnect_moves sub_register_disconnect_notifier)
    (let '(w, st) := spawned in (st, w)) (sleeping, told).
Proof.
  assert ((let '(w, st) := spawned in (st, w)) = (snd spawned, fst spawned)) as -> by (by destruct spawned).
  eapply rtc_l; [apply (move_outside _ _ _ told)|]. apply rtc_once.
  apply (move_step _ DisconnectBranch); [done|apply told_sleeps].
Qed.

Definition out_of (c : completion (FramedIo (list Message) * Endpoint)) : option nat :=
  match c with Completed (Ok (io, _)) => Some (write_half io) | _ => None end.

Lemma reached_out : out_of (snd (transport_connect (reconnect_endpoint task) default_options 2%nat)) = Some 2%nat.
Proof. vm_compute. reflexivity. Qed.

Definition has_two (x : reconnect_task * backend) : bool := bool_decide (is_Some (sub_peers (snd x) !! bs "two")).

Lemma two_is_peer :
  option_map has_two
    (reconnect_run sub_register_disconnect_notifier
      (DisconnectBranch :: flat_map round refused ++ round reached) task (sub_peer_disconnected (bs "one") one))
  = Some true.
Proof. vm_compute. reflexivity. Qed.

Lemma task_watches :
  sub_notifiers one !! bs "one" = Some (0, 1)%nat
  /\ is_ok (snd (try_send (notices (sub_shared one)) (0, 1)%nat (bs "one"))) = true.
Proof. by vm_compute. Qed.
End Example.

Lemma reconnect_backoff_witness :
  exists k, 1 = (Z.of_nat k + 1) mod 2 ^ 32 /\ initial_interval default_config <= max_interval default_config.
Proof.
  destruct (reconnect_backoff (Sys0 := Example.publisher) sub_register_disconnect_notifier Example.endpoint (bs "one")
    default_config Example.base Example.told Example.sleeping 1 (initial_interval default_config)) as (k & Hk & _ & _ & Hi).
  - split; [unfold default_config, millis; cbn; lia|done].
  - exact Example.sleeping_reachable.
  - reflexivity.
  - exists k. split; [exact Hk|exact Hi].
Defined.

(** The task waits again, for [two], which is a peer and has the subscription. *)
Lemma sub_reconnects_witness :
  exists st b, reconnect_run (Sys0 := Example.publisher) sub_register_disconnect_notifier
      (DisconnectBranch :: flat_map round Example.refused ++ round Example.reached) Example.task
      (sub_peer_disconnected (bs "one") Example.one) = Some (st, b)
    /\ phase st = Waiting /\ is_Some (sub_notifiers b !! bs "two")
    /\ subs b = subs Example.one /\ synced b (bs "two").
Proof.
  destruct Example.task_watches as [Hw Hok].
  destruct (sub_reconnects (Sys0 := Example.publisher) Example.task (bs "one") (bs "two") (0, 1)%nat Example.one
    (sub_peer_disconnected (bs "one") Example.one) (fst Example.two) Example.refused (bs "two") 2%nat 0
    (from_tcp_addr (V4 [127; 0; 0; 1]) 5555)) as (st & b & s & raw & o & Hr & Hp & Hs & Hn & _ & Hraw & Hall);
    [by vm_compute|by vm_compute|exact Hw|by vm_compute|exact Hok|exact Example.refused_fails|exact Example.two_ok|].
  pose proof (eq_trans (eq_sym (f_equal Example.out_of Hraw)) Example.reached_out) as Hout. injection Hout as Hout.
  rewrite Hout in Hall.
  exists st, b. split; [exact Hr|]. split; [exact Hp|]. split; [by exists s|]. split; [exact Hs|].
  pose proof (eq_trans (eq_sym (f_equal (option_map Example.has_two) Hr)) Example.two_is_peer) as Ht.
  injection Ht as Ht.
  destruct (snd (resend _ _ _)).
  - destruct Hall as (_ & _ & _ & Hsync). apply Hsync. vm_compute. reflexivity.
  - exfalso. unfold Example.has_two in Ht. cbn [snd] in Ht. rewrite Hall in Ht. vm_compute in Ht. discriminate Ht.
Defined.

(** The task's second attempt connects the publisher, whose connection ends at once. *)
Lemma reconnect_missed_witness :
  exists b, sub_peers b !! bs "two" = None
    /\ reconnect_step (Sys0 := Example.publisher) sub_register_disconnect_notifier DisconnectBranch
         (set_phase Waiting Example.sleeping) b = None.
Proof.
  assert (snd (try_reconnect (Sys0 := Example.publisher) Example.endpoint (bs "two") 2%nat Example.told)
    = Completed (Ok (bs "two", from_tcp_addr (V4 [127; 0; 0; 1]) 5555))) as Ht by (by vm_compute).
  destruct (reconnect_missed (Sys0 := Example.publisher) Example.sleeping (bs "two") Example.told
    (fst (try_reconnect (Sys0 := Example.publisher) Example.endpoint (bs "two") 2%nat Example.told)) (bs "two") 2%nat
    (from_tcp_addr (V4 [127; 0; 0; 1]) 5555)) as (Hp & _ & _ & Hs);
    [by vm_compute|by vm_compute|apply (pair_snd _ _ Ht)|].
  eexists. split; [exact Hp|exact Hs].
Defined.
