(* ===== verification/Proxy.v ===== *)
(** [proxy] (src/src/lib.rs): it forwards what two sockets receive to each other, and a copy of
    all of it to a third. *)

From S2P Require Import Prelude Message Endpoint Errors SocketTypes Greeting Command Codec.
From S2P Require Import FairQueue Channels Runtime Backend Receive Sockets.

(** [SocketRecv] and [SocketSend]: a poll of [recv], which keeps no state of its own, so that it
    may be dropped when it is pending; and a [send] that has completed. *)
Class SocketRecv (W : Type) : Type := recv : task -> W -> W * poll (result ZmqMessage.t ZmqError).
Class SocketSend (W : Type) : Type := send : ZmqMessage.t -> W -> W * result unit ZmqError.

#[global] Hint Mode SocketRecv ! : typeclass_instances.
#[global] Hint Mode SocketSend ! : typeclass_instances.

Section Proxy.
Context {F B C : Type} `{!SocketRecv F, !SocketSend F, !SocketRecv B, !SocketSend B, !SocketSend C}.

Record proxy_state : Type := mkProxy { frontend : F; backend : B; capture : option C }.
Implicit Types st : proxy_state.

(** [if let Some(capture) = &mut capture { capture.send(message.clone()).await?; }] *)
Definition capture_send (message : ZmqMessage.t) st : proxy_state * result unit ZmqError :=
  match capture st with
  | Some c => let '(c, r) := send message c in (mkProxy (frontend st) (backend st) (Some c), r)
  | None => (st, Ok tt)
  end.

(** The two branches of the [select!], once their [recv] is ready. *)
Definition frontend_branch (frontend_mess : result ZmqMessage.t ZmqError) st : proxy_state * result unit ZmqError :=
  match frontend_mess with
  | Ok message =>
      match capture_send message st with
      | (st, Ok _) => let '(b, r) := send message (backend st) in (mkProxy (frontend st) b (capture st), r)
      | (st, Err e) => (st, Err e)
      end
  | Err e => (st, Err e)
  end.

Definition backend_branch (backend_mess : result ZmqMessage.t ZmqError) st : proxy_state * result unit ZmqError :=
  match backend_mess with
  | Ok message =>
      match capture_send message st with
      | (st, Ok _) => let '(f, r) := send message (frontend st) in (mkProxy f (backend st) (capture st), r)
      | (st, Err e) => (st, Err e)
      end
  | Err e => (st, Err e)
  end.

Definition poll_frontend (cx : task) st : proxy_state * poll (result unit ZmqError) :=
  match recv cx (frontend st) with
  | (f, Ready m) => let '(st, r) := frontend_branch m (mkProxy f (backend st) (capture st)) in (st, Ready r)
  | (f, Pending) => (mkProxy f (backend st) (capture st), Pending)
  end.

Definition poll_backend (cx : task) st : proxy_state * poll (result unit ZmqError) :=
  match recv cx (backend st) with
  | (b, Ready m) => let '(st, r) := backend_branch m (mkProxy (frontend st) b (capture st)) in (st, Ready r)
  | (b, Pending) => (mkProxy (frontend st) b (capture st), Pending)
  end.

(** One poll of the loop's body: [select!] polls its branches in random order, and takes the
    first that is ready. *)
Definition proxy_round (cx : task) (frontend_first : bool) st : proxy_state * poll (result unit ZmqError) :=
  let '(first, second) :=
    if frontend_first then (poll_frontend cx, poll_backend cx) else (poll_backend cx, poll_frontend cx) in
  match first st with
  | (st, Ready r) => (st, Ready r)
  | (st, Pending) => second st
  end.

(** Polls of the proxy, by the choices of [select!]; [Some e] is what it has returned. *)
Fixpoint proxy_run (cx : task) (choices : list bool) st : proxy_state * option ZmqError :=
  match choices with
  | [] => (st, None)
  | c :: choices =>
      match proxy_round cx c st with
      | (st, Ready (Err e)) => (st, Some e)
      | (st, _) => proxy_run cx choices st
      end
  end.
End Proxy.
Arguments proxy_state : clear implicits.

(** ** What is received and sent *)

(** Sockets with a record of the messages that [recv] has answered and [send] has taken. *)
Class Recorded (W : Type) `{!SocketRecv W, !SocketSend W} : Type := {
  received : W -> list ZmqMessage.t;
  sent : W -> list ZmqMessage.t;
  recv_recorded cx w w' r : recv cx w = (w', r) ->
    received w' = received w ++ (match r with Ready (Ok m) => [m] | _ => [] end) /\ sent w' = sent w;
  send_recorded m w w' r : send m w = (w', r) ->
    sent w' = sent w ++ (if is_ok r then [m] else []) /\ received w' = received w;
}.

#[global] Hint Mode Recorded ! - - : typeclass_instances.

(** Any socket, with the two records. *)
Module Log.
Record logged (W : Type) : Type := mkLogged { socket : W; log_in : list ZmqMessage.t; log_out : list ZmqMessage.t }.
Arguments mkLogged {W} _ _ _.
Arguments socket {W} _.
Arguments log_in {W} _.
Arguments log_out {W} _.

Section Instances.
Context {W : Type} `{!SocketRecv W, !SocketSend W}.

#[global] Instance log_recv : SocketRecv (logged W) := fun cx w =>
  let '(s, r) := recv cx (socket w) in
  (mkLogged s (log_in w ++ match r with Ready (Ok m) => [m] | _ => [] end) (log_out w), r).

#[global] Instance log_send : SocketSend (logged W) := fun m w =>
  let '(s, r) := send m (socket w) in
  (mkLogged s (log_in w) (log_out w ++ if is_ok r then [m] else []), r).

#[global] Program Instance log_recorded : Recorded (logged W) := {| received := log_in; sent := log_out |}.
Next Obligation.
  intros cx w w' r. unfold recv at 1, log_recv. destruct (recv cx (socket w)) as [s x]. intros [= <- <-]. by split.
Qed.
Next Obligation.
  intros m w w' r. unfold send at 1, log_send. destruct (send m (socket w)) as [s x]. intros [= <- <-]. by split.
Qed.
End Instances.
End Log.

Section Forwarding.
Context {F B C : Type} `{Recorded F, Recorded B, !SocketSend C}.
Implicit Types st : proxy_state F B C.

(** From [st] to [st'], [d1] went to the backend and [d2] to the frontend, and [l1], [l2] were
    received but not forwarded. *)
Definition forwarded st st' (d1 l1 d2 l2 : list ZmqMessage.t) : Prop :=
  received (frontend st') = received (frontend st) ++ d1 ++ l1 /\ sent (backend st') = sent (backend st) ++ d1
  /\ received (backend st') = received (backend st) ++ d2 ++ l2 /\ sent (frontend st') = sent (frontend st) ++ d2.

Lemma capture_frame m st st' r :
  capture_send m st = (st', r) -> frontend st' = frontend st /\ backend st' = backend st.
Proof. unfold capture_send. destruct (capture st); [destruct (send m _)|]; by intros [= <- _]. Qed.

(** A branch forwards its message, or the proxy ends. *)
Lemma poll_frontend_forwards cx st st' r :
  poll_frontend cx st = (st', r) ->
  exists d l, forwarded st st' d l [] [] /\ length l <= 1 /\ (l <> [] -> exists e, r = Ready (Err e))
    /\ (r = Pending -> d = []).
Proof.
  unfold poll_frontend, forwarded. destruct (recv cx (frontend st)) as [f x] eqn:Hf.
  apply recv_recorded in Hf as [Hin Hout]. destruct x as [[m|e]|].
  2,3: cbn in *; intros [= <- <-]; exists [], []; cbn; rewrite Hin, Hout, !app_nil_r; split_and!; try done; lia.
  unfold frontend_branch. destruct (capture_send m _) as [st1 [u|e]] eqn:Hc; apply capture_frame in Hc as [Hf1 Hb1]; cbn in Hf1, Hb1.
  - destruct (send m (backend st1)) as [b y] eqn:Hs. apply send_recorded in Hs as [Ho Hi]. rewrite Hb1 in Ho, Hi.
    intros [= <- <-]. cbn. rewrite Hf1, Hin, Hout, Ho, Hi, !app_nil_r. destruct y as [v|e]; cbn.
    + exists [m], []. rewrite app_nil_r. split_and!; try done; cbn; lia.
    + exists [], [m]. rewrite !app_nil_r. split_and!; try done; eauto.
  - intros [= <- <-]. exists [], [m]. cbn. rewrite Hf1, Hb1, Hin, Hout, !app_nil_r. split_and!; try done; by eauto.
Qed.

Lemma poll_backend_forwards cx st st' r :
  poll_backend cx st = (st', r) ->
  exists d l, forwarded st st' [] [] d l /\ length l <= 1 /\ (l <> [] -> exists e, r = Ready (Err e))
    /\ (r = Pending -> d = []).
Proof.
  unfold poll_backend, forwarded. destruct (recv cx (backend st)) as [b x] eqn:Hf.
  apply recv_recorded in Hf as [Hin Hout]. destruct x as [[m|e]|].
  2,3: cbn in *; intros [= <- <-]; exists [], []; cbn; rewrite Hin, Hout, !app_nil_r; split_and!; try done; lia.
  unfold backend_branch. destruct (capture_send m _) as [st1 [u|e]] eqn:Hc; apply capture_frame in Hc as [Hf1 Hb1]; cbn in Hf1, Hb1.
  - destruct (send m (frontend st1)) as [f y] eqn:Hs. apply send_recorded in Hs as [Ho Hi]. rewrite Hf1 in Ho, Hi.
    intros [= <- <-]. cbn. rewrite Hb1, Hin, Hout, Ho, Hi, !app_nil_r. destruct y as [v|e]; cbn.
    + exists [m], []. rewrite app_nil_r. split_and!; try done; cbn; lia.
    + exists [], [m]. rewrite !app_nil_r. split_and!; try done; eauto.
  - intros [= <- <-]. exists [], [m]. cbn. rewrite Hf1, Hb1, Hin, Hout, !app_nil_r. split_and!; try done; by eauto.
Qed.

Lemma forwarded_trans st st1 st2 d1 d2 e1 l1 e2 l2 :
  forwarded st st1 d1 [] d2 [] -> forwarded st1 st2 e1 l1 e2 l2 ->
  forwarded st st2 (d1 ++ e1) l1 (d2 ++ e2) l2.
Proof.
  unfold forwarded. intros (A1 & A2 & A3 & A4) (B1 & B2 & B3 & B4).
  by rewrite B1, B2, B3, B4, A1, A2, A3, A4, !app_nil_r, <- !app_assoc.
Qed.

Lemma proxy_round_forwards cx c st st' r :
  proxy_round cx c st = (st', r) ->
  exists d1 l1 d2 l2, forwarded st st' d1 l1 d2 l2 /\ length (l1 ++ l2) <= 1
    /\ (l1 ++ l2 <> [] -> exists e, r = Ready (Err e)).
Proof.
  assert (Hnil : forall (r : poll (result unit ZmqError)) (l : list ZmqMessage.t),
    r = Pending -> (l <> [] -> exists e, r = Ready (Err e)) -> l = []).
  { intros r0 [|m l] -> Hl; [done|]. by destruct (Hl ltac:(done)). }
  unfold proxy_round. destruct c.
  - destruct (poll_frontend cx st) as [st1 [x|]] eqn:Hf; apply poll_frontend_forwards in Hf as (d & l & Hd & Hl & He & Hp).
    + intros [= <- <-]. exists d, l, [], []. by rewrite app_nil_r.
    + rewrite (Hnil _ l eq_refl He), (Hp eq_refl) in Hd. intros (d' & l' & Hd' & Hl' & He' & _)%poll_backend_forwards.
      exists [], [], d', l'. split; [|done]. by eapply (forwarded_trans _ _ _ [] []).
  - destruct (poll_backend cx st) as [st1 [x|]] eqn:Hf; apply poll_backend_forwards in Hf as (d & l & Hd & Hl & He & Hp).
    + intros [= <- <-]. exists [], [], d, l. done.
    + rewrite (Hnil _ l eq_refl He), (Hp eq_refl) in Hd. intros (d' & l' & Hd' & Hl' & He' & _)%poll_frontend_forwards.
      exists d', l', [], []. rewrite app_nil_r. split; [|done]. by eapply (forwarded_trans _ _ _ [] []).
Qed.
End Forwarding.

(** C39 A proxy forwards what its sockets receive, each message once and in order, to the other
    one. While it runs nothing is kept back; when it has returned, with an error, at most one
    message that was received has not been forwarded. *)
Theorem proxy_forwards {F B C : Type} `{Recorded F, Recorded B, !SocketSend C} (cx : task) (choices : list bool)
    (st st' : proxy_state F B C) (r : option ZmqError) :
  proxy_run cx choices st = (st', r) ->
  exists d1 l1 d2 l2,
    received (frontend st') = received (frontend st) ++ d1 ++ l1 /\ sent (backend st') = sent (backend st) ++ d1
    /\ received (backend st') = received (backend st) ++ d2 ++ l2 /\ sent (frontend st') = sent (frontend st) ++ d2
    /\ length (l1 ++ l2) <= 1 /\ (r = None -> l1 = [] /\ l2 = []).
Proof.
  intros Hr. enough (exists d1 l1 d2 l2, forwarded st st' d1 l1 d2 l2 /\ length (l1 ++ l2) <= 1
    /\ (r = None -> l1 = [] /\ l2 = [])) as (d1 & l1 & d2 & l2 & (? & ? & ? & ?) & ? & ?) by by exists d1, l1, d2, l2.
  revert st Hr. induction choices as [|c choices IH]; intros st; cbn.
  - intros [= <- <-]. exists [], [], [], []. unfold forwarded. rewrite !app_nil_r. split_and!; try done. cbn. lia.
  - destruct (proxy_round cx c st) as [st1 x] eqn:Hx. apply proxy_round_forwards in Hx as (d1 & l1 & d2 & l2 & Hd & Hl & He).
    assert (Hgo : (forall e, x <> Ready (Err e)) -> proxy_run cx choices st1 = (st', r) -> exists d1 l1 d2 l2,
      forwarded st st' d1 l1 d2 l2 /\ length (l1 ++ l2) <= 1 /\ (r = None -> l1 = [] /\ l2 = [])).
    { intros Hx Hr. assert (l1 = [] /\ l2 = []) as [-> ->].
      { apply app_nil. destruct (l1 ++ l2) as [|m l]; [done|]. destruct (He ltac:(done)) as [e ->]. by destruct (Hx e). }
      destruct (IH st1 Hr) as (e1 & k1 & e2 & k2 & He' & ?). exists (d1 ++ e1), k1, (d2 ++ e2), k2.
      split; [by eapply forwarded_trans|done]. }
    destruct x as [[u|e]|]; [by apply Hgo| |by apply Hgo]. intros [= <- <-]. by exists d1, l1, d2, l2.
Qed.

(** ** Two DEALER sockets *)

Module Example.
#[local] Existing Instance Runtime_exec.
#[local] Existing Instances Items.stream Items.finite.

(** Both sides are logged. *)
#[global] Instance recv_dealer : SocketRecv (GenericSocketBackend (list item)) := dealer_recv.
#[global] Instance send_dealer : SocketSend (GenericSocketBackend (list item)) := dealer_send.

Definition dealer (peer_id : PeerIdentity) (l : list item) : GenericSocketBackend (list item) :=
  generic_peer_connected peer_id (mkIo l 0%nat) (dealer_with_options default_options new_process).

Definition idle : proxy_state (Log.logged (GenericSocketBackend (list item)))
    (Log.logged (GenericSocketBackend (list item))) (GenericSocketBackend (list item)) :=
  mkProxy (Log.mkLogged (dealer (bs "alice") [Ok (MMessage (ZmqMessage.mk [bs "hello"]))]) [] [])
    (Log.mkLogged (dealer (bs "bob") []) [] []) None.

Definition ran := proxy_run 0%nat [true; false; true] idle.
End Example.

Lemma proxy_forwards_witness :
  exists m, received (frontend (fst Example.ran)) = [m] /\ sent (backend (fst Example.ran)) = [m].
Proof.
  assert (snd Example.ran = None) as Hr by (by vm_compute).
  destruct (proxy_forwards 0%nat [true; false; true] Example.idle (fst Example.ran) None)
    as (d1 & l1 & d2 & l2 & H1 & H2 & _ & _ & _ & Hn); [exact (pair_snd _ _ Hr)|].
  destruct (Hn eq_refl) as [-> _]. rewrite app_nil_r in H1.
  assert (sent (backend Example.idle) = [] /\ received (frontend Example.idle) = []) as [E1 E2] by (split; reflexivity).
  assert (length (sent (backend (fst Example.ran))) = 1%nat) as Hl by (vm_compute; reflexivity).
  rewrite E2 in H1. rewrite E1 in H2. cbn [app] in H1, H2. rewrite H2 in Hl.
  destruct d1 as [|m [|m' l]]; [discriminate Hl| |discriminate Hl]. exists m. split; [exact H1|exact H2].
Defined.
