(* ===== verification/Wire.v ===== *)
(** From the wire to the user: the framed readers of the connections ([Framed.v]) as the streams of
    a socket's fair queue ([FairQueue.v]), and what its [recv] ([Receive.v], [Sockets.v]) then
    gives of what the peers have written. *)

From S2P Require Import Prelude Message Endpoint Errors SocketTypes Greeting Command Codec Framed.
From S2P Require Import FairQueue Channels Runtime Backend Handshake Receive Sockets.
From S2P Require Import Subscriptions XPub SubBackend.

(** Transports that do not get new data while they are polled. *)
Class FiniteRead (R : Type) `{AsyncRead R} : Prop := {
  available_le (r r' : R) n x : poll_read r n = (r', x) -> available r' <= available r;
}.

#[export] Instance script_FiniteRead : FiniteRead script.
Proof.
  split. cbn. unfold script_read. intros r r' n x Hp.
  destruct (Framed.events r) as [|[[l|e]|] es] eqn:E; simplify_eq; cbn; rewrite ?E; cbn; [lia| |lia..].
  destruct (Z.leb_spec (len l) n); simplify_eq; cbn; [lia|]. unfold zdrop. rewrite length_drop. lia.
Qed.

(** ** Polling terminates *)

Section Weight.
Context {R : Type} `{AsyncRead R, !FiniteRead R, DecodeEof}.
Implicit Types self : ZmqFramedRead R.

Lemma decode_measure_le c src c' src' o :
  decode c src = (c', src', o) -> decode_measure c' src' <= decode_measure c src.
Proof.
  revert c src c' src' o. apply (decode_ind (fun c src => forall c' src' o, decode c src = (c', src', o) ->
    decode_measure c' src' <= decode_measure c src)).
  intros c src IH c' src' o. rewrite decode_unfold.
  destruct (decode_step c src) as [c1 src1|c1 src1 o1] eqn:E.
  - intros Hd. pose proof (decode_step_measure _ _ _ _ E). pose proof (IH _ _ eq_refl _ _ _ Hd). lia.
  - intros [= <- <- <-]. revert E. unfold decode_step, decode_measure. intros Hs.
    destruct (state c) as [| |f|f] eqn:E; step_cases; simplify_eq; try congruence; cbn;
      unfold zdrop; rewrite ?length_drop; cbn [length]; unfold len in *; lia.
Qed.

(** What bounds the messages of a reader: its buffer, and what its transport can deliver. *)
Definition weight self : nat :=
  decode_measure (codec self) (buffer self)
  + available (inner self) * (2 * Z.to_nat (read_buffer_max_size (options self))).

Lemma poll_read_weight self min self' x :
  framed_wf self -> poll_read_into_buffer self min = (self', x) -> weight self' <= weight self.
Proof using FiniteRead0.
  intros (_ & Ho & Hk & _) Hp. unfold poll_read_into_buffer in Hp.
  assert (0 <= read_size self min <= read_buffer_max_size (options self))%Z as Hsize.
  { unfold read_size, options_wf, chunk_ok in *. lia. }
  destruct (poll_read (inner self) (read_size self min)) as [r y] eqn:E.
  pose proof (available_le _ _ _ _ E) as Hav. unfold weight.
  destruct y as [[l|e]|]; [|injection Hp as <- _; cbn; nia..].
  destruct (adapt _ _ _ _ _) as [chunk shorts]. injection Hp as <- _. cbn [codec buffer inner options].
  pose proof (poll_read_len _ _ _ _ (proj1 Hsize) E) as Hlen. unfold decode_measure. rewrite length_app.
  unfold len in Hlen. destruct l as [|b l]; [cbn; nia|].
  pose proof (poll_read_available _ _ _ _ E ltac:(done)) as Hlt.
  assert (length (b :: l) <= Z.to_nat (read_buffer_max_size (options self))) by lia. nia.
Qed.

Lemma run_decoder_weight self self' o :
  run_decoder decode self = (self', o) ->
  weight self' <= weight self /\ forall m, o = Item m -> weight self' < weight self.
Proof.
  unfold run_decoder, weight. destruct (decode (codec self) (buffer self)) as [[c b] o1] eqn:E.
  intros [= <- <-]. cbn [codec buffer inner options]. split; [apply decode_measure_le in E; lia|]. intros m ->.
  apply decode_item_measure in E. lia.
Qed.

Lemma read_loop_weight fuel self self' x :
  framed_wf self -> read_loop fuel self = (self', x) ->
  weight self' <= weight self /\ forall m, x = Some (Ready (Some (Ok m))) -> weight self' < weight self.
Proof using FiniteRead0.
  revert self. induction fuel as [|fuel IH]; intros self Hwf Hl; [by injection Hl as <- <-|].
  cbn [read_loop] in Hl. destruct (poll_read_into_buffer self _) as [self1 y] eqn:Hp.
  pose proof (poll_read_weight _ _ _ _ Hwf Hp) as Hw1. apply poll_read_wf in Hp as (Hwf1 & _); [|done].
  destruct y as [[n|e]|]; [|injection Hl as <- <-; by split..].
  destruct (run_decoder decode self1) as [self2 o] eqn:Hd.
  pose proof (run_decoder_wf self1 Hwf1) as Hwf2. rewrite Hd in Hwf2. cbn in Hwf2.
  apply run_decoder_weight in Hd as [Hw2 Hw2'].
  destruct o as [m|k|e|]; [|destruct (n =? 0)%Z|injection Hl as <- <-; split; [lia|done]..].
  - injection Hl as <- <-. specialize (Hw2' m eq_refl). split; [lia|]. intros _ _. lia.
  - case_bool_decide; [injection Hl as <- <-; split; [lia|done]|].
    assert (Heof : run_decoder decode_eof self2 = run_decoder decode self2)
      by (unfold run_decoder; by rewrite decode_eof_decode).
    rewrite Heof in Hl. destruct (run_decoder decode self2) as [self3 o] eqn:Hd.
    apply run_decoder_weight in Hd as [Hw3 Hw3'].
    destruct o as [m|k'|e|]; [|case_bool_decide|..]; injection Hl as <- <-; split; try lia; try done.
    intros _ _. specialize (Hw3' m eq_refl). lia.
  - apply IH in Hl as [Hw3 Hw3']; [|done]. split; [lia|]. intros m Hm. specialize (Hw3' m Hm). lia.
Qed.

Lemma poll_next_weight self self' x :
  framed_wf self -> Framed.poll_next self = (self', x) ->
  weight self' <= weight self /\ forall m, x = Some (Ready (Some (Ok m))) -> weight self' < weight self.
Proof using FiniteRead0.
  intros Hwf. unfold Framed.poll_next. destruct (run_decoder decode self) as [self1 o] eqn:Hd.
  pose proof (run_decoder_wf self Hwf) as Hwf1. rewrite Hd in Hwf1. cbn in Hwf1.
  apply run_decoder_weight in Hd as [Hw1 Hw1']. destruct o as [m|k|e|].
  - intros [= <- <-]. specialize (Hw1' m eq_refl). split; [lia|]. intros _ _. lia.
  - intros Hl. apply read_loop_weight in Hl as [Hw2 Hw2']; [|done]. split; [lia|].
    intros m Hm. specialize (Hw2' m Hm). lia.
  - intros [= <- <-]. by split.
  - intros [= <- <-]. by split.
Qed.
End Weight.

(** ** Readers as streams *)

Section Readers.
Context {R : Type} `{AsyncRead R, !FiniteRead R, DecodeEof}.

(** A reader, whose invariant holds from its construction on. *)
Definition reader : Type := { self : ZmqFramedRead R | framed_wf self }.

Lemma poll_reader_wf (s : reader) : framed_wf (fst (Framed.poll_next (proj1_sig s))).
Proof.
  destruct s as [self Hwf]. cbn. destruct (Framed.poll_next self) as [self' x] eqn:E.
  by destruct (poll_next_spec _ _ _ Hwf E).
Qed.

(** [Stream for ZmqFramedRead]; the decoder does not panic ([poll_next_spec]), and the waker is
    called when data arrives, not during a poll. *)
Definition poll_reader (s : reader) : reader * poll (option item) * bool :=
  (exist _ (fst (Framed.poll_next (proj1_sig s))) (poll_reader_wf s),
   default Pending (snd (Framed.poll_next (proj1_sig s))), false).

#[export] Instance reader_stream : Stream reader item := {| poll_stream := poll_reader |}.

Lemma poll_reader_inv (s s' : reader) x wk :
  poll_stream s = (s', x, wk) -> Framed.poll_next (proj1_sig s) = (proj1_sig s', Some x).
Proof.
  destruct s as [self Hwf]. cbn. intros Hp. injection Hp as <- Hx _. cbn.
  destruct (Framed.poll_next self) as [self' y] eqn:E. cbn in *.
  pose proof (poll_next_spec _ _ _ Hwf E) as [_ (input & _ & Hy)]. destruct y as [y|]; [|done].
  cbn in Hx. by rewrite Hx.
Qed.

#[export] Program Instance reader_finite : FiniteStream reader := {| remaining s := weight (proj1_sig s) |}.
Next Obligation. intros s s' wk Hp%poll_reader_inv. by apply poll_next_weight in Hp as [? _]; [|apply proj2_sig]. Qed.
Next Obligation.
  intros s s' m wk Hp%poll_reader_inv. apply poll_next_weight in Hp as [_ Hlt]; [|apply proj2_sig].
  by apply (Hlt m).
Qed.
Next Obligation. intros s s' e wk Hp%poll_reader_inv. by apply poll_next_weight in Hp as [? _]; [|apply proj2_sig]. Qed.
End Readers.

(** ** What the peers of a socket have written *)

Section Wire.
Context {R : Type} `{AsyncRead R, !FiniteRead R, DecodeEof}.
Implicit Types (r : R) (s : reader (R := R)) (ms : list Message).

(** One read of a transport, of any size and with any outcome. *)
Definition reads r r' : Prop := exists n x, poll_read r n = (r', x).

(** All that a transport still delivers is (a beginning of) [w]. *)
Definition fed r (w : bytes) : Prop :=
  forall r', rtc reads r r' -> exists rest, Framed.delivered r ++ w = Framed.delivered r' ++ rest.

Lemma fed_reads r r' input w :
  rtc reads r r' -> Framed.delivered r' = Framed.delivered r ++ input -> fed r w ->
  exists rest, w = input ++ rest /\ fed r' rest.
Proof.
  intros Hr Hd Hf. destruct (Hf r' Hr) as [rest Hw]. rewrite Hd, <- app_assoc in Hw.
  apply app_inv_head in Hw as ->. exists rest. split; [done|]. intros r2 Hr2.
  destruct (Hf r2) as [rest2 Hw2]; [by etransitivity|]. exists rest2. by rewrite <- Hw2, Hd, <- app_assoc.
Qed.

Lemma run_decoder_inner d (self self' : ZmqFramedRead R) o :
  run_decoder d self = (self', o) -> inner self' = inner self.
Proof. unfold run_decoder. destruct (d _ _) as [[c b] o']. by intros [= <- _]. Qed.

Lemma poll_read_reads (self self' : ZmqFramedRead R) min x :
  poll_read_into_buffer self min = (self', x) -> reads (inner self) (inner self').
Proof.
  unfold poll_read_into_buffer. destruct (poll_read _ _) as [r y] eqn:E. intros Hp.
  eexists _, _. rewrite E. destruct y as [[l|e]|]; [destruct (adapt _ _ _ _ _)|..]; by injection Hp as <- _.
Qed.

Lemma read_loop_reads fuel (self self' : ZmqFramedRead R) x :
  read_loop fuel self = (self', x) -> rtc reads (inner self) (inner self').
Proof.
  revert self. induction fuel as [|fuel IH]; intros self; cbn [read_loop]; [by intros [= <- _]|].
  destruct (poll_read_into_buffer self _) as [self1 y] eqn:Hp. apply poll_read_reads in Hp.
  intros Hl. eapply rtc_l; [exact Hp|]. destruct y as [[n|e]|]; [|by injection Hl as <- _..].
  destruct (run_decoder decode self1) as [self2 o] eqn:Hd. apply run_decoder_inner in Hd as <-.
  destruct o as [m|k|e|]; [by injection Hl as <- _| |by injection Hl as <- _..].
  destruct (n =? 0)%Z; [|by apply IH]. case_bool_decide; [by injection Hl as <- _|].
  destruct (run_decoder decode_eof self2) as [self3 o] eqn:Hd. apply run_decoder_inner in Hd as <-.
  destruct o; [|case_bool_decide|..]; by injection Hl as <- _.
Qed.

Lemma poll_next_reads (self self' : ZmqFramedRead R) x :
  Framed.poll_next self = (self', x) -> rtc reads (inner self) (inner self').
Proof.
  unfold Framed.poll_next. destruct (run_decoder decode self) as [self1 o] eqn:Hd.
  apply run_decoder_inner in Hd as <-. destruct o; [by intros [= <- _]| |by intros [= <- _]..].
  apply read_loop_reads.
Qed.

(** The messages still to come from a reader, [w] being all that its transport still delivers:
    what its decoder makes of its buffer and [w]; then the decoder is [c], and [b] is left. *)
Definition yields s (w : bytes) ms (c : ZmqCodec) (b : bytes) : Prop :=
  fed (inner (proj1_sig s)) w
  /\ exists n, drain (codec (proj1_sig s)) (buffer (proj1_sig s) ++ w) = (ms, (c, b, NeedMore n)).

Definition awaits s (w : bytes) ms : Prop := exists c b, yields s w ms c b.

(** The reader has come from [s] to [s'], with [w'] of [w] left to read. *)
Definition advanced s s' (w w' : bytes) : Prop :=
  Framed.delivered (inner (proj1_sig s')) ++ w' = Framed.delivered (inner (proj1_sig s)) ++ w.

(** A poll takes at most the first of the messages to come. *)
Lemma yields_poll s s' (x : poll (option item)) wk w ms c b :
  poll_stream s = (s', x, wk) -> yields s w ms c b ->
  exists w' ms', ms = match x with Ready (Some (Ok m)) => m :: ms' | _ => ms' end
    /\ advanced s s' w w' /\ yields s' w' ms' c b.
Proof.
  intros Hp%poll_reader_inv (Hf & n & Hd). unfold yields, advanced.
  destruct s as [self Hwf], s' as [self' Hwf']. cbn [proj1_sig] in *.
  pose proof (poll_next_reads _ _ _ Hp) as Hr.
  apply poll_next_spec in Hp as [_ (input & Hdel & Hx)]; [|done].
  destruct (fed_reads _ _ _ _ Hr Hdel Hf) as (rest & -> & Hf'). rewrite app_assoc in Hd.
  rewrite Hdel. exists rest.
  assert (drain (codec self) (buffer self ++ input) = drain (codec self') (buffer self') ->
    exists ms', ms = ms' /\ (Framed.delivered (inner self) ++ input) ++ rest = Framed.delivered (inner self) ++ input ++ rest
      /\ fed (inner self') rest
      /\ exists n, drain (codec self') (buffer self' ++ rest) = (ms', (c, b, NeedMore n))) as Hrest.
  { intros Heq. exists ms. split_and!; [done|by rewrite app_assoc|done|]. exists n.
    rewrite <- Hd, drain_app, <- Heq, <- drain_app by (apply Hwf || apply Hwf'). done. }
  destruct x as [[[m|e]|]|].
  - rewrite (drain_cons_app _ _ _ _ _ rest (proj1 Hwf) (proj1 Hwf') Hx) in Hd.
    destruct (drain (codec self') (buffer self' ++ rest)) as [ms' t] eqn:E. injection Hd as <- ->.
    exists ms'. split_and!; [done|by rewrite app_assoc|done|by exists n].
  - destruct Hx as [Hx|[Hx _]]; [by rewrite drain_app, Hx in Hd by apply Hwf|by apply Hrest].
  - by apply Hrest, Hx.
  - by apply Hrest, Hx.
Qed.

Lemma advanced_trans s1 s2 s3 (w1 w2 w3 : bytes) :
  advanced s1 s2 w1 w2 -> advanced s2 s3 w2 w3 -> advanced s1 s3 w1 w3.
Proof. unfold advanced. congruence. Qed.

Lemma yields_trace s (l : list item) s' w ms c b :
  trace s l s' -> yields s w ms c b ->
  exists w' ms', ms = oks l ++ ms' /\ advanced s s' w w' /\ yields s' w' ms' c b.
Proof.
  intros Ht. revert w ms. induction Ht as [s|s s1 wk l s' Hp Ht IH|s s1 x wk l s' Hp Ht IH]; intros w ms Ha.
  - by exists w, ms.
  - apply (yields_poll _ _ _ _ _ _ _ _ Hp) in Ha as (w1 & ms1 & -> & Had & Ha).
    destruct (IH _ _ Ha) as (w' & ms' & -> & Had' & Ha'). exists w', ms'.
    split_and!; [done|by eapply advanced_trans|done].
  - apply (yields_poll _ _ _ _ _ _ _ _ Hp) in Ha as (w1 & ms1 & -> & Had & Ha).
    destruct (IH _ _ Ha) as (w' & ms' & -> & Had' & Ha'). exists w', ms'.
    split_and!; [by destruct x|by eapply advanced_trans|done].
Qed.

Lemma awaits_trace s (l : list item) s' w ms :
  trace s l s' -> awaits s w ms ->
  exists w' ms', ms = oks l ++ ms' /\ advanced s s' w w' /\ awaits s' w' ms'.
Proof.
  intros Ht (c & b & Hy). destruct (yields_trace _ _ _ _ _ _ _ Ht Hy) as (w' & ms' & -> & Had & Hy').
  exists w', ms'. split_and!; [done|done|by exists c, b].
Qed.

(** A reader from which the handshake has taken the peer's greeting and READY command, whatever
    came with them into its buffer; the peer writes the messages [ms] behind them, of which
    [w] has not been read yet. *)
Definition connected `{HashOrder} s ms (w : bytes) : Prop :=
  exists (o : SocketOptions) r g c s0 w0,
    proj1_sig s0 = new_framed_read r o /\ fed r w0
    /\ expects_all (Codec.with_options o) (MGreeting g :: MCommand c :: ms)
    /\ encode_all (MGreeting g :: MCommand c :: ms) = Some w0
    /\ trace s0 [Ok (MGreeting g); Ok (MCommand c)] s /\ advanced s0 s w0 w.

(** A new reader awaits all that its peer writes. *)
Lemma yields_new `{HashOrder} s0 r (o : SocketOptions) ms w :
  proj1_sig s0 = new_framed_read r o -> fed r w -> expects_all (Codec.with_options o) ms ->
  encode_all ms = Some w -> yields s0 w ms (codec_after (Codec.with_options o) ms) [].
Proof.
  destruct s0 as [self Hwf]. cbn [proj1_sig]. intros -> Hf He Hw. split; [done|]. cbn [proj1_sig].
  exact (drain_encode_all _ _ _ (proj1 Hwf) ltac:(done) He Hw).
Qed.

Lemma awaits_new `{HashOrder} s0 r (o : SocketOptions) ms w :
  proj1_sig s0 = new_framed_read r o -> fed r w -> expects_all (Codec.with_options o) ms ->
  encode_all ms = Some w -> awaits s0 w ms.
Proof. intros. eexists _, _. by eapply yields_new. Qed.

Lemma awaits_connected `{HashOrder} s ms w : connected s ms w -> awaits s w ms.
Proof.
  intros (o & r & g & c & s0 & w0 & Hs0 & Hf & He & Hw & Ht & Had).
  destruct (awaits_trace _ _ _ _ _ Ht (awaits_new _ _ _ _ _ Hs0 Hf He Hw)) as (w' & ms' & [= <-] & Had' & Ha).
  unfold advanced in *. rewrite <- Had in Had'. by apply app_inv_head in Had' as ->.
Qed.

Lemma awaits_consumed s (l : list item) o w ms :
  consumed (Some s) l o -> awaits s w ms ->
  exists w' ms', ms = oks l ++ ms' /\ forall s', o = Some s' -> advanced s s' w w' /\ awaits s' w' ms'.
Proof.
  destruct o as [s1|]; cbn [consumed].
  - intros Ht Ha. destruct (awaits_trace _ _ _ _ _ Ht Ha) as (w' & ms' & -> & Had & Ha').
    exists w', ms'. split; [done|]. by intros ? [= <-].
  - intros (s1 & Ht & _) Ha. destruct (awaits_trace _ _ _ _ _ Ht Ha) as (w' & ms' & -> & _).
    by exists w', ms'.
Qed.

(** A reader that waits has nothing in its buffer that decodes. *)
Lemma parked_awaits s ms : parked s -> awaits s [] ms -> ms = [].
Proof.
  intros (s0 & Hp%poll_reader_inv) (c & b & _ & n & Hd). rewrite app_nil_r in Hd.
  apply poll_next_spec in Hp as [_ (input & _ & _ & Hst)]; [|apply proj2_sig].
  destruct (starving_drain _ Hst) as [k Hk]. rewrite Hk in Hd. by injection Hd.
Qed.
End Wire.

(** ** Sockets that answer messages *)

(** A receiver that answers every message, and nothing else but errors. *)
Class MessageReceiver {W S : Type} `{!HasQueue W S PeerIdentity}
    (Rc : Receiver W S ZmqMessage.t) : Type := {
  deliver : PeerIdentity -> ZmqMessage.t -> ZmqMessage.t;
  handle_messages p x (b : W) :
    match x with
    | Ok (MMessage m) => snd (handle p x b) = Some (Ok (deliver p m))
    | _ => forall m, snd (handle p x b) <> Some (Ok m)
    end;
}.

(** The sockets that receive so: all but REQ and REP. *)
Section Instances.
Context {S : Type} `{Runtime}.

#[export] Program Instance dealer_messages : MessageReceiver (dealer_receiver (S := S)) := {| deliver _ m := m |}.
Next Obligation. by intros p [[g|c|m]|e] b. Qed.
#[export] Program Instance router_messages : MessageReceiver (router_receiver (S := S)) :=
  {| deliver p m := ZmqMessage.push_front m p |}.
Next Obligation. by intros p [[g|c|m]|e] b. Qed.
#[export] Program Instance pull_messages : MessageReceiver (pull_receiver (S := S)) := {| deliver _ m := m |}.
Next Obligation. by intros p [[g|c|m]|e] b. Qed.
#[export] Program Instance sub_messages : MessageReceiver (sub_receiver (S := S)) := {| deliver _ m := m |}.
Next Obligation. by intros p [[g|c|m]|e] b. Qed.
#[export] Program Instance xpub_messages : MessageReceiver (xpub_receiver (S := S)) := {| deliver _ m := m |}.
Next Obligation. by intros p [[g|c|m]|e] b. Qed.
End Instances.

Section Receivers.
Context {W S : Type} `{!HasQueue W S PeerIdentity, !OnDisconnect W S PeerIdentity, !Stream S item, !FiniteStream S}.
Abbreviation socket := W.
Context (Rc : Receiver W S ZmqMessage.t) `{!MessageReceiver Rc}.

(** Between two polls, data arrives for some peers, and the wakers of their streams are called. *)
Definition wake_all (peers : list PeerIdentity) (b : socket) : socket :=
  fold_left (fun b k => update (wake k) b) peers b.

(** Polls of a socket's [recv], called again whenever it has answered, each after the wakes of
    one element of [arrivals]: the messages it answered with. *)
Fixpoint recv_polls (arrivals : list (list PeerIdentity)) (cx : task) (b : socket) :
    socket * list ZmqMessage.t :=
  match arrivals with
  | [] => (b, [])
  | peers :: arrivals =>
      let '(b, r) := recv_poll cx (wake_all peers b) in
      let '(b', got) := recv_polls arrivals cx b in
      (b', match r with Ready (Ok m) => m :: got | _ => got end)
  end.

Lemma wake_all_streams peers (b : socket) : streams (queue (wake_all peers b)) = streams (queue b).
Proof.
  revert b. induction peers as [|k peers IH]; intros b; [done|]. cbn [wake_all fold_left].
  etransitivity; [apply IH|]. unfold update. rewrite queue_set. apply push_ready_streams.
Qed.

Lemma wake_all_armed peers (b : socket) : armed (queue b) -> armed (queue (wake_all peers b)).
Proof.
  revert b. induction peers as [|k peers IH]; intros b Ha; [done|]. cbn [wake_all fold_left].
  apply IH. rewrite queue_update. by apply armed_wake.
Qed.

(** What the items [l] are for the user. *)
Definition delivered_messages (l : list (PeerIdentity * item)) : list ZmqMessage.t :=
  flat_map (fun '(p, x) => match x with Ok (MMessage m) => [deliver p m] | _ => [] end) l.

Lemma skipped_delivers_nothing l :
  Forall (fun '(p, x) => exists b : socket, snd (handle p x b) = None) l -> delivered_messages l = [].
Proof.
  induction 1 as [|[p x] l (b & Hb) _ IH]; [done|]. unfold delivered_messages in *. cbn. rewrite IH.
  pose proof (handle_messages p x b) as Hm. rewrite Hb in Hm. by destruct x as [[]|].
Qed.

Lemma answers_delivered l r (b' : socket) :
  answers l r b' -> delivered_messages l = match r with Ready (Ok m) => [m] | _ => [] end.
Proof.
  destruct r as [res|]; [|by apply skipped_delivers_nothing].
  intros (l0 & p & x & b & -> & Hs%skipped_delivers_nothing & Hh). unfold delivered_messages in *.
  rewrite flat_map_app, Hs. cbn. rewrite app_nil_r. pose proof (handle_messages p x b) as Hm.
  rewrite Hh in Hm. cbn [snd] in Hm. destruct x as [[]|], res; naive_solver.
Qed.

Lemma recv_polls_armed arrivals cx (b b' : socket) got :
  recv_polls arrivals cx b = (b', got) -> armed (queue b) -> armed (queue b').
Proof.
  revert b got. induction arrivals as [|peers arrivals IH]; intros b got; cbn [recv_polls].
  { by intros [= <- _]. }
  destruct (recv_poll cx (wake_all peers b)) as [b1 r] eqn:Hr.
  destruct (recv_polls arrivals cx b1) as [b2 got2] eqn:Hn.
  intros [= <- _] Ha. by eapply IH, recv_poll_armed, wake_all_armed.
Qed.

Lemma recv_polls_consumes arrivals cx (b b' : socket) got :
  recv_polls arrivals cx b = (b', got) ->
  exists l, got = delivered_messages l
    /\ forall k, consumed (streams (queue b) !! k) (taken_from k l) (streams (queue b') !! k).
Proof.
  revert b got. induction arrivals as [|peers arrivals IH]; intros b got; cbn [recv_polls].
  { intros [= <- <-]. exists []. split; [done|]. intros k. apply consumed_refl. }
  destruct (recv_poll cx (wake_all peers b)) as [b1 r] eqn:Hr.
  destruct (recv_polls arrivals cx b1) as [b2 got2] eqn:Hn.
  intros [= <- <-]. apply recv_poll_consumes in Hr as (l1 & Ha%answers_delivered & H1).
  rewrite wake_all_streams in H1.
  destruct (IH _ _ Hn) as (l2 & -> & H2). exists (l1 ++ l2). split.
  - unfold delivered_messages in *. rewrite flat_map_app, Ha. by destruct r as [[]|].
  - intros k. unfold taken_from. rewrite flat_map_app. by eapply consumed_trans.
Qed.

(** One more poll, which waits. *)
Lemma recv_polls_snoc arrivals peers cx (b b1 b' : socket) got :
  recv_polls arrivals cx b = (b1, got) -> recv_poll cx (wake_all peers b1) = (b', Pending) ->
  recv_polls (arrivals ++ [peers]) cx b = (b', got).
Proof.
  revert b got. induction arrivals as [|ks arrivals IH]; intros b got; cbn [recv_polls app].
  { intros [= <- <-] ->. done. }
  destruct (recv_poll cx (wake_all ks b)) as [b2 r].
  destruct (recv_polls arrivals cx b2) as [b3 got2] eqn:Hn. intros [= -> <-] Hr.
  by rewrite (IH _ _ Hn Hr).
Qed.
End Receivers.

(** ** What their users get *)

Section Connected.
Context {W R : Type} `{AsyncRead R, !FiniteRead R, DecodeEof, HashOrder}.
Context `{!HasQueue W (reader (R := R)) PeerIdentity, !OnDisconnect W (reader (R := R)) PeerIdentity}.
Context (Rc : Receiver W reader ZmqMessage.t) `{!MessageReceiver Rc}.
Variable sent : PeerIdentity -> list Message.
Variable wire : PeerIdentity -> bytes.
Implicit Types b : W.

(** Each peer of [b] writes its [sent], as its [wire]. *)
Definition all_connected b : Prop :=
  forall k s, streams (queue b) !! k = Some s -> connected s (sent k) (wire k).

(** From [b] to [b'], all that the peers have written has been read. *)
Definition all_read b b' : Prop :=
  forall k s s', streams (queue b) !! k = Some s -> streams (queue b') !! k = Some s' ->
    advanced s s' (wire k) [].

(** What has been taken from a stream of [b] when it has become one of [b']. *)
Lemma consumed_sent b b' k l :
  all_connected b -> consumed (streams (queue b) !! k) (taken_from k l) (streams (queue b') !! k) ->
  match streams (queue b) !! k with
  | None => taken_from k l = []
  | Some s => exists rest w, sent k = oks (taken_from k l) ++ rest
      /\ forall s', streams (queue b') !! k = Some s' ->
           advanced s s' (wire k) w /\ awaits s' w rest
  end.
Proof.
  intros Hs Hc. destruct (streams (queue b) !! k) as [s|] eqn:E; [|by destruct Hc].
  destruct (awaits_consumed _ _ _ _ _ Hc (awaits_connected _ _ _ (Hs k s E))) as (w & rest & ? & ?).
  by exists rest, w.
Qed.

Lemma consumed_all b b' k l :
  all_connected b -> consumed (streams (queue b) !! k) (taken_from k l) (streams (queue b') !! k) ->
  all_read b b' -> (forall s', streams (queue b') !! k = Some s' -> parked s') ->
  is_Some (streams (queue b') !! k) -> oks (taken_from k l) = sent k.
Proof.
  intros Hs Hcs Hall Hpk [s' Hs']. pose proof (consumed_sent _ _ _ _ Hs Hcs) as Hc.
  destruct (streams (queue b) !! k) as [s|] eqn:E; [|by rewrite Hs' in Hcs; destruct Hcs].
  destruct Hc as (rest & w & -> & Hw). destruct (Hw s' Hs') as [Had Haw].
  specialize (Hall k s s' E Hs'). unfold advanced in *. rewrite <- Had in Hall.
  apply app_inv_head in Hall as <-. by rewrite (parked_awaits _ _ (Hpk s' Hs') Haw), app_nil_r.
Qed.

Lemma recv_polls_sent arrivals cx b b' got :
  all_connected b -> recv_polls Rc arrivals cx b = (b', got) ->
  exists l, got = delivered_messages Rc l
    /\ forall k, match streams (queue b) !! k with
                 | None => taken_from k l = []
                 | Some s => exists rest w, sent k = oks (taken_from k l) ++ rest
                     /\ forall s', streams (queue b') !! k = Some s' ->
                          advanced s s' (wire k) w /\ awaits s' w rest
                 end.
Proof.
  intros Hs Hp. destruct (recv_polls_consumes Rc _ _ _ _ _ Hp) as (l & -> & Hc).
  exists l. split; [done|]. intros k. by apply consumed_sent.
Qed.

Lemma recv_polls_all arrivals peers cx b b1 b' got :
  armed (queue b) -> all_connected b ->
  recv_polls Rc arrivals cx b = (b1, got) -> recv_poll cx (wake_all peers b1) = (b', Pending) ->
  all_read b b' ->
  exists l, got = delivered_messages Rc l
    /\ forall k, is_Some (streams (queue b') !! k) -> oks (taken_from k l) = sent k.
Proof.
  intros Ha Hs Hp Hr Hall.
  destruct (recv_polls_consumes Rc _ _ _ _ _ (recv_polls_snoc Rc _ _ _ _ _ _ _ Hp Hr)) as (l & -> & Hc).
  exists l. split; [done|]. intros k Hk. eapply consumed_all; [done..| |done]. intros s' Hs'.
  eapply recv_poll_parked, Hs'; [done| |exact Hr]. by eapply wake_all_armed, recv_polls_armed, Ha.
Qed.
End Connected.

(** C8 From the wire to the user: the peers of a socket (any but REQ and REP) have written
    messages to their connections, which come in pieces of any size and wake the socket
    whenever they come. Whatever the socket's [recv], called any number of times, has answered
    with are these messages and no others, every peer's in the order in which the peer wrote
    them, none lost, repeated or altered on the way: the messages of a peer that are not among
    the answers (or are commands, which no socket answers) are what the peer's reader makes of
    its buffer and of the bytes that it has not read yet. *)
Theorem socket_receives_sent {W R} `{AsyncRead R, !FiniteRead R, DecodeEof, HashOrder,
      !HasQueue W (reader (R := R)) PeerIdentity, !OnDisconnect W (reader (R := R)) PeerIdentity}
    (Rc : Receiver W reader ZmqMessage.t) `{!MessageReceiver Rc}
    (sent : PeerIdentity -> list Message) (wire : PeerIdentity -> bytes)
    (arrivals : list (list PeerIdentity)) (cx : task) (b b' : W) (got : list ZmqMessage.t) :
  all_connected sent wire b -> recv_polls Rc arrivals cx b = (b', got) ->
  exists l, got = delivered_messages Rc l
    /\ forall k, match streams (queue b) !! k with
                 | None => taken_from k l = []
                 | Some s => exists rest w, sent k = oks (taken_from k l) ++ rest
                     /\ forall s', streams (queue b') !! k = Some s' ->
                          advanced s s' (wire k) w /\ awaits s' w rest
                 end.
Proof. apply recv_polls_sent. Qed.

(** Everything arrives: when [recv] then waits, and the transport has handed over the whole
    of what the peers have written, the answers are all the messages of every peer that is
    still connected, in order. *)
Theorem socket_receives_all {W R} `{AsyncRead R, !FiniteRead R, DecodeEof, HashOrder,
      !HasQueue W (reader (R := R)) PeerIdentity, !OnDisconnect W (reader (R := R)) PeerIdentity}
    (Rc : Receiver W reader ZmqMessage.t) `{!MessageReceiver Rc}
    (sent : PeerIdentity -> list Message) (wire : PeerIdentity -> bytes)
    (arrivals : list (list PeerIdentity)) (peers : list PeerIdentity) (cx : task)
    (b b1 b' : W) (got : list ZmqMessage.t) :
  armed (queue b) -> all_connected sent wire b ->
  recv_polls Rc arrivals cx b = (b1, got) -> recv_poll cx (wake_all peers b1) = (b', Pending) ->
  all_read wire b b' ->
  exists l, got = delivered_messages Rc l
    /\ forall k, is_Some (streams (queue b') !! k) -> oks (taken_from k l) = sent k.
Proof. apply recv_polls_all. Qed.

(** ** A PULL socket with two peers *)

Module Example.
#[local] Existing Instance Runtime_exec.

(** What the events of a script hand over, however they are read. *)
Definition data (r : script) : bytes :=
  flat_map (fun x => match x with Ready (Ok l) => l | _ => [] end) (Framed.events r).

Lemma script_reads r r' : rtc reads r r' -> received r ++ data r = received r' ++ data r'.
Proof.
  induction 1 as [|r r1 r' (n & x & Hp) _ <-]; [done|]. cbn in Hp. unfold script_read in Hp.
  unfold data. destruct (Framed.events r) as [|[[l|e]|] es] eqn:E; [|destruct (len l <=? n)%Z|..];
    injection Hp as <- _; cbn; rewrite ?E; [done| | |done..]; [by rewrite <- app_assoc|].
  rewrite <- app_assoc, (app_assoc (ztake n l)). unfold ztake, zdrop. by rewrite take_drop.
Qed.

Lemma script_fed r w : data r = w -> fed r w.
Proof. intros <- r' Hr. exists (data r'). by apply script_reads. Qed.

Definition small : SocketOptions := default (default_options) (read_buffer default_options 4 8 2).

Lemma small_wf : options_wf small.
Proof. unfold options_wf. split_and!; by vm_compute. Qed.

(** A new reader, and what it is when the greeting and the READY command have been taken from
    it, which come first. *)
Definition greetings : bytes :=
  default [] (encode_all [MGreeting default_greeting; MCommand (ready PUSH)]).

Definition fresh (events : list (poll (result bytes io_error))) : reader (R := script) :=
  exist _ (new_framed_read (Script (Ready (Ok greetings) :: events) []) small) (new_framed_read_wf _ _ small_wf).

Definition polled (s : reader (R := script)) : reader (R := script) := fst (fst (poll_stream s)).

Definition connection (events : list (poll (result bytes io_error))) : reader (R := script) :=
  polled (polled (fresh events)).

Lemma poll_polled s x : snd (fst (poll_stream s)) = x -> poll_stream s = (polled s, x, false).
Proof. by intros <-. Qed.

Lemma connection_trace events :
  trace (fresh events) [Ok (MGreeting default_greeting); Ok (MCommand (ready PUSH))] (connection events).
Proof.
  eapply trace_item; [apply poll_polled; vm_compute; reflexivity|].
  eapply trace_item; [apply poll_polled; vm_compute; reflexivity|]. apply trace_nil.
Qed.

(** What is read by then is exactly the two. *)
Lemma connection_read events : Framed.received (inner (proj1_sig (connection events))) = greetings.
Proof. vm_compute. reflexivity. Qed.

Lemma ready_wf : command_wf (ready PUSH).
Proof. apply map_Forall_singleton. split_and!; by vm_compute. Qed.

Lemma connection_connected events ms w :
  data (Script events []) = w -> encode_all ms = Some w ->
  expects_all (set_state (Codec.with_options small) SFrameHeader 1) ms ->
  connected (connection events) ms w.
Proof.
  intros Hd Hw He.
  exists small, (Script (Ready (Ok greetings) :: events) []), default_greeting, (ready PUSH), (fresh events), (greetings ++ w).
  split_and!; [reflexivity| | | |apply connection_trace|].
  - apply script_fed. unfold data in *. cbn in *. by rewrite Hd.
  - split; [reflexivity|]. split; [|exact He]. split; [reflexivity|]. split; [exact ready_wf|].
    unfold fits. vm_compute. discriminate.
  - cbn [encode_all]. cbn [encode_all] in Hw. rewrite Hw. reflexivity.
  - unfold advanced. cbn [Framed.delivered script_AsyncRead]. rewrite connection_read. reflexivity.
Qed.

Lemma connection_advanced events s' w :
  Framed.received (inner (proj1_sig s')) = greetings ++ w -> advanced (connection events) s' w [].
Proof.
  intros Hr. unfold advanced. cbn [Framed.delivered script_AsyncRead]. by rewrite connection_read, Hr, app_nil_r.
Qed.

Definition hello : ZmqMessage.t := ZmqMessage.mk [bs "hello"; bs "world"].
Definition bye : ZmqMessage.t := ZmqMessage.mk [bs "good"; bs "bye"].
Definition third : ZmqMessage.t := ZmqMessage.mk [bs "third"].

Definition sent (k : PeerIdentity) : list Message :=
  if bool_decide (k = bs "alice") then [MMessage hello; MMessage bye] else [MMessage third].
Definition wire (k : PeerIdentity) : bytes := default [] (encode_all (sent k)).

(** Alice's bytes come in three pieces, with a pause; Bob's at once. *)
Definition alice : reader (R := script) :=
  let w := wire (bs "alice") in
  connection [Ready (Ok (take 3 w)); Pending; Ready (Ok (take 9 (drop 3 w))); Ready (Ok (drop 12 w))].
Definition bob : reader (R := script) := connection [Ready (Ok (wire (bs "bob")))].

Definition pull : GenericSocketBackend (reader (R := script)) :=
  generic_peer_connected (bs "bob") (mkIo bob 1%nat)
    (generic_peer_connected (bs "alice") (mkIo alice 0%nat) (pull_with_options small new_process)).

Lemma pull_peers : streams (queue pull) = <[bs "bob" := bob]> (<[bs "alice" := alice]> ∅).
Proof. reflexivity. Qed.

Lemma alice_present : streams (queue pull) !! bs "alice" = Some alice.
Proof. by rewrite pull_peers, lookup_insert_ne, lookup_insert_eq. Qed.

Lemma pull_streams k s :
  streams (queue pull) !! k = Some s -> k = bs "bob" /\ s = bob \/ k = bs "alice" /\ s = alice.
Proof.
  rewrite pull_peers. intros [[<- <-]|[_ [[<- <-]|[_ Hk]]%lookup_insert_Some]]%lookup_insert_Some; [by left|by right|].
  by rewrite lookup_empty in Hk.
Qed.

Lemma pull_connected k s : streams (queue pull) !! k = Some s -> connected s (sent k) (wire k).
Proof.
  intros [[-> ->]|[-> ->]]%pull_streams; (apply connection_connected; [vm_compute; reflexivity|reflexivity|]);
    repeat (split || constructor || (by vm_compute)).
Qed.

Definition arrivals : list (list PeerIdentity) := [[]; []; [bs "alice"]; []; []].
Abbreviation polls := (recv_polls pull_receiver arrivals 0%nat pull).

(** One more poll, which waits. *)
Abbreviation waiting := (recv_poll (Receiver0 := pull_receiver) 0%nat (wake_all [] (fst polls))).

Definition received : list ZmqMessage.t := [third; hello; bye].

Lemma polls_received : polls = (fst polls, received).
Proof. apply pair_snd. vm_compute. reflexivity. Qed.

Lemma waits : waiting = (fst waiting, Pending).
Proof. apply pair_snd. vm_compute. reflexivity. Qed.

Lemma pull_armed : armed (queue pull).
Proof. by do 2 apply armed_insert_op. Qed.

Lemma wires_read :
  map_Forall (fun k s => Framed.received (inner (proj1_sig s)) = greetings ++ wire k) (streams (queue (fst waiting))).
Proof. apply (bool_decide_unpack _). by vm_compute. Qed.

Lemma all_advanced k s s' :
  streams (queue pull) !! k = Some s -> streams (queue (fst waiting)) !! k = Some s' ->
  advanced s s' (wire k) [].
Proof.
  intros Hs Hs'%wires_read. apply pull_streams in Hs as [[_ ->]|[_ ->]]; by apply connection_advanced.
Qed.
End Example.

#[local] Existing Instance Runtime_exec.

Lemma socket_receives_sent_witness :
  exists l rest, Example.received = delivered_messages (pull_receiver (S := reader (R := script))) l
    /\ Example.sent (bs "alice") = oks (taken_from (bs "alice") l) ++ rest.
Proof.
  destruct (socket_receives_sent pull_receiver Example.sent Example.wire Example.arrivals 0%nat
    Example.pull (fst Example.polls) Example.received) as (l & Hl & Hk).
  - exact Example.pull_connected.
  - exact Example.polls_received.
  - specialize (Hk (bs "alice")). rewrite Example.alice_present in Hk.
    destruct Hk as (rest & w & Hs & _). exists l, rest. exact (conj Hl Hs).
Defined.

Lemma socket_receives_all_witness :
  exists l, Example.received = delivered_messages (pull_receiver (S := reader (R := script))) l
    /\ oks (taken_from (bs "alice") l) = Example.sent (bs "alice").
Proof.
  destruct (socket_receives_all pull_receiver Example.sent Example.wire Example.arrivals [] 0%nat
    Example.pull (fst Example.polls) (fst Example.waiting) Example.received)
    as (l & Hl & Hk).
  - exact Example.pull_armed.
  - exact Example.pull_connected.
  - exact Example.polls_received.
  - exact Example.waits.
  - exact Example.all_advanced.
  - exists l. split; [exact Hl|]. apply Hk. apply (bool_decide_unpack _). vm_compute. exact I.
Defined.
