(* ===== verification/Session.v ===== *)
(** A connection from its first byte: the handshake of src/src/util.rs on a new framed reader
    (codec/framed.rs), the backend that takes the reader behind it (backend.rs), and the
    messages that the user of the socket then receives; on the side that accepted the connection
    (util.rs) and on the side that made it ([Socket::connect], lib.rs). *)

From stdpp Require Import functions.
From S2P Require Import Prelude Message Endpoint Errors SocketTypes Greeting Command Codec Framed.
From S2P Require Import FairQueue Channels Runtime Backend Handshake Receive Sockets Binds Connect Wire.

(** [read_half.next()] polls the stream until it is ready. *)
Class NextOfStream (S : Type) `{Stream S item, NextMessage S} : Prop := {
  next_polled (s s' : S) x : next_message s = (s', Some (Some x)) -> trace s [x] s';
}.

(** Waiting for the next item, for [patience] polls; after that it never comes. *)
Section Patience.
Context {S : Type} `{Stream S item}.

Fixpoint await_next (patience : nat) (s : S) : S * option (option item) :=
  match patience with
  | O => (s, None)
  | Datatypes.S patience =>
      match poll_stream s with
      | (s, Ready x, _) => (s, Some x)
      | (s, Pending, _) => await_next patience s
      end
  end.

Lemma await_next_trace patience s s' x : await_next patience s = (s', Some (Some x)) -> trace s [x] s'.
Proof.
  revert s. induction patience as [|n IH]; intros s; cbn [await_next]; [done|].
  destruct (poll_stream s) as [[s1 [y|]] wk] eqn:E.
  - intros [= -> ->]. eapply trace_item; [exact E|apply trace_nil].
  - intros Hn. eapply trace_pending; [exact E|]. by apply IH.
Qed.
End Patience.

(** ** What a handshake takes from a connection *)

Section Handshakes.
Context {S : Type} `{Runtime, Stream S item, NextMessage S, !NextOfStream S}.

Lemma peer_handshake_takes uuid t options o o' (io io' : FramedIo S) id :
  peer_handshake uuid t options o io = (o', io', Completed (Ok id)) ->
  exists g reply, trace (read_half io) [Ok (MGreeting g); Ok (MCommand reply)] (read_half io')
    /\ check_ready uuid t reply = Completed (Ok id).
Proof using NextOfStream0.
  unfold peer_handshake, bind. destruct (greet_exchange o io) as [[o1 io1] c] eqn:Hg.
  destruct c as [[v|e]| |]; try done. intros Hr.
  apply greet_exchange_ok in Hg as (_ & g & Hn1 & _).
  apply ready_exchange_ok in Hr as (_ & reply & Hn2 & Hc & _). exists g, reply. split; [|done].
  change [Ok (MGreeting g); Ok (MCommand reply)] with ([Ok (MGreeting g)] ++ [Ok (MCommand reply) : item]).
  eapply trace_app; by apply next_polled.
Qed.

Lemma insert_streams (k : PeerIdentity) (s : S) q : streams (insert k s q) = <[k := s]> (streams q).
Proof. unfold insert, wake_waker. cbn. apply push_ready_streams. Qed.

(** A reader given to the backend becomes the stream of the peer. *)
Lemma connected_streams (b : GenericSocketBackend S) id (io : FramedIo S) :
  is_Some (fair_queue_inner b) ->
  streams (queue (generic_peer_connected id io b)) = <[id := read_half io]> (streams (queue b)).
Proof using Type.
  intros [q Hq]. destruct (connected_spec id io b) as (_ & _ & _ & Hf & _). unfold queue, generic_queue.
  rewrite Hf, Hq. cbn [fmap option_fmap option_map default]. apply insert_streams.
Qed.

(** [util::peer_connected] on the generic backend: the reader, as the handshake has left it,
    becomes the stream of the peer. *)
Lemma peer_connected_streams uuid io (b b' : GenericSocketBackend S) id :
  is_Some (fair_queue_inner b) -> Handshake.peer_connected uuid io b = (b', Completed (Ok id)) ->
  exists g reply s, trace (read_half io) [Ok (MGreeting g); Ok (MCommand reply)] s
    /\ check_ready uuid (socket_type b) reply = Completed (Ok id)
    /\ streams (queue b') = <[id := s]> (streams (queue b)).
Proof using NextOfStream0.
  intros Hq. unfold Handshake.peer_connected. cbn [backend_socket_type backend_socket_options generic_backend].
  destruct (peer_handshake _ _ _ _ io) as [[o' io'] c] eqn:Hh. destruct c as [[p|e]| |]; try done.
  intros [= <- ->]. apply peer_handshake_takes in Hh as (g & reply & Ht & Hc).
  exists g, reply, (read_half io'). split_and!; [done..|].
  by apply (connected_streams (set_shared (set_outputs o' (shared b)) b)).
Qed.

(** [Socket::connect] on the generic backend: the reader is the one of the attempt that
    succeeded, the first that was not worth a retry. *)
Lemma connect_streams `{!Connector (FramedIo S * Endpoint)} fuel endpoint hs uuid cut joined t
    (b b' : GenericSocketBackend S) :
  is_Some (fair_queue_inner b) ->
  connect fuel endpoint hs uuid cut joined b = Some (b', (t, Completed (Ok tt))) ->
  exists i io ep id g reply s, snd (attempt i) = Ok (io, ep)
    /\ (forall j, (j < i)%nat -> retried endpoint (snd (attempt j)) = true)
    /\ trace (read_half io) [Ok (MGreeting g); Ok (MCommand reply)] s
    /\ check_ready uuid (socket_type b) reply = Completed (Ok id)
    /\ streams (queue b') = <[id := s]> (streams (queue b)).
Proof using NextOfStream0.
  intros Hq Hc. apply connect_ok in Hc as (f & t0 & io & ep & o & io' & id & Hf & Hh & ->).
  apply connect_forever_ok in Hf as (i & Hi & Hr).
  apply peer_handshake_takes in Hh as (g & reply & Ht & Hk).
  exists i, io, ep, id, g, reply, (read_half io'). split_and!; [done..|].
  transitivity (streams (queue (generic_peer_connected id io' (set_backend_outputs o b)))); [reflexivity|].
  by rewrite connected_streams.
Qed.
End Handshakes.

(** What is received behind a handshake. *)
Lemma received_behind {R} `{AsyncRead R, !FiniteRead R, DecodeEof, HashOrder, Runtime}
    (Rc : Receiver (GenericSocketBackend (reader (R := R))) reader ZmqMessage.t) `{!MessageReceiver Rc}
    r o written w0 (rd s : reader) g reply id sent wire arrivals cx
    (b b' b'' : GenericSocketBackend (reader (R := R))) got :
  proj1_sig rd = new_framed_read r o -> fed r w0 ->
  expects_all (Codec.with_options o) written -> encode_all written = Some w0 ->
  trace rd [Ok (MGreeting g); Ok (MCommand reply)] s ->
  streams (queue b') = <[id := s]> (streams (queue b)) ->
  all_connected sent wire b -> recv_polls Rc arrivals cx b' = (b'', got) ->
  exists ms l, written = MGreeting g :: MCommand reply :: ms
    /\ got = delivered_messages Rc l /\ oks (taken_from id l) `prefix_of` ms
    /\ forall k, k <> id -> match streams (queue b) !! k with
                            | None => taken_from k l = []
                            | Some _ => oks (taken_from k l) `prefix_of` sent k
                            end.
Proof.
  intros Hio Hf He Hw Ht Hs Hb Hg.
  destruct (awaits_trace _ _ _ _ _ Ht (awaits_new _ _ _ _ _ Hio Hf He Hw)) as (w & ms & Hms & Had & _).
  cbn in Hms. subst written.
  assert (all_connected (<[id := ms]> sent) (<[id := w]> wire) b') as Hb'.
  { intros k s'. rewrite Hs. intros [[<- <-]|[Hne Hk]]%lookup_insert_Some.
    - rewrite !fn_lookup_insert. by exists o, r, g, reply, rd, w0.
    - rewrite !fn_lookup_insert_ne by done. by apply Hb. }
  destruct (recv_polls_sent Rc _ _ _ _ _ _ _ Hb' Hg) as (l & -> & Hl).
  exists ms, l. split_and!; [done..| |].
  - specialize (Hl id). rewrite Hs, lookup_insert_eq, fn_lookup_insert in Hl.
    destruct Hl as (rest & v & -> & _). by exists rest.
  - intros k Hk. specialize (Hl k). rewrite Hs, lookup_insert_ne in Hl by done.
    destruct (streams (queue b) !! k); [|done]. rewrite fn_lookup_insert_ne in Hl by done.
    destruct Hl as (rest & v & -> & _). by exists rest.
Qed.

(** C9 A session: a peer connects to a DEALER, ROUTER or PULL socket, over a transport that cuts
    what it writes into pieces of any size, and the handshake succeeds. Then the peer has
    written a greeting, a READY command, whose identity is the one the peer gets, and behind
    them some messages, even if these came together with the handshake; and what the user of
    the socket receives from it are these messages, in order, beginning with the first, while
    the peers from before are received from as if nothing had happened. *)
Theorem session_delivers {R} `{AsyncRead R, !FiniteRead R, DecodeEof, HashOrder, Runtime,
      NextMessage (reader (R := R)), !NextOfStream (reader (R := R))}
    (Rc : Receiver (GenericSocketBackend (reader (R := R))) reader ZmqMessage.t) `{!MessageReceiver Rc}
    (uuid : bytes) (r : R) (o : SocketOptions) (written : list Message) (w0 : bytes)
    (io : FramedIo (reader (R := R))) (id : PeerIdentity)
    (sent : PeerIdentity -> list Message) (wire : PeerIdentity -> bytes)
    (arrivals : list (list PeerIdentity)) (cx : task)
    (b b' b'' : GenericSocketBackend (reader (R := R))) (got : list ZmqMessage.t) :
  proj1_sig (read_half io) = new_framed_read r o -> fed r w0 ->
  expects_all (Codec.with_options o) written -> encode_all written = Some w0 ->
  is_Some (fair_queue_inner b) -> all_connected sent wire b ->
  Handshake.peer_connected uuid io b = (b', Completed (Ok id)) ->
  recv_polls Rc arrivals cx b' = (b'', got) ->
  exists g reply ms l, written = MGreeting g :: MCommand reply :: ms
    /\ check_ready uuid (socket_type b) reply = Completed (Ok id)
    /\ got = delivered_messages Rc l /\ oks (taken_from id l) `prefix_of` ms
    /\ forall k, k <> id -> match streams (queue b) !! k with
                            | None => taken_from k l = []
                            | Some _ => oks (taken_from k l) `prefix_of` sent k
                            end.
Proof.
  intros Hio Hf He Hw Hq Hb Hc Hg.
  destruct (peer_connected_streams _ _ _ _ _ Hq Hc) as (g & reply & s & Ht & Hready & Hs).
  destruct (received_behind Rc _ _ _ _ _ _ _ _ _ _ _ _ _ _ _ _ _ Hio Hf He Hw Ht Hs Hb Hg)
    as (ms & l & Hms & Hgot & Hl & Hrest).
  by exists g, reply, ms, l.
Qed.

(** C10 The same on the side that connects: [Socket::connect] of a DEALER, ROUTER or PULL
    socket makes attempts, some of which may fail, and returns without an error. Then the
    first attempt that was not worth a retry gave a connection, whose peer has written a
    greeting, a READY command, whose identity is the one under which the backend has the peer,
    and behind them some messages; and what the user receives from it are these messages, in
    order, beginning with the first, while the peers from before are received from as if
    nothing had happened. The timeout does not matter, nor what the attempts before were. *)
Theorem connect_delivers {R} `{AsyncRead R, !FiniteRead R, DecodeEof, HashOrder, Runtime,
      NextMessage (reader (R := R)), !NextOfStream (reader (R := R)),
      !Connector (FramedIo (reader (R := R)) * Endpoint)}
    (Rc : Receiver (GenericSocketBackend (reader (R := R))) reader ZmqMessage.t) `{!MessageReceiver Rc}
    (fuel : nat) (endpoint : Endpoint) (hs t : Z) (uuid : bytes) (cut : sinks) (joined : joining)
    (o : SocketOptions) (written : nat -> list Message)
    (sent : PeerIdentity -> list Message) (wire : PeerIdentity -> bytes)
    (arrivals : list (list PeerIdentity)) (cx : task)
    (b b' b'' : GenericSocketBackend (reader (R := R))) (got : list ZmqMessage.t) :
  (forall i io ep, snd (attempt i) = Ok (io, ep) -> exists r w0,
     proj1_sig (read_half io) = new_framed_read r o /\ fed r w0
     /\ expects_all (Codec.with_options o) (written i) /\ encode_all (written i) = Some w0) ->
  is_Some (fair_queue_inner b) -> all_connected sent wire b ->
  connect fuel endpoint hs uuid cut joined b = Some (b', (t, Completed (Ok tt))) ->
  recv_polls Rc arrivals cx b' = (b'', got) ->
  exists i io ep id g reply ms l, snd (attempt i) = Ok (io, ep)
    /\ (forall j, (j < i)%nat -> retried endpoint (snd (attempt j)) = true)
    /\ written i = MGreeting g :: MCommand reply :: ms
    /\ check_ready uuid (socket_type b) reply = Completed (Ok id)
    /\ got = delivered_messages Rc l /\ oks (taken_from id l) `prefix_of` ms
    /\ forall k, k <> id -> match streams (queue b) !! k with
                            | None => taken_from k l = []
                            | Some _ => oks (taken_from k l) `prefix_of` sent k
                            end.
Proof.
  intros Hio Hq Hb Hc Hg.
  destruct (connect_streams _ _ _ _ _ _ _ _ _ Hq Hc) as (i & io & ep & id & g & reply & s & Hi & Hr & Ht & Hk & Hs).
  destruct (Hio i io ep Hi) as (r & w0 & Hrd & Hf & He & Hw).
  destruct (received_behind Rc _ _ _ _ _ _ _ _ _ _ _ _ _ _ _ _ _ Hrd Hf He Hw Ht Hs Hb Hg)
    as (ms & l & Hms & Hgot & Hl & Hrest).
  by exists i, io, ep, id, g, reply, ms, l.
Qed.

(** ** A PUSH peer that sends at once *)

Module Example.
#[local] Existing Instance Runtime_exec.
Import Wire.Example.

#[local] Instance patient : NextMessage (reader (R := script)) := {| next_message := await_next 3 |}.

#[local] Instance patient_next : NextOfStream (reader (R := script)).
Proof. split. apply await_next_trace. Qed.

Definition written : list Message :=
  [MGreeting default_greeting; MCommand (ready PUSH); MMessage hello; MMessage bye].
Definition bytes_written : bytes := default [] (encode_all written).

(** Everything comes in two pieces, with a pause in the READY command. *)
Definition transport : script :=
  Script [Ready (Ok (take 70 bytes_written)); Pending; Ready (Ok (drop 70 bytes_written))] [].

Definition io : FramedIo (reader (R := script)) :=
  mkIo (exist _ (new_framed_read transport small) (new_framed_read_wf _ _ small_wf)) 0%nat.

Definition socket : GenericSocketBackend (reader (R := script)) := pull_with_options small new_process.

Abbreviation accepted := (Handshake.peer_connected (bs "uuid") io socket).
Abbreviation polls := (recv_polls pull_receiver [[]; []; []] 0%nat (fst accepted)).

Lemma peer_accepted : accepted = (fst accepted, Completed (Ok (bs "uuid"))).
Proof. apply pair_snd. vm_compute. reflexivity. Qed.

Lemma peer_received : polls = (fst polls, [hello; bye]).
Proof. apply pair_snd. vm_compute. reflexivity. Qed.

(** The same peer listens; the first attempt to connect to it comes too early. *)
Definition address : Endpoint := Tcp (Domain (bs "host")) 5555.

Definition reached (i : nat) : result (FramedIo (reader (R := script)) * Endpoint) ZmqError :=
  match i with
  | O => Err (Network (IoError ConnectionRefused))
  | _ => Ok (io, address)
  end.

#[global] Program Instance second_attempt : Connector (FramedIo (reader (R := script)) * Endpoint) := {|
  attempt i := (10%Z, reached i);
  jitter _ _ := 0%Z;
|}.
Next Obligation. done. Qed.
Next Obligation. intros. split; [lia|]. apply Z.div_pos; lia. Qed.

Definition no_output : sinks := Recording.empty.

Definition connected : option (GenericSocketBackend (reader (R := script)) * future unit) :=
  connect 0 address 10 (bs "uuid") no_output (Joins 0) socket.
Abbreviation connected_socket := (default socket (fst <$> connected)).
Abbreviation connected_polls := (recv_polls pull_receiver [[]; []; []] 0%nat connected_socket).

Lemma connect_succeeded :
  exists t, connect 0 address 10 (bs "uuid") no_output (Joins 0) socket = Some (connected_socket, (t, Completed (Ok tt))).
Proof.
  assert (option_map (fun c => snd (snd c)) connected = Some (Completed (Ok tt))) as Hc by (vm_compute; reflexivity).
  revert Hc. unfold connected. destruct (connect _ _ _ _ _ _) as [[w [t c]]|]; [|discriminate].
  cbn. intros [= ->]. by exists t.
Qed.

Lemma connection_received : connected_polls = (fst connected_polls, [hello; bye]).
Proof. apply pair_snd. vm_compute. reflexivity. Qed.

Lemma nobody_connected : all_connected (fun _ => []) (fun _ => []) socket.
Proof.
  intros k s. assert (streams (queue socket) = ∅) as -> by reflexivity. rewrite lookup_empty. discriminate.
Qed.

Lemma written_expected : expects_all (Codec.with_options small) written.
Proof.
  split; [reflexivity|]. split.
  - split; [reflexivity|]. split; [exact ready_wf|]. unfold fits. vm_compute. discriminate.
  - repeat (split || constructor || (by vm_compute)).
Qed.
End Example.

#[local] Existing Instance Runtime_exec.
#[local] Existing Instances Example.patient Example.patient_next.

Lemma session_delivers_witness :
  exists g reply ms l, Example.written = MGreeting g :: MCommand reply :: ms
    /\ [Wire.Example.hello; Wire.Example.bye] = delivered_messages (pull_receiver (S := reader (R := script))) l
    /\ oks (taken_from (bs "uuid") l) `prefix_of` ms.
Proof.
  destruct (session_delivers pull_receiver (bs "uuid") Example.transport Wire.Example.small Example.written
    Example.bytes_written Example.io (bs "uuid") (fun _ => []) (fun _ => []) [[]; []; []] 0%nat Example.socket
    (fst Example.accepted) (fst Example.polls) [Wire.Example.hello; Wire.Example.bye])
    as (g & reply & ms & l & Hw & _ & Hl & Hp & _).
  - reflexivity.
  - apply Wire.Example.script_fed. vm_compute. reflexivity.
  - exact Example.written_expected.
  - vm_compute. reflexivity.
  - eexists. reflexivity.
  - exact Example.nobody_connected.
  - exact Example.peer_accepted.
  - exact Example.peer_received.
  - exists g, reply, ms, l. exact (conj Hw (conj Hl Hp)).
Defined.

Lemma connect_delivers_witness :
  exists g reply ms l, Example.written = MGreeting g :: MCommand reply :: ms
    /\ [Wire.Example.hello; Wire.Example.bye] = delivered_messages (pull_receiver (S := reader (R := script))) l
    /\ oks (taken_from (bs "uuid") l) `prefix_of` ms.
Proof.
  destruct Example.connect_succeeded as [t Hc].
  destruct (connect_delivers pull_receiver 0 Example.address 10 t (bs "uuid") Example.no_output (Joins 0) Wire.Example.small
    (fun _ => Example.written) (fun _ => []) (fun _ => []) [[]; []; []] 0%nat Example.socket
    Example.connected_socket (fst Example.connected_polls) [Wire.Example.hello; Wire.Example.bye])
    as (i & io & ep & id & g & reply & ms & l & _ & _ & Hw & Hk & Hl & Hp & _).
  - intros [|i] io ep; [discriminate|]. intros [= <- _]. exists Example.transport, Example.bytes_written.
    split_and!; [reflexivity| |exact Example.written_expected|vm_compute; reflexivity].
    apply Wire.Example.script_fed. vm_compute. reflexivity.
  - eexists. reflexivity.
  - exact Example.nobody_connected.
  - exact Hc.
  - exact Example.connection_received.
  - exists g, reply, ms, l. split_and!; [exact Hw|exact Hl|].
    injection Hw as _ <- _. vm_compute in Hk. injection Hk as <-. exact Hp.
Defined.
