(* ===== verification/Link.v ===== *)
(** One direction of a connection, while it is used: a sink that one socket writes to, what is on
    the wire, and the framed reader ([Wire.v]) of the other socket. *)

From S2P Require Import Prelude Message Endpoint Errors SocketTypes Greeting Command Codec Framed.
From S2P Require Import FairQueue Channels Runtime Receive Wire.

(** Frames that any receive buffer can hold, in a message that is not empty. *)
Definition sendable (m : ZmqMessage.t) : Prop :=
  ZmqMessage.is_empty m = false
  /\ Forall (fun frame => len frame <= isize_max / 2)%Z (ZmqMessage.frames m).

Section Connection.
Context {R : Type} `{AsyncRead R, !FiniteRead R, DecodeEof, HashOrder, Sinks}.
Implicit Types (s : reader (R := R)) (ms : list Message) (o : sinks).

(** A decoder between messages. *)
Definition between (c : ZmqCodec) : Prop :=
  codec_wf c /\ state c = SFrameHeader /\ buffered_message c = None.

(** [s] reads what the other side writes to [out]; of that, [ms] have not been taken yet. *)
Definition carries o (out : writer) s ms : Prop :=
  exists w c, encode_all (written o out) = Some (Framed.delivered (inner (proj1_sig s)) ++ w)
    /\ yields s w ms c [] /\ between c.

(** Bytes arrive: the transport has more to deliver, as far as it has been written. *)
Definition arrives o (out : writer) s s' : Prop :=
  exists r, let self := proj1_sig s in
    proj1_sig s' = mkFramedRead r (codec self) (buffer self) (read_chunk_size self) (options self) (short_reads self)
    /\ Framed.delivered r = Framed.delivered (inner self)
    /\ forall w, encode_all (written o out) = Some (Framed.delivered r ++ w) -> fed r w.

(** A connection after the handshake: the reader has taken the other side's greeting and READY
    command, and the other side has written [ms] behind them. *)
Definition shaken o (out : writer) s ms : Prop :=
  exists r options g c s0 w, proj1_sig s0 = new_framed_read r options /\ Framed.delivered r = []
    /\ written o out = MGreeting g :: MCommand c :: ms
    /\ expects_all (Codec.with_options options) (written o out)
    /\ encode_all (written o out) = Some w /\ fed r w
    /\ trace s0 [Ok (MGreeting g); Ok (MCommand c)] s.

Lemma shaken_carries o out s ms : shaken o out s ms -> carries o out s ms.
Proof.
  intros (r & op & g & c & s0 & w & Hs0 & Hr & Hwr & He & Hw & Hf & Ht).
  pose proof (yields_new _ _ _ _ _ Hs0 Hf He Hw) as Hy. rewrite Hwr in Hy.
  destruct (yields_trace _ _ _ _ _ _ _ Ht Hy) as (w' & ms' & [= <-] & Had & Hy').
  exists w', (codec_after (Codec.with_options op) (MGreeting g :: MCommand c :: ms)). split_and!.
  - unfold advanced in Had. rewrite Hs0 in Had. cbn in Had. rewrite Hr in Had. by rewrite Hw, Had.
  - exact Hy'.
  - pose proof (proj2_sig s0) as [Hc _]. rewrite Hs0 in Hc. cbn in Hc.
    split_and!; [by apply set_state_header_wf|done..].
Qed.

Lemma fed_more r w w' : fed r w -> fed r (w ++ w').
Proof.
  intros Hf r' Hr. destruct (Hf r' Hr) as [rest Hw]. exists (rest ++ w'). by rewrite app_assoc, Hw, app_assoc.
Qed.

Lemma sendable_fits c m : codec_wf c -> sendable m -> Forall (fits c) (ZmqMessage.frames m).
Proof.
  intros [[_ Hmax] _] [_ Hm]. eapply Forall_impl; [exact Hm|]. intros f Hf. unfold fits.
  pose proof (Z.mul_div_le isize_max 2 ltac:(lia)). cbn beta in Hf. lia.
Qed.

Lemma between_expects c l : between c -> Forall sendable l -> expects_all c (MMessage <$> l).
Proof.
  intros (Hc & Hst & Hb). induction 1 as [|m l Hm _ IH]; [done|]. split; [split_and!; [done..|by apply sendable_fits]|].
  by rewrite header_eta.
Qed.

(** A message that is written is the last that comes. *)
Lemma carries_write o o' out s ms m :
  carries o out s ms -> sendable m -> written o' out = written o out ++ [MMessage m] ->
  carries o' out s (ms ++ [MMessage m]).
Proof.
  intros (w & c & Hw & (Hf & n & Hd) & Hc & Hst & Hb) Hm Hwr.
  destruct (encode (MMessage m)) as [e|] eqn:He; [|cbn in He; by rewrite (proj1 Hm) in He].
  assert (expects c (MMessage m)) as Hex by (split_and!; [done..|by apply sendable_fits]).
  assert (set_state c SFrameHeader 1 = c) as Hc1 by by apply header_eta.
  exists (w ++ e), c. split; [|split; [split|by split_and!]].
  - rewrite Hwr, app_assoc. apply encode_all_app; [done|]. cbn [encode_all]. rewrite He. cbn. by rewrite app_nil_r.
  - by apply fed_more.
  - rewrite app_assoc, drain_app, Hd by apply (proj2_sig s). cbn [app]. rewrite drain_unfold.
    rewrite <- (app_nil_r e). rewrite (decode_encode c _ _ _ Hc Hex He), Hc1.
    destruct Hc as [Hmax Hwf]. rewrite drain_unfold, decode_short; [by eexists|].
    unfold state_wf in Hwf. rewrite Hst in Hwf. by rewrite Hwf.
Qed.

Lemma carries_same o o' out s ms :
  written o' out = written o out -> carries o out s ms -> carries o' out s ms.
Proof. intros Hw. unfold carries. by rewrite Hw. Qed.

Lemma carries_arrives o out s s' ms : arrives o out s s' -> carries o out s ms -> carries o out s' ms.
Proof.
  intros (r & Hs' & Hdel & Hf) (w & c & Hw & (_ & n & Hd) & Hc). exists w, c.
  unfold yields. rewrite Hs'. cbn. rewrite Hdel in *. split_and!; [done|by apply Hf|by exists n|done].
Qed.

Lemma carries_trace o out s (l : list item) s' ms :
  trace s l s' -> carries o out s ms -> exists ms', ms = oks l ++ ms' /\ carries o out s' ms'.
Proof.
  intros Ht (w & c & Hw & Hy & Hc). destruct (yields_trace _ _ _ _ _ _ _ Ht Hy) as (w' & ms' & -> & Had & Hy').
  exists ms'. split; [done|]. exists w', c. unfold advanced in Had. by rewrite Had.
Qed.

Lemma carries_poll o out s s' x wk ms :
  poll_stream s = (s', x, wk) -> carries o out s ms ->
  exists ms', ms = match x with Ready (Some (Ok m)) => m :: ms' | _ => ms' end /\ carries o out s' ms'.
Proof.
  intros Hp (w & c & Hw & Hy & Hc). destruct (yields_poll _ _ _ _ _ _ _ _ Hp Hy) as (w' & ms' & -> & Had & Hy').
  exists ms'. split; [done|]. exists w', c. unfold advanced in Had. by rewrite Had.
Qed.

(** A reader that waits with everything read has nothing to come. *)
Lemma parked_carries o out s ms :
  parked s -> encode_all (written o out) = Some (Framed.delivered (inner (proj1_sig s))) ->
  carries o out s ms -> ms = [].
Proof.
  intros Hp Hw (w & c & Hw' & Hy & _). rewrite Hw in Hw'. injection Hw' as Hw'.
  assert (w = []) as ->.
  { apply (f_equal length) in Hw'. rewrite length_app in Hw'. destruct w; [done|cbn in Hw'; lia]. }
  apply (parked_awaits s); [done|by eexists _, _].
Qed.
End Connection.

Module Example.
#[local] Existing Instance Runtime_exec.
Import Wire.Example.

(** What a socket of type [t] writes in the handshake and behind it; its process, and the other
    side's reader, which has taken the handshake. *)
Definition hands (t : SocketType) (ms : list ZmqMessage.t) : list Message :=
  MGreeting default_greeting :: MCommand (ready t) :: (MMessage <$> ms).
Definition hand_bytes (t : SocketType) (ms : list ZmqMessage.t) : bytes := default [] (encode_all (hands t ms)).

Definition send_all (ms : list Message) (sh : Shared (reader (R := script))) : Shared (reader (R := script)) :=
  fold_left (fun sh m => set_outputs (fst (sink_send (outputs sh) 0%nat m)) sh) ms sh.

Definition unread (t : SocketType) (ms : list ZmqMessage.t) : reader (R := script) :=
  exist _ (new_framed_read (Script [Ready (Ok (hand_bytes t ms))] []) small) (new_framed_read_wf _ _ small_wf).
Definition greeted (t : SocketType) (ms : list ZmqMessage.t) : reader (R := script) := polled (polled (unread t ms)).

Lemma ready_command_wf t : command_wf (ready t).
Proof. apply map_Forall_singleton. split_and!; [by vm_compute..|destruct t; by vm_compute]. Qed.

Lemma greeted_shaken t ms (o : sinks) :
  written o 0%nat = hands t ms -> Forall sendable ms ->
  encode_all (hands t ms) = Some (hand_bytes t ms) ->
  snd (fst (poll_stream (unread t ms))) = Ready (Some (Ok (MGreeting default_greeting))) ->
  snd (fst (poll_stream (polled (unread t ms)))) = Ready (Some (Ok (MCommand (ready t)))) ->
  shaken o 0%nat (greeted t ms) (MMessage <$> ms).
Proof.
  intros Hw Hms He H1 H2.
  exists (Script [Ready (Ok (hand_bytes t ms))] []), small, default_greeting, (ready t), (unread t ms), (hand_bytes t ms).
  rewrite Hw. split; [reflexivity|]. split; [reflexivity|]. split; [reflexivity|]. split.
  - split; [reflexivity|]. split.
    + split; [reflexivity|]. split; [apply ready_command_wf|]. unfold fits. destruct t; vm_compute; discriminate.
    + apply between_expects; [|done]. split; [|done]. do 2 apply set_state_header_wf. apply with_options_wf, small_wf.
  - split; [exact He|]. split; [apply script_fed; cbn; by rewrite app_nil_r|].
    eapply trace_item; [by apply poll_polled|]. eapply trace_item; [by apply poll_polled|]. apply trace_nil.
Qed.
(** What arrives behind what has been read. *)
Definition arrive (d : bytes) (s : reader (R := script)) : reader (R := script).
Proof.
  refine (exist _ (mkFramedRead (Script [Ready (Ok d)] (Framed.received (inner (proj1_sig s)))) (codec (proj1_sig s))
    (buffer (proj1_sig s)) (read_chunk_size (proj1_sig s)) (options (proj1_sig s)) (short_reads (proj1_sig s))) _).
  exact (proj2_sig s).
Defined.

Lemma arrive_arrives (o : sinks) d s :
  encode_all (written o 0%nat) = Some (Framed.received (inner (proj1_sig s)) ++ d) -> arrives o 0%nat s (arrive d s).
Proof.
  intros Hw. eexists. split; [reflexivity|]. split; [reflexivity|]. intros w. rewrite Hw.
  cbn [Framed.delivered script_AsyncRead Framed.received]. intros [= Heq%app_inv_head]. apply script_fed. cbn.
  by rewrite app_nil_r.
Qed.
End Example.
