(* ===== verification/Exchange.v ===== *)
(** A REQ and a REP socket and the connection between them (src/src/req.rs, rep.rs,
    codec/framed.rs, fair_queue.rs): what the two users do and what passes on the wire, as one
    system. It refines a request-reply exchange of one place; each socket has other peers. *)

From S2P Require Import Prelude Message Endpoint Errors SocketTypes Greeting Command Codec Framed.
From S2P Require Import FairQueue Channels Runtime Backend Handshake Receive Sockets Req Rep Wire Link.

(** ** What the two sockets do *)

(** What the users see of the connection: a request that was accepted for it, its arrival, the
    reply that was accepted, and the end of the wait for it. *)
Inductive event : Type :=
  | Asked (m : ZmqMessage.t)
  | Heard (m : ZmqMessage.t)
  | Replied (m : ZmqMessage.t)
  | Got (r : result ZmqMessage.t ZmqError).

Definition when (b : bool) (e : event) : option event := if b then Some e else None.

(** A run: the events of its steps. *)
Inductive runs {A : Type} (step : A -> option event -> A -> Prop) : A -> list event -> A -> Prop :=
  | runs_nil a : runs step a [] a
  | runs_step a e b l c : step a e b -> runs step b l c -> runs step a (option_list e ++ l) c.

Record system (R : Type) `{AsyncRead R, !FiniteRead R, DecodeEof, Runtime} : Type := mkSystem {
  requester : ReqSocket (reader (R := R));
  replier : RepSocket (reader (R := R));
}.
Arguments mkSystem {R _ _ _ _} _ _.
Arguments requester {R _ _ _ _} _.
Arguments replier {R _ _ _ _} _.

Section Steps.
Context {R : Type} `{AsyncRead R, !FiniteRead R, DecodeEof, HashOrder, Runtime}.
Implicit Types (w : ReqSocket (reader (R := R))) (v : RepSocket (reader (R := R))) (m : ZmqMessage.t).

(** The connection: the REQ knows the REP as [p] and writes to [out]; the REP knows the REQ as
    [k] and writes to [back]. *)
Variables (p k : PeerIdentity) (out back : writer).

(** It is there as long as it has not been removed, and nothing was read from it but messages. *)
Definition rep_holds v : Prop := rep_peers v !! k = Some back /\ is_Some (streams (queue v) !! k).

Definition req_holds (r : result ZmqMessage.t ZmqError) : Prop :=
  r <> Err NoMessage /\ forall e, r <> Err (Codec e).

Definition at_server w : bool := bool_decide (current_request w = Some p).
Definition for_client v : bool := bool_decide (rep_request v = Some k).

(** The user of the REQ, its other connections, and its process. *)
Inductive req_step (o : sinks) w : option event -> ReqSocket (reader (R := R)) -> Prop :=
  | req_asks m w' :
      sendable m -> req_send m w = (w', Ok tt) -> req_step o w (when (at_server w') (Asked m)) w'
  | req_refused m w' e :
      req_send m w = (w', Err e) -> (forall e', e <> Codec e') -> req_step o w None w'
  | req_waits w' : req_recv w = (w', Pending) -> req_step o w None w'
  | req_gets w' r :
      req_recv w = (w', Ready r) -> (at_server w -> req_holds r) -> req_step o w (when (at_server w) (Got r)) w'
  | req_connects q io :
      q <> p -> write_half io <> out -> req_step o w None (req_peer_connected q io w)
  | req_disconnects q : q <> p -> req_step o w None (req_peer_disconnected q w)
  | req_arrives q peer s :
      peers w !! q = Some peer -> (q = p -> arrives o back (recv_queue peer) s) ->
      req_step o w None (set_peers (<[q := mkPeer (send_queue peer) s]> (peers w)) w)
  | req_outside sh :
      written (outputs sh) out = written (outputs (shared w)) out -> req_step o w None (set_shared sh w).

(** The user of the REP, its other connections, and its process. *)
Inductive rep_step (o : sinks) v : option event -> RepSocket (reader (R := R)) -> Prop :=
  | rep_hears cx m v' :
      rep_recv cx v = (v', Ready (Ok m)) -> rep_holds v' -> rep_step o v (when (for_client v') (Heard m)) v'
  | rep_hears_nothing cx r v' :
      rep_recv cx v = (v', r) -> (forall m, r <> Ready (Ok m)) -> rep_holds v' -> rep_step o v None v'
  | rep_replies m v' :
      sendable m -> rep_send m v = (v', Ok tt) -> rep_step o v (when (for_client v) (Replied m)) v'
  | rep_refused m v' e :
      rep_send m v = (v', Err e) -> (forall e', e <> Codec e') -> rep_step o v None v'
  | rep_connects q io :
      q <> k -> write_half io <> back -> rep_step o v None (rep_peer_connected q io v)
  | rep_disconnects q : q <> k -> rep_step o v None (rep_peer_disconnected q v)
  | rep_arrives q s0 s :
      streams (queue v) !! q = Some s0 -> (q = k -> arrives o out s0 s) ->
      rep_step o v None (update (fun qu => wake q (insert_stream q s qu)) v)
  | rep_outside sh :
      written (outputs sh) back = written (outputs (rep_shared v)) back ->
      rep_step o v None (set_rep_shared sh v).

(** Writes do not fail, and the connection is not lost; the run is over when it is. *)
Inductive step : system R -> option event -> system R -> Prop :=
  | step_req w v e w' :
      req_step (outputs (rep_shared v)) w e w' -> step (mkSystem w v) e (mkSystem w' v)
  | step_rep w v e v' :
      rep_step (outputs (shared w)) v e v' -> step (mkSystem w v) e (mkSystem w v').

(** ** The exchange they implement *)

Inductive phase : Type :=
  | Idle
  | Asking (m : ZmqMessage.t)
  | Hearing (m : ZmqMessage.t)
  | Forgotten (m : ZmqMessage.t)
  | Replying (m : ZmqMessage.t).

(** A REP's user who receives again before having replied gets another client's request, and
    the one before is forgotten. *)
Inductive exchange : phase -> option event -> phase -> Prop :=
  | exchange_ask m : exchange Idle (Some (Asked m)) (Asking m)
  | exchange_hear m : exchange (Asking m) (Some (Heard m)) (Hearing m)
  | exchange_reply m reply : exchange (Hearing m) (Some (Replied reply)) (Replying reply)
  | exchange_get reply : exchange (Replying reply) (Some (Got (Ok reply))) Idle
  | exchange_forget m : exchange (Hearing m) None (Forgotten m)
  | exchange_stay ph : exchange ph None ph.

(** ** How the sockets stand in a phase *)

Definition requests (ph : phase) : list Message :=
  match ph with Asking m => [MMessage (ZmqMessage.push_front m [])] | _ => [] end.
Definition replies (ph : phase) : list Message :=
  match ph with Replying m => [MMessage (ZmqMessage.push_front m [])] | _ => [] end.

Definition delimiter : ZmqMessage.t := ZmqMessage.mk [[]].

(** The REQ: its connection, which is its own; a request is in progress unless [Idle]. *)
Record req_at (o : sinks) (ph : phase) w : Prop := {
  req_conn : exists s, peers w !! p = Some (mkPeer out s) /\ carries o back s (replies ph);
  req_own q peer : q <> p -> peers w !! q = Some peer -> send_queue peer <> out;
  req_awaits : current_request w = Some p <-> ph <> Idle;
  req_body m : ph = Replying m -> ZmqMessage.is_empty m = false;
}.

Record rep_at (o : sinks) (ph : phase) v : Prop := {
  rep_conn : exists s, streams (queue v) !! k = Some s /\ carries o out s (requests ph);
  rep_peer : rep_peers v !! k = Some back;
  rep_own q out' : q <> k -> rep_peers v !! q = Some out' -> out' <> back;
  rep_turn : match ph with
             | Hearing _ => rep_request v = Some k /\ envelope v = Some delimiter
             | _ => rep_request v <> Some k
             end;
  rep_body m : ph = Asking m -> ZmqMessage.is_empty m = false;
  rep_armed : armed (queue v);
}.

Definition stands (ph : phase) (y : system R) : Prop :=
  req_at (outputs (rep_shared (replier y))) ph (requester y)
  /\ rep_at (outputs (shared (requester y))) ph (replier y).

(** The sockets when they have shaken hands. *)
Definition paired (y : system R) : Prop :=
  let '(mkSystem w v) := y in
  (exists s, peers w !! p = Some (mkPeer out s) /\ shaken (outputs (rep_shared v)) back s [])
  /\ (exists s, streams (queue v) !! k = Some s /\ shaken (outputs (shared w)) out s [])
  /\ rep_peers v !! k = Some back
  /\ (forall q peer, q <> p -> peers w !! q = Some peer -> send_queue peer <> out)
  /\ (forall q out', q <> k -> rep_peers v !! q = Some out' -> out' <> back)
  /\ current_request w <> Some p /\ rep_request v <> Some k /\ armed (queue v).

Lemma paired_stands y : paired y -> stands Idle y.
Proof.
  destruct y as [w v]. intros ((s & Hs & Hc) & (s' & Hs' & Hc') & ? & ? & ? & ? & ? & ?).
  apply shaken_carries in Hc, Hc'. split; split; cbn; eauto; done.
Qed.

(** ** The REQ refines its part *)

Lemma req_at_same o o' ph w : written o' back = written o back -> req_at o ph w -> req_at o' ph w.
Proof.
  intros Hw [(s & Hs & Hc) Hown Ha Hb]. split; [|done..]. exists s. split; [done|]. by eapply carries_same.
Qed.

Lemma rep_at_same o o' ph v : written o' out = written o out -> rep_at o ph v -> rep_at o' ph v.
Proof.
  intros Hw [(s & Hs & Hc) Hp Hown Ht Hb Ha]. split; [|done..]. exists s. split; [done|]. by eapply carries_same.
Qed.

(** What changes nothing of the connection. *)
Lemma req_at_frame o ph w w' :
  req_at o ph w -> peers w' !! p = peers w !! p ->
  (forall q peer, q <> p -> peers w' !! q = Some peer -> send_queue peer <> out) ->
  (current_request w' = Some p <-> current_request w = Some p) -> req_at o ph w'.
Proof. intros [Hc _ Ha Hb] Hp Hown Hcur. split; [by rewrite Hp|done|by rewrite Hcur|done]. Qed.

(** A request goes to the connection in [Idle] only, or to another server. *)
Lemma req_send_stands o ph w w' m v :
  req_at o ph w -> rep_at (outputs (shared w)) ph v -> sendable m -> req_send m w = (w', Ok tt) ->
  exists ph', exchange ph (when (at_server w') (Asked m)) ph'
    /\ req_at o ph' w' /\ rep_at (outputs (shared w')) ph' v.
Proof.
  intros Hq Hr Hm Hs. unfold req_send in Hs. destruct (current_request w) as [c|] eqn:Hcur; [done|].
  pose proof (req_send_loop_spec _ _ _ _ _ [] Hs eq_refl ltac:(constructor)) as (q & Hreq & Hq').
  destruct Hreq as (peer & _ & _ & Hpeer & Hpeers & _ & _ & _ & Hother & Hwritten).
  destruct Hq as [(s & Hconn & Hc) Hown Ha Hb]. assert (ph = Idle) as ->.
  { destruct ph; [done|..]; (assert (current_request w = Some p) by (by apply Ha)); congruence. }
  unfold when, at_server. case_bool_decide as Hp; rewrite Hq' in Hp.
  - injection Hp as ->. assert (send_queue peer = out) as Hout by (rewrite Hconn in Hpeer; by injection Hpeer as <-).
    rewrite Hout in Hwritten.
    exists (Asking m). split; [constructor|]. split.
    + split; [exists s; rewrite Hpeers; split; [exact Hconn|exact Hc]|by rewrite Hpeers|by rewrite Hq'|done].
    + destruct Hr as [(s' & Hs' & Hc') ? ? ? ? ?]. split; [|done..|intros m' [= <-]; apply Hm|done].
      exists s'. split; [done|]. eapply (carries_write _ _ _ _ []); [exact Hc'| |exact Hwritten].
      destruct Hm as [Hm1 Hm2]. split; [done|]. constructor; [done|exact Hm2].
  - exists Idle. split; [constructor|]. split.
    + split; [exists s; by rewrite Hpeers|by rewrite Hpeers|rewrite Hq'; naive_solver|done].
    + eapply rep_at_same, Hr. apply Hother. intros Heq. apply (Hown q peer); [congruence|done|done].
Qed.

Lemma reply_of_push m : ZmqMessage.is_empty m = false ->
  reply_of (Some (Ok (MMessage (ZmqMessage.push_front m [])))) = Ok m.
Proof.
  intros Hm%ZmqMessage.len_pos. unfold reply_of. rewrite ZmqMessage.pop_push_front.
  assert (ZmqMessage.len (ZmqMessage.push_front m []) = ZmqMessage.len m + 1)%Z as -> by apply len_cons.
  destruct (Z.ltb_spec (ZmqMessage.len m + 1) 2); [lia|done].
Qed.

(** A receive for the request of the connection takes the reply, if it has come. *)
Lemma req_recv_stands o ph w w' r :
  req_at o ph w -> req_recv w = (w', r) ->
  (forall res, r = Ready res -> at_server w -> req_holds res) ->
  shared w' = shared w /\
  exists ph', exchange ph (match r with Ready res => when (at_server w) (Got res) | Pending => None end) ph'
    /\ req_at o ph' w' /\ (r = Pending -> ph' = ph) /\ requests ph' = requests ph
    /\ forall v oR, rep_at oR ph v -> rep_at oR ph' v.
Proof.
  intros Hq Hr Hholds.
  assert (shared w' = shared w) as Hsh.
  { unfold req_recv in Hr. destruct (current_request w); [|by simplify_eq].
    destruct (peers w !! _); [|by simplify_eq]. destruct (poll_stream _) as [[s []] wk]; by simplify_eq. }
  split; [exact Hsh|]. apply req_recv_spec in Hr. unfold at_server, when in *.
  destruct (current_request w) as [q|] eqn:Hcur.
  2:{ destruct Hr as [-> ->]. exists ph. rewrite bool_decide_eq_false_2 by done.
      split_and!; [constructor|done..]. }
  destruct Hq as [(s & Hconn & Hc) Hown Ha Hb]. rewrite Hcur in Ha. unfold Req.awaits in Hr. case_bool_decide as Hqp.
  - injection Hqp as ->. rewrite Hconn in Hr. destruct Hr as (s' & x & wk & Hp & Hpeers & _ & Hx).
    destruct (carries_poll _ _ _ _ _ _ _ Hp Hc) as (ms & Hms & Hc'). destruct x as [x|].
    + destruct Hx as [-> Hnone]. destruct (Hholds _ eq_refl I) as [Hmsg Herr].
      destruct x as [[m|e]|]; [|by destruct (Herr e)|done].
      destruct ph; cbn [replies] in Hms; try discriminate Hms. injection Hms as <- <-.
      rewrite reply_of_push by by apply Hb. exists Idle. split_and!; [constructor| |done|done|].
      * split; [exists s'; by rewrite Hpeers, lookup_insert_eq| |by rewrite Hnone|done].
        intros q' peer Hne. rewrite Hpeers, lookup_insert_ne by done. by apply Hown.
      * intros v oR [? ? ? ? ? ?]. by split.
    + destruct Hx as [-> Hsome]. exists ph. split_and!; [constructor| |done|done|done].
      split; [exists s'; rewrite Hpeers, lookup_insert_eq; by subst ms| |by rewrite Hsome|done].
      intros q' peer Hne. rewrite Hpeers, lookup_insert_ne by done. by apply Hown.
  - assert (ph = Idle) as -> by (destruct ph; [done|..]; by (destruct Hqp; apply Ha)).
    exists Idle. assert (req_at o Idle w' /\ (r = Pending -> Idle = Idle) /\ requests Idle = requests Idle
      /\ forall v oR, rep_at oR Idle v -> rep_at oR Idle v) as Hrest.
    { split; [|done]. destruct (peers w !! q) as [peer|] eqn:Hpq.
      - destruct Hr as (s' & x & wk & _ & Hpeers & _ & Hx). split; [| | |done].
        + exists s. rewrite Hpeers, lookup_insert_ne; [done|congruence].
        + intros q' peer' Hne. rewrite Hpeers. intros [[<- <-]|[_ ?]]%lookup_insert_Some; [|by eapply Hown].
          cbn. by apply (Hown q).
        + split; [|done]. destruct x; destruct Hx as [_ ->]; congruence.
      - destruct Hr as [-> _]. split; [by exists s|done|by split|done]. }
    split; [|exact Hrest]. destruct r; constructor.
Qed.

Lemma req_step_stands o ph w e w' v :
  req_at o ph w -> rep_at (outputs (shared w)) ph v -> req_step o w e w' ->
  exists ph', exchange ph e ph' /\ req_at o ph' w' /\ rep_at (outputs (shared w')) ph' v.
Proof.
  intros Hq Hr Hs. destruct Hs as [m w' Hm Hs|m w' e Hs Hne|w' Hs|w' r Hs Hh|q io Hq' Hio|q Hq'|q peer s Hp Har|sh Hsh].
  - by eapply req_send_stands.
  - exists ph. split; [constructor|]. unfold req_send in Hs. destruct (current_request w) eqn:Hcur; [by simplify_eq|].
    pose proof (req_send_loop_spec _ _ _ _ _ [] Hs eq_refl ltac:(constructor)) as Hspec.
    destruct e; try (destruct Hspec as (_ & _ & ->); split; [by eapply req_at_frame; [|..|split];
      [exact Hq|done|apply Hq|..]|done]). by destruct (Hne e).
  - destruct (req_recv_stands _ _ _ _ _ Hq Hs) as (Hsh & ph' & He & Hq' & _ & _ & Hr'); [done|].
    exists ph'. rewrite Hsh. by split_and!; [..|apply Hr'].
  - destruct (req_recv_stands _ _ _ _ _ Hq Hs) as (Hsh & ph' & He & Hq' & _ & _ & Hr'); [by intros ? [= <-]|].
    exists ph'. rewrite Hsh. by split_and!; [..|apply Hr'].
  - exists ph. split_and!; [constructor| |done]. eapply req_at_frame; [exact Hq|by apply lookup_insert_ne| |done].
    intros q2 peer2 Hne. cbn. intros [[<- <-]|[_ ?]]%lookup_insert_Some; [done|by eapply Hq].
  - exists ph. split_and!; [constructor| |done]. eapply req_at_frame; [exact Hq|by apply lookup_delete_ne| |done].
    intros q2 peer2 Hne. cbn. intros [_ ?]%lookup_delete_Some. by eapply Hq.
  - exists ph. split_and!; [constructor| |done]. destruct Hq as [(s0 & Hconn & Hc) Hown Ha Hb]. split; [| |done..].
    + cbn. destruct (decide (q = p)) as [->|Hne].
      * rewrite lookup_insert_eq. rewrite Hconn in Hp. injection Hp as <-. exists s. split; [done|].
        eapply carries_arrives, Hc. by apply Har.
      * exists s0. by rewrite lookup_insert_ne.
    + intros q2 peer2 Hne. cbn. intros [[<- <-]|[_ ?]]%lookup_insert_Some; [|by eapply Hown].
      cbn. by apply (Hown q).
  - exists ph. split_and!; [constructor| |by eapply rep_at_same]. by eapply req_at_frame; [exact Hq|..|apply Hq|].
Qed.

(** ** The REP refines its part *)

Lemma rep_at_frame o ph v v' :
  rep_at o ph v -> streams (queue v') !! k = streams (queue v) !! k -> rep_peers v' !! k = Some back ->
  (forall q out', q <> k -> rep_peers v' !! q = Some out' -> out' <> back) ->
  rep_request v' = rep_request v -> envelope v' = envelope v -> armed (queue v') -> rep_at o ph v'.
Proof. intros [Hc _ _ Ht Hb _] Hs Hp Hown Hreq Henv Ha. split; [by rewrite Hs|done|done|by rewrite Hreq, Henv|done|done]. Qed.

Lemma rep_disconnected_spec q v :
  outputs (rep_shared (rep_peer_disconnected q v)) = outputs (rep_shared v)
  /\ rep_peers (rep_peer_disconnected q v) = delete q (rep_peers v)
  /\ queue (rep_peer_disconnected q v) = queue v
  /\ rep_request (rep_peer_disconnected q v) = rep_request v
  /\ envelope (rep_peer_disconnected q v) = envelope v.
Proof. split_and!; [|done..]. apply emit_outputs. Qed.

(** What a receive leaves as it is until it answers. *)
Definition rep_frame v v' : Prop :=
  outputs (rep_shared v') = outputs (rep_shared v) /\ rep_peers v' ⊆ rep_peers v
  /\ rep_request v' = rep_request v /\ envelope v' = envelope v.

Lemma rep_frame_disconnected q v v1 : rep_frame v v1 -> rep_frame v (rep_peer_disconnected q v1).
Proof.
  intros (Ho & Hp & Hq & He). destruct (rep_disconnected_spec q v1) as (Ho' & Hp' & _ & Hq' & He').
  unfold rep_frame. rewrite Ho', Hp', Hq', He'. split_and!; [done| |done..].
  etrans; [apply delete_subseteq|done].
Qed.

Lemma rep_recv_frame cx v v' r :
  rep_recv cx v = (v', r) ->
  match r with
  | Ready (Ok _) => exists q e v1, rep_frame v v1 /\ v' = set_rep_request (Some q) (set_envelope (Some e) v1)
  | _ => rep_frame v v'
  end.
Proof.
  intros Hr.
  apply (recv_poll_frame (Receiver0 := rep_receiver) (rep_frame v) _ _ _ _) in Hr;
    [|done|intros; by apply rep_frame_disconnected| |done].
  2:{ intros q x v1. cbn. unfold rep_handle. destruct x as [[g|c|m]|e]; [done|done| |done].
      by repeat case_match. }
  destruct r as [res|]; [|done]. destruct Hr as (q & x & v1 & Hf & Hh). cbn in Hh.
  destruct x as [[g|c|m]|e]; [done..| |].
  - apply rep_handle_splits in Hh as [(_ & -> & ->)|(e & data & -> & -> & _)]; [done|by exists q, e, v1].
  - injection Hh as <- <-. by apply rep_frame_disconnected.
Qed.

Definition is_message (x : Message) : Prop := match x with MMessage _ => True | _ => False end.

Lemma skipped_takes_nothing l :
  Forall (fun '(q, x) => exists v, snd (handle (Receiver := rep_receiver) q x v) = None) l ->
  Forall is_message (oks (taken_from k l)) -> oks (taken_from k l) = [].
Proof.
  induction 1 as [|[q x] l (v & Hx) _ IH]; [done|]. unfold taken_from, oks in *. cbn [flat_map].
  rewrite flat_map_app. intros [Hl Hr]%Forall_app. rewrite (IH Hr), app_nil_r.
  destruct (decide (k = q)); [|done]. cbn in Hl, Hx |- *. rewrite app_nil_r in *.
  destruct x as [[g|c|m]|err]; [by inversion Hl..| |done]. unfold rep_handle in Hx. by repeat case_match.
Qed.

(** What a receive takes from the reader of the connection: nothing, or the message that it
    answers; that one is not a valid request if it answers an error. *)
Lemma rep_recv_takes cx v v' r ms o s s' :
  rep_recv cx v = (v', r) -> streams (queue v) !! k = Some s -> streams (queue v') !! k = Some s' ->
  carries o out s ms -> Forall is_message ms ->
  exists took ms', ms = took ++ ms' /\ carries o out s' ms'
    /\ match r with
       | Ready (Ok data) => exists q m v0, rep_handle q (Ok (MMessage m)) v0 = (v', Some (Ok data))
           /\ took = if decide (k = q) then [MMessage m] else []
       | Ready (Err _) => Forall (fun x => exists m, x = MMessage m /\ (ZmqMessage.len m < 2)%Z) took
       | Pending => took = []
       end.
Proof.
  intros Hr Hs Hs' Hc Hms. apply recv_poll_consumes in Hr as (l & Ha & Hl). specialize (Hl k).
  rewrite Hs, Hs' in Hl. destruct (carries_trace _ _ _ _ _ _ Hl Hc) as (ms' & -> & Hc').
  apply Forall_app in Hms as [Hms _]. exists (oks (taken_from k l)), ms'. split_and!; [done|done|].
  destruct r as [res|]; [|by apply skipped_takes_nothing]. destruct Ha as (l0 & q & x & v0 & -> & Hsk & Hh).
  unfold taken_from in *. rewrite flat_map_app in *. cbn [flat_map] in *. rewrite app_nil_r in *.
  unfold oks in *. rewrite flat_map_app in *. apply Forall_app in Hms as [Hms0 Hms].
  pose proof (skipped_takes_nothing _ Hsk Hms0) as Hnone. unfold oks, taken_from in Hnone. rewrite Hnone.
  cbn [app]. cbn in Hh.
  destruct x as [[g|c|m]|e]; [done..| |].
  - pose proof (rep_handle_splits _ _ _ _ _ Hh) as [(Hlen & _ & ->)|(e & data & -> & _)].
    + destruct (decide (k = q)); cbn; [|done]. by repeat econstructor.
    + exists q, m, v0. split; [done|]. by destruct (decide (k = q)).
  - injection Hh as <- <-. by destruct (decide (k = q)).
Qed.

Lemma requests_messages ph : Forall is_message (requests ph).
Proof. destruct ph; by repeat constructor. Qed.

(** The turn of the REP is over when it hears another client. *)
Definition passed (ph : phase) : phase := match ph with Hearing m => Forgotten m | ph => ph end.

Lemma exchange_passed ph : exchange ph None (passed ph).
Proof. destruct ph; constructor. Qed.

Lemma req_at_phase oQ ph ph' w :
  replies ph' = replies ph -> ph <> Idle -> ph' <> Idle -> (forall m, ph' <> Replying m \/ ph' = ph) ->
  req_at oQ ph w -> req_at oQ ph' w.
Proof.
  intros Hr Hi Hi' Hn [(s & Hs & Hc) Hown Ha Hb]. split; [exists s; by rewrite Hr|done|naive_solver|].
  intros m ->. by destruct (Hn m) as [?| <-]; [|apply Hb].
Qed.

Lemma req_at_passed oQ ph w : req_at oQ ph w -> req_at oQ (passed ph) w.
Proof. destruct ph; [done|done| |done|done]. apply req_at_phase; naive_solver. Qed.

Lemma rep_recv_stands o ph cx v v' r :
  rep_at o ph v -> rep_recv cx v = (v', r) -> rep_holds v' ->
  outputs (rep_shared v') = outputs (rep_shared v) /\
  exists ph', exchange ph (match r with Ready (Ok m) => when (for_client v') (Heard m) | _ => None end) ph'
    /\ rep_at o ph' v' /\ (r = Pending -> ph' = ph)
    /\ forall oQ w, req_at oQ ph w -> req_at oQ ph' w.
Proof.
  intros [(s & Hs & Hc) Hp Hown Ht Hb Ha] Hr [Hp' [s' Hs']].
  pose proof (recv_poll_armed _ _ _ _ Hr Ha) as Ha'. pose proof (rep_recv_frame _ _ _ _ Hr) as Hf.
  destruct (rep_recv_takes _ _ _ _ _ _ _ _ Hr Hs Hs' Hc (requests_messages ph)) as (took & ms' & Hms & Hc' & Htook).
  assert (forall v1, rep_frame v v1 -> outputs (rep_shared v1) = outputs (rep_shared v)
    /\ forall q out', q <> k -> rep_peers v1 !! q = Some out' -> out' <> back) as Hframe.
  { intros v1 (Ho & Hsub & _). split; [done|]. intros q out' Hne Hq. eapply Hown, lookup_weaken; done. }
  assert (took = [] -> rep_frame v v' ->
    outputs (rep_shared v') = outputs (rep_shared v) /\ rep_at o ph v') as Hnothing.
  { intros -> Hf'. destruct (Hframe v' Hf') as [Ho Hown']. destruct Hf' as (_ & _ & Hreq & Henv). split; [done|].
    cbn [app] in Hms. subst ms'. split; [by exists s'|done|done|by rewrite Hreq, Henv|done|done]. }
  destruct r as [[data|e]|].
  - destruct Htook as (q & m & v0 & Hh & ->). destruct Hf as (q' & env & v1 & Hf & ->).
    destruct (Hframe v1 Hf) as [Ho Hown']. split; [done|].
    apply rep_handle_splits in Hh as Hsplit. destruct Hsplit as [(_ & _ & ?)|(env' & d & [= <-] & Hv' & _)]; [done|].
    assert (q' = q /\ env = env') as [-> ->].
    { split; [apply (f_equal rep_request) in Hv'|apply (f_equal envelope) in Hv']; by injection Hv'. }
    unfold for_client, when. cbn [rep_request set_rep_request]. case_bool_decide as Hqk.
    + injection Hqk as ->. rewrite decide_True in Hms by done. destruct ph; cbn [requests app] in Hms; try done.
      injection Hms as <- <-. exists (Hearing m0). pose proof (Hb m0 eq_refl) as Hne.
      pose proof (rep_handle_route k [] (ZmqMessage.frames m0) v0 ltac:(constructor) ltac:(by destruct m0 as [[]])) as Hroute.
      cbn [app] in Hroute. unfold ZmqMessage.push_front in Hh. rewrite Hroute in Hh.
      pose proof (f_equal (fun x => envelope (fst x)) Hh) as Henv. cbn in Henv. injection Henv as <-.
      apply (f_equal snd) in Hh. cbn in Hh. injection Hh as <-. rewrite ZmqMessage.frames_mk.
      split_and!; [constructor| |done|intros oQ w; by apply req_at_phase; naive_solver].
      by split; [exists s'|..].
    + rewrite decide_False in Hms by congruence. cbn [app] in Hms. subst ms'.
      exists (passed ph). split_and!; [apply exchange_passed| |done|intros; by apply req_at_passed].
      split; [exists s'; split; [done|by destruct ph]|done|done|by destruct ph; cbn; congruence|by destruct ph|done].
  - assert (took = []) as ->.
    { destruct took as [|x took]; [done|]. apply Forall_inv in Htook as (m & -> & Hlen).
      destruct ph; cbn in Hms; try done. injection Hms as <- _. pose proof (ZmqMessage.len_pos _ (Hb m0 eq_refl)).
      unfold ZmqMessage.len in *. cbn in Hlen. rewrite len_cons in Hlen. lia. }
    destruct (Hnothing eq_refl Hf) as [Ho Hat]. split; [done|]. exists ph. by split_and!; [constructor|..].
  - destruct (Hnothing Htook Hf) as [Ho Hat]. split; [done|]. exists ph. by split_and!; [constructor|..].
Qed.
(** A reply that is refused, or for another client, leaves the connection alone. *)
Lemma rep_send_frame m v v' r :
  rep_send m v = (v', r) ->
  rep_peers v' = rep_peers v /\ queue v' = queue v /\ rep_request v' = None
  /\ match rep_request v with
     | None => v' = v
     | Some q =>
         (forall out', rep_peers v !! q <> Some out' ->
            written (outputs (rep_shared v')) out' = written (outputs (rep_shared v)) out')
         /\ (is_Some (rep_peers v !! q) -> forall e, r = Err e -> exists e', e = Codec e')
     end.
Proof.
  unfold rep_send. destruct (rep_request v) as [q|] eqn:Hq; [|by intros [= <- <-]].
  cbn [rep_peers set_rep_request]. destruct (rep_peers v !! q) as [out'|] eqn:Hp.
  - destruct (sink_send _ _ _) as [o r1] eqn:Hs. intros [= <- <-]. split_and!; [done..| |].
    + intros out2 Hne. cbn. destruct (sink_send_written _ _ _ _ _ Hs) as [Hother _]. apply Hother. congruence.
    + intros _ e. destruct r1; cbn; [done|]. intros [= <-]. by eexists.
  - intros [= <- <-]. split_and!; [done..|]. by intros [? ?].
Qed.

Lemma rep_send_stands o ph m v v' u w :
  rep_at o ph v -> req_at (outputs (rep_shared v)) ph w -> sendable m -> rep_send m v = (v', Ok u) ->
  exists ph', exchange ph (when (for_client v) (Replied m)) ph'
    /\ rep_at o ph' v' /\ req_at (outputs (rep_shared v')) ph' w.
Proof.
  intros Hr Hq Hm Hs. destruct (rep_send_frame _ _ _ _ Hs) as (Hpeers & Hqueue & Hnone & Hsent).
  destruct Hr as [Hconn Hp Hown Ht Hb Ha]. unfold for_client, when. case_bool_decide as Hc.
  - destruct ph as [|m0|m0|m0|m0]; try done. destruct Ht as [_ Henv].
    pose proof (rep_send_spec _ _ _ _ _ _ Hc Henv Hs) as (_ & _ & Hw). rewrite Hp in Hw.
    destruct Hw as [_ [Hw|[e' ?]]]; [|done]. unfold delimiter in Hw. rewrite ZmqMessage.prepend_mk in Hw.
    exists (Replying m). split; [constructor|]. split.
    + by split; rewrite ?Hqueue, ?Hpeers, ?Hnone.
    + destruct Hq as [(s & Hs' & Hcar) Hown' Haw _]. split; [|done|by split; [|intros _; apply Haw]|intros m' [= <-]; apply Hm].
      exists s. split; [done|]. eapply (carries_write _ _ _ _ []); [exact Hcar| |exact Hw].
      destruct Hm as [Hm1 Hm2]. split; [done|]. constructor; [done|exact Hm2].
  - exists ph. split; [constructor|]. assert (match ph with Hearing _ => False | _ => True end) as Hph by (destruct ph; [done..|by destruct Ht|done|done]).
    split; [split; rewrite ?Hqueue, ?Hpeers, ?Hnone; try done; by destruct ph|].
    eapply req_at_same, Hq. destruct (rep_request v) as [q|]; [|by rewrite Hsent].
    apply Hsent. intros Hb'. apply (Hown q back); [congruence|done|done].
Qed.

Lemma rep_step_stands o ph v e v' w :
  rep_at o ph v -> req_at (outputs (rep_shared v)) ph w -> rep_step o v e v' ->
  exists ph', exchange ph e ph' /\ rep_at o ph' v' /\ req_at (outputs (rep_shared v')) ph' w.
Proof.
  intros Hr Hq Hs.
  destruct Hs as [cx m v' Hs Hh|cx r v' Hs Hn Hh|m v' Hm Hs|m v' e Hs Hne|q io Hne Hio|q Hne|q s0 s Hs0 Har|sh Hsh].
  - destruct (rep_recv_stands _ _ _ _ _ _ Hr Hs Hh) as (-> & ph' & He & Hr' & _ & Hq'). exists ph'. by split_and!; [..|apply Hq'].
  - destruct (rep_recv_stands _ _ _ _ _ _ Hr Hs Hh) as (-> & ph' & He & Hr' & _ & Hq'). exists ph'.
    split_and!; [|done|by apply Hq']. by destruct r as [[m|]|]; [destruct (Hn m)|..].
  - by eapply rep_send_stands.
  - exists ph. split; [constructor|]. destruct (rep_send_frame _ _ _ _ Hs) as (Hpeers & Hqueue & Hnone & Hsent).
    destruct Hr as [Hconn Hp Hown Ht Hb Ha]. assert (rep_request v <> Some k) as Hk.
    { intros Hk. rewrite Hk in Hsent. destruct Hsent as [_ Hcod].
      destruct (Hcod ltac:(by eexists) e eq_refl) as [e' ->]. by destruct (Hne e'). }
    split; [split; rewrite ?Hqueue, ?Hpeers, ?Hnone; try done; destruct ph; naive_solver|].
    eapply req_at_same, Hq. destruct (rep_request v) as [q|]; [|by rewrite Hsent].
    apply Hsent. intros Hb'. apply (Hown q back); [congruence|done|done].
  - exists ph. split; [constructor|]. split; [|done].
    eapply rep_at_frame; [exact Hr| | | |done|done|apply armed_insert_op, Hr].
    + cbn. rewrite push_ready_streams. by apply lookup_insert_ne.
    + cbn. rewrite lookup_insert_ne by done. apply Hr.
    + intros q' out'. cbn. intros Hk [[<- <-]|[_ Hp]]%lookup_insert_Some; [done|by eapply Hr].
  - exists ph. split; [constructor|]. destruct (rep_disconnected_spec q v) as (Ho & Hp & Hqu & Hreq & Henv).
    split; [|by rewrite Ho]. eapply rep_at_frame; [exact Hr|by rewrite Hqu| | |done|done|rewrite Hqu; apply Hr].
    + rewrite Hp, lookup_delete_ne by done. apply Hr.
    + intros q' out' Hk. rewrite Hp. intros [_ Hp']%lookup_delete_Some. by eapply Hr.
  - exists ph. split; [constructor|]. split; [|done]. destruct Hr as [(s1 & Hs1 & Hc) Hp Hown Ht Hb Ha].
    split; [|done..|]; rewrite ?queue_update.
    + cbn. rewrite push_ready_streams. cbn. destruct (decide (q = k)) as [->|Hne].
      * rewrite lookup_insert_eq. exists s. split; [done|]. rewrite Hs1 in Hs0. injection Hs0 as <-.
        eapply carries_arrives, Hc. by apply Har.
      * exists s1. by rewrite lookup_insert_ne.
    + eapply armed_ext, (armed_push_insert q s), Ha; done.
  - exists ph. split_and!; [constructor| |by eapply req_at_same]. eapply rep_at_frame; [exact Hr|done|apply Hr|apply Hr|done|done|apply Hr].
Qed.

Lemma step_stands ph y e y' : stands ph y -> step y e y' -> exists ph', exchange ph e ph' /\ stands ph' y'.
Proof.
  intros [Hq Hr] Hs. destruct Hs as [w v e w' Hs|w v e v' Hs].
  - destruct (req_step_stands _ _ _ _ _ _ Hq Hr Hs) as (ph' & He & ? & ?). by exists ph'.
  - destruct (rep_step_stands _ _ _ _ _ _ Hr Hq Hs) as (ph' & He & ? & ?). by exists ph'.
Qed.

Lemma runs_stands ph y l y' : stands ph y -> runs step y l y' -> exists ph', runs exchange ph l ph' /\ stands ph' y'.
Proof.
  intros Hy Hr. revert ph Hy. induction Hr as [y|y e y1 l y2 Hs _ IH]; intros ph Hy; [exists ph; split; [constructor|done]|].
  destruct (step_stands _ _ _ _ Hy Hs) as (ph1 & He & Hy1). destruct (IH ph1 Hy1) as (ph2 & Hr & Hy2).
  exists ph2. split; [by econstructor|done].
Qed.
End Steps.

(** C5 Requests and replies over a connection: a REQ and a REP have shaken hands over
    transports that cut what is written into pieces of any size, and have other peers. Whatever
    the users, the other peers and the transports then do, as long as this connection is not
    lost, what the users see of it is a request-reply exchange: the REP's user hears exactly
    the request that the REQ's user asked, and before it nothing else; the answer that the
    REQ's user gets is the reply that the REP's user has then given, never an error, an older
    reply or another client's; and the next request can only come after it. Unless the REP's
    user receives again before replying: then the request is forgotten. *)
Theorem exchange_refined {R} `{AsyncRead R, !FiniteRead R, DecodeEof, HashOrder, Runtime}
    (p k : PeerIdentity) (out back : writer) (y y' : system R) (l : list event) :
  paired p k out back y -> runs (step p k out back) y l y' ->
  exists ph, runs exchange Idle l ph
    /\ (current_request (requester y') = Some p <-> ph <> Idle)
    /\ (rep_request (replier y') = Some k <-> exists m, ph = Hearing m).
Proof.
  intros Hp%paired_stands Hr. destruct (runs_stands _ _ _ _ _ _ _ _ Hp Hr) as (ph & Hph & Hq & Hv).
  exists ph. split; [exact Hph|]. split; [apply Hq|]. pose proof (rep_turn _ _ _ _ _ _ Hv) as Ht.
  destruct ph; split; try done; try (by intros [m' [=]]); intros _; [by eexists|apply Ht].
Qed.

(** C25 Nobody waits for the wire: when the user of the REQ waits for a reply, and both sockets
    have read all that was written and still wait, then the REP's user has the request, or had
    it and forgot it. *)
Theorem exchange_progresses {R} `{AsyncRead R, !FiniteRead R, DecodeEof, HashOrder, Runtime}
    (p k : PeerIdentity) (out back : writer) (y : system R) (l : list event) (cx : task)
    (w w' : ReqSocket (reader (R := R))) (v v' : RepSocket (reader (R := R))) :
  paired p k out back y -> runs (step p k out back) y l (mkSystem w v) ->
  current_request w = Some p -> req_recv w = (w', Pending) ->
  rep_recv cx v = (v', Pending) -> rep_holds k back v' ->
  (forall s, peers w' !! p = Some (mkPeer out s) ->
     encode_all (written (outputs (rep_shared v)) back) = Some (Framed.delivered (inner (proj1_sig s)))) ->
  (forall s, streams (queue v') !! k = Some s ->
     encode_all (written (outputs (shared w)) out) = Some (Framed.delivered (inner (proj1_sig s)))) ->
  exists m, runs exchange Idle l (Hearing m) \/ runs exchange Idle l (Forgotten m).
Proof.
  intros Hp%paired_stands Hr Hcur Hrq Hrp Hh Hreadq Hreadp.
  destruct (runs_stands _ _ _ _ _ _ _ _ Hp Hr) as (ph & Hph & Hq & Hv). cbn [requester replier] in *.
  destruct (req_recv_stands _ k out back _ _ _ _ _ Hq Hrq) as (_ & ph1 & _ & [(s & Hs & Hc) _ _ _] & Hph1 & _); [done|].
  rewrite Hph1 in Hc by done.
  destruct (rep_recv_stands p _ _ _ _ _ _ _ _ _ Hv Hrp Hh) as (_ & ph2 & _ & [(s2 & Hs2 & Hc2) _ _ _ _ _] & Hph2 & _).
  rewrite Hph2 in Hc2 by done.
  assert (parked s2) as Hpk2 by (eapply recv_poll_parked, Hs2; [done|apply Hv|exact Hrp]).
  apply parked_carries in Hc2; [|done|by apply Hreadp].
  assert (parked s) as Hpk.
  { apply req_recv_spec in Hrq. rewrite Hcur in Hrq. destruct Hq as [(s0 & Hs0 & _) _ _ _]. unfold Req.awaits in Hrq.
    rewrite Hs0 in Hrq. destruct Hrq as (s1 & x & wk & Hpoll & Hpeers & _ & Hx).
    rewrite Hpeers, lookup_insert_eq in Hs. injection Hs as <-. destruct x; [by destruct Hx|].
    cbn in Hpoll. injection Hpoll as Hs1 Hx1 <-. exists s0. cbn. by rewrite <- Hs1, <- Hx1. }
  apply parked_carries in Hc; [|done|by apply Hreadq].
  pose proof (proj1 (req_awaits _ _ _ _ _ _ Hq) Hcur) as Hidle. destruct ph; try done; eauto.
Qed.

(** ** A question and its answer *)

Module Example.
#[local] Existing Instance Runtime_exec.
Import Wire.Example Link.Example.

Definition server : PeerIdentity := bs "server".
Definition client : PeerIdentity := bs "client".
Definition question : ZmqMessage.t := ZmqMessage.from_bytes (bs "question").
Definition answer : ZmqMessage.t := ZmqMessage.mk [bs "an"; bs "answer"].

Definition req0 : ReqSocket (reader (R := script)) :=
  req_peer_connected server (mkIo (greeted REP []) 0%nat) (req_with_options small (send_all (hands REQ []) new_process)).
Definition rep0 : RepSocket (reader (R := script)) :=
  rep_peer_connected client (mkIo (greeted REQ []) 0%nat) (rep_with_options small (send_all (hands REP []) new_process)).

Definition on_wire (m : ZmqMessage.t) : bytes := default [] (encode (MMessage (ZmqMessage.push_front m []))).

Abbreviation req1 := (fst (req_send question req0)).
Definition rep1 : RepSocket (reader (R := script)) :=
  update (fun qu => wake client (insert_stream client (arrive (on_wire question) (greeted REQ [])) qu)) rep0.
Abbreviation rep2 := (fst (rep_recv 0%nat rep1)).
Abbreviation rep3 := (fst (rep_send answer rep2)).
Abbreviation req2 := (set_peers (<[server := mkPeer (H := Runtime_exec) 0%nat (arrive (on_wire answer) (greeted REP []))]> (peers req1)) req1).
Abbreviation req3 := (fst (req_recv req2)).

Abbreviation goes := (step server client 0%nat 0%nat).

Lemma example_paired : paired server client 0%nat 0%nat (mkSystem req0 rep0).
Proof.
  split; [exists (greeted REP []); split; [reflexivity|apply (greeted_shaken _ []); [vm_compute; reflexivity|constructor|vm_compute; reflexivity..]]|].
  split; [exists (greeted REQ []); split; [reflexivity|apply (greeted_shaken _ []); [vm_compute; reflexivity|constructor|vm_compute; reflexivity..]]|].
  split; [reflexivity|].
  split.
  { intros q peer Hq. change (peers req0) with (<[server := mkPeer 0%nat (greeted REP [])]> (∅ : gmap PeerIdentity (Peer reader))).
    rewrite lookup_insert_ne by done. by rewrite lookup_empty. }
  split.
  { intros q out' Hq. change (rep_peers rep0) with (<[client := 0%nat]> (∅ : gmap PeerIdentity nat)).
    rewrite lookup_insert_ne by done. by rewrite lookup_empty. }
  split; [discriminate|]. split; [discriminate|]. by apply armed_insert_op.
Qed.

Lemma step_event y e e' y' : goes y e y' -> e = e' -> goes y e' y'.
Proof. by intros ? <-. Qed.

Lemma question_sendable : sendable question.
Proof. split; [reflexivity|]. repeat constructor; by vm_compute. Qed.
Lemma answer_sendable : sendable answer.
Proof. split; [reflexivity|]. repeat constructor; by vm_compute. Qed.

Lemma asked : goes (mkSystem req0 rep0) (Some (Asked question)) (mkSystem req1 rep0).
Proof.
  eapply step_event; [apply step_req, req_asks; [exact question_sendable|apply pair_snd; vm_compute; reflexivity]|].
  vm_compute. reflexivity.
Qed.

Lemma question_arrives : goes (mkSystem req1 rep0) None (mkSystem req1 rep1).
Proof.
  apply step_rep, (rep_arrives _ _ _ _ _ client (greeted REQ [])); [reflexivity|]. intros _.
  apply arrive_arrives. vm_compute. reflexivity.
Qed.

Lemma question_heard : goes (mkSystem req1 rep1) (Some (Heard question)) (mkSystem req1 rep2).
Proof.
  eapply step_event.
  - apply step_rep, (rep_hears _ _ _ _ _ 0%nat question); [apply pair_snd; vm_compute; reflexivity|].
    split; [vm_compute; reflexivity|]. apply (bool_decide_unpack _). vm_compute. exact I.
  - vm_compute. reflexivity.
Qed.

Lemma answered : goes (mkSystem req1 rep2) (Some (Replied answer)) (mkSystem req1 rep3).
Proof.
  eapply step_event; [apply step_rep, rep_replies; [exact answer_sendable|apply pair_snd; vm_compute; reflexivity]|].
  vm_compute. reflexivity.
Qed.

Lemma answer_arrives : goes (mkSystem req1 rep3) None (mkSystem req2 rep3).
Proof.
  apply step_req, (req_arrives _ _ _ _ _ server (mkPeer (H := Runtime_exec) 0%nat (greeted REP []))); [reflexivity|]. intros _.
  apply arrive_arrives. vm_compute. reflexivity.
Qed.

Lemma answer_got : goes (mkSystem req2 rep3) (Some (Got (Ok answer))) (mkSystem req3 rep3).
Proof.
  eapply step_event; [apply step_req, (req_gets _ _ _ _ _ _ (Ok answer)); [apply pair_snd; vm_compute; reflexivity|done]|].
  vm_compute. reflexivity.
Qed.

Lemma until_heard : runs goes (mkSystem req0 rep0) [Asked question; Heard question] (mkSystem req1 rep2).
Proof.
  apply (runs_step _ _ (Some (Asked question)) _ [Heard question] _ asked).
  apply (runs_step _ _ None _ [Heard question] _ question_arrives).
  apply (runs_step _ _ (Some (Heard question)) _ [] _ question_heard). apply runs_nil.
Qed.

Lemma runs_app {A} (st : A -> option event -> A -> Prop) a l b l' c :
  runs st a l b -> runs st b l' c -> runs st a (l ++ l') c.
Proof. induction 1 as [|a e a1 l1 b Hs _ IH]; intros Hr; [done|]. rewrite <- app_assoc. eapply runs_step; [done|by apply IH]. Qed.

Lemma example_exchange :
  runs goes (mkSystem req0 rep0) [Asked question; Heard question; Replied answer; Got (Ok answer)] (mkSystem req3 rep3).
Proof.
  apply (runs_app _ _ [Asked question; Heard question] _ [Replied answer; Got (Ok answer)] _ until_heard).
  apply (runs_step _ _ (Some (Replied answer)) _ [Got (Ok answer)] _ answered).
  apply (runs_step _ _ None _ [Got (Ok answer)] _ answer_arrives).
  apply (runs_step _ _ (Some (Got (Ok answer))) _ [] _ answer_got). apply runs_nil.
Qed.
End Example.

#[local] Existing Instance Runtime_exec.

Lemma exchange_refined_witness :
  exists ph, runs exchange Idle
    [Asked Example.question; Heard Example.question; Replied Example.answer; Got (Ok Example.answer)] ph.
Proof.
  destruct (exchange_refined (H2 := Runtime_exec) Example.server Example.client 0%nat 0%nat (mkSystem (H1 := Runtime_exec) Example.req0 Example.rep0)
    (mkSystem (H1 := Runtime_exec) Example.req3 Example.rep3) _ Example.example_paired Example.example_exchange) as (ph & Hph & _).
  exists ph. exact Hph.
Defined.

Lemma exchange_progresses_witness :
  exists m, runs exchange Idle [Asked Example.question; Heard Example.question] (Hearing m)
    \/ runs exchange Idle [Asked Example.question; Heard Example.question] (Forgotten m).
Proof.
  apply (exchange_progresses (H2 := Runtime_exec) Example.server Example.client 0%nat 0%nat (mkSystem (H1 := Runtime_exec) Example.req0 Example.rep0)
    [Asked Example.question; Heard Example.question] 0%nat Example.req1 (fst (req_recv Example.req1))
    Example.rep2 (fst (rep_recv 0%nat Example.rep2))).
  - exact Example.example_paired.
  - exact Example.until_heard.
  - vm_compute. reflexivity.
  - apply pair_snd. vm_compute. reflexivity.
  - apply pair_snd. vm_compute. reflexivity.
  - split; [vm_compute; reflexivity|]. apply (bool_decide_unpack _). vm_compute. exact I.
  - intros s Hs. apply (f_equal (fmap (fun x => Framed.received (inner (proj1_sig (recv_queue x)))))) in Hs.
    etransitivity; [|exact Hs]. vm_compute. reflexivity.
  - intros s Hs. apply (f_equal (fmap (fun x => Framed.received (inner (proj1_sig x))))) in Hs.
    etransitivity; [|exact Hs]. vm_compute. reflexivity.
Defined.
