(* ===== verification/Pipeline.v ===== *)
(** From one user to another: a PUSH socket (src/src/push.rs, backend.rs), the writer tasks of
    its connections (write_queue.rs), the encoder and a transport, and at the other ends the
    readers and queues of the sockets that receive (codec/framed.rs, fair_queue.rs, pull.rs). *)

From S2P Require Import Prelude Message Endpoint Errors SocketTypes Greeting Command Codec Framed.
From S2P Require Import FairQueue Channels Runtime Backend Handshake Receive Sockets WriteQueue Wire.

(** ** Channels of their own *)

Section Separate.
Context {S : Type} `{Runtime}.
Abbreviation socket := (GenericSocketBackend S).
Implicit Types (b : socket) (n : net Message).

(** Channels are never taken back. *)
Definition grows n n' : Prop := forall c, allocated n c -> allocated n' c.

#[export] Instance grows_preorder : PreOrder grows.
Proof. split; [by intros n c|]. intros n1 n2 n3 H1 H2 c Hc. by apply H2, H1. Qed.

Lemma try_send_grows n s m n' r : try_send n s m = (n', r) -> grows n n'.
Proof. intros Hs c. by destruct (try_send_accepted _ _ _ _ _ c Hs) as [_ ->]. Qed.

Lemma send_await_grows n s m n' r : send_await n s m = (n', r) -> grows n n'.
Proof. intros Hs c. by destruct (send_accepted _ _ _ _ _ c Hs) as [_ ->]. Qed.

Lemma clone_grows n s n' s' : clone_sender n s = (n', s') -> grows n n'.
Proof. intros Hc c. by destruct (clone_same _ _ _ _ c Hc) as (_ & _ & ->). Qed.

Lemma send_to_peer_queue_grows n s m n' r : send_to_peer_queue n s m = (n', r) -> grows n n'.
Proof.
  unfold send_to_peer_queue. destruct (try_send n s m) as [n1 r1] eqn:Ht. apply try_send_grows in Ht.
  destruct r1 as [u|[]]; intros Hs; simplify_eq; [done| |done]. apply send_await_grows in Hs. by etrans.
Qed.

(** [b'] has channels of [b], and more. *)
Definition allocates b b' : Prop := grows (messages (shared b)) (messages (shared b')).

#[export] Instance allocates_preorder : PreOrder allocates.
Proof. unfold allocates. split; [by intros b|]. intros b1 b2 b3 H1 H2. by etrans. Qed.

Lemma refresh_allocates b : allocates b (refresh_single_peer_cache b).
Proof.
  unfold allocates, refresh_single_peer_cache, store_single_peer. destruct (_ =? 1)%Z; [|done].
  destruct (map_to_list _) as [|[p peer] l]; [done|].
  destruct (clone_sender _ _) as [n s] eqn:Hc. by apply clone_grows in Hc.
Qed.

Lemma disconnected_allocates p b : allocates b (generic_peer_disconnected p b).
Proof.
  unfold allocates, generic_peer_disconnected. cbn. rewrite notify_messages.
  pose proof (refresh_allocates (set_peers (delete p (peers b)) b)) as Hr.
  destruct (bool_decide _); cbn; rewrite ?emit_messages; exact Hr.
Qed.

Lemma cached_allocates m expected b b' c :
  try_send_cached_single_peer m expected b = (b', c) -> allocates b b'.
Proof.
  unfold try_send_cached_single_peer, allocates. destruct (negb _); [by intros [= <- _]|].
  destruct (single_peer b) as [sp|]; [|by intros [= <- _]].
  destruct (match expected with Some _ => _ | None => _ end); [by intros [= <- _]|].
  destruct (try_send _ _ m) as [n [u|[]]] eqn:Ht; apply try_send_grows in Ht; [by intros [= <- _]| |by intros [= <- _]].
  destruct (clone_sender n _) as [n1 s] eqn:Hc. apply clone_grows in Hc. intros [= <- _]. cbn. by etrans.
Qed.

Lemma finish_allocates c b b' r : finish_cached_send c b = (b', r) -> allocates b b'.
Proof.
  destruct c as [|p s m|p e|m]; cbn; [by intros [= <- _]| |intros [= <- _]; apply disconnected_allocates|by intros [= <- _]].
  destruct (send_await _ s m) as [n [u|e]] eqn:Hs; apply send_await_grows in Hs; intros [= <- _]; [exact Hs|].
  etrans; [|apply disconnected_allocates]. exact Hs.
Qed.

Lemma round_robin_loop_allocates rr m b b' r : round_robin_loop rr m b = (b', r) -> allocates b b'.
Proof.
  induction rr as [|p rr IH]; cbn [round_robin_loop].
  { intros [= <- _]. unfold allocates. done. }
  destruct (peers b !! p) as [peer|]; [|done].
  destruct (send_to_peer_queue _ _ m) as [n [u|e]] eqn:Hs; apply send_to_peer_queue_grows in Hs;
    intros [= <- _]; [exact Hs|]. etrans; [|apply disconnected_allocates]. exact Hs.
Qed.

Lemma send_round_robin_allocates m b b' r : send_round_robin m b = (b', r) -> allocates b b'.
Proof.
  unfold send_round_robin. destruct (try_send_cached_single_peer m None b) as [b1 c] eqn:Ht.
  apply cached_allocates in Ht. destruct (finish_cached_send c b1) as [b2 r2] eqn:Hf.
  apply finish_allocates in Hf. assert (allocates b b2) as Hb by (by etrans).
  destruct r2 as [[|m']|e]; [by intros [= <- _]| |by intros [= <- _]].
  intros Hl%round_robin_loop_allocates. by etrans.
Qed.

(** Every peer has a channel of its own. *)
Definition separate b : Prop :=
  (forall p s, peers b !! p = Some (mkPeer s) -> allocated (messages (shared b)) (chan_of s))
  /\ (forall p p' s s', peers b !! p = Some (mkPeer s) -> peers b !! p' = Some (mkPeer s') ->
      chan_of s = chan_of s' -> p = p').

Lemma separate_mono b b' : peers b' ⊆ peers b -> allocates b b' -> separate b -> separate b'.
Proof.
  intros Hp Ha [H1 H2]. split.
  - intros p s Hs. by eapply Ha, H1, lookup_weaken.
  - intros p p' s s' Hs Hs'. apply H2; by eapply lookup_weaken.
Qed.

Lemma connected_separate p io b : separate b -> separate (generic_peer_connected p io b).
Proof.
  intros [H1 H2]. destruct (connected_spec p io b) as (_ & _ & _ & _ & s & Hs & Hfresh & _).
  assert (allocates b (generic_peer_connected p io b)
    /\ allocated (messages (shared (generic_peer_connected p io b))) (chan_of s)) as [Ha Hnew].
  { revert Hs. unfold generic_peer_connected, into_parts, allocates. cbn.
    destruct (channel _ _) as [n s1] eqn:Hc. cbn.
    set (b1 := set_peers _ _). pose proof (refresh_allocates b1) as Hr.
    destruct (refresh_spec b1) as [_ [-> _]]. cbn. intros Heq.
    assert (mkPeer s1 = mkPeer s) as [= ->].
    { apply (f_equal (.!! p)) in Heq. rewrite !lookup_insert_eq in Heq. congruence. }
    split; [intros c Hal|]; apply Hr; cbn.
    - destruct (channel_fresh _ _ _ _ c Hc) as (_ & Hal' & _). apply Hal'. by left.
    - destruct (channel_fresh _ _ _ _ (chan_of s) Hc) as (_ & Hal' & _). apply Hal'. by right. }
  split.
  - intros p' s'. rewrite Hs. intros [[-> [= ->]]|[_ Hs']]%lookup_insert_Some; [done|]. by eapply Ha, H1.
  - intros p1 p2 s1 s2. rewrite Hs.
    intros [[-> [= ->]]|[Hn1 Hs1]]%lookup_insert_Some [[-> [= ->]]|[Hn2 Hs2]]%lookup_insert_Some Heq; try done.
    + destruct Hfresh. rewrite Heq. by eapply H1.
    + destruct Hfresh. rewrite <- Heq. by eapply H1.
    + by eapply H2.
Qed.

Lemma send_round_robin_peers m b b' r :
  coherent b -> send_round_robin m b = (b', r) -> peers b' ⊆ peers b.
Proof.
  intros Hc Hs. destruct (send_round_robin_spec _ _ _ _ Hc Hs) as
    [(p & (s & _ & -> & _) & _)|[(p & (_ & -> & _) & _)|[_ [(dead & p & rr & _ & _ & Hsent)|(_ & -> & _)]]]];
    [done|apply delete_subseteq| |done].
  unfold sent_to in Hsent. destruct (is_ok r).
  - by destruct Hsent as [(s & _ & -> & _) _].
  - destruct Hsent as ((_ & -> & _) & _). apply delete_subseteq.
Qed.
End Separate.

(** ** What a PUSH socket does with the messages of its user *)

Section Push.
Context {S : Type} `{Runtime}.
Abbreviation socket := (GenericSocketBackend S).
Implicit Types b : socket.

(** The life of a PUSH socket. *)
Inductive push_step b : socket -> Prop :=
  | push_sends m b' r : push_send m b = (b', r) -> push_step b b'
  | push_connects p io : push_step b (generic_peer_connected p io b)
  | push_disconnects p : push_step b (generic_peer_disconnected p b).

Lemma reachable_push o sh b :
  rtc push_step (push_with_options o sh) b -> backend_ok b /\ separate b.
Proof.
  apply (rtc_ind_r (fun b => backend_ok b /\ separate b)).
  - split; [apply with_options_ok|]. split; by intros p.
  - intros b1 b2 _ Hstep [Hok Hsep]. destruct Hstep as [m b2 r Hs|p io|p].
    + pose proof (send_round_robin_ok (MMessage m) b1 Hok) as Hok2. unfold push_send in Hs. rewrite Hs in Hok2.
      split; [exact Hok2|]. eapply separate_mono; [|by eapply send_round_robin_allocates|exact Hsep].
      eapply send_round_robin_peers, Hs. apply Hok.
    + split; [by apply connected_ok|by apply connected_separate].
    + split; [by apply disconnected_ok|]. eapply separate_mono; [|apply disconnected_allocates|exact Hsep].
      destruct (disconnected_spec p b1) as (_ & -> & _). apply delete_subseteq.
Qed.

(** The user's messages, one after another. *)
Fixpoint push_all (ms : list ZmqMessage.t) b : socket * list (result unit ZmqError) :=
  match ms with
  | [] => (b, [])
  | m :: ms =>
      let '(b, r) := push_send m b in
      let '(b, rs) := push_all ms b in
      (b, r :: rs)
  end.

(** The messages whose turn was [p]'s. *)
Definition picks (p : PeerIdentity) (who : list PeerIdentity) (ms : list ZmqMessage.t) : list Message :=
  flat_map (fun '(q, m) => if decide (q = p) then [MMessage m] else []) (zip who ms).

Lemma push_send_delivers m b b' u :
  backend_ok b -> separate b -> push_send m b = (b', Ok u) ->
  exists p, is_Some (peers b !! p) /\ peers b' = peers b
    /\ forall p' s, peers b !! p' = Some (mkPeer s) ->
         accepted (messages (shared b')) (chan_of s)
         = accepted (messages (shared b)) (chan_of s) ++ (if decide (p = p') then [MMessage m] else []).
Proof.
  intros [Hc _] [_ Hsep] Hs. assert (exists p, delivered p (MMessage m) b b') as (p & s & Hp & Hpeers & _ & Hd).
  { destruct (send_round_robin_spec _ _ _ _ Hc Hs) as
      [(p & Hd & _)|[(p & _ & [=] & _)|[_ [(dead & p & rr & _ & _ & Hsent)|(_ & _ & [=])]]]]; [by exists p|].
    exists p. by destruct Hsent. }
  exists p. split_and!; [by eexists|done|]. intros p' s' Hp'. rewrite (Hd (chan_of s')). f_equal.
  destruct (decide (p = p')) as [<-|Hne].
  - rewrite Hp in Hp'. injection Hp' as <-. by rewrite decide_True.
  - rewrite decide_False; [done|]. intros Heq. by apply Hne, (Hsep p p' s s').
Qed.

Lemma push_all_picks ms b b' rs :
  backend_ok b -> separate b -> push_all ms b = (b', rs) -> Forall (fun r => is_ok r = true) rs ->
  exists who, length who = length ms /\ Forall (fun p => is_Some (peers b !! p)) who
    /\ peers b' = peers b
    /\ forall p s, peers b !! p = Some (mkPeer s) ->
         accepted (messages (shared b')) (chan_of s)
         = accepted (messages (shared b)) (chan_of s) ++ picks p who ms.
Proof.
  revert b rs. induction ms as [|m ms IH]; intros b rs Hok Hsep; cbn [push_all].
  { intros [= <- <-] _. exists []. split_and!; [done|done|done|]. intros p s _. by rewrite app_nil_r. }
  destruct (push_send m b) as [b1 r] eqn:Hs. destruct (push_all ms b1) as [b2 rs2] eqn:Hall.
  intros [= <- <-] [Hr Hrs]%Forall_cons. destruct r as [u|]; [|done].
  destruct (push_send_delivers _ _ _ _ Hok Hsep Hs) as (p & Hp & Hpeers & Hd).
  pose proof (send_round_robin_ok (MMessage m) b Hok) as Hok1. unfold push_send in Hs. rewrite Hs in Hok1.
  destruct (IH b1 rs2) as (who & Hl & Hw & Hpeers2 & Hacc); [done| |done|done|].
  { eapply separate_mono; [by rewrite Hpeers|by eapply send_round_robin_allocates|done]. }
  rewrite Hpeers in *. exists (p :: who). split_and!; [by cbn; rewrite Hl|by constructor|done|].
  intros p' s Hs'. rewrite (Hacc p' s Hs'), (Hd p' s Hs'), <- app_assoc. done.
Qed.
End Push.

(** ** Connections *)

(** What a PULL socket answers the items [l] with. *)
Definition pulled (l : list (PeerIdentity * item)) : list ZmqMessage.t :=
  flat_map (fun '(_, x) => match x with Ok (MMessage m) => [m] | _ => [] end) l.

Section Connections.
Context {W R : Type} `{Runtime, AsyncRead R, !FiniteRead R, DecodeEof, HashOrder}.
Context `{!HasQueue W (reader (R := R)) PeerIdentity, !OnDisconnect W (reader (R := R)) PeerIdentity}.
Implicit Types (q : W) (w : writer_state).

(** A connection whose channel has accepted the messages [ms] is the stream [k] of the socket
    [q]: its writer task [w] has got these messages, and what it has fed to its sink is what is
    sent to [q], encoded, over the transport. The other streams of [q] have senders of their
    own. *)
Definition carried (ms : list Message) q k (sent : PeerIdentity -> list Message)
    (wire : PeerIdentity -> bytes) (out : writer) w : Prop :=
  (exists o, rtc (queue_step out) (new_writer o) w) /\ arrived w = ms
  /\ WriteQueue.fed w = sent k /\ is_Some (streams (queue q) !! k) /\ all_connected sent wire q.

(** The connection rests: its writer sleeps with nothing to write, and the socket's [recv]
    waits, in [q'], with nothing left to read, and is still connected. *)
Definition at_rest q q' k (wire : PeerIdentity -> bytes) w : Prop :=
  phase w = Receiving /\ WriteQueue.received w = [] /\ all_read wire q q'
  /\ is_Some (streams (queue q') !! k).

Lemma carried_prefix ms q k sent wire out w :
  carried ms q k sent wire out w ->
  sent k `prefix_of` ms /\ (phase w = Receiving -> WriteQueue.received w = [] -> sent k = ms).
Proof.
  intros ((o & (_ & (_ & (lost & Ha & Hl) & _) & _)%reachable_writer) & <- & <- & _). rewrite Ha.
  split; [by eexists|]. intros Hp Hr. unfold in_hand. rewrite Hp, Hr.
  destruct lost; [by rewrite app_nil_r|]. destruct Hl as [e He]; [done|congruence].
Qed.

Context (Rc : Receiver W reader ZmqMessage.t) `{!MessageReceiver Rc}.

(** What is answered over such a connection is a beginning of what its channel accepted, and
    at rest all of it. *)
Lemma carried_received ms q k sent wire out w arrivals cx q' got :
  carried ms q k sent wire out w -> recv_polls Rc arrivals cx q = (q', got) ->
  exists l, got = delivered_messages Rc l /\ oks (taken_from k l) `prefix_of` ms.
Proof.
  intros Hc Hg. destruct (carried_prefix _ _ _ _ _ _ _ Hc) as [Hpre _].
  destruct Hc as (_ & _ & _ & [s Hs] & Hq). destruct (recv_polls_sent _ _ _ _ _ _ _ _ Hq Hg) as (l & -> & Hk).
  exists l. split; [done|]. specialize (Hk k). rewrite Hs in Hk. destruct Hk as (rest & v & Hrest & _).
  etrans; [|exact Hpre]. by exists rest.
Qed.

Lemma carried_all ms q k sent wire out w arrivals ks cx q1 q' got :
  carried ms q k sent wire out w -> armed (queue q) ->
  recv_polls Rc arrivals cx q = (q1, got) -> recv_poll cx (wake_all ks q1) = (q', Pending) ->
  at_rest q q' k wire w ->
  exists l, got = delivered_messages Rc l /\ oks (taken_from k l) = ms.
Proof.
  intros Hc Ha Hg Hwait (Hph & Hrec & Hread & Hk). destruct (carried_prefix _ _ _ _ _ _ _ Hc) as [_ Hall].
  destruct Hc as (_ & _ & _ & _ & Hq).
  destruct (recv_polls_all _ _ _ _ _ _ _ _ _ _ Ha Hq Hg Hwait Hread) as (l & -> & Hsent).
  exists l. split; [done|]. by rewrite (Hsent k Hk), Hall.
Qed.
End Connections.

(** ** PUSH *)

Section Pushed.
Context {S : Type} `{Runtime}.
Implicit Types b : GenericSocketBackend S.

(** What the channel of a peer has accepted. *)
Definition channel_of b (p : PeerIdentity) : list Message :=
  match peers b !! p with
  | Some peer => accepted (messages (shared b)) (chan_of (send_queue peer))
  | None => []
  end.

Lemma push_all_channels o sh (ms : list ZmqMessage.t) b b' rs :
  rtc push_step (push_with_options o sh) b -> push_all ms b = (b', rs) ->
  Forall (fun r => is_ok r = true) rs ->
  exists who, length who = length ms /\ Forall (fun p => is_Some (peers b !! p)) who
    /\ forall p, is_Some (peers b !! p) -> channel_of b' p = channel_of b p ++ picks p who ms.
Proof.
  intros [Hok Hsep]%reachable_push Hp Hr.
  destruct (push_all_picks _ _ _ _ Hok Hsep Hp Hr) as (who & Hl & Hw & Hpeers & Hacc).
  exists who. split_and!; [done..|]. intros p [[s] Hs]. unfold channel_of.
  rewrite Hpeers, Hs. cbn [send_queue]. by apply Hacc.
Qed.
End Pushed.

(** C1 PUSH to PULL, the whole way: of the messages that a PUSH socket has taken from its user
    ([Ok]), each goes to one connected peer. What the user at the other end of a peer's
    connection gets are the messages whose turn was that peer's, in the order in which they
    were sent (behind what the peer's channel had accepted before): never one that was not
    sent to it, none twice, none altered, none missing between two others. And when the writer
    of the connection sleeps, the transport has handed everything over, and the other end's
    [recv] waits, they are all of them. *)
Theorem push_pull_delivers {S R} `{Runtime, AsyncRead R, !FiniteRead R, DecodeEof, HashOrder}
    (o : SocketOptions) (sh : Shared S) (ms : list ZmqMessage.t) (b b' : GenericSocketBackend S)
    (rs : list (result unit ZmqError)) :
  rtc push_step (push_with_options o sh) b -> push_all ms b = (b', rs) ->
  Forall (fun r => is_ok r = true) rs ->
  exists who, length who = length ms /\ Forall (fun p => is_Some (peers b !! p)) who
  /\ forall p k sent wire out w (q : GenericSocketBackend (reader (R := R))),
      is_Some (peers b !! p) -> carried (channel_of b' p) q k sent wire out w ->
      (forall arrivals cx q' got, recv_polls pull_receiver arrivals cx q = (q', got) ->
         exists l, got = pulled l
           /\ oks (taken_from k l) `prefix_of` channel_of b p ++ picks p who ms)
      /\ (forall arrivals ks cx q1 q' got, armed (queue q) ->
            recv_polls pull_receiver arrivals cx q = (q1, got) ->
            recv_poll (Receiver0 := pull_receiver) cx (wake_all ks q1) = (q', Pending) ->
            at_rest q q' k wire w ->
            exists l, got = pulled l
              /\ oks (taken_from k l) = channel_of b p ++ picks p who ms).
Proof.
  intros Hb Hp Hr. destruct (push_all_channels _ _ _ _ _ _ Hb Hp Hr) as (who & Hl & Hw & Hacc).
  exists who. split_and!; [done..|]. intros p k sent wire out w q Hps. rewrite (Hacc p Hps). intros Hc.
  split.
  - intros arrivals cx q' got Hg.
    destruct (carried_received pull_receiver _ _ _ _ _ _ _ _ _ _ _ Hc Hg) as (l & -> & Hk). by exists l.
  - intros arrivals ks cx q1 q' got Ha Hg Hwait Hrest.
    destruct (carried_all pull_receiver _ _ _ _ _ _ _ _ _ _ _ _ _ Hc Ha Hg Hwait Hrest) as (l & -> & Hk).
    by exists l.
Qed.

(** ** A PUSH socket with two peers, and the PULL socket of the first *)

Module Example.
#[local] Existing Instance Runtime_exec.
Import Wire.Example.

Definition push : GenericSocketBackend (list item) :=
  generic_peer_connected (bs "bob") (mkIo [] 1%nat)
    (generic_peer_connected (bs "alice") (mkIo [] 0%nat) (push_with_options default_options new_process)).

Lemma push_reachable : rtc push_step (push_with_options default_options new_process) push.
Proof. do 2 (eapply rtc_l; [apply push_connects|]). apply rtc_refl. Qed.

Definition tasks : list ZmqMessage.t := [hello; bye; third].
Abbreviation pushed := (push_all tasks push).

Lemma all_pushed : pushed = (fst pushed, [Ok tt; Ok tt; Ok tt]).
Proof. apply pair_snd. vm_compute. reflexivity. Qed.

(** Alice's writer gets the first message and the third, and writes them. *)
Definition alice_writer : writer_state :=
  let w := arrive (MMessage third) (arrive (MMessage hello) (new_writer Recording.empty)) in
  write_run 0%nat (write_left w) w.

Lemma alice_writer_reachable : rtc (queue_step 0%nat) (new_writer Recording.empty) alice_writer.
Proof. do 2 (eapply rtc_l; [by apply queue_arrive|]). apply write_run_steps. Qed.

Definition to_alice (k : PeerIdentity) : list Message := [MMessage hello; MMessage third].
Definition to_alice_wire (k : PeerIdentity) : bytes := default [] (encode_all (to_alice k)).

(** Her PULL socket, which reads them in two pieces. *)
Definition alice_stream : reader (R := script) :=
  connection [Ready (Ok (take 5 (to_alice_wire []))); Pending; Ready (Ok (drop 5 (to_alice_wire [])))].
Definition alice_pull : GenericSocketBackend (reader (R := script)) :=
  generic_peer_connected (bs "push") (mkIo alice_stream 0%nat) (pull_with_options small new_process).

Lemma alice_streams : streams (queue alice_pull) = {[bs "push" := alice_stream]}.
Proof. reflexivity. Qed.

Lemma alice_end : all_connected to_alice to_alice_wire alice_pull.
Proof.
  intros k s. rewrite alice_streams. intros [<- <-]%lookup_singleton_Some.
  apply connection_connected; [vm_compute; reflexivity|reflexivity|].
  repeat (split || constructor || (by vm_compute)).
Qed.

Lemma alice_is_peer : is_Some (peers push !! bs "alice").
Proof. apply (bool_decide_unpack _). vm_compute. exact I. Qed.

Lemma alice_carried :
  carried (channel_of (fst pushed) (bs "alice")) alice_pull (bs "push") to_alice to_alice_wire 0%nat alice_writer.
Proof.
  split_and!.
  - exists Recording.empty. apply alice_writer_reachable.
  - vm_compute. reflexivity.
  - vm_compute. reflexivity.
  - rewrite alice_streams. exists alice_stream. apply lookup_singleton_eq.
  - exact alice_end.
Qed.

Abbreviation alice_polls := (recv_polls pull_receiver [[]; [bs "push"]; []] 0%nat alice_pull).
Abbreviation alice_waiting := (recv_poll (Receiver0 := pull_receiver) 0%nat (wake_all [] (fst alice_polls))).

Lemma alice_polled : alice_polls = (fst alice_polls, [hello; third]).
Proof. apply pair_snd. vm_compute. reflexivity. Qed.

Lemma alice_waits : alice_waiting = (fst alice_waiting, Pending).
Proof. apply pair_snd. vm_compute. reflexivity. Qed.

Lemma alice_read :
  map_Forall (fun k s => Framed.received (inner (proj1_sig s)) = greetings ++ to_alice_wire k)
    (streams (queue (fst alice_waiting))).
Proof. apply (bool_decide_unpack _). by vm_compute. Qed.

Lemma alice_all_read : all_read to_alice_wire alice_pull (fst alice_waiting).
Proof.
  intros k s s'. rewrite alice_streams. intros [<- <-]%lookup_singleton_Some Hs'%alice_read.
  by apply connection_advanced.
Qed.

Lemma alice_armed : armed (queue alice_pull).
Proof. apply armed_insert_op. by split. Qed.

Lemma alice_rests : at_rest alice_pull (fst alice_waiting) (bs "push") to_alice_wire alice_writer.
Proof.
  split_and!; [vm_compute; reflexivity|vm_compute; reflexivity|exact alice_all_read|].
  apply (bool_decide_unpack _). vm_compute. exact I.
Qed.
End Example.

#[local] Existing Instance Runtime_exec.

Lemma push_pull_delivers_witness :
  exists who, length who = 3%nat
    /\ exists l, [Wire.Example.hello; Wire.Example.third] = pulled l
         /\ oks (taken_from (bs "push") l) = picks (bs "alice") who Example.tasks.
Proof.
  destruct (push_pull_delivers (R := script) default_options new_process Example.tasks Example.push _ _
    Example.push_reachable Example.all_pushed) as (who & Hl & _ & Hall).
  - repeat constructor.
  - exists who. split; [exact Hl|].
    destruct (Hall (bs "alice") (bs "push") Example.to_alice Example.to_alice_wire 0%nat Example.alice_writer
      Example.alice_pull Example.alice_is_peer Example.alice_carried) as [_ Hd].
    exact (Hd [[]; [bs "push"]; []] [] 0%nat (fst Example.alice_polls) (fst Example.alice_waiting) _
      Example.alice_armed Example.alice_polled Example.alice_waits Example.alice_rests).
Defined.
