(* ===== verification/Broadcast.v ===== *)
(** From a publisher to a subscriber: the fan-out of a PUB socket (src/src/pub.rs), the
    connection of one of its subscribers ([Pipeline.v]), and the SUB or XSUB socket at the
    other end (src/src/sub_backend.rs, sub.rs, xsub.rs), which has told the publisher what it
    wants. *)

From S2P Require Import Prelude Message Endpoint Errors SocketTypes Greeting Command Codec Framed.
From S2P Require Import FairQueue Channels Runtime Backend Handshake Receive Sockets Subscriptions.
From S2P Require Import Fanout Pub XPub SubBackend WriteQueue Wire Pipeline.

(** ** Several messages *)

Section FanOut.
Context {S : Type} `{Runtime}.
Implicit Types (b : PubSocketBackend S) (s : Subscriber) (ms : list ZmqMessage.t).

(** What the task of the fan-out queue does with the messages it takes. *)
Definition fan_out ms b : PubSocketBackend S := fold_left (fun b m => fanout_message m b) ms b.

(** A subscriber is to get a message. *)
Definition wants (subscriptions : list bytes) (m : ZmqMessage.t) : bool :=
  match ZmqMessage.get m 0 with
  | Some first_frame => subscription_matches subscriptions first_frame
  | None => false
  end.

Definition channel_of_subscriber b s : list Message := accepted (messages (pub_shared b)) (chan_of (send_queue s)).

(** From a good state a fan-out leads to good states, in which the receiver of [c] is there. *)
Definition open_channel (c : nat) (good : net Message -> Prop) : Prop :=
  (forall n n', good n -> net_step n n' -> good n')
  /\ forall n q n1 q1 m n2, good n -> chan_of q = c -> clone_sender n q = (n1, q1) ->
       try_send n1 q1 m <> (n2, Err SendDisconnected).

Lemma good_steps c good n n' : open_channel c good -> rtc net_step n n' -> good n -> good n'.
Proof. intros [Hg _] Hr. induction Hr as [|n n1 n' Hs _ IH]; [done|]. intros Hn. by eapply IH, Hg. Qed.

Lemma fanout_message_steps m b : rtc net_step (messages (pub_shared b)) (messages (pub_shared (fanout_message m b))).
Proof. unfold fanout_message. destruct (ZmqMessage.get m 0); [apply fanout_loop_steps|done]. Qed.

(** One message. *)
Lemma fanout_message_channel m b p s :
  pub_ok b -> subscribers b !! p = Some s ->
  let b' := fanout_message m b in
  let new := if wants (subscriptions s) m then [MMessage m] else [] in
  (channel_of_subscriber b' s = channel_of_subscriber b s ++ new
   \/ channel_of_subscriber b' s = channel_of_subscriber b s)
  /\ forall good, open_channel (chan_of (send_queue s)) good -> good (messages (pub_shared b)) ->
       good (messages (pub_shared b')) /\ channel_of_subscriber b' s = channel_of_subscriber b s ++ new.
Proof.
  intros Hok Hp b' new. assert (forall good, open_channel (chan_of (send_queue s)) good ->
    good (messages (pub_shared b)) -> good (messages (pub_shared b'))) as Hgood.
  { intros good Ho. by eapply good_steps, fanout_message_steps. }
  unfold new, wants. destruct (ZmqMessage.get m 0) as [f|] eqn:Hf.
  - pose proof (fanout_served m f b p s Hok Hf Hp) as Hs. unfold served, given in Hs.
    unfold channel_of_subscriber, b' in *. destruct (subscription_matches (subscriptions s) f).
    + destruct Hs as [Hs|[Hs (n1 & n2 & q' & n3 & Hr & Hc & Ht)]].
      * split; [by left|]. intros good Ho Hg. split; [by eapply Hgood|done].
      * split; [by right|]. intros good Ho Hg. destruct Ho as [Ho1 Ho2].
        exfalso. eapply (Ho2 n1); [eapply good_steps; [by split|exact Hr|exact Hg]|done|exact Hc|exact Ht].
    + rewrite app_nil_r. split; [by left|]. intros good Ho Hg. split; [by eapply Hgood|done].
  - rewrite app_nil_r.
    assert (b' = b) as -> by (unfold b', fanout_message; by rewrite Hf). split; [by left|]. by intros good _.
Qed.

(** All of them. *)
Lemma fan_out_channel ms b p s :
  pub_ok b -> subscribers b !! p = Some s ->
  let b' := fan_out ms b in
  let new := MMessage <$> filter (fun m => wants (subscriptions s) m = true) ms in
  subscribers b' = subscribers b
  /\ (exists some, some `sublist_of` new /\ channel_of_subscriber b' s = channel_of_subscriber b s ++ some)
  /\ forall good, open_channel (chan_of (send_queue s)) good -> good (messages (pub_shared b)) ->
       channel_of_subscriber b' s = channel_of_subscriber b s ++ new.
Proof.
  revert b. induction ms as [|m ms IH]; intros b Hok Hp; cbn [fan_out fold_left].
  { split_and!; [done| |intros; by rewrite app_nil_r]. exists []. by rewrite app_nil_r. }
  destruct (fanout_frame m b) as (Hsub & _ & _).
  assert (pub_ok (fanout_message m b)) as Hok1 by (eapply pub_step_ok, Hok; apply Pub.pub_fanout).
  assert (subscribers (fanout_message m b) !! p = Some s) as Hp1 by (by rewrite Hsub).
  destruct (IH (fanout_message m b) Hok1 Hp1) as (Hs & (some & Hsome & Hch) & Hall). unfold fan_out in *.
  destruct (fanout_message_channel m b p s Hok Hp) as [Hone Hgood]. cbv zeta in *.
  rewrite filter_cons. split_and!; [by rewrite Hs| |].
  - destruct (wants (subscriptions s) m); cbn [decide]; destruct Hone as [H1|H1]; rewrite Hch, H1.
    + exists (MMessage m :: some). rewrite <- app_assoc. split; [by apply sublist_skip|done].
    + exists some. split; [by apply sublist_cons|done].
    + exists some. by rewrite app_nil_r.
    + by exists some.
  - intros good Ho Hg. destruct (Hgood good Ho Hg) as [Hg1 H1]. rewrite (Hall good Ho Hg1), H1, <- app_assoc.
    by destruct (wants (subscriptions s) m).
Qed.
End FanOut.

(** ** What a subscriber asks for *)

Definition starts_with (topic : bytes) (m : ZmqMessage.t) : Prop :=
  match ZmqMessage.get m 0 with Some first_frame => topic `prefix_of` first_frame | None => False end.

#[export] Instance starts_with_dec topic m : Decision (starts_with topic m).
Proof. unfold starts_with. destruct (ZmqMessage.get m 0); apply _. Defined.

(** The messages that a socket with the topics [topics] asks for. *)
Definition asked (topics : gset bytes) (ms : list ZmqMessage.t) : list ZmqMessage.t :=
  filter (fun m => set_Exists (fun topic => starts_with topic m) topics) ms.

Lemma wants_asked subscriptions topics ms :
  subscriptions ≡ₚ elements topics -> filter (fun m => wants subscriptions m = true) ms = asked topics ms.
Proof.
  intros Hs. apply list_filter_iff. intros m. unfold wants, starts_with, set_Exists.
  destruct (ZmqMessage.get m 0) as [f|]; [|naive_solver]. rewrite subscription_matches_spec.
  by setoid_rewrite Hs; setoid_rewrite elem_of_elements.
Qed.

Lemma sublist_fmap_inv {A B} (f : A -> B) (l : list B) (k : list A) :
  l `sublist_of` f <$> k -> exists l', l = f <$> l' /\ l' `sublist_of` k.
Proof.
  revert l. induction k as [|x k IH]; intros l; cbn.
  - intros ->%sublist_nil_r. by exists [].
  - intros [Hl|(l0 & -> & Hl)]%sublist_cons_r; destruct (IH _ Hl) as (l' & -> & Hk).
    + exists l'. split; [done|by apply sublist_cons].
    + exists (x :: l'). split; [done|by apply sublist_skip].
Qed.

(** ** The life of a subscriber's connection *)

Section Life.
Context {S : Type} `{Runtime}.
Variables (o : SocketOptions) (sh : Shared S) (p : PeerIdentity) (c : nat).
Implicit Types (b : PubSocketBackend S) (due : list (list bytes * ZmqMessage.t)).

(** The connection of [p] whose queue is the channel [c], from the moment when it was made, in a
    publisher that has come into being as any other; [due] are the messages that were fanned
    out while [p] wanted them, each with the subscriptions that [p] had then. Whatever else
    happens, other connections, subscriptions, shutdowns, does not use the channel, and the
    life goes on as long as [p] has it. *)
Inductive life : list (list bytes * ZmqMessage.t) -> PubSocketBackend S -> Prop :=
  | life_begins io b s :
      rtc pub_step (pub_with_options o sh) b ->
      subscribers (pub_peer_connected p io b) !! p = Some s -> chan_of (send_queue s) = c ->
      life [] (pub_peer_connected p io b)
  | life_fans_out due b s m :
      life due b -> subscribers b !! p = Some s ->
      life (due ++ (if wants (subscriptions s) m then [(subscriptions s, m)] else [])) (fanout_message m b)
  | life_goes_on due b b' s :
      life due b -> pub_step b b' ->
      accepted (messages (pub_shared b')) c = accepted (messages (pub_shared b)) c ->
      subscribers b' !! p = Some s -> chan_of (send_queue s) = c ->
      life due b'.

(** What the channel of a connection has accepted. *)
Lemma life_accepted due b :
  life due b ->
  rtc pub_step (pub_with_options o sh) b
  /\ (exists s, subscribers b !! p = Some s /\ chan_of (send_queue s) = c)
  /\ (exists some, some `sublist_of` due.*2 /\ accepted (messages (pub_shared b)) c = MMessage <$> some)
  /\ Forall (fun '(topics, m) => Exists (fun topic => starts_with topic m) topics) due.
Proof.
  induction 1 as [io b s Hr Hs Hc|due b s m Hlife (Hr & (s0 & Hs0 & Hc) & (some & Hsome & Ha) & Hdue) Hs|
    due b b' s Hlife (Hr & _ & Hsome & Hdue) Hstep Ha Hs Hc].
  - split_and!; [by eapply rtc_r, Pub.pub_connected|by eexists| |constructor]. exists []. split; [done|].
    unfold pub_peer_connected, into_parts in *.
    destruct (channel (messages (pub_shared b)) PUB_SEND_QUEUE_CAPACITY) as [n q] eqn:Hch. cbn in *.
    rewrite lookup_insert_eq in Hs. injection Hs as <-. cbn in Hc. subst c.
    by destruct (channel_fresh _ _ _ _ (chan_of q) Hch) as (_ & _ & -> & ->).
  - rewrite Hs in Hs0. injection Hs0 as <-. pose proof (pub_reachable_ok _ _ _ Hr) as Hok.
    destruct (fanout_message_channel m b p s Hok Hs) as [Hone _]. unfold channel_of_subscriber in Hone. rewrite Hc in Hone.
    destruct (fanout_frame m b) as (Hsub & _ & _). split_and!.
    + by eapply rtc_r, Pub.pub_fanout.
    + exists s. by rewrite Hsub.
    + rewrite Ha in Hone. rewrite fmap_app. destruct (wants (subscriptions s) m); cbn in *; rewrite ?app_nil_r in *.
      * destruct Hone as [->| ->]; [exists (some ++ [m])|exists some].
        -- rewrite fmap_app. split; [by apply sublist_app|done].
        -- split; [by apply sublist_inserts_r|done].
      * exists some. split; [done|]. by destruct Hone as [-> | ->].
    + apply Forall_app_2; [done|]. destruct (wants (subscriptions s) m) eqn:Hw; [|constructor].
      constructor; [|constructor]. unfold wants in Hw. apply Exists_exists. unfold starts_with.
      destruct (ZmqMessage.get m 0) as [f|]; [|done]. apply subscription_matches_spec in Hw as (t & Ht & Hf).
      by exists t.
  - split_and!; [by eapply rtc_r|by eexists| |done]. destruct Hsome as (some & Hsome & Ha0).
    exists some. by rewrite Ha.
Qed.
End Life.

(** C2 PUB to SUB, the whole way, over a connection of the publisher from the moment when it was
    made. A SUB or XSUB socket has told its publisher the topics it subscribes to, and the
    publisher has them; then it fans out the messages [ms]. What the user of the socket gets
    is in the order in which it was fanned out, none twice and none altered. First come, of
    the messages fanned out before, since the connection was made, only such as began with a
    topic that the publisher had from the socket at the time; then, of the messages [ms], only
    such as begin with one of the socket's topics. While the connection is up, so that the
    queue has its receiver, and when it rests, the user has got every one of these. (So the
    code behaves: that its queues are never full, although they are meant to be bounded, is
    [pub_slow_subscriber].) *)
Theorem pub_sub_delivers {S R} `{Runtime, AsyncRead R, !FiniteRead R, DecodeEof, HashOrder}
    (o : SocketOptions) (sh : Shared S) (ms : list ZmqMessage.t) (b : PubSocketBackend S)
    (p k : PeerIdentity) (s : Subscriber) (before : list (list bytes * ZmqMessage.t))
    (q : SubSocketBackend (reader (R := R)))
    (sent : PeerIdentity -> list Message) (wire : PeerIdentity -> bytes) (out : writer)
    (w : writer_state) :
  life o sh p (chan_of (send_queue s)) before b -> subscribers b !! p = Some s ->
  synced q k ->
  (forall to, sub_peers q !! k = Some to -> subscriptions s = publisher_has (outputs (sub_shared q)) to) ->
  carried (channel_of_subscriber (fan_out ms b) s) q k sent wire out w ->
  Forall (fun '(topics, m) => Exists (fun topic => starts_with topic m) topics) before
  /\ exists earlier, earlier `sublist_of` before.*2
  /\ (forall arrivals cx q' got, recv_polls sub_receiver arrivals cx q = (q', got) ->
       exists l some, got = pulled l /\ some `sublist_of` asked (subs q) ms
         /\ oks (taken_from k l) `prefix_of` MMessage <$> (earlier ++ some))
  /\ (forall good arrivals ks cx q1 q' got,
        open_channel (chan_of (send_queue s)) good -> good (messages (pub_shared b)) -> armed (queue q) ->
        recv_polls sub_receiver arrivals cx q = (q1, got) ->
        recv_poll (Receiver0 := sub_receiver) cx (wake_all ks q1) = (q', Pending) ->
        at_rest q q' k wire w ->
        exists l, got = pulled l /\ oks (taken_from k l) = MMessage <$> (earlier ++ asked (subs q) ms)).
Proof.
  intros (Hr & _ & (earlier & Hsub0 & Ha0) & Hdue)%life_accepted Hp (to & Hto & Hsync) Hsub Hc.
  pose proof (pub_reachable_ok _ _ _ Hr) as Hb. specialize (Hsub to Hto). rewrite <- Hsub in Hsync.
  destruct (fan_out_channel ms b p s Hb Hp) as (_ & (some & Hsome & Hch) & Hall). cbv zeta in *.
  rewrite (wants_asked _ _ _ Hsync) in Hsome, Hall. unfold channel_of_subscriber in *. rewrite Ha0 in *.
  split; [done|]. exists earlier. split; [done|]. split.
  - intros arrivals cx q' got Hg. rewrite Hch in Hc.
    apply sublist_fmap_inv in Hsome as (some' & -> & Hsome). rewrite <- fmap_app in Hc.
    destruct (carried_received sub_receiver _ _ _ _ _ _ _ _ _ _ _ Hc Hg) as (l & -> & Hk). by exists l, some'.
  - intros good arrivals ks cx q1 q' got Ho Hgood Ha Hg Hwait Hrest. rewrite (Hall good Ho Hgood), <- fmap_app in Hc.
    destruct (carried_all sub_receiver _ _ _ _ _ _ _ _ _ _ _ _ _ Hc Ha Hg Hwait Hrest) as (l & -> & Hk).
    by exists l.
Qed.

(** ** A publisher and a subscriber *)

Module Example.
#[local] Existing Instance Runtime_exec.
Import Wire.Example.

(** The channels of the runtime to evaluate with, while the receiver of [c] is there. *)
Definition open (c : nat) (n : Bounded.state Message) : Prop :=
  exists ch, Bounded.chans n !! c = Some ch /\ Bounded.closed ch = false.

Lemma set_chan_open c c' h n (ch : Bounded.chan Message) :
  open c n -> (c' = c -> Bounded.closed ch = false) ->
  open c (Bounded.set_chan (Bounded.mkState (Bounded.chans n) h) c' ch).
Proof.
  intros (ch0 & Hc & Ho) Hch. unfold open. cbn. destruct (decide (c' = c)) as [->|Hne].
  - exists ch. rewrite list_lookup_insert_eq by (by eapply lookup_lt_Some). auto.
  - exists ch0. by rewrite list_lookup_insert_ne.
Qed.

Lemma same_chan_open c c' n ch :
  open c n -> Bounded.chans n !! c' = Some ch -> c' = c -> Bounded.closed ch = false.
Proof. intros (ch0 & Hc & Ho) Hch ->. congruence. Qed.

Lemma net_step_open c n n' : open c n -> net_step n n' -> open c n'.
Proof.
  intros Ho Hs. destruct Hs as [q n' q' Hs|q m n' r Hs]; cbn in Hs.
  - unfold Bounded.clone in Hs. destruct (Bounded.chans n !! fst q) as [ch|] eqn:E; injection Hs as <- _.
    + apply set_chan_open; [done|]. cbn. by eapply same_chan_open.
    + exact Ho.
  - unfold Bounded.try in Hs. destruct (Bounded.chans n !! fst q) as [ch|] eqn:E; [|by injection Hs as <- _].
    destruct (Bounded.closed ch) eqn:Hcl; [by injection Hs as <- _|].
    case_bool_decide; injection Hs as <- _; [done|]. destruct n as [l h]. unfold Bounded.accept. by apply (set_chan_open c _ h (Bounded.mkState l h)).
Qed.

Lemma open_open_channel c : open_channel (H := Runtime_exec) c (open c).
Proof.
  split; [intros n n' Ho Hs; by eapply net_step_open|]. intros n q n1 q1 m n2 Ho Hq Hc Ht. cbn in Hq, Hc, Ht.
  assert (fst q1 = c) as Hq1.
  { unfold Bounded.clone in Hc. destruct (Bounded.chans n !! fst q); by injection Hc as _ <-. }
  destruct (net_step_open c n n1 Ho (net_clone (H := Runtime_exec) n q n1 q1 Hc)) as (ch & Hch & Hcl).
  unfold Bounded.try in Ht. rewrite Hq1, Hch, Hcl in Ht. by case_bool_decide.
Qed.

Definition old : ZmqMessage.t := ZmqMessage.mk [bs "old/1"].
Definition first : ZmqMessage.t := ZmqMessage.mk [bs "news/1"; bs "x"].
Definition second : ZmqMessage.t := ZmqMessage.mk [bs "news/2"; bs "y"].
Definition weather : ZmqMessage.t := ZmqMessage.mk [bs "weather"; bs "sun"].
Definition published : list ZmqMessage.t := [first; weather; second].

(** The publisher, whose subscriber has asked for old things, got one, and now asks for news. *)
Definition told (c : SubscriptionMessageType) (topic : string) : PubSocketBackend (list item) -> PubSocketBackend (list item) :=
  message_received (bs "sub") (MMessage (create_subs_message (bs topic) c)).
Definition asked_old : PubSocketBackend (list item) :=
  told Subscribe "old" (pub_peer_connected (bs "sub") (mkIo [] 0%nat) (pub_with_options default_options new_process)).
Definition publisher : PubSocketBackend (list item) :=
  told Subscribe "news" (told Unsubscribe "old" (fanout_message weather (fanout_message old asked_old))).

Definition newcomer : Subscriber := mkSubscriber [] ((0, 0) : sender Message)%nat 0%nat.
Definition subscriber : Subscriber := mkSubscriber [bs "news"] ((0, 0) : sender Message)%nat 0%nat.

(** It is told something, and still has its queue. *)
Lemma life_told before c topic (b : PubSocketBackend (list item)) :
  life default_options new_process (bs "sub") 0 before b ->
  option_map (fun s => fst (send_queue s)) (subscribers (told c topic b) !! bs "sub") = Some 0%nat ->
  life default_options new_process (bs "sub") 0 before (told c topic b).
Proof.
  intros Hl Hs. destruct (subscribers (told c topic b) !! bs "sub") as [s|] eqn:E; [|discriminate].
  injection Hs as Hs. eapply life_goes_on; [exact Hl|apply pub_received| |exact E|exact Hs].
  unfold told, message_received. cbn. by destruct (subscribers b !! _).
Qed.

Lemma life_fanned_out before m (b : PubSocketBackend (list item)) topics :
  life default_options new_process (bs "sub") 0 before b ->
  option_map subscriptions (subscribers b !! bs "sub") = Some topics ->
  life default_options new_process (bs "sub") 0 (before ++ (if wants topics m then [(topics, m)] else []))
    (fanout_message m b).
Proof.
  intros Hl Hs. destruct (subscribers b !! bs "sub") as [s|] eqn:E; [|discriminate].
  injection Hs as <-. by apply life_fans_out.
Qed.

Lemma publisher_life : life default_options new_process (bs "sub") 0 [([bs "old"], old)] publisher.
Proof.
  apply life_told; [|by vm_compute]. apply life_told; [|by vm_compute].
  apply (life_fanned_out [([bs "old"], old)] weather (fanout_message old asked_old) [bs "old"]); [|by vm_compute].
  apply (life_fanned_out [] old asked_old [bs "old"]); [|by vm_compute].
  apply life_told; [|by vm_compute].
  eapply (life_begins _ _ _ _ _ _ newcomer); [apply rtc_refl|by vm_compute|done].
Qed.

Lemma publisher_subscriber : subscribers publisher !! bs "sub" = Some subscriber.
Proof. vm_compute. reflexivity. Qed.

Lemma publisher_open : open 0%nat (messages (pub_shared publisher)).
Proof. eexists. split; vm_compute; reflexivity. Qed.

(** The subscriber's writer, and its socket. *)
Definition sub_writer : writer_state :=
  let w := arrive (MMessage second) (arrive (MMessage first) (arrive (MMessage old) (new_writer Recording.empty))) in
  write_run 0%nat (write_left w) w.

Lemma sub_writer_reachable : rtc (queue_step 0%nat) (new_writer Recording.empty) sub_writer.
Proof. do 3 (eapply rtc_l; [by apply queue_arrive|]). apply write_run_steps. Qed.

Definition to_sub (k : PeerIdentity) : list Message := [MMessage old; MMessage first; MMessage second].
Definition to_sub_wire (k : PeerIdentity) : bytes := default [] (encode_all (to_sub k)).

Definition sub_stream : reader (R := script) :=
  connection [Ready (Ok (take 9 (to_sub_wire []))); Pending; Ready (Ok (drop 9 (to_sub_wire [])))].

Definition sub : SubSocketBackend (reader (R := script)) :=
  let q := sub_peer_connected (bs "pub") (mkIo sub_stream 0%nat)
             (fst (subscribe (bs "old") (sub_socket small new_process))) in
  fst (subscribe (bs "news") (fst (unsubscribe (bs "old") q))).

Lemma sub_streams : streams (queue sub) = {[bs "pub" := sub_stream]}.
Proof. reflexivity. Qed.

Lemma sub_connected : all_connected to_sub to_sub_wire sub.
Proof.
  intros k s. rewrite sub_streams. intros [<- <-]%lookup_singleton_Some.
  apply connection_connected; [vm_compute; reflexivity|reflexivity|].
  repeat (split || constructor || (by vm_compute)).
Qed.

Lemma sub_told : publisher_has (outputs (sub_shared sub)) 0%nat = [bs "news"].
Proof. vm_compute. reflexivity. Qed.

Lemma sub_publisher : sub_peers sub !! bs "pub" = Some 0%nat.
Proof. vm_compute. reflexivity. Qed.

Lemma sub_in_step : synced sub (bs "pub").
Proof.
  exists 0%nat. split; [exact sub_publisher|]. rewrite sub_told.
  assert (elements (subs sub) = [bs "news"]) as -> by (vm_compute; reflexivity). reflexivity.
Qed.

Lemma subscriber_told to :
  sub_peers sub !! bs "pub" = Some to -> subscriptions subscriber = publisher_has (outputs (sub_shared sub)) to.
Proof.
  intros Hto. pose proof (eq_trans (eq_sym Hto) sub_publisher) as [= ->]. symmetry. exact sub_told.
Qed.

Lemma sub_carried :
  carried (channel_of_subscriber (fan_out published publisher) subscriber) sub (bs "pub") to_sub
    to_sub_wire 0%nat sub_writer.
Proof.
  split_and!.
  - exists Recording.empty. apply sub_writer_reachable.
  - vm_compute. reflexivity.
  - vm_compute. reflexivity.
  - rewrite sub_streams. exists sub_stream. apply lookup_singleton_eq.
  - exact sub_connected.
Qed.

Abbreviation sub_polls := (recv_polls sub_receiver [[]; []; [bs "pub"]; []] 0%nat sub).
Abbreviation sub_waiting := (recv_poll (Receiver0 := sub_receiver) 0%nat (wake_all [] (fst sub_polls))).

Lemma sub_polled : sub_polls = (fst sub_polls, [old; first; second]).
Proof. apply pair_snd. vm_compute. reflexivity. Qed.

Lemma sub_waits : sub_waiting = (fst sub_waiting, Pending).
Proof. apply pair_snd. vm_compute. reflexivity. Qed.

Lemma sub_read :
  map_Forall (fun k s => Framed.received (inner (proj1_sig s)) = greetings ++ to_sub_wire k)
    (streams (queue (fst sub_waiting))).
Proof. apply (bool_decide_unpack _). by vm_compute. Qed.

Lemma sub_rests : at_rest sub (fst sub_waiting) (bs "pub") to_sub_wire sub_writer.
Proof.
  split_and!; [vm_compute; reflexivity|vm_compute; reflexivity| |apply (bool_decide_unpack _); vm_compute; exact I].
  intros k s s'. rewrite sub_streams. intros [<- <-]%lookup_singleton_Some Hs'%sub_read.
  by apply connection_advanced.
Qed.

Lemma sub_armed : armed (queue sub).
Proof. apply (armed_insert_op (bs "pub") sub_stream). by split. Qed.
End Example.

#[local] Existing Instance Runtime_exec.

Lemma pub_sub_delivers_witness :
  exists earlier l, earlier `sublist_of` [Example.old]
    /\ [Example.old; Example.first; Example.second] = pulled l
    /\ oks (taken_from (bs "pub") l)
       = MMessage <$> (earlier ++ asked (subs Example.sub) Example.published).
Proof.
  destruct (pub_sub_delivers (R := script) default_options new_process Example.published Example.publisher
    (bs "sub") (bs "pub") Example.subscriber [([bs "old"], Example.old)] Example.sub Example.to_sub
    Example.to_sub_wire 0%nat Example.sub_writer Example.publisher_life Example.publisher_subscriber
    Example.sub_in_step Example.subscriber_told Example.sub_carried) as (_ & earlier & He & _ & Hd).
  destruct (Hd (Example.open 0%nat) [[]; []; [bs "pub"]; []] [] 0%nat (fst Example.sub_polls)
    (fst Example.sub_waiting) _ (Example.open_open_channel 0%nat) Example.publisher_open Example.sub_armed
    Example.sub_polled Example.sub_waits Example.sub_rests) as (l & Hl & Hk).
  exists earlier, l. exact (conj He (conj Hl Hk)).
Defined.
