(* ===== verification/Subscribing.v ===== *)
(** Subscriptions on their way: a SUB or XSUB socket (src/src/sub_backend.rs), its connection to a
    publisher, and the task with which the PUB socket reads it (src/src/pub.rs), as one system. *)

From S2P Require Import Prelude Message Endpoint Errors SocketTypes Greeting Command Codec Framed.
From S2P Require Import FairQueue Channels Runtime Backend Handshake Receive Sockets Subscriptions.
From S2P Require Import Fanout Pub XPub WriteQueue Wire Link Pipeline Broadcast SubBackend.

Record system (R : Type) `{AsyncRead R, !FiniteRead R, DecodeEof, Runtime} : Type := mkSystem {
  subscriber : SubSocketBackend (reader (R := R));
  publisher : PubSocketBackend (reader (R := R));
  input : reader (R := R);
}.
Arguments mkSystem {R _ _ _ _} _ _ _.
Arguments subscriber {R _ _ _ _} _.
Arguments publisher {R _ _ _ _} _.
Arguments input {R _ _ _ _} _.

Section Steps.
Context {R : Type} `{AsyncRead R, !FiniteRead R, DecodeEof, HashOrder, Runtime}.
Implicit Types (b : SubSocketBackend (reader (R := R))) (a : PubSocketBackend (reader (R := R))).
Implicit Types (y : system R).

(** The socket knows the publisher as [p] and writes to [out]; the publisher knows the socket as
    [k], and the task that reads it has the stop channel [stop]. *)
Variables (p k : PeerIdentity) (out : writer) (stop : nat).

(** The user subscribes only to topics that the socket is not subscribed to. *)
Variable disciplined : Prop.

(** A topic whose subscription message fits any receive buffer. *)
Definition short (topic : bytes) : Prop := (len topic < isize_max / 2)%Z.

(** The user of the socket changes a subscription, whatever the broadcast answers, as long as the
    connection [out] takes the message and stays; or he receives; others connect to the socket
    and are lost; its process does something else. *)
Inductive sub_step b : SubSocketBackend (reader (R := R)) -> Prop :=
  | sub_changes t topic b' r :
      short topic -> change (t, topic) b = (b', r) -> sub_peers b' !! p = sub_peers b !! p ->
      written (outputs (sub_shared b')) out <> written (outputs (sub_shared b)) out ->
      (disciplined -> match t with Subscribe => topic ∉ subs b | Unsubscribe => True end) ->
      sub_step b b'
  | sub_receives cx b' r :
      sub_recv cx b = (b', r) -> sub_peers b' !! p = sub_peers b !! p -> sub_step b b'
  | sub_connects q io :
      q <> p -> (forall q' o', sub_peers b !! q' = Some o' -> o' <> write_half io) ->
      sub_step b (sub_peer_connected q io b)
  | sub_disconnects q : q <> p -> sub_step b (sub_peer_disconnected q b)
  | sub_outside sh :
      (forall q o', sub_peers b !! q = Some o' -> written (outputs sh) o' = written (outputs (sub_shared b)) o') ->
      sub_step b (set_sub_shared sh b).

(** Besides, the task reads, bytes arrive, and the publisher does anything that leaves this
    subscriber alone: it publishes, and others come and go. *)
Inductive step y : system R -> Prop :=
  | step_sub b' : sub_step (subscriber y) b' -> step y (mkSystem b' (publisher y) (input y))
  | step_reads pick a' s' :
      subscription_round pick k (input y) stop (publisher y) = (a', s', false) ->
      step y (mkSystem (subscriber y) a' s')
  | step_arrives s' :
      arrives (outputs (sub_shared (subscriber y))) out (input y) s' ->
      step y (mkSystem (subscriber y) (publisher y) s')
  | step_publishes a' :
      pub_step (publisher y) a' -> subscribers a' !! k = subscribers (publisher y) !! k ->
      step y (mkSystem (subscriber y) a' (input y)).

(** The publisher has accepted the connection, over which the socket has told it its
    subscriptions when it connected ([sub_connect_syncs]). *)
Definition paired y : Prop :=
  exists ms s, separate (subscriber y) /\ sub_peers (subscriber y) !! p = Some out /\ synced (subscriber y) p
    /\ shaken (outputs (sub_shared (subscriber y))) out (input y) ms
    /\ subscribers (publisher y) !! k = Some s /\ subscriptions s = [] /\ subscription_coro_stop s = stop.

(** What the publisher makes of messages. *)
Definition told (ms : list Message) (l : list bytes) : list bytes :=
  fold_left (fun l m => update_subscriptions m l) ms l.

(** The publisher has a beginning of what the socket has said; the rest is on its way. *)
Definition follows y (s : Subscriber) (rest : list Message) : Prop :=
  carries (outputs (sub_shared (subscriber y))) out (input y) rest
  /\ exists l, written (outputs (sub_shared (subscriber y))) out = l ++ rest /\ subscriptions s = told l [].

Record stands y : Prop := {
  stands_separate : separate (subscriber y);
  stands_peer : sub_peers (subscriber y) !! p = Some out;
  stands_synced : disciplined -> publisher_has (outputs (sub_shared (subscriber y))) out ≡ₚ elements (subs (subscriber y));
  stands_follows : exists s rest, subscribers (publisher y) !! k = Some s
    /\ subscription_coro_stop s = stop /\ follows y s rest;
}.

Lemma paired_subscriber_stands y : paired y -> stands y.
Proof.
  intros (ms & s & Hsep & Hp & Hsync & Hsh & Hk & Hs & Hstop). split; [done|done| |].
  { intros _. destruct Hsync as (out' & Hout & Hl). rewrite Hp in Hout. by injection Hout as <-. }
  exists s, ms.
  split_and!; [done|done|]. split; [by apply shaken_carries|]. destruct Hsh as (? & ? & g & c & ? & ? & _ & _ & Hw & _).
  by exists [MGreeting g; MCommand c].
Qed.

(** A message of the socket to the publisher, and none. *)
Lemma follows_writes y b' s rest m :
  follows y s rest -> sendable m ->
  written (outputs (sub_shared b')) out = written (outputs (sub_shared (subscriber y))) out ++ [MMessage m] ->
  follows (mkSystem b' (publisher y) (input y)) s (rest ++ [MMessage m]).
Proof.
  intros [Hc (l & Hl & Hs)] Hm Hw. split; cbn; [by eapply carries_write|]. exists l. by rewrite Hw, Hl, <- app_assoc.
Qed.

Lemma follows_same y b' s rest :
  follows y s rest ->
  written (outputs (sub_shared b')) out = written (outputs (sub_shared (subscriber y))) out ->
  follows (mkSystem b' (publisher y) (input y)) s rest.
Proof.
  intros [Hc Hl] Hw. split; cbn; [by eapply carries_same|]. by rewrite Hw.
Qed.

Lemma short_sendable topic t : short topic -> sendable (create_subs_message topic t).
Proof.
  intros Ht. split; [done|]. unfold create_subs_message, ZmqMessage.from_bytes, short in *. cbn.
  constructor; [|done]. rewrite len_cons. lia.
Qed.

(** A receive of the socket writes nothing, and at most loses peers. *)
Lemma sub_disconnected_spec q b :
  outputs (sub_shared (sub_peer_disconnected q b)) = outputs (sub_shared b)
  /\ sub_peers (sub_peer_disconnected q b) = delete q (sub_peers b)
  /\ subs (sub_peer_disconnected q b) = subs b.
Proof. split_and!; [|done..]. cbn. by rewrite notify_outputs; cbn; rewrite emit_outputs. Qed.

Lemma sub_recv_frame cx b b' r :
  sub_recv cx b = (b', r) ->
  outputs (sub_shared b') = outputs (sub_shared b) /\ sub_peers b' ⊆ sub_peers b /\ subs b' = subs b.
Proof.
  pose (P := fun b' => outputs (sub_shared b') = outputs (sub_shared b) /\ sub_peers b' ⊆ sub_peers b /\ subs b' = subs b).
  assert (forall q b1, P b1 -> P (sub_peer_disconnected q b1)) as Hdisc.
  { intros q b1 (Ho & Hp & Hs). destruct (sub_disconnected_spec q b1) as (Ho' & Hp' & Hs'). unfold P.
    rewrite Ho', Hp', Hs'. split_and!; [done| |done]. etrans; [apply delete_subseteq|done]. }
  intros Hr. apply (recv_poll_frame (Receiver0 := sub_receiver) P _ _ _ _) in Hr; [|done|exact Hdisc| |done].
  - destruct r as [res|]; [|exact Hr]. destruct Hr as (q & x & b1 & HP & Hh). cbn in Hh.
    destruct x as [[g|c|m]|e]; cbn in Hh; [done|done|by injection Hh as <- <-|].
    injection Hh as <- <-. by apply Hdisc.
  - intros q [[g|c|m]|e] b1; cbn; try done.
Qed.

Lemma separate_subseteq b b' : separate b -> sub_peers b' ⊆ sub_peers b -> separate b'.
Proof. intros Hsep Hsub q q' o' Hq Hq'. eapply Hsep; by eapply lookup_weaken. Qed.

(** What leaves the socket's peer and subscriptions alone, and writes nothing to it. *)
Lemma same_stands y b' :
  stands y -> separate b' -> sub_peers b' !! p = sub_peers (subscriber y) !! p ->
  subs b' = subs (subscriber y) ->
  written (outputs (sub_shared b')) out = written (outputs (sub_shared (subscriber y))) out ->
  stands (mkSystem b' (publisher y) (input y)).
Proof.
  intros [_ Hp Hsync (s & rest & Hk & Hstop & Hf)] Hsep Hpeers Hsubs Hw.
  split; cbn [subscriber publisher input]; [done|by rewrite Hpeers| |].
  - rewrite Hsubs. unfold publisher_has in *. by rewrite Hw.
  - exists s, rest. split_and!; [done|done|]. by apply follows_same.
Qed.

(** The socket's part. *)
Lemma sub_step_stands y b' : stands y -> sub_step (subscriber y) b' -> stands (mkSystem b' (publisher y) (input y)).
Proof.
  intros Hy Hs. pose proof Hy as [Hsep Hp Hsync (s & rest & Hk & Hstop & Hf)].
  destruct Hs as [t topic b' r Ht Hb Hpeers Hw Hd|cx b' r Hr Hpp|q io Hq Hio|q Hq|sh Hsh].
  - destruct (change_spec (t, topic) (subscriber y) Hsep) as (Hsep' & Hsubs & Hall).
    rewrite Hb in Hsep', Hsubs, Hall. cbn [fst] in *. rewrite Hp in Hpeers.
    destruct (Hall _ _ Hpeers) as [_ [Hw'|Hw']]; [|done].
    split; cbn [subscriber publisher input]; [done|done| |].
    + intros Hdisc. rewrite (publisher_has_snoc _ _ _ _ Hw'), Hsubs. apply change_in_step; [|by apply Hsync].
      specialize (Hd Hdisc). by destruct t.
    + exists s, (rest ++ [change_message (t, topic)]). split_and!; [done|done|].
      apply follows_writes; [done|by apply short_sendable|exact Hw'].
  - apply sub_recv_frame in Hr as (Ho & Hsub & Hsubs).
    apply same_stands; [done|by eapply separate_subseteq|done|done|by rewrite Ho].
  - destruct (tell_and_add_peers (subscription_messages (subscriber y)) q io (subscriber y)) as (Hsubs & Ho & Hpeers).
    unfold sub_peer_connected. apply same_stands; [done| |  |done|apply Ho; by eapply Hio].
    + destruct Hpeers as [[Hpeers _]|Hpeers]; [|unfold separate; by rewrite Hpeers].
      intros q1 q2 o'. rewrite Hpeers. intros [[<- <-]|[_ Hq1]]%lookup_insert_Some [[<- Heq]|[_ Hq2]]%lookup_insert_Some;
        [done|by apply Hio in Hq2|subst; by apply Hio in Hq1|by eapply Hsep].
    + destruct Hpeers as [[Hpeers _]|Hpeers]; rewrite Hpeers; [|done]. by rewrite lookup_insert_ne.
  - destruct (sub_disconnected_spec q (subscriber y)) as (Ho & Hpeers & Hsubs).
    apply same_stands; [done| |by rewrite Hpeers, lookup_delete_ne|done|by rewrite Ho].
    apply (separate_subseteq (subscriber y)); [done|]. rewrite Hpeers. apply delete_subseteq.
  - apply same_stands; [done..|]. by eapply Hsh.
Qed.

(** The publisher's task takes the next message. *)
Lemma reads_stands y pick a' s' :
  stands y -> subscription_round pick k (input y) stop (publisher y) = (a', s', false) ->
  stands (mkSystem (subscriber y) a' s').
Proof.
  intros [Hsep Hp Hsync (s & rest & Hk & Hstop & Hc & l & Hl & Ht)] Hr. split; cbn; [done..|].
  unfold subscription_round in Hr. destruct (poll_stream (input y)) as [[s1 x] wk] eqn:Hpoll.
  destruct (carries_poll _ _ _ _ _ _ _ Hpoll Hc) as (rest' & -> & Hc').
  assert (stop_fired k stop (publisher y) = false) as Hfired.
  { unfold stop_fired. rewrite Hk, Hstop. by rewrite bool_decide_eq_true_2. }
  rewrite Hfired in Hr. cbn [andb] in Hr. destruct x as [[[m|e]|]|]; simplify_eq.
  - unfold message_received. rewrite Hk. eexists _, rest'. cbn. rewrite lookup_insert_eq.
    split_and!; [done|done|]. split; [done|]. exists (l ++ [m]). cbn. split; [by rewrite Hl, <- app_assoc|].
    unfold told in *. by rewrite fold_left_app, <- Ht.
  - exists s, rest'. split_and!; [done|done|]. split; [done|]. by exists l.
Qed.

Lemma any_step_stands y y' : stands y -> step y y' -> stands y'.
Proof.
  intros Hy Hs. destruct Hs as [b' Hs|pick a' s' Hr|s' Ha|a' _ Hk].
  - by apply sub_step_stands.
  - by eapply reads_stands.
  - destruct Hy as [Hsep Hp Hsync (s & rest & Hk & Hstop & Hc & Hl)]. split; cbn; [done..|].
    exists s, rest. split_and!; [done|done|]. split; [by eapply carries_arrives|done].
  - destruct Hy as [Hsep Hp Hsync (s & rest & Hk' & Hstop & Hf)]. split; cbn; [done..|].
    exists s, rest. by rewrite Hk.
Qed.

Lemma reachable_stands y y' : paired y -> rtc step y y' -> stands y'.
Proof. intros Hy%paired_subscriber_stands Hr. revert Hy. induction Hr as [|y y1 y2 Hs _ IH]; [done|]. intros Hy. by eapply IH, any_step_stands. Qed.
End Steps.


(** An example: a subscriber that has told the publisher [news], subscribes to [sport]; the
    publisher reads both. *)
Module Example.
#[local] Existing Instance Runtime_exec.
Import Wire.Example Link.Example.

Definition socket : PeerIdentity := bs "sub".
Definition source : PeerIdentity := bs "pub".
Definition news : ZmqMessage.t := create_subs_message (bs "news") Subscribe.
Definition sport : ZmqMessage.t := create_subs_message (bs "sport") Subscribe.

Definition sub0 : SubSocketBackend (reader (R := script)) :=
  sub_peer_connected source (mkIo (greeted PUB []) 0%nat)
    (fst (subscribe (bs "news") (sub_socket small (send_all (hands SUB []) new_process)))).
Definition pub0 : PubSocketBackend (reader (R := script)) :=
  pub_peer_connected socket (mkIo (greeted SUB [news]) 1%nat) (pub_with_options small new_process).

Definition on_wire (m : ZmqMessage.t) : bytes := default [] (encode (MMessage m)).

Abbreviation sub1 := (fst (subscribe (bs "sport") sub0)).
Abbreviation stop0 := 0%nat.
Abbreviation in0 := (greeted SUB [news]).
Abbreviation round := (subscription_round false socket).
Abbreviation round1 := (round in0 stop0 pub0).
Abbreviation in1 := (snd (fst round1)).
Abbreviation in2 := (arrive (on_wire sport) in1).
Abbreviation round2 := (round in2 stop0 (fst (fst round1))).
Abbreviation in3 := (snd (fst round2)).

Abbreviation goes := (step source socket 0%nat stop0 True).
Abbreviation before := (mkSystem sub0 pub0 in0).
Abbreviation after := (mkSystem sub1 (fst (fst round2)) in3).

Lemma round_eq (x : PubSocketBackend (reader (R := script)) * reader (R := script) * bool) :
  snd x = false -> x = (fst (fst x), snd (fst x), false).
Proof. by destruct x as [[] ?]; cbn; intros ->. Qed.

Lemma sub0_separate : separate sub0.
Proof.
  intros q q' o' Hq Hq'. change (sub_peers sub0) with (<[source := 0%nat]> (∅ : gmap PeerIdentity nat)) in *.
  rewrite lookup_insert_Some in Hq, Hq'. naive_solver.
Qed.

Lemma sub0_synced : synced sub0 source.
Proof.
  exists 0%nat. split; [reflexivity|].
  assert (publisher_has (outputs (sub_shared sub0)) 0%nat = [bs "news"]) as -> by (vm_compute; reflexivity).
  assert (elements (subs sub0) = [bs "news"]) as -> by (vm_compute; reflexivity). reflexivity.
Qed.

Lemma example_subscriber_paired : paired source socket 0%nat stop0 before.
Proof.
  exists (MMessage <$> [news]), (mkSubscriber (H := Runtime_exec) [] (0, 0)%nat 0%nat). split; [exact sub0_separate|].
  split; [reflexivity|]. split; [exact sub0_synced|]. split; [|split; [vm_compute; reflexivity|by split]].
  apply (greeted_shaken SUB [news]); [vm_compute; reflexivity| |vm_compute; reflexivity..].
  constructor; [|done]. by apply short_sendable.
Qed.

Lemma news_read : goes before (mkSystem sub0 (fst (fst round1)) in1).
Proof. refine (step_reads source socket 0%nat stop0 True before false _ _ _). apply round_eq. vm_compute. reflexivity. Qed.

Lemma sport_asked : goes (mkSystem sub0 (fst (fst round1)) in1) (mkSystem sub1 (fst (fst round1)) in1).
Proof.
  refine (step_sub source socket 0%nat stop0 True (mkSystem sub0 (fst (fst round1)) in1) sub1 _).
  refine (sub_changes source 0%nat True sub0 Subscribe (bs "sport") sub1 (Ok tt) _ _ _ _ _).
  - vm_compute. reflexivity.
  - apply pair_snd. vm_compute. reflexivity.
  - vm_compute. reflexivity.
  - intros Hw. vm_compute in Hw. discriminate Hw.
  - intros _. apply (bool_decide_unpack _). vm_compute. exact I.
Qed.

Lemma sport_arrives : goes (mkSystem sub1 (fst (fst round1)) in1) (mkSystem sub1 (fst (fst round1)) in2).
Proof.
  refine (step_arrives source socket 0%nat stop0 True (mkSystem sub1 (fst (fst round1)) in1) in2 _). apply arrive_arrives.
  vm_compute. reflexivity.
Qed.

Lemma sport_read : goes (mkSystem sub1 (fst (fst round1)) in2) after.
Proof.
  refine (step_reads source socket 0%nat stop0 True (mkSystem sub1 (fst (fst round1)) in2) false _ _ _). apply round_eq.
  vm_compute. reflexivity.
Qed.

Lemma subscribing_run : rtc goes before after.
Proof.
  eapply rtc_l; [exact news_read|]. eapply rtc_l; [exact sport_asked|]. eapply rtc_l; [exact sport_arrives|].
  eapply rtc_l; [exact sport_read|]. apply rtc_refl.
Qed.
End Example.

#[local] Existing Instance Runtime_exec.

