(* ===== verification/Dialogue.v ===== *)
(** A conversation: a DEALER socket asks (src/src/dealer.rs), the user of a ROUTER socket
    (src/src/router.rs) answers whom it heard, over the two directions of a connection
    ([Pipeline.v]). *)

From S2P Require Import Prelude Message Endpoint Errors SocketTypes Greeting Command Codec Framed.
From S2P Require Import FairQueue Channels Runtime Backend Handshake Receive Sockets WriteQueue Wire Pipeline.

(** ** The life of a DEALER or ROUTER socket *)

Section Talk.
Context {S : Type} `{Runtime, !Stream S item, !FiniteStream S}.
Abbreviation socket := (GenericSocketBackend S).
Implicit Types b : socket.

Inductive talk_step b : socket -> Prop :=
  | dealer_sends m b' r : dealer_send m b = (b', r) -> talk_step b b'
  | dealer_receives cx b' r : dealer_recv cx b = (b', r) -> talk_step b b'
  | router_sends uuid m b' r : router_send uuid m b = (b', r) -> talk_step b b'
  | router_receives cx b' r : router_recv cx b = (b', r) -> talk_step b b'
  | talk_wakes k : talk_step b (update (wake k) b)
  | talk_connects p io : talk_step b (generic_peer_connected p io b)
  | talk_disconnects p : talk_step b (generic_peer_disconnected p b).

(** What a step leaves that takes no new peer: the channels of the peers are their own, none is
    taken back, and what they have accepted is known. *)
Definition sound b : Prop := backend_ok b /\ separate b.

(** From [b], without new peers and without messages. *)
Definition quiet b b' : Prop :=
  sound b' /\ peers b' ⊆ peers b /\ same_deliveries (shared b) (shared b').

Lemma quiet_refl b : sound b -> quiet b b.
Proof. intros Hs. split; [exact Hs|]. split; reflexivity. Qed.

Lemma quiet_trans b1 b2 b3 : quiet b1 b2 -> quiet b2 b3 -> quiet b1 b3.
Proof. intros (_ & Hp1 & Hd1) (Hs & Hp2 & Hd2). split; [done|]. split; by etrans. Qed.

Lemma quiet_disconnected p b : sound b -> quiet b (generic_peer_disconnected p b).
Proof.
  intros [Hok Hsep]. destruct (disconnected_spec p b) as (_ & Hp & _ & Hd).
  assert (peers (generic_peer_disconnected p b) ⊆ peers b) as Hsub by (rewrite Hp; apply delete_subseteq).
  split; [|by split]. split; [by apply disconnected_ok|].
  eapply separate_mono; [exact Hsub|apply disconnected_allocates|done].
Qed.

Lemma quiet_queue q b : sound b -> quiet b (set_queue q b).
Proof. intros Hs. split; [exact Hs|]. split; reflexivity. Qed.

(** A receive of a socket whose handler at most disconnects. *)
Lemma quiet_recv {A} (Rc : Receiver socket S A) cx b b' r :
  (forall p x b1, sound b1 -> quiet b1 (fst (handle p x b1))) ->
  sound b -> recv_poll (Receiver0 := Rc) cx b = (b', r) -> quiet b b'.
Proof.
  intros Hh Hs Hr. apply (recv_poll_frame (quiet b)) in Hr; [|intros q w Hq|intros k w Hq|intros p x w _ Hq|by apply quiet_refl].
  - destruct r as [res|]; [|done]. destruct Hr as (p & x & w & Hq & Hx). eapply quiet_trans; [exact Hq|].
    pose proof (Hh p x w (proj1 Hq)) as H1. by rewrite Hx in H1.
  - eapply quiet_trans; [exact Hq|]. apply quiet_queue, Hq.
  - eapply quiet_trans; [exact Hq|]. apply quiet_disconnected, Hq.
  - eapply quiet_trans; [exact Hq|]. apply Hh, Hq.
Qed.

Lemma dealer_recv_quiet cx b b' r : sound b -> dealer_recv cx b = (b', r) -> quiet b b'.
Proof. apply quiet_recv. intros p [[g|c|m]|e] b1 Hs; by apply quiet_refl. Qed.

Lemma router_recv_quiet cx b b' r : sound b -> router_recv cx b = (b', r) -> quiet b b'.
Proof. apply quiet_recv. intros p [[g|c|m]|e] b1 Hs; [by apply quiet_refl..|]. by apply quiet_disconnected. Qed.

(** A send to one peer. *)
Lemma send_to_peer_allocates p m b b' r : send_to_peer p m b = (b', r) -> allocates b b'.
Proof.
  unfold send_to_peer. destruct (try_send_cached_single_peer m (Some p) b) as [b1 c] eqn:Ht.
  apply cached_allocates in Ht. destruct (finish_cached_send c b1) as [b2 r2] eqn:Hf.
  apply finish_allocates in Hf. assert (allocates b b2) as Hb by (by etrans).
  destruct r2 as [[|m']|e]; [by intros [= <- _]| |by intros [= <- _]].
  destruct (peers b2 !! p) as [peer|]; [|by intros [= <- _]].
  destruct (send_to_peer_queue _ _ m') as [n [u|e]] eqn:Hs; apply send_to_peer_queue_grows in Hs;
    intros [= <- _]; (etrans; [exact Hb|]); [exact Hs|]. etrans; [|apply disconnected_allocates]. exact Hs.
Qed.

Lemma send_to_peer_sound p m b b' r :
  sound b -> send_to_peer p m b = (b', r) -> sound b' /\ peers b' ⊆ peers b.
Proof.
  intros [Hok Hsep] Hs. assert (peers b' ⊆ peers b) as Hp.
  { destruct (send_to_peer_spec _ _ _ _ _ (proj1 Hok) Hs) as [(_ & (? & _ & -> & _) & _)|[(_ & _ & ->)|(_ & (_ & -> & _) & _)]];
      [done|done|apply delete_subseteq]. }
  split; [|done]. pose proof (send_to_peer_ok p m b Hok) as Hok'. rewrite Hs in Hok'. split; [exact Hok'|].
  eapply separate_mono; [done|by eapply send_to_peer_allocates|done].
Qed.

(** It gives a peer that stays the message, if it is the one it is for, and nothing else. *)
Lemma send_to_peer_channel p m b b' r k :
  sound b -> send_to_peer p m b = (b', r) -> is_Some (peers b' !! k) ->
  channel_of b' k = channel_of b k ++ (if decide (p = k) then [m] else []).
Proof.
  intros [[Hc _] [_ Hsep]] Hs [[sk] Hk]. unfold channel_of. rewrite Hk. cbn [send_queue].
  destruct (send_to_peer_spec _ _ _ _ _ Hc Hs) as
    [(_ & (s & Hp & Hpeers & _ & Hd) & _)|[(_ & Hp & ->)|(_ & (_ & Hpeers & _ & Hd) & _)]].
  - rewrite Hpeers in Hk. rewrite Hk. cbn [send_queue]. rewrite (Hd (chan_of sk)). f_equal.
    destruct (decide (p = k)) as [<-|Hne]; [rewrite Hp in Hk; injection Hk as ->; by rewrite decide_True|].
    rewrite decide_False; [done|]. intros Heq. by eapply Hne, Hsep.
  - rewrite Hk. rewrite decide_False by congruence. by rewrite app_nil_r.
  - rewrite Hpeers in Hk. apply lookup_delete_Some in Hk as [Hne Hk]. rewrite Hk. cbn [send_queue].
    rewrite decide_False by done. by rewrite (Hd (chan_of sk)), app_nil_r.
Qed.

Lemma send_round_robin_sound m b b' r : sound b -> send_round_robin m b = (b', r) -> sound b'.
Proof.
  intros [Hok Hsep] Hs. pose proof (send_round_robin_ok m b Hok) as Hok'. rewrite Hs in Hok'. split; [exact Hok'|].
  eapply separate_mono; [|by eapply send_round_robin_allocates|done]. by eapply send_round_robin_peers; [apply Hok|].
Qed.

Lemma router_send_sound uuid m b b' r : sound b -> router_send uuid m b = (b', r) -> sound b'.
Proof.
  intros Hs. unfold router_send. destruct (_ <=? 1)%Z; [by intros [= <- _]|].
  destruct (ZmqMessage.pop_front m) as [[identity m']|]; [|by intros [= <- _]].
  destruct (peer_identity_try_from uuid identity); [|by intros [= <- _]]. intros Hp. by eapply send_to_peer_sound.
Qed.

Lemma talk_sound b b' : rtc talk_step b b' -> sound b -> sound b'.
Proof.
  induction 1 as [|b b1 b' Hstep _ IH]; [done|]. intros Hs. apply IH.
  destruct Hstep as [m b1 r Hr|cx b1 r Hr|uuid m b1 r Hr|cx b1 r Hr|k|p io|p].
  - by eapply send_round_robin_sound.
  - by eapply dealer_recv_quiet.
  - by eapply router_send_sound.
  - by eapply router_recv_quiet.
  - by apply (quiet_queue (wake k (queue b))).
  - destruct Hs. split; [by apply connected_ok|by apply connected_separate].
  - by apply quiet_disconnected.
Qed.

Lemma dealer_sound o sh b : rtc talk_step (dealer_with_options o sh) b -> sound b.
Proof. intros Hr. apply (talk_sound _ _ Hr). split; [apply with_options_ok|]. split; by intros p. Qed.

Lemma router_sound o sh b : rtc talk_step (router_with_options o sh) b -> sound b.
Proof. intros Hr. apply (talk_sound _ _ Hr). split; [apply with_options_ok|]. split; by intros p. Qed.

(** A send takes at most a stream away. *)
Definition fewer b b' : Prop :=
  (armed (queue b) -> armed (queue b'))
  /\ forall k s, streams (queue b') !! k = Some s -> streams (queue b) !! k = Some s.

Lemma fewer_trans b1 b2 b3 : fewer b1 b2 -> fewer b2 b3 -> fewer b1 b3.
Proof. unfold fewer. naive_solver. Qed.

Lemma fewer_same b b' : fair_queue_inner b' = fair_queue_inner b -> fewer b b'.
Proof. unfold fewer, queue, generic_queue. by intros ->. Qed.

Lemma fewer_disconnected p b : fewer b (generic_peer_disconnected p b).
Proof.
  unfold fewer. rewrite disconnected_queue. split; [apply armed_remove|]. cbn. by intros k s [_ ?]%lookup_delete_Some.
Qed.

Lemma cached_fewer m expected b b' c : try_send_cached_single_peer m expected b = (b', c) -> fewer b b'.
Proof.
  unfold try_send_cached_single_peer. destruct (negb _); [by intros [= <- _]|].
  destruct (single_peer b) as [sp|]; [|by intros [= <- _]].
  destruct (match expected with Some _ => _ | None => _ end); [by intros [= <- _]|].
  destruct (try_send _ _ m) as [n [u|[]]]; [by intros [= <- _]; apply fewer_same| |by intros [= <- _]; apply fewer_same].
  destruct (clone_sender n _) as [n1 s]. intros [= <- _]. by apply fewer_same.
Qed.

Lemma finish_fewer c b b' r : finish_cached_send c b = (b', r) -> fewer b b'.
Proof.
  destruct c as [|p s m|p e|m]; cbn; [by intros [= <- _]| |intros [= <- _]; apply fewer_disconnected|by intros [= <- _]].
  destruct (send_await _ s m) as [n [u|e]]; intros [= <- _]; [by apply fewer_same|].
  eapply fewer_trans; [|apply fewer_disconnected]. by apply fewer_same.
Qed.

Lemma send_to_peer_fewer p m b b' r : send_to_peer p m b = (b', r) -> fewer b b'.
Proof.
  unfold send_to_peer. destruct (try_send_cached_single_peer m (Some p) b) as [b1 c] eqn:Ht.
  apply cached_fewer in Ht. destruct (finish_cached_send c b1) as [b2 r2] eqn:Hf.
  apply finish_fewer in Hf. assert (fewer b b2) as Hb by (by eapply fewer_trans).
  destruct r2 as [[|m']|e]; [by intros [= <- _]| |by intros [= <- _]].
  destruct (peers b2 !! p) as [peer|]; [|by intros [= <- _]].
  destruct (send_to_peer_queue _ _ m') as [n [u|e]]; intros [= <- _]; (eapply fewer_trans; [exact Hb|]).
  - by apply fewer_same.
  - eapply fewer_trans; [|apply fewer_disconnected]. by apply fewer_same.
Qed.
End Talk.

(** ** A user of a ROUTER socket who answers *)

Section Serve.
Context {S : Type} `{Runtime, !Stream S item, !FiniteStream S}.
Abbreviation socket := (GenericSocketBackend S).
Implicit Types b : socket.

Variable answer : ZmqMessage.t -> ZmqMessage.t.
Hypothesis answer_frames : forall question, ZmqMessage.is_empty (answer question) = false.

(** The answer to a message goes to the identity in front of it. *)
Definition respond (uuid : bytes) (message : ZmqMessage.t) b : socket :=
  match ZmqMessage.pop_front message with
  | Some (identity, question) => fst (router_send uuid (ZmqMessage.push_front (answer question) identity) b)
  | None => b
  end.

(** Polls of [recv], as in [recv_polls], each message answered before the next. *)
Fixpoint serve (uuid : bytes) (arrivals : list (list PeerIdentity)) (cx : task) b : socket * list ZmqMessage.t :=
  match arrivals with
  | [] => (b, [])
  | peers :: arrivals =>
      let '(b, r) := router_recv cx (wake_all peers b) in
      match r with
      | Ready (Ok m) => let '(b, got) := serve uuid arrivals cx (respond uuid m b) in (b, m :: got)
      | _ => serve uuid arrivals cx b
      end
  end.

(** The identities are such as a handshake gives. *)
Definition named b : Prop :=
  forall k s, streams (queue b) !! k = Some s -> identity_ok k.

Definition replies (l : list Message) : list Message :=
  flat_map (fun m => match m with MMessage m => [MMessage (answer m)] | _ => [] end) l.

Lemma replies_app l l' : replies (l ++ l') = replies l ++ replies l'.
Proof. apply flat_map_app. Qed.

Lemma replies_prefix l l' : l `prefix_of` l' -> replies l `prefix_of` replies l'.
Proof. intros [r ->]. rewrite replies_app. by eexists. Qed.

(** What is skipped has no answer. *)
Lemma skipped_replies k (l : list (PeerIdentity * item)) :
  Forall (fun '(p, x) => exists b : socket, snd (handle (Receiver := router_receiver) p x b) = None) l ->
  replies (oks (taken_from k l)) = [].
Proof.
  induction 1 as [|[p x] l (b & Hb) _ IH]; [done|]. unfold taken_from in *. cbn [flat_map].
  destruct (decide (k = p)); [|done]. by destruct x as [[]|].
Qed.

Lemma quiet_channel b b' k : quiet b b' -> is_Some (peers b' !! k) -> channel_of b' k = channel_of b k.
Proof.
  intros (_ & Hp & Hd) [[s] Hs]. unfold channel_of. rewrite Hs, (lookup_weaken _ _ _ _ Hs Hp). apply Hd.
Qed.

Lemma wake_all_quiet ks b : sound b -> quiet b (wake_all ks b).
Proof.
  revert b. induction ks as [|k ks IH]; intros b Hs; [by apply quiet_refl|].
  eapply quiet_trans; [by apply (quiet_queue (wake k (queue b)))|]. by apply IH.
Qed.

(** One question and its answer. *)
Lemma respond_spec uuid p m b :
  sound b -> p <> [] -> (len p <= MAX_LENGTH)%Z ->
  let b' := respond uuid (ZmqMessage.push_front m p) b in
  sound b' /\ peers b' ⊆ peers b /\ fewer b b'
  /\ forall k, is_Some (peers b' !! k) ->
       channel_of b' k = channel_of b k ++ (if decide (p = k) then [MMessage (answer m)] else []).
Proof using answer_frames.
  intros Hs Hp Hlen. unfold respond. rewrite ZmqMessage.pop_push_front, router_send_identity by done.
  destruct (send_to_peer p _ b) as [b' r] eqn:Hr. cbn. destruct (send_to_peer_sound _ _ _ _ _ Hs Hr) as [Hs' Hsub].
  split; [exact Hs'|]. split; [exact Hsub|]. split; [by eapply send_to_peer_fewer|].
  intros k. by apply (send_to_peer_channel _ _ _ _ r).
Qed.

Lemma serve_one uuid cx ks b b1 r :
  sound b -> named b -> router_recv cx (wake_all ks b) = (b1, r) ->
  let b' := match r with Ready (Ok m) => respond uuid m b1 | _ => b1 end in
  sound b' /\ peers b' ⊆ peers b /\ (armed (queue b) -> armed (queue b'))
  /\ exists l, delivered_messages (router_receiver (S := S)) l = (match r with Ready (Ok m) => [m] | _ => [] end)
  /\ forall k,
      (forall s', streams (queue b') !! k = Some s' ->
         exists s, streams (queue b) !! k = Some s /\ trace s (taken_from k l) s')
      /\ (is_Some (peers b' !! k) -> channel_of b' k = channel_of b k ++ replies (oks (taken_from k l))).
Proof using answer_frames.
  intros Hs Hn Hr. pose proof (wake_all_quiet ks b Hs) as Hw.
  pose proof (router_recv_quiet _ _ _ _ (proj1 Hw) Hr) as Hq. pose proof (quiet_trans _ _ _ Hw Hq) as H1.
  assert (armed (queue b) -> armed (queue b1)) as Harm.
  { intros Ha. eapply recv_poll_armed; [exact Hr|]. by apply wake_all_armed. }
  destruct (recv_poll_consumes _ _ _ _ Hr) as (l & Hans & Hc). rewrite wake_all_streams in Hc.
  assert (forall k s', streams (queue b1) !! k = Some s' ->
    exists s, streams (queue b) !! k = Some s /\ trace s (taken_from k l) s') as Hst.
  { intros k s' Hs'. specialize (Hc k). rewrite Hs' in Hc. destruct (streams (queue b) !! k) as [s|]; [by exists s|by destruct Hc]. }
  pose proof (answers_delivered (router_receiver (S := S)) _ _ _ Hans) as Hdel.
  destruct r as [[m|e]|].
  - destruct Hans as (l0 & p & x & b0 & -> & Hskip & Hx).
    destruct (disconnects_answer_nothing _ _ _ _ _ Hx) as (q & -> & ->).
    assert (is_Some (streams (queue b) !! p)) as [s Hsp].
    { specialize (Hc p). unfold taken_from in Hc. rewrite flat_map_app in Hc. cbn [flat_map] in Hc. rewrite decide_True in Hc by done.
      destruct (streams (queue b) !! p); [done|]. destruct Hc as [Hnil _]. by apply app_nil in Hnil as [_ ?]. }
    destruct (Hn _ _ Hsp) as [Hp Hlen]. destruct H1 as (Hs1 & Hsub1 & Hd1).
    destruct (respond_spec uuid p q b1 Hs1 Hp Hlen) as (Hs2 & Hsub2 & [Ha2 Hf] & Hch).
    split; [done|]. split; [by etrans|]. split; [auto|]. exists (l0 ++ [(p, Ok (MMessage q))]). split; [done|].
    intros k. split; [intros s' Hs'; by apply Hst, Hf|]. intros Hk. rewrite (Hch k Hk).
    rewrite (quiet_channel b b1); [|exact (conj Hs1 (conj Hsub1 Hd1))|destruct Hk as [? ?]; eexists; by eapply lookup_weaken]. f_equal.
    assert (taken_from k (l0 ++ [(p, Ok (MMessage q))]) = taken_from k l0 ++ taken_from k [(p, Ok (MMessage q))]) as ->
      by apply flat_map_app.
    assert (forall x y : list item, oks (x ++ y) = oks x ++ oks y) as -> by (intros; apply flat_map_app).
    rewrite replies_app, (skipped_replies k l0 Hskip). cbn. destruct (decide (p = k)) as [->|]; [by rewrite decide_True|].
    by rewrite decide_False.
  - destruct Hans as (l0 & p & x & b0 & _ & _ & Hx). by destruct x as [[]|].
  - split; [apply H1|]. split; [apply H1|]. split; [done|]. exists l. split; [exact Hdel|].
    intros k. split; [apply Hst|]. intros Hk. by rewrite (quiet_channel b b1), (skipped_replies k l Hans), app_nil_r.
Qed.

(** All of them. *)
Definition served b b' (l : list (PeerIdentity * item)) : Prop :=
  sound b' /\ (armed (queue b) -> armed (queue b'))
  /\ forall k, (forall s', streams (queue b') !! k = Some s' ->
                exists s, streams (queue b) !! k = Some s /\ trace s (taken_from k l) s')
     /\ (is_Some (peers b' !! k) -> is_Some (peers b !! k)
          /\ channel_of b' k = channel_of b k ++ replies (oks (taken_from k l))).

Lemma served_trans b1 l1 b2 l2 b3 : served b1 b2 l1 -> served b2 b3 l2 -> served b1 b3 (l1 ++ l2).
Proof.
  intros (_ & Ha1 & H1) (Hs & Ha2 & H2). split; [done|]. split; [auto|]. intros k.
  assert (taken_from k (l1 ++ l2) = taken_from k l1 ++ taken_from k l2) as -> by apply flat_map_app.
  assert (forall x y : list item, oks (x ++ y) = oks x ++ oks y) as -> by (intros; apply flat_map_app).
  destruct (H1 k) as [Hst1 Hch1]. destruct (H2 k) as [Hst2 Hch2]. split.
  - intros s3 (s2 & (s1 & ? & ?)%Hst1 & ?)%Hst2. exists s1. split; [done|]. by eapply trace_app.
  - intros (Hk2 & ->)%Hch2. destruct (Hch1 Hk2) as [? ->]. by rewrite replies_app, <- app_assoc.
Qed.

Lemma serve_served uuid arrivals cx b b' got :
  sound b -> named b -> serve uuid arrivals cx b = (b', got) ->
  exists l, got = delivered_messages (router_receiver (S := S)) l /\ served b b' l.
Proof using answer_frames.
  revert b got. induction arrivals as [|ks arrivals IH]; intros b got Hs Hn; cbn [serve].
  { intros [= <- <-]. exists []. split; [done|]. split; [done|]. split; [done|]. intros k.
    split; [intros s' Hs'; exists s'; split; [done|constructor]|]. intros Hk. by rewrite app_nil_r. }
  destruct (router_recv cx (wake_all ks b)) as [b1 r] eqn:Hr.
  pose proof (serve_one uuid cx ks b b1 r Hs Hn Hr) as (Hs1 & Hsub & Ha & l & Hl & Hk). intros Hserve.
  set (b2 := match r with Ready (Ok m) => respond uuid m b1 | _ => b1 end) in *.
  assert (served b b2 l) as Hserved.
  { split; [done|]. split; [done|]. intros k. split; [apply Hk|]. intros Hk2. split; [|by apply Hk].
    destruct Hk2 as [peer Hp]. exists peer. by eapply lookup_weaken. }
  assert (named b2) as Hn2 by (intros k s (s0 & Hs0 & _)%Hk; by eapply Hn).
  assert (exists got2, serve uuid arrivals cx b2 = (b', got2)
    /\ got = (match r with Ready (Ok m) => [m] | _ => [] end) ++ got2) as (got2 & Hserve2 & ->).
  { unfold b2. destruct r as [[m|e]|]; [|by exists got..].
    destruct (serve uuid arrivals cx (respond uuid m b1)) as [b3 got3]. injection Hserve as <- <-. by exists got3. }
  destruct (IH _ _ Hs1 Hn2 Hserve2) as (l2 & -> & Hserved2). exists (l ++ l2).
  split; [|by eapply served_trans]. unfold delivered_messages in *. by rewrite flat_map_app, Hl.
Qed.
End Serve.

(** ** The questions *)

Section Ask.
Context {S : Type} `{Runtime, !Stream S item, !FiniteStream S}.
Implicit Types b : GenericSocketBackend S.

(** The messages of a DEALER's user, one after another. *)
Fixpoint dealer_all (ms : list ZmqMessage.t) b : GenericSocketBackend S * list (result unit ZmqError) :=
  match ms with
  | [] => (b, [])
  | m :: ms =>
      let '(b, r) := dealer_send m b in
      let '(b, rs) := dealer_all ms b in
      (b, r :: rs)
  end.

Lemma dealer_all_push ms b : dealer_all ms b = push_all ms b.
Proof. revert b. induction ms as [|m ms IH]; intros b; [done|]. cbn. unfold dealer_send, push_send. by destruct (send_round_robin _ b) as [b1 r]; rewrite IH. Qed.

Lemma dealer_all_channels ms b b' rs :
  sound b -> dealer_all ms b = (b', rs) -> Forall (fun r => is_ok r = true) rs ->
  exists who, length who = length ms /\ Forall (fun p => is_Some (peers b !! p)) who
    /\ forall p, is_Some (peers b !! p) -> channel_of b' p = channel_of b p ++ picks p who ms.
Proof.
  rewrite dealer_all_push. intros [Hok Hsep] Hp Hr.
  destruct (push_all_picks _ _ _ _ Hok Hsep Hp Hr) as (who & Hl & Hw & Hpeers & Hacc).
  exists who. split_and!; [done..|]. intros p [[s] Hs]. unfold channel_of.
  rewrite Hpeers, Hs. cbn [send_queue]. by apply Hacc.
Qed.

(** A socket has the peer [k], and its stream. *)
Definition connected_to b k : Prop := is_Some (peers b !! k) /\ is_Some (streams (queue b) !! k).
End Ask.

(** What a ROUTER's user has heard from [k] and answered. *)
Section Heard.
Context {R : Type} `{Runtime, AsyncRead R, !FiniteRead R, DecodeEof, HashOrder}.
Implicit Types b : GenericSocketBackend (reader (R := R)).

Lemma served_consumed answer b b' l k :
  served answer b b' l -> connected_to b' k ->
  consumed (streams (queue b) !! k) (taken_from k l) (streams (queue b') !! k).
Proof.
  intros (_ & _ & Hs) [_ [s' Hs']]. destruct (proj1 (Hs k) s' Hs') as (s & -> & Ht). by rewrite Hs'.
Qed.

Lemma served_heard answer asked b b' l k sent wire out w :
  carried asked b k sent wire out w -> served answer b b' l -> connected_to b' k ->
  oks (taken_from k l) `prefix_of` asked
  /\ channel_of b' k = channel_of b k ++ replies answer (oks (taken_from k l)).
Proof.
  intros Hc Hs Hk. split; [|destruct Hs as (_ & _ & Hs); by apply Hs, Hk].
  destruct (carried_prefix _ _ _ _ _ _ _ Hc) as [Hpre _]. destruct Hc as (_ & _ & _ & [s Hst] & Hq).
  pose proof (consumed_sent _ _ _ _ _ _ Hq (served_consumed _ _ _ _ _ Hs Hk)) as Hsent. rewrite Hst in Hsent.
  destruct Hsent as (rest & v & Hrest & _). etrans; [|exact Hpre]. by exists rest.
Qed.

Lemma served_heard_all answer (uuid : bytes) asked b b1 b' l k sent wire out w cx ks :
  (forall m, ZmqMessage.is_empty (answer m) = false) -> sound b -> named b -> armed (queue b) ->
  carried asked b k sent wire out w -> served answer b b1 l ->
  router_recv cx (wake_all ks b1) = (b', Pending) -> at_rest b b' k wire w -> connected_to b' k ->
  channel_of b' k = channel_of b k ++ replies answer asked.
Proof.
  intros Hans Hs Hn Ha Hc Hserved Hr Hrest Hk. pose proof Hserved as (Hs1 & Ha1 & Hk1).
  assert (named b1) as Hn1 by (intros j s (s0 & ? & _)%Hk1; by eapply Hn).
  destruct (serve_one answer Hans uuid cx ks b1 b' Pending Hs1 Hn1 Hr) as (Hs' & Hsub & Ha' & l2 & _ & Hk2).
  assert (served answer b1 b' l2) as Hserved2.
  { split; [done|]. split; [done|]. intros j. split; [apply Hk2|]. intros Hj. split; [|by apply Hk2].
    destruct Hj as [peer Hj]. exists peer. by eapply lookup_weaken. }
  pose proof (served_trans answer _ _ _ _ _ Hserved Hserved2) as Hall.
  destruct (served_heard answer _ _ _ _ _ _ _ _ _ Hc Hall Hk) as [_ ->]. f_equal. f_equal.
  destruct (carried_prefix _ _ _ _ _ _ _ Hc) as [_ Hwritten]. destruct Hc as (_ & _ & _ & _ & Hq).
  destruct Hrest as (Hph & Hrec & Hread & Hst).
  rewrite (consumed_all _ _ _ _ _ _ Hq (served_consumed _ _ _ _ _ Hall Hk) Hread); [by apply Hwritten| |done].
  intros s'. eapply recv_poll_parked; [done| |exact Hr]. apply wake_all_armed. auto.
Qed.
End Heard.

(** C6 DEALER to ROUTER and back, the whole way: a DEALER socket takes messages from its user
    ([Ok]), the user of a ROUTER socket answers each message that [recv] returns by sending its
    answer behind the identity that the message came with, and both sockets have other peers.
    Over the connection of a peer whose turn some of the messages were, the ROUTER's user hears
    these messages, and the DEALER's user gets the answers to them, in the order of the
    questions: none that was not given, none that was meant for another peer, none twice, none
    altered. And when both directions rest, while the connection is there, every one of these
    messages has been answered, and every answer has come. *)
Theorem dialogue {S R} `{Runtime, !Stream S item, !FiniteStream S, AsyncRead R, !FiniteRead R, DecodeEof, HashOrder}
    (o o' : SocketOptions) (sh : Shared S) (sh' : Shared (reader (R := R))) (ms : list ZmqMessage.t)
    (d d' : GenericSocketBackend S) (rs : list (result unit ZmqError))
    (answer : ZmqMessage.t -> ZmqMessage.t) (uuid : bytes) (b : GenericSocketBackend (reader (R := R))) :
  rtc talk_step (dealer_with_options o sh) d -> dealer_all ms d = (d', rs) ->
  Forall (fun r => is_ok r = true) rs ->
  rtc talk_step (router_with_options o' sh') b -> named b ->
  (forall m, ZmqMessage.is_empty (answer m) = false) ->
  exists who, length who = length ms /\ Forall (fun p => is_Some (peers d !! p)) who
  /\ forall p k sent wire out w, let asked := channel_of d p ++ picks p who ms in
      is_Some (peers d !! p) -> carried (channel_of d' p) b k sent wire out w ->
      (forall arrivals cx b' got, serve answer uuid arrivals cx b = (b', got) -> connected_to b' k ->
         (exists l, got = delivered_messages (router_receiver (S := reader (R := R))) l
            /\ oks (taken_from k l) `prefix_of` asked)
         /\ forall (q : GenericSocketBackend (reader (R := R))) j sent' wire' out' w' arrivals' cx' q' got',
              carried (channel_of b' k) q j sent' wire' out' w' ->
              recv_polls dealer_receiver arrivals' cx' q = (q', got') ->
              exists l, got' = pulled l
                /\ oks (taken_from j l) `prefix_of` channel_of b k ++ replies answer asked)
      /\ (forall arrivals ks cx b1 b' got, armed (queue b) -> serve answer uuid arrivals cx b = (b1, got) ->
            router_recv cx (wake_all ks b1) = (b', Pending) -> at_rest b b' k wire w -> connected_to b' k ->
            forall (q : GenericSocketBackend (reader (R := R))) j sent' wire' out' w' arrivals' ks' cx' q1 q' got',
              carried (channel_of b' k) q j sent' wire' out' w' -> armed (queue q) ->
              recv_polls dealer_receiver arrivals' cx' q = (q1, got') ->
              dealer_recv cx' (wake_all ks' q1) = (q', Pending) -> at_rest q q' j wire' w' ->
              exists l, got' = pulled l
                /\ oks (taken_from j l) = channel_of b k ++ replies answer asked).
Proof.
  intros Hd Hall Hr Hb Hn Hans. apply dealer_sound in Hd. apply router_sound in Hb.
  destruct (dealer_all_channels _ _ _ _ Hd Hall Hr) as (who & Hl & Hw & Hacc). exists who. split_and!; [done..|].
  intros p k sent wire out w asked Hps. rewrite (Hacc p Hps). intros Hc. split.
  - intros arrivals cx b' got Hserve Hk. destruct (serve_served answer Hans _ _ _ _ _ _ Hb Hn Hserve) as (l & -> & Hs).
    destruct (served_heard answer _ _ _ _ _ _ _ _ _ Hc Hs Hk) as [Hheard Hch]. split; [by exists l|].
    intros q j sent' wire' out' w' arrivals' cx' q' got' Hc' Hg.
    destruct (carried_received dealer_receiver _ _ _ _ _ _ _ _ _ _ _ Hc' Hg) as (l' & -> & Hl'). exists l'.
    split; [done|]. rewrite Hch in Hl'. etrans; [exact Hl'|]. by apply prefix_app, replies_prefix.
  - intros arrivals ks cx b1 b' got Ha Hserve Hwait Hrest Hk q j sent' wire' out' w' arrivals' ks' cx' q1 q' got' Hc' Ha' Hg Hwait' Hrest'.
    destruct (serve_served answer Hans _ _ _ _ _ _ Hb Hn Hserve) as (l & -> & Hs).
    pose proof (served_heard_all answer uuid _ _ _ _ _ _ _ _ _ _ _ _ Hans Hb Hn Ha Hc Hs Hwait Hrest Hk) as Hch.
    destruct (carried_all dealer_receiver _ _ _ _ _ _ _ _ _ _ _ _ _ Hc' Ha' Hg Hwait' Hrest') as (l' & -> & Hl').
    exists l'. split; [done|]. by rewrite Hl'.
Qed.

(** ** A DEALER and an echoing ROUTER *)

Module Example.
#[local] Existing Instance Runtime_exec.
#[local] Existing Instances Items.stream Items.finite.
Import Wire.Example.

Definition dealer : GenericSocketBackend (list item) :=
  generic_peer_connected (bs "router") (mkIo [] 0%nat) (dealer_with_options default_options new_process).

Lemma dealer_reachable : rtc talk_step (dealer_with_options default_options new_process) dealer.
Proof. eapply rtc_l; [apply talk_connects|]. apply rtc_refl. Qed.

Definition questions : list ZmqMessage.t := [hello; bye].
Abbreviation sends := (dealer_all questions dealer).

Lemma all_sent : sends = (fst sends, [Ok tt; Ok tt]).
Proof. apply pair_snd. vm_compute. reflexivity. Qed.

Lemma router_is_peer : is_Some (peers dealer !! bs "router").
Proof. apply (bool_decide_unpack _). vm_compute. exact I. Qed.

(** A connection whose writer has written two messages. *)
Definition two_writer (m1 m2 : ZmqMessage.t) : writer_state :=
  let w := arrive (MMessage m2) (arrive (MMessage m1) (new_writer Recording.empty)) in
  write_run 0%nat (write_left w) w.

Lemma two_writer_reachable m1 m2 : exists o, rtc (queue_step 0%nat) (new_writer o) (two_writer m1 m2).
Proof. exists Recording.empty. do 2 (eapply rtc_l; [by apply queue_arrive|]). apply write_run_steps. Qed.

(** The router and its user, who says the question again. *)
Definition asked_wire (k : PeerIdentity) : bytes := default [] (encode_all (MMessage <$> questions)).
Definition dealer_stream : reader (R := script) :=
  connection [Ready (Ok (take 5 (asked_wire []))); Pending; Ready (Ok (drop 5 (asked_wire [])))].
Definition router : GenericSocketBackend (reader (R := script)) :=
  generic_peer_connected (bs "dealer") (mkIo dealer_stream 0%nat) (router_with_options small new_process).

Lemma router_reachable : rtc talk_step (router_with_options small new_process) router.
Proof. eapply rtc_l; [apply talk_connects|]. apply rtc_refl. Qed.

Definition echo (question : ZmqMessage.t) : ZmqMessage.t := ZmqMessage.push_front question (bs "echo").
Abbreviation served_router := (serve echo (bs "uuid") [[]; [bs "dealer"]; []] 0%nat router).
Abbreviation router_waiting := (router_recv 0%nat (wake_all [] (fst served_router))).

Lemma router_streams : streams (queue router) = {[bs "dealer" := dealer_stream]}.
Proof. reflexivity. Qed.

Lemma router_named : named router.
Proof. intros k s. rewrite router_streams. intros [<- _]%lookup_singleton_Some. split; [done|by vm_compute]. Qed.

Lemma router_armed : armed (queue router).
Proof. apply armed_insert_op. by split. Qed.

Lemma router_served : served_router = (fst served_router, (fun m => ZmqMessage.push_front m (bs "dealer")) <$> questions).
Proof. apply pair_snd. vm_compute. reflexivity. Qed.

Lemma router_waits : router_waiting = (fst router_waiting, Pending).
Proof. apply pair_snd. vm_compute. reflexivity. Qed.

Lemma questions_carried :
  carried (channel_of (fst sends) (bs "router")) router (bs "dealer") (fun _ => MMessage <$> questions) asked_wire
    0%nat (two_writer hello bye).
Proof.
  split_and!; [apply two_writer_reachable|vm_compute; reflexivity|vm_compute; reflexivity| |].
  - rewrite router_streams. exists dealer_stream. apply lookup_singleton_eq.
  - intros k s. rewrite router_streams. intros [<- <-]%lookup_singleton_Some.
    apply connection_connected; [vm_compute; reflexivity|reflexivity|].
    repeat (split || constructor || (by vm_compute)).
Qed.

Lemma router_read :
  map_Forall (fun k s => Framed.received (inner (proj1_sig s)) = greetings ++ asked_wire k)
    (streams (queue (fst router_waiting))).
Proof. apply (bool_decide_unpack _). by vm_compute. Qed.

Lemma questions_rest : at_rest router (fst router_waiting) (bs "dealer") asked_wire (two_writer hello bye).
Proof.
  split_and!; [vm_compute; reflexivity|vm_compute; reflexivity| |apply (bool_decide_unpack _); vm_compute; exact I].
  intros k s s'. rewrite router_streams. intros [<- <-]%lookup_singleton_Some Hs'%router_read.
  by apply connection_advanced.
Qed.

Lemma router_connected : connected_to (fst router_waiting) (bs "dealer").
Proof. split; apply (bool_decide_unpack _); vm_compute; exact I. Qed.

(** The way back. *)
Definition echoes : list Message := [MMessage (echo hello); MMessage (echo bye)].
Definition echo_wire (k : PeerIdentity) : bytes := default [] (encode_all echoes).
Definition router_stream : reader (R := script) :=
  connection [Ready (Ok (take 3 (echo_wire []))); Pending; Ready (Ok (drop 3 (echo_wire [])))].
Definition asker : GenericSocketBackend (reader (R := script)) :=
  generic_peer_connected (bs "router") (mkIo router_stream 0%nat) (dealer_with_options small new_process).

Abbreviation asker_polls := (recv_polls dealer_receiver [[]; [bs "router"]; []] 0%nat asker).
Abbreviation asker_waiting := (dealer_recv 0%nat (wake_all [] (fst asker_polls))).

Lemma asker_streams : streams (queue asker) = {[bs "router" := router_stream]}.
Proof. reflexivity. Qed.

Lemma asker_armed : armed (queue asker).
Proof. apply armed_insert_op. by split. Qed.

Lemma asker_polled : asker_polls = (fst asker_polls, [echo hello; echo bye]).
Proof. apply pair_snd. vm_compute. reflexivity. Qed.

Lemma asker_waits : asker_waiting = (fst asker_waiting, Pending).
Proof. apply pair_snd. vm_compute. reflexivity. Qed.

Lemma echoes_carried :
  carried (channel_of (fst router_waiting) (bs "dealer")) asker (bs "router") (fun _ => echoes) echo_wire
    0%nat (two_writer (echo hello) (echo bye)).
Proof.
  split_and!; [apply two_writer_reachable|vm_compute; reflexivity|vm_compute; reflexivity| |].
  - rewrite asker_streams. exists router_stream. apply lookup_singleton_eq.
  - intros k s. rewrite asker_streams. intros [<- <-]%lookup_singleton_Some.
    apply connection_connected; [vm_compute; reflexivity|reflexivity|].
    repeat (split || constructor || (by vm_compute)).
Qed.

Lemma asker_read :
  map_Forall (fun k s => Framed.received (inner (proj1_sig s)) = greetings ++ echo_wire k)
    (streams (queue (fst asker_waiting))).
Proof. apply (bool_decide_unpack _). by vm_compute. Qed.

Lemma echoes_rest : at_rest asker (fst asker_waiting) (bs "router") echo_wire (two_writer (echo hello) (echo bye)).
Proof.
  split_and!; [vm_compute; reflexivity|vm_compute; reflexivity| |apply (bool_decide_unpack _); vm_compute; exact I].
  intros k s s'. rewrite asker_streams. intros [<- <-]%lookup_singleton_Some Hs'%asker_read.
  by apply connection_advanced.
Qed.
End Example.

#[local] Existing Instance Runtime_exec.
#[local] Existing Instances Items.stream Items.finite.

Lemma dialogue_witness :
  exists who, length who = 2%nat
    /\ exists l, [Example.echo Wire.Example.hello; Example.echo Wire.Example.bye] = pulled l
         /\ oks (taken_from (bs "router") l) = replies Example.echo (picks (bs "router") who Example.questions).
Proof.
  destruct (dialogue (R := script) default_options Wire.Example.small new_process new_process Example.questions
    Example.dealer _ _ Example.echo (bs "uuid") Example.router Example.dealer_reachable Example.all_sent)
    as (who & Hl & _ & Hall).
  - repeat constructor.
  - exact Example.router_reachable.
  - exact Example.router_named.
  - reflexivity.
  - exists who. split; [exact Hl|].
    destruct (Hall (bs "router") (bs "dealer") _ _ 0%nat _ Example.router_is_peer Example.questions_carried) as [_ Hd].
    exact (Hd [[]; [bs "dealer"]; []] [] 0%nat _ (fst Example.router_waiting) _ Example.router_armed
      Example.router_served Example.router_waits Example.questions_rest Example.router_connected
      Example.asker (bs "router") _ _ 0%nat _ [[]; [bs "router"]; []] [] 0%nat _ _ _
      Example.echoes_carried Example.asker_armed Example.asker_polled Example.asker_waits Example.echoes_rest).
Defined.
