(* ===== verification/Bench.v ===== *)
(** The backends that the crate gives its benchmarks ([__bench] in src/src/lib.rs): peers and
    subscribers whose receivers stay with the benchmark. *)

From S2P Require Import Prelude Message Endpoint Errors SocketTypes Greeting Command Codec Framed.
From S2P Require Import FairQueue Channels Runtime Backend Handshake Receive Sockets Subscriptions Fanout Pub.

Local Open Scope Z_scope.

Section Bench.
Context {S : Type} `{Runtime}.
Implicit Types (b : GenericSocketBackend S) (a : PubSocketBackend S).

(** ** [BenchRoundRobinBackend] *)

(** The receivers are the numbers of their channels. *)
Record BenchRoundRobinBackend : Type := mkBenchRoundRobin {
  bench_backend : GenericSocketBackend S;
  bench_receivers : list nat;
}.

(** [format!("bench-peer-{peer_index}").parse()] *)
Definition bench_name (prefix : bytes) (i : nat) : PeerIdentity := prefix ++ dec (Z.of_nat i).

Definition bench_peer (queue_capacity : Z) (peer_index : nat) b : GenericSocketBackend S * nat :=
  let '(n, send_queue) := channel (messages (shared b)) queue_capacity in
  let peer_id := bench_name (bs "bench-peer-") peer_index in
  let b := set_peers (<[peer_id := mkPeer send_queue]> (peers b)) (set_net n b) in
  (set_round_robin (round_robin b ++ [peer_id]) b, chan_of send_queue).

(** The loop over [peer_index], up to [peer_count]. *)
Fixpoint bench_peers (queue_capacity : Z) (peer_count : nat) b : GenericSocketBackend S * list nat :=
  match peer_count with
  | O => (b, [])
  | Datatypes.S peer_index =>
      let '(b, receivers) := bench_peers queue_capacity peer_index b in
      let '(b, receiver) := bench_peer queue_capacity peer_index b in
      (b, receivers ++ [receiver])
  end.

Definition bench_round_robin_new (peer_count : nat) (queue_capacity : Z) (sh : Shared S) : BenchRoundRobinBackend :=
  let '(b, receivers) := bench_peers queue_capacity peer_count (with_options None PUSH default_options sh) in
  mkBenchRoundRobin b receivers.

Definition bench_send_round_robin (message : Message) (self : BenchRoundRobinBackend) :
    BenchRoundRobinBackend * result unit ZmqError :=
  let '(b, r) := send_round_robin message (bench_backend self) in (mkBenchRoundRobin b (bench_receivers self), r).

(** ** [BenchPubFanoutBackend] *)

Record BenchPubFanoutBackend : Type := mkBenchPub {
  bench_pub : PubSocketBackend S;
  bench_pub_receivers : list nat;
}.

(** The receiver of the stop channel is dropped; the count grows whatever is replaced. *)
Definition bench_subscriber (subscriptions : list bytes) (subscriber_index : nat) a : PubSocketBackend S * nat :=
  let peer_id := bench_name (bs "bench-sub-") subscriber_index in
  let '(n, send_queue) := channel (messages (pub_shared a)) 1024 in
  let a := set_pub_shared (set_messages n (pub_shared a)) a in
  let a := set_subscribers (<[peer_id := mkSubscriber subscriptions send_queue (next_stop a)]> (subscribers a)) a in
  (set_count (fetch_add (subscriber_count a) 1) a, chan_of send_queue).

Fixpoint bench_subscribers (subscriptions : list bytes) (subscriber_count : nat) a : PubSocketBackend S * list nat :=
  match subscriber_count with
  | O => (a, [])
  | Datatypes.S subscriber_index =>
      let '(a, receivers) := bench_subscribers subscriptions subscriber_index a in
      let '(a, receiver) := bench_subscriber subscriptions subscriber_index a in
      (a, receivers ++ [receiver])
  end.

Definition bench_pub_new_with_subscriptions (subscriber_count : nat) (subscriptions : list bytes) (sh : Shared S) :
    BenchPubFanoutBackend :=
  let '(a, receivers) := bench_subscribers subscriptions subscriber_count (pub_with_options default_options sh) in
  mkBenchPub a receivers.

Definition bench_pub_new (subscriber_count : nat) (subscription : bytes) (sh : Shared S) : BenchPubFanoutBackend :=
  bench_pub_new_with_subscriptions subscriber_count [subscription] sh.

Definition bench_fanout_message (message : ZmqMessage.t) (self : BenchPubFanoutBackend) : BenchPubFanoutBackend :=
  mkBenchPub (fanout_message message (bench_pub self)) (bench_pub_receivers self).

End Bench.

(** ** The other hooks *)

Definition zmq_framed_read {R} (inner : R) : ZmqFramedRead R := new_framed_read inner default_options.
Definition zmq_framed_read_with_options {R} (inner : R) (options : SocketOptions) : ZmqFramedRead R :=
  new_framed_read inner options.
Definition fair_queue_insert {S K} `{Countable K} (key : K) (stream : S) (queue : QueueInner S K) : QueueInner S K :=
  insert key stream queue.
Definition fair_queue {S K} `{Countable K} : QueueInner S K := new_queue.
Definition message_pop_front (message : ZmqMessage.t) : option (bytes * ZmqMessage.t) := ZmqMessage.pop_front message.

(** ** What the backends are *)

Section Spec.
Context {S : Type} `{Runtime}.
Implicit Types (b : GenericSocketBackend S) (a : PubSocketBackend S).

Lemma bench_name_inj prefix i j :
  (i <= Z.to_nat 65535)%nat -> (j <= Z.to_nat 65535)%nat -> bench_name prefix i = bench_name prefix j -> i = j.
Proof.
  intros Hi Hj Heq%app_inv_head. apply (f_equal parse_u16) in Heq. rewrite !parse_u16_dec in Heq by lia.
  injection Heq. lia.
Qed.

(** The peers of a benchmark: connected, in the order of their turns, and unknown to the cache. *)
Definition bench_peers_ok (n : nat) b : Prop :=
  single_peer b = None /\ peer_count b = 0 /\ size (peers b) = n
  /\ round_robin b = bench_name (bs "bench-peer-") <$> seq 0 n
  /\ forall p, is_Some (peers b !! p) <-> p ∈ round_robin b.

Lemma bench_peer_ok cap n b :
  (n <= Z.to_nat 65535)%nat -> bench_peers_ok n b -> bench_peers_ok (Datatypes.S n) (fst (bench_peer cap n b)).
Proof.
  intros Hn (Hs & Hc & Hsize & Hrr & Hin). unfold bench_peer. destruct (channel _ cap) as [net q].
  set (p0 := bench_name _ n).
  assert (peers b !! p0 = None) as Hnew.
  { apply eq_None_not_Some. rewrite Hin, Hrr. intros (i & Heq & Hi)%list_elem_of_fmap.
    apply elem_of_seq in Hi. apply bench_name_inj in Heq; lia. }
  split; [done|]. split; [done|]. split; [|split].
  - change (size (<[p0 := mkPeer q]> (peers b)) = Datatypes.S n). by rewrite map_size_insert_None, Hsize.
  - rewrite seq_S, fmap_app. change (round_robin b ++ [p0] = (bench_name (bs "bench-peer-") <$> seq 0 n) ++ [p0]). by rewrite Hrr.
  - intros p. change (is_Some (<[p0 := mkPeer q]> (peers b) !! p) <-> p ∈ round_robin b ++ [p0]).
    rewrite lookup_insert_is_Some', Hin, elem_of_app, list_elem_of_singleton. naive_solver.
Qed.

Lemma bench_peers_spec cap n (sh : Shared S) :
  (n <= Z.to_nat 65536)%nat ->
  bench_peers_ok n (fst (bench_peers cap n (with_options None PUSH default_options sh))).
Proof.
  induction n as [|n IH]; intros Hn; cbn [bench_peers].
  { split_and!; try done. intros p; cbn. split; [intros [s Hs]; by rewrite lookup_empty in Hs|by intros ?%elem_of_nil]. }
  destruct (bench_peers cap n _) as [b receivers]. cbn [fst] in IH.
  pose proof (bench_peer_ok cap n b ltac:(lia) (IH ltac:(lia))) as Hb. by destruct (bench_peer cap n b).
Qed.

(** The cache knows no peer, and every turn is a peer's. *)
Definition uncached b : Prop :=
  single_peer b = None /\ peer_count b = 0 /\ forall p, p ∈ round_robin b -> is_Some (peers b !! p).

(** A send takes the turn of the next peer. *)
Lemma uncached_send m b b' u :
  uncached b -> send_round_robin m b = (b', Ok u) ->
  uncached b' /\ peers b' = peers b
  /\ exists p rest s, round_robin b = p :: rest /\ round_robin b' = rest ++ [p] /\ peers b !! p = Some (mkPeer s)
       /\ delivers (messages (shared b)) (messages (shared b')) (chan_of s) [m].
Proof.
  intros (Hs & Hc & Hin). unfold send_round_robin, try_send_cached_single_peer. rewrite Hc.
  cbn [Z.eqb negb finish_cached_send].
  destruct (round_robin b) as [|p rest] eqn:Hr; cbn [round_robin_loop]; [by intros [=]|].
  assert (is_Some (peers b !! p)) as [[s] Hp] by (apply Hin; set_solver). rewrite Hp. cbn [Backend.send_queue].
  destruct (send_to_peer_queue (messages (shared b)) s m) as [net [v|e]] eqn:Hq; [|by intros [=]].
  apply send_to_peer_queue_spec in Hq. intros [= <- _]. split; [|split; [done|]].
  - split; [done|]. split; [done|]. cbn. intros q Hqin. apply Hin. set_solver.
  - by exists p, rest, s.
Qed.

Lemma uncached_sends ms b b' rs :
  uncached b -> send_all ms b = (b', rs) -> Forall (fun r => is_ok r = true) rs ->
  uncached b' /\ peers b' = peers b.
Proof.
  revert b rs. induction ms as [|m ms IH]; intros b rs Hb; cbn [send_all]; [by intros [= <- <-]|].
  destruct (send_round_robin m b) as [b1 r] eqn:Hr. destruct (send_all ms b1) as [b2 rs2] eqn:Ha.
  intros [= <- <-] [Hok Hrs]%Forall_cons. destruct r as [u|]; [|done].
  apply uncached_send in Hr as (Hb1 & Hp1 & _); [|done]. destruct (IH _ _ Hb1 Ha Hrs) as [? ->]. by rewrite Hp1.
Qed.

(** The subscribers of a benchmark. *)
Lemma bench_subscriber_ok subscriptions n a :
  subscribers a !! bench_name (bs "bench-sub-") n = None -> pub_ok a ->
  pub_ok (fst (bench_subscriber subscriptions n a)).
Proof.
  intros Hnew (Hc & Ha & Hd). unfold bench_subscriber. destruct (channel (messages (pub_shared a)) 1024) as [net q] eqn:Hch.
  set (p0 := bench_name _ n) in *. cbn [fst].
  assert (forall c, ~ allocated (messages (pub_shared a)) (chan_of q)
                    /\ (allocated net c <-> allocated (messages (pub_shared a)) c \/ c = chan_of q)) as Hf.
  { intros c. by destruct (channel_fresh _ _ _ _ c Hch) as (? & ? & _). }
  assert (forall p s, subscribers a !! p = Some s -> chan_of (send_queue s) <> chan_of q) as Hne.
  { intros p s Hp Heq. apply (Hf 0%nat). rewrite <- Heq. by eapply Ha. }
  split; [|split].
  - change (fetch_add (subscriber_count a) 1 = Z.of_nat (size (<[p0 := mkSubscriber subscriptions q (next_stop a)]> (subscribers a))) mod 2 ^ 64).
    rewrite map_size_insert_None, (fetch_add_mod _ 1 _ Hc) by done. f_equal. lia.
  - intros k s. change (<[p0 := mkSubscriber subscriptions q (next_stop a)]> (subscribers a) !! k = Some s -> allocated net (chan_of (send_queue s))).
    intros [[_ <-]|[_ Hk]]%lookup_insert_Some; [by apply Hf; right|]. apply Hf. left. by eapply Ha.
  - intros k k' s t. change (<[p0 := mkSubscriber subscriptions q (next_stop a)]> (subscribers a) !! k = Some s ->
      <[p0 := mkSubscriber subscriptions q (next_stop a)]> (subscribers a) !! k' = Some t -> k <> k' -> chan_of (send_queue s) <> chan_of (send_queue t)).
    intros [[<- <-]|[_ Hk]]%lookup_insert_Some [[<- <-]|[_ Hk']]%lookup_insert_Some Hkk; try done.
    + intros Heq. by eapply Hne.
    + by eapply Hne.
    + by eapply Hd.
Qed.

Lemma bench_subscribers_spec subscriptions n (sh : Shared S) :
  (n <= Z.to_nat 65536)%nat ->
  let a := fst (bench_subscribers subscriptions n (pub_with_options default_options sh)) in
  pub_ok a /\ size (subscribers a) = n
  /\ forall p, is_Some (subscribers a !! p) <-> p ∈ bench_name (bs "bench-sub-") <$> seq 0 n.
Proof.
  induction n as [|n IH]; intros Hn; cbn [bench_subscribers].
  { split; [split; [done|split; cbn; intros *; by rewrite lookup_empty]|].
    split; [done|]. intros p. cbn. split; [intros [s Hs]; by rewrite lookup_empty in Hs|by intros ?%elem_of_nil]. }
  destruct (bench_subscribers subscriptions n _) as [a receivers]. cbn [fst] in IH.
  destruct (IH ltac:(lia)) as (Hok & Hsize & Hin).
  assert (subscribers a !! bench_name (bs "bench-sub-") n = None) as Hnew.
  { apply eq_None_not_Some. rewrite Hin. intros (i & Heq & Hi)%list_elem_of_fmap.
    apply elem_of_seq in Hi. apply bench_name_inj in Heq; lia. }
  pose proof (bench_subscriber_ok subscriptions n a Hnew Hok) as Hok'. unfold bench_subscriber in *.
  destruct (channel (messages (pub_shared a)) 1024) as [net q]. set (p0 := bench_name _ n) in *. cbn [fst] in *.
  split; [exact Hok'|]. split.
  - change (size (<[p0 := mkSubscriber subscriptions q (next_stop a)]> (subscribers a)) = Datatypes.S n).
    by rewrite map_size_insert_None, Hsize.
  - intros p. change (is_Some (<[p0 := mkSubscriber subscriptions q (next_stop a)]> (subscribers a) !! p)
      <-> p ∈ bench_name (bs "bench-sub-") <$> seq 0 (Datatypes.S n)).
    rewrite lookup_insert_is_Some', Hin, seq_S, fmap_app, elem_of_app.
    change (bench_name (bs "bench-sub-") <$> [0 + n]%nat) with [p0]. rewrite list_elem_of_singleton. naive_solver.
Qed.
End Spec.

(** The round-robin benchmark: its peers have their turns in order, but the single-peer cache
    does not know them; whatever it sends, also with one peer only, it never takes the path of
    the cache, which a socket with one peer takes. *)
Theorem bench_bypasses_cache {S} `{Runtime} (n : nat) (cap : Z) (sh : Shared S) (ms : list Message)
    (b' : GenericSocketBackend S) (rs : list (result unit ZmqError)) :
  (n <= Z.to_nat 65536)%nat ->
  let b := bench_backend (bench_round_robin_new n cap sh) in
  round_robin b = bench_name (bs "bench-peer-") <$> seq 0 n
  /\ (send_all ms b = (b', rs) -> Forall (fun r => is_ok r = true) rs ->
      size (peers b') = n /\ single_peer b' = None /\ peer_count b' = 0 /\ (n = 1%nat -> ~ coherent b')).
Proof.
  intros Hn. unfold bench_round_robin_new. pose proof (bench_peers_spec cap n sh Hn) as (Hs & Hc & Hsize & Hrr & Hin).
  destruct (bench_peers cap n _) as [b receivers]. cbn [fst bench_backend] in *. split; [done|]. intros Hsend Hrs.
  destruct (uncached_sends ms b b' rs) as ((Hs' & Hc' & _) & Hp); [|done|done|].
  { split_and!; [done|done|]. intros p. apply Hin. }
  rewrite Hp. split_and!; [done|done|done|]. intros -> [Hcount _]. rewrite Hc', Hp, Hsize in Hcount. done.
Qed.

(** The fan-out benchmark: its subscribers are in a state that the operations of PUB could have
    reached, so a message that is fanned out gives each of them exactly what a subscriber of a
    socket is given. *)
Theorem bench_fans_out {S} `{Runtime} (n : nat) (subscriptions : list bytes) (sh : Shared S)
    (message : ZmqMessage.t) (first_frame : bytes) :
  (n <= Z.to_nat 65536)%nat -> ZmqMessage.get message 0 = Some first_frame ->
  let self := bench_pub_new_with_subscriptions n subscriptions sh in
  size (subscribers (bench_pub self)) = n
  /\ forall p s, subscribers (bench_pub self) !! p = Some s ->
       served (messages (pub_shared (bench_pub self)))
         (messages (pub_shared (bench_pub (bench_fanout_message message self)))) s first_frame message.
Proof.
  intros Hn Hm. unfold bench_pub_new_with_subscriptions.
  destruct (bench_subscribers_spec subscriptions n sh Hn) as (Hok & Hsize & _).
  destruct (bench_subscribers subscriptions n _) as [a receivers]. cbn [fst bench_pub bench_fanout_message] in *.
  split; [done|]. intros p s Hp. by eapply fanout_served.
Qed.

#[local] Existing Instance Runtime_exec.

Lemma bench_bypasses_cache_witness :
  let b := bench_backend (bench_round_robin_new (S := unit) 1 8 new_process) in
  ~ coherent (fst (send_all [MMessage (ZmqMessage.mk [bs "x"])] b)).
Proof.
  apply (bench_bypasses_cache (S := unit) 1 8 new_process [MMessage (ZmqMessage.mk [bs "x"])] _ [Ok tt]).
  - lia.
  - apply pair_snd. by vm_compute.
  - by repeat constructor.
  - done.
Defined.

Lemma bench_fans_out_witness :
  size (subscribers (bench_pub (bench_pub_new_with_subscriptions (S := unit) 2 [bs "x"] new_process))) = 2%nat.
Proof.
  apply (bench_fans_out (S := unit) 2 [bs "x"] new_process (ZmqMessage.mk [bs "x"]) (bs "x")); [lia|done].
Defined.
