(* ===== verification/UnitTests.v ===== *)
(** The unit tests of the crate (the [tests] modules of src/src/), run on the definitions: each
    test is what its code does and asserts, as a boolean, with the channels and sinks of
    [Channels.v]; the theorems say that the assertions hold. *)

From S2P Require Import Prelude Message Endpoint Errors SocketTypes Greeting Command Codec Framed.
From S2P Require Import FairQueue Channels Runtime Backend Handshake Receive Sockets Subscriptions.
From S2P Require Import Fanout Pub WriteQueue.

(** A test that asserts [P]. *)
Notation asserts P := (bool_decide (P)) (only parsing).

(** ** fair_queue.rs *)

Module FairQueueTests.
Local Open Scope string_scope.

(** A stream that is pending for its first polls and then yields messages; one that is pending
    and counts its polls; one that also wakes itself; and one that wakes itself once. *)
Record TestStream : Type := mkTestStream { pending_polls : nat; messages : list string }.
Record WakeThenReadyStream : Type := mkWakeThenReady { poll_count : nat; message : option string }.

Inductive UnifiedStream : Type :=
  | Test (stream : TestStream)
  | CountPending (poll_count : nat)
  | WakePending (poll_count : nat).

Definition poll_test_stream (this : TestStream) : TestStream * poll (option string) * bool :=
  match pending_polls this, messages this with
  | S n, _ => (mkTestStream n (messages this), Pending, false)
  | O, [] => (this, Ready None, false)
  | O, m :: rest => (mkTestStream 0 rest, Ready (Some m), false)
  end.

Definition poll_count_pending (poll_count : nat) : nat * poll (option string) * bool := (S poll_count, Pending, false).

Definition poll_wake_pending (poll_count : nat) : nat * poll (option string) * bool := (S poll_count, Pending, true).

Definition poll_wake_then_ready (this : WakeThenReadyStream) : WakeThenReadyStream * poll (option string) * bool :=
  match poll_count this with
  | O => (mkWakeThenReady 1 (message this), Pending, true)
  | S n => (mkWakeThenReady (S (S n)) None, Ready (message this), false)
  end.

Definition poll_unified (this : UnifiedStream) : UnifiedStream * poll (option string) * bool :=
  match this with
  | Test stream => let '(s, x, w) := poll_test_stream stream in (Test s, x, w)
  | CountPending n => let '(n, x, w) := poll_count_pending n in (CountPending n, x, w)
  | WakePending n => let '(n, x, w) := poll_wake_pending n in (WakePending n, x, w)
  end.

#[local] Instance test_stream : Stream TestStream string := {| poll_stream := poll_test_stream |}.
#[local] Instance wake_then_ready : Stream WakeThenReadyStream string := {| poll_stream := poll_wake_then_ready |}.
#[local] Instance unified_stream : Stream UnifiedStream string := {| poll_stream := poll_unified |}.

Definition ready (l : list string) : TestStream := mkTestStream 0 l.

Abbreviation task := 0%nat.
Abbreviation poll_queue := (FairQueue.poll_next task false).

(** [while let Some(i) = f_queue.next().await { results.push(i) }]; [None] when it waits. *)
Fixpoint collect {K S} `{Countable K, !Stream S string} (fuel : nat) (q : QueueInner S K) :
    option (list (K * string)) :=
  match fuel with
  | O => None
  | Datatypes.S fuel =>
      match poll_queue q with
      | (_, Pending) => None
      | (_, Ready None) => Some []
      | (q, Ready (Some x)) => cons x <$> collect fuel q
      end
  end.

Definition inserted {K S} `{Countable K} (l : list (K * S)) : QueueInner S K :=
  fold_left (fun q '(k, s) => insert k s q) l new_queue.

Definition test_fair_queue_ready : bool :=
  asserts (collect 20 (inserted [(1%N, ready ["a1"; "a2"; "a3"]); (2%N, ready ["b1"; "b2"; "b3"]); (3%N, ready ["c1"; "c2"; "c3"])])
    = Some [(1%N, "a1"); (2%N, "b1"); (3%N, "c1"); (1%N, "a2"); (2%N, "b2"); (3%N, "c2"); (1%N, "a3"); (2%N, "b3"); (3%N, "c3")]).

(** The future of the first [next] is dropped after its poll; the second is polled again when
    its task has been woken. *)
Definition test_fair_queue_next_future_can_be_dropped_after_pending : bool :=
  let q := inserted [("peer", mkWakeThenReady 0 (Some "message"))] in
  let '(q1, r1) := poll_queue q in
  let '(_, r2) := FairQueue.poll_next 1%nat false q1 in
  asserts (r1 = Pending) && asserts (r2 = Ready (Some ("peer", "message"))).

Definition test_fair_queue_different_size : bool :=
  asserts (collect 20 (inserted [(1%N, ready ["a1"; "a2"; "a3"]); (2%N, ready ["b1"]); (3%N, ready ["c1"; "c2"])])
    = Some [(1%N, "a1"); (2%N, "b1"); (3%N, "c1"); (1%N, "a2"); (3%N, "c2"); (1%N, "a3")]).

Definition test_fair_queue_continues_on_pending : bool :=
  let q := inserted [("slow", Test (mkTestStream 1 ["s1"])); ("fast", Test (ready ["f1"; "f2"]))] in
  let '(q, r1) := poll_queue q in
  let '(q, r2) := poll_queue q in
  let '(_, r3) := poll_queue q in
  asserts (r1 = Ready (Some ("fast", "f1"))) && asserts (r2 = Ready (Some ("fast", "f2"))) && asserts (r3 = Pending).

(** The loop polls at most 20 times, and leaves earlier when everything has come. *)
Fixpoint at_most (n : nat) (q : QueueInner UnifiedStream string) (got : list (string * string)) : list (string * string) :=
  match n with
  | O => got
  | S n =>
      match poll_queue q with
      | (q, Ready (Some x)) =>
          let got := (got ++ [x])%list in
          let count k := length (filter (fun y => fst y = k) got) in
          if (1 <=? count "slow")%nat && (count "fast" =? 3)%nat && (count "mid" =? 2)%nat then got
          else at_most n q got
      | (_, Ready None) => got
      | (q, Pending) => at_most n q got
      end
  end.

Definition test_fair_queue_multiple_clients_fairness : bool :=
  let q := inserted [("fast", Test (ready ["f1"; "f2"; "f3"])); ("slow", Test (mkTestStream 2 ["s1"]));
                     ("mid", Test (mkTestStream 1 ["m1"; "m2"]))] in
  (1 <=? length (filter (fun y => fst y = "fast") (at_most 20 q [])))%nat.

Definition test_fair_queue_polls_ready_set_before_yielding_pending : bool :=
  let q := inserted [("pending-1", CountPending 0); ("pending-2", CountPending 0); ("pending-3", CountPending 0)] in
  let '(q, r) := poll_queue q in
  let poll_count := map_fold (fun _ s n => match s with CountPending m => m + n | _ => n end)%nat 0%nat (streams q) in
  asserts (r = Pending) && asserts (poll_count = 3%nat).

Definition test_fair_queue_defers_ready_events_generated_during_poll : bool :=
  let q := inserted [("pending", WakePending 0)] in
  let '(q, r) := poll_queue q in
  asserts (r = Pending) && asserts (length (ready_queue q) = 1%nat) && asserts (size (queued q) = 1%nat)
  && match streams q !! "pending" with Some (WakePending n) => asserts (n = 1%nat) | _ => false end.

Lemma fair_queue_tests_pass :
  forallb id
    [test_fair_queue_ready; test_fair_queue_next_future_can_be_dropped_after_pending; test_fair_queue_different_size;
     test_fair_queue_continues_on_pending; test_fair_queue_multiple_clients_fairness;
     test_fair_queue_polls_ready_set_before_yielding_pending; test_fair_queue_defers_ready_events_generated_during_poll] = true.
Proof. vm_compute. reflexivity. Qed.
End FairQueueTests.

(** ** backend.rs *)

Module BackendTests.
#[local] Existing Instance Runtime_exec.

Abbreviation backend := (GenericSocketBackend unit).
Implicit Types b : backend.

(** What the receiver of a channel finds when it receives until nothing is left. *)
Definition unread {M} (n : Bounded.state M) (c : nat) : list M :=
  match Bounded.chans n !! c with Some ch => drop (Bounded.taken ch) (Bounded.log ch) | None => [] end.

Definition message_with_frame (frame : string) : Message := MMessage (ZmqMessage.from_bytes (bs frame)).

(** [backend.peers.upsert_async(..)], [refresh_single_peer_cache] and [round_robin.push]. *)
Definition upsert (peer_id : PeerIdentity) (send_queue : sender Message) b : backend :=
  let b := refresh_single_peer_cache (set_peers (<[peer_id := mkPeer send_queue]> (peers b)) b) in
  set_round_robin (round_robin b ++ [peer_id]) b.

(** The receiver is the channel's number. *)
Definition insert_peer (peer_id : PeerIdentity) b : backend * nat :=
  let '(n, send_queue) := channel (messages (shared b)) 8 in
  (upsert peer_id send_queue (set_net n b), chan_of send_queue).

Definition new (t : SocketType) : backend := with_options None t default_options new_process.

Definition test_send_round_robin_uses_single_peer_cache : bool :=
  let '(b, recv_queue) := insert_peer (bs "peer-a") (new PUSH) in
  let '(b', r) := send_round_robin (message_with_frame "payload") b in
  asserts (peer_count b = 1%Z) && asserts (is_Some (single_peer b)) && is_ok r
  && asserts (unread (messages (shared b')) recv_queue = [message_with_frame "payload"]).

Definition test_send_to_peer_uses_single_peer_cache_for_matching_identity : bool :=
  let '(b, recv_queue) := insert_peer (bs "router-peer") (new ROUTER) in
  let '(b', r) := send_to_peer (bs "router-peer") (message_with_frame "routed") b in
  asserts (single_id <$> single_peer b = Some (bs "router-peer")) && is_ok r
  && asserts (unread (messages (shared b')) recv_queue = [message_with_frame "routed"]).

Definition test_send_to_peer_routes_by_identity_with_multiple_peers : bool :=
  let '(b, first_recv_queue) := insert_peer (bs "router-peer-a") (new ROUTER) in
  let '(b, second_recv_queue) := insert_peer (bs "router-peer-b") b in
  let '(b', r) := send_to_peer (bs "router-peer-b") (message_with_frame "routed-b") b in
  asserts (peer_count b = 2%Z) && asserts (single_peer b = None) && is_ok r
  && asserts (unread (messages (shared b')) first_recv_queue = [])
  && asserts (unread (messages (shared b')) second_recv_queue = [message_with_frame "routed-b"]).

(** The queue is filled before the peer is inserted; the send completes beside the receives. *)
Definition test_send_round_robin_waits_when_cached_sender_is_full : bool :=
  let b := new PUSH in
  let '(n, send_queue) := channel (messages (shared b)) 1 in
  let '(n, prefilled) := try_send n send_queue (message_with_frame "prefilled") in
  let b := upsert (bs "full-peer") send_queue (set_net n b) in
  let '(b', r) := send_round_robin (message_with_frame "after-full") b in
  is_ok prefilled && is_ok r
  && asserts (unread (messages (shared b')) (chan_of send_queue) = [message_with_frame "prefilled"; message_with_frame "after-full"]).

Definition test_single_peer_cache_is_cleared_when_cached_sender_is_disconnected : bool :=
  let b := new PUSH in
  let '(n, send_queue) := channel (messages (shared b)) 1 in
  let n := Bounded.close n (chan_of send_queue) in
  let b := upsert (bs "closed-peer") send_queue (set_net n b) in
  let '(b', r) := send_round_robin (message_with_frame "lost") b in
  match r with Err (BufferFull _) => true | _ => false end
  && asserts (peer_count b' = 0%Z) && asserts (single_peer b' = None) && asserts (peers b' !! bs "closed-peer" = None).

Definition test_peer_disconnected_emits_one_monitor_event : bool :=
  let b := new ROUTER in
  let '(n, monitor_sender) := channel (events (shared b)) 8 in
  let b := Sockets.monitor n monitor_sender b in
  let '(b, _) := insert_peer (bs "monitor-peer") b in
  let b1 := generic_peer_disconnected (bs "monitor-peer") b in
  let b2 := generic_peer_disconnected (bs "monitor-peer") b1 in
  let events b := unread (events (shared b)) (chan_of monitor_sender) in
  match events b1 with [Disconnected p] => asserts (p = bs "monitor-peer") | _ => false end
  && (length (events b2) =? 1)%nat.

Lemma backend_tests_pass :
  forallb id
    [test_send_round_robin_uses_single_peer_cache; test_send_to_peer_uses_single_peer_cache_for_matching_identity;
     test_send_to_peer_routes_by_identity_with_multiple_peers; test_send_round_robin_waits_when_cached_sender_is_full;
     test_single_peer_cache_is_cleared_when_cached_sender_is_disconnected;
     test_peer_disconnected_emits_one_monitor_event] = true.
Proof. vm_compute. reflexivity. Qed.
End BackendTests.

(** ** pub.rs *)

Module PubTests.
#[local] Existing Instance Runtime_exec.
Import BackendTests.

Abbreviation pub := (PubSocketBackend unit).
Implicit Types b : pub.

Definition test_backend : pub := pub_with_options default_options new_process.

Definition insert_test_subscriber (peer_id : PeerIdentity) (subscriptions : list bytes)
    (queue_sender : sender Message) b : pub :=
  let old_subscriber := subscribers b !! peer_id in
  let b := set_subscribers (<[peer_id := mkSubscriber subscriptions queue_sender (next_stop b)]> (subscribers b)) b in
  match old_subscriber with None => set_count (fetch_add (subscriber_count b) 1) b | Some _ => b end.

(** [mpsc::channel]. *)
Definition open (capacity : Z) b : pub * sender Message :=
  let '(n, s) := channel (messages (pub_shared b)) capacity in (set_pub_shared (set_messages n (pub_shared b)) b, s).

Definition close (s : sender Message) b : pub :=
  set_pub_shared (set_messages (Bounded.close (messages (pub_shared b)) (chan_of s)) (pub_shared b)) b.

Definition queued b (s : sender Message) : list Message := unread (messages (pub_shared b)) (chan_of s).

Definition message (s : string) : ZmqMessage.t := ZmqMessage.from_bytes (bs s).

Definition test_fanout_queue_drops_new_message_when_full_without_extra_wake : bool :=
  let q := publish 1 (message "first") new_fanout in
  let q' := publish 1 (message "dropped") q in
  asserts (length (fifo q) = 1%nat) && wake_pending q && asserts (wakes q = 1%nat)
  && asserts (length (fifo q') = 1%nat) && asserts (wakes q' = 1%nat) && asserts (fifo q' = [message "first"]).

(** The test takes the wake and the message itself, and clears the flag, instead of the task. *)
Definition test_fanout_queue_wakes_again_after_pending_is_cleared : bool :=
  let q := publish 2 (message "first") new_fanout in
  let q1 := mkFanout (tail (fifo q)) false (store_buffer q) (pred (wakes q)) (publisher q) (worker q) (enqueued q) (fanned_out q) in
  let q2 := publish 2 (message "second") q1 in
  asserts (wakes q = 1%nat) && asserts (fifo q = [message "first"])
  && asserts (wakes q2 = 1%nat) && asserts (fifo q2 = [message "second"]).

Definition test_send_without_subscribers_does_not_enqueue_fanout_message : bool :=
  let '(socket, r) := pub_send (message "dropped without subscribers") (mkPubSocket test_backend new_fanout) in
  is_ok r && asserts (fifo (fanout_queue socket) = []).

Definition test_replacing_subscriber_does_not_increment_subscriber_count : bool :=
  let '(b, first_sender) := open 8 test_backend in
  let '(b, second_sender) := open 8 b in
  let b := insert_test_subscriber (bs "peer") [[]] first_sender b in
  let b := insert_test_subscriber (bs "peer") [bs "topic"] second_sender b in
  asserts (subscriber_count b = 1%Z) && asserts (size (subscribers b) = 1%nat).

Definition test_shutdown_clears_subscriber_count : bool :=
  let '(b, sender) := open 8 test_backend in
  let b := insert_test_subscriber (bs "peer") [[]] sender b in
  let b' := pub_shutdown b in
  asserts (subscriber_count b = 1%Z) && asserts (subscriber_count b' = 0%Z) && asserts (size (subscribers b') = 0%nat).

Definition test_fanout_message_delivers_only_matching_subscribers : bool :=
  let '(b, matching_sender) := open 8 test_backend in
  let '(b, non_matching_sender) := open 8 b in
  let b := insert_test_subscriber (bs "matching") [bs "topic.a"] matching_sender b in
  let b := insert_test_subscriber (bs "non-matching") [bs "topic.b"] non_matching_sender b in
  let b := fanout_message (message "topic.a payload") b in
  asserts (queued b matching_sender = [MMessage (message "topic.a payload")])
  && asserts (queued b non_matching_sender = []).

Definition test_closed_subscriber_queue_does_not_interrupt_fanout_to_matching_peer : bool :=
  let '(b, stale_sender) := open 1 test_backend in
  let '(b, live_sender) := open 8 b in
  let b := close stale_sender b in
  let b := insert_test_subscriber (bs "stale") [[]] stale_sender b in
  let b := insert_test_subscriber (bs "live") [[]] live_sender b in
  let b := fanout_message (message "payload") b in
  asserts (queued b live_sender = [MMessage (message "payload")])
  && asserts (is_Some (subscribers b !! bs "stale")) && asserts (is_Some (subscribers b !! bs "live"))
  && asserts (subscriber_count b = 2%Z).

(** The queue is filled until its sender finds it full. *)
Fixpoint prefill (fuel prefilled_count : nat) (n : net Message) (s : sender Message) : net Message * nat :=
  match fuel with
  | O => (n, prefilled_count)
  | S fuel =>
      let text := bs "already queued " ++ dec (Z.of_nat prefilled_count) in
      match try_send n s (MMessage (ZmqMessage.from_bytes text)) with
      | (n, Ok _) => prefill fuel (S prefilled_count) n s
      | (n, Err _) => (n, prefilled_count)
      end
  end.

Definition already_queued (m : Message) : bool :=
  match m with
  | MMessage m => match ZmqMessage.frames m with [f] => asserts (bs "already queued " `prefix_of` f) | _ => false end
  | _ => false
  end.

Definition test_full_subscriber_queue_drops_message_without_disconnect : bool :=
  let '(b, queue_sender) := open 1 test_backend in
  let '(n, clone) := clone_sender (messages (pub_shared b)) queue_sender in
  let b := insert_test_subscriber (bs "peer") [[]] clone b in
  let '(n, prefilled_count) := prefill 10 0 n queue_sender in
  let n := send_to_subscriber n queue_sender (message "dropped payload") in
  let queued_messages := unread n (chan_of queue_sender) in
  asserts (0 < prefilled_count < 10)%nat && asserts (is_Some (subscribers b !! bs "peer")) && asserts (subscriber_count b = 1%Z)
  && asserts (length queued_messages = prefilled_count) && forallb already_queued queued_messages
  && asserts (MMessage (message "dropped payload") ∉ queued_messages).

Definition test_send_to_subscriber_drops_closed_queue_without_disconnect : bool :=
  let '(b, queue_sender) := open 1 test_backend in
  let b := close queue_sender b in
  let '(n, clone) := clone_sender (messages (pub_shared b)) queue_sender in
  let b := insert_test_subscriber (bs "peer") [[]] clone (set_pub_shared (set_messages n (pub_shared b)) b) in
  let n := send_to_subscriber (messages (pub_shared b)) queue_sender (message "payload") in
  asserts (unread n (chan_of queue_sender) = [])
  && asserts (is_Some (subscribers b !! bs "peer")) && asserts (subscriber_count b = 1%Z).

Lemma pub_tests_pass :
  forallb id
    [test_fanout_queue_drops_new_message_when_full_without_extra_wake;
     test_fanout_queue_wakes_again_after_pending_is_cleared;
     test_send_without_subscribers_does_not_enqueue_fanout_message;
     test_replacing_subscriber_does_not_increment_subscriber_count; test_shutdown_clears_subscriber_count;
     test_fanout_message_delivers_only_matching_subscribers;
     test_closed_subscriber_queue_does_not_interrupt_fanout_to_matching_peer;
     test_full_subscriber_queue_drops_message_without_disconnect;
     test_send_to_subscriber_drops_closed_queue_without_disconnect] = true.
Proof. vm_compute. reflexivity. Qed.
End PubTests.

(** ** util.rs *)

Module UtilTests.

Definition new_greeting (version : ZmtpVersion) : Message := MGreeting (mkGreeting version PLAIN false).

Definition negotiate_version_peer_is_using_the_same_version : bool :=
  match negotiate_version (new_greeting (version default_greeting)) with
  | Ok actual => asserts (actual = version default_greeting)
  | Err _ => false
  end.

Definition negotiate_version_peer_is_using_a_newer_version : bool :=
  match negotiate_version (new_greeting (Byte.x03, Byte.x01)) with
  | Ok actual => asserts (actual = version default_greeting)
  | Err _ => false
  end.

Definition negotiate_version_peer_is_using_an_older_version : bool :=
  match negotiate_version (new_greeting (Byte.x02, Byte.x01)) with
  | Err (UnsupportedVersion version) => asserts (version = (Byte.x02, Byte.x01))
  | _ => false
  end.

Definition negotiate_version_invalid_greeting : bool :=
  match negotiate_version (MMessage (ZmqMessage.from_bytes [])) with Err (Other _) => true | _ => false end.

Definition retryable_connect_errors_include_refused_and_missing_ipc_socket : bool :=
  let tcp := Tcp (Ipv4 [127; 0; 0; 1]%Z) 5555 in
  let ipc := Ipc (Some (bs "missing.sock")) in
  let missing_tcp := Network (IoError NotFound) in
  is_retryable_connect_error tcp (Network (IoError ConnectionRefused))
  && is_retryable_connect_error ipc (Network (IoError ConnectionRefused))
  && is_retryable_connect_error ipc (Network (IoError NotFound))
  && negb (is_retryable_connect_error tcp missing_tcp).

Lemma util_tests_pass :
  forallb id
    [negotiate_version_peer_is_using_the_same_version; negotiate_version_peer_is_using_a_newer_version;
     negotiate_version_peer_is_using_an_older_version; negotiate_version_invalid_greeting;
     retryable_connect_errors_include_refused_and_missing_ipc_socket] = true.
Proof. vm_compute. reflexivity. Qed.
End UtilTests.

(** ** endpoint/ *)

Module EndpointTests.
Local Open Scope string_scope.

Definition valid_addr_strs : list bytes :=
  bs <$> ["::1"; "::"; "2001:db8:a::123"; "2001:db8:0:0:0:0:2:1"; "2001:db8::2:1"].
Definition invalid_addr_strs : list bytes := bs <$> [""; "[]"; "[:]"; ":"].

(** [Ipv6Addr] is [parse_ipv6] and [display_ipv6]. *)
Definition parse_and_display_nobracket_ipv6_same_as_std : bool :=
  forallb (fun valid =>
    match parse_ipv6 valid, host_try_from valid with
    | Some parsed_std, Ok (Ipv6 parsed_host) =>
        asserts (parsed_std = parsed_host) && asserts (display_ipv6 parsed_std = display_host (Ipv6 parsed_host))
    | _, _ => false
    end) valid_addr_strs
  && forallb (fun invalid =>
    asserts (parse_ipv6 invalid = None)
    && match host_try_from invalid with Err _ | Ok (Domain _) => true | _ => false end) invalid_addr_strs.

Definition remove_brackets (s : bytes) : bytes := removelast (tail s).

Definition parse_and_display_bracket_ipv6 : bool :=
  forallb (fun addr_str =>
    let addr_str := (bs "[" ++ addr_str ++ bs "]")%list in
    asserts (parse_ipv6 addr_str = None)
    && match host_try_from addr_str with
       | Ok (Ipv6 host_ipv6) =>
           asserts (parse_ipv6 (remove_brackets addr_str) = Some host_ipv6)
           && asserts (display_host (Ipv6 host_ipv6) = display_ipv6 host_ipv6)
       | _ => false
       end) valid_addr_strs.

Definition localhost_v6 : list Z := [0; 0; 0; 0; 0; 0; 0; 1]%Z.

Definition std_ipv6_parse : bool :=
  asserts (parse_ipv6 (bs "::1") = Some localhost_v6) && asserts (parse_ipv6 (bs "[::1]") = None).

Definition std_ipv6_display : bool := asserts (display_ipv6 localhost_v6 = bs "::1").

(** The heart of [PAIRS], in UTF-8. *)
Definition heart : bytes := (bs "i" ++ [Byte.xe2; Byte.x9d; Byte.xa4] ++ bs ".ws")%list.

Definition PAIRS : list (Endpoint * bytes) :=
  [(Ipc (Some (bs "/tmp/asdf")), bs "ipc:///tmp/asdf");
   (Ipc (Some (bs "my/dir_1/dir-2")), bs "ipc://my/dir_1/dir-2");
   (Ipc (Some (bs "@abstract/namespace")), bs "ipc://@abstract/namespace");
   (Tcp (Domain (bs "www.example.com")) 1234, bs "tcp://www.example.com:1234");
   (Tcp (Domain (bs "*")) 2345, bs "tcp://*:2345");
   (Tcp (Ipv4 [127; 0; 0; 1]%Z) 8080, bs "tcp://127.0.0.1:8080");
   (Tcp (Ipv6 localhost_v6) 34567, bs "tcp://[::1]:34567");
   (Tcp (Domain heart) 80, (bs "tcp://" ++ heart ++ bs ":80")%list);
   (Tcp (Domain (bs "xn--i-7iq.ws")) 80, bs "tcp://xn--i-7iq.ws:80");
   (Tcp (Ipv4 [127; 0; 0; 1]%Z) 65535, bs "tcp://127.0.0.1:65535");
   (Tcp (Ipv4 [127; 0; 0; 1]%Z) 0, bs "tcp://127.0.0.1:0")].

Definition test_endpoint_display : bool :=
  forallb (fun '(e, s) => asserts (display_endpoint e = s)) PAIRS
  && asserts (display_endpoint (Ipc None) = bs "ipc://????").

Definition syntax_examples : list bytes :=
  bs <$> ["://127.0.0.1:1234"; "tcp://127.0.0.1:"; "tcp://:1234"; "tcp://127.0.0.1"; "tcp://127.0.0.1:65536"; "TCP://127.0.0.1:1234"].

Definition test_endpoint_parse `{Regexes} : bool :=
  forallb (fun '(e, s) => asserts (endpoint_from_str s = Ok e)) PAIRS
  && asserts (endpoint_from_str (bs "abc://127.0.0.1:1234") = Err (UnknownTransport (bs "abc")))
  && forallb (fun s => match endpoint_from_str s with Err (Syntax _) => true | _ => false end) syntax_examples.

Lemma endpoint_tests_pass :
  forallb id
    [std_ipv6_parse; std_ipv6_display; parse_and_display_nobracket_ipv6_same_as_std; parse_and_display_bracket_ipv6;
     test_endpoint_display; test_endpoint_parse] = true.
Proof. vm_compute. reflexivity. Qed.
End EndpointTests.

(** ** codec/command.rs *)

Module CommandTests.

Definition assert_decode_error (data : bytes) : bool := negb (is_ok (command_try_from data)).

Definition ready_name : bytes := Byte.x05 :: bs "READY".
Definition socket_type_name : bytes := Byte.x0b :: bs "Socket-Type".

Definition rejects_truncated_command_name : bool := assert_decode_error (Byte.x05 :: bs "R").
Definition rejects_truncated_property_name : bool := assert_decode_error (ready_name ++ Byte.x0b :: bs "S").
Definition rejects_truncated_property_value_length : bool :=
  assert_decode_error (ready_name ++ socket_type_name ++ [Byte.x00; Byte.x00]).
Definition rejects_truncated_property_value : bool :=
  assert_decode_error (ready_name ++ socket_type_name ++ [Byte.x00; Byte.x00; Byte.x00; Byte.x03] ++ bs "R").

Lemma command_tests_pass :
  forallb id
    [rejects_truncated_command_name; rejects_truncated_property_name; rejects_truncated_property_value_length;
     rejects_truncated_property_value] = true.
Proof. vm_compute. reflexivity. Qed.
End CommandTests.

(** ** codec/zmq_codec.rs *)

Module CodecTests.
Local Open Scope string_scope.

(** [hex::decode]. *)
Definition nibble (c : byte) : Z := if (u8_val c <? 58)%Z then (u8_val c - 48)%Z else (u8_val c - 87)%Z.
Fixpoint hex_bytes (s : bytes) : bytes :=
  match s with
  | a :: b :: s => u8_of (16 * nibble a + nibble b) :: hex_bytes s
  | _ => []
  end.
Definition hex_decode (s : string) : bytes := hex_bytes (bs s).

Definition data_1 : bytes := concat (hex_decode <$>
  ["01093c4944537c4d53473e01403239386166316563653932306635373637656132393438376261363164643436613534";
   "636334313262653032303339316139653831636535633234383039653001cb7b226d73675f6964223a22363563363962";
   "30312d636634622d343563322d616165612d323263306365326531316533222c2273657373696f6e223a223032646235";
   "6631642d386535632d346464612d383064342d303337363835343465616138222c22757365726e616d65223a223c544f";
   "444f3e222c2264617465223a22323032312d31322d32395430343a35393a33392e3539333533372b30303a3030222c22";
   "6d73675f74797065223a22657865637574655f7265706c79222c2276657273696f6e223a22352e33227d01c07b226d73";
   "675f6964223a223965303336313036373262393433393961343432316539373330333330326162222c2273657373696f";
   "6e223a226231323139393364663235613432643839376135653163383362306337616665222c22757365726e616d6522";
   "3a22757365726e616d65222c2264617465223a22313937302d30312d30315430303a30303a30302b30303a3030222c22";
   "6d73675f74797065223a22657865637574655f72657175657374222c2276657273696f6e223a22352e32227d01027b7d";
   "00467b22737461747573223a226f6b222c22657865637574696f6e5f636f756e74223a312c227061796c6f6164223a5b";
   "5d2c22757365725f65787072657373696f6e73223a7b7d7d"])%string.

Definition data_2 : bytes := concat (hex_decode <$>
  ["01093c4944537c4d53473e01406139346435366530343438353335303831316561623063663730623464356366373933";
   "653431653838616330666339646263346562326238616136643635306601cb7b226d73675f6964223a22633834666239";
   "33372d333162662d346335622d386430392d386535633230633434333636222c2273657373696f6e223a223032646235";
   "6631642d386535632d346464612d383064342d303337363835343465616138222c22757365726e616d65223a223c544f";
   "444f3e222c2264617465223a22323032312d31322d32395430343a35393a34332e3037343831332b30303a3030222c22";
   "6d73675f74797065223a22657865637574655f7265706c79222c2276657273696f6e223a22352e33227d01c07b226d73";
   "675f6964223a223238646635316334303933313433643339393131346664333439643530396634222c2273657373696f";
   "6e223a226231323139393364663235613432643839376135653163383362306337616665222c22757365726e616d6522";
   "3a22757365726e616d65222c2264617465223a22313937302d30312d30315430303a30303a30302b30303a3030222c22";
   "6d73675f74797065223a22657865637574655f72657175657374222c2276657273696f6e223a22352e32227d01027b7d";
   "00467b22737461747573223a226f6b222c22657865637574696f6e5f636f756e74223a322c227061796c6f6164223a5b";
   "5d2c22757365725f65787072657373696f6e73223a7b7d7d"])%string.

(** A codec that awaits a frame. *)
Definition frame_codec : ZmqCodec := mkCodec SFrameHeader 1 None (max_read_chunk_size new_codec).

Definition decodes_six_frames (data : bytes) : bool :=
  let '(_, rest, o) := decode frame_codec data in
  match o with
  | Item (MMessage m) => asserts (length (ZmqMessage.frames m) = 6%nat) && asserts (rest = [])
  | _ => false
  end.

Definition test_message_decode_1 : bool := decodes_six_frames data_1.
Definition test_message_decode_2 : bool := decodes_six_frames data_2.

(** A frame whose length, with the read buffer, exceeds [isize::MAX]. *)
Definition read_buffer_recovery_rejects_lengths_exceeding_configured_capacity : bool :=
  forallb (fun max_size =>
    forallb (fun frame_len =>
      match read_buffer default_options 128 max_size 2 with
      | Some options =>
          let codec := set_state (Codec.with_options options) SFrameHeader 1 in
          match decode codec (Byte.x02 :: be_bytes 8 frame_len) with
          | (_, _, Fail (Decode e)) => asserts (e = "Frame length exceeds read buffer capacity")
          | _ => false
          end
      | None => false
      end) [2 ^ 64 - 1; 2 ^ 63 - 1 - max_size + 1]%Z) [3000; 64 * 1024]%Z.

Lemma codec_tests_pass :
  forallb id
    [test_message_decode_1; test_message_decode_2;
     read_buffer_recovery_rejects_lengths_exceeding_configured_capacity] = true.
Proof. vm_compute. reflexivity. Qed.
End CodecTests.

(** ** codec/framed.rs *)

Module FramedTests.

(** A reader that hands over its input, as far as it is asked, and records the sizes; then it
    is at its end. *)
Record RecordingReader : Type := mkRecording { input : bytes; read : bytes; requested_sizes : list Z }.

Definition recording (input : bytes) : RecordingReader := mkRecording input [] [].

Definition recording_read (r : RecordingReader) (n : Z) : RecordingReader * poll (result bytes io_error) :=
  let l := ztake n (input r) in
  (mkRecording (zdrop n (input r)) (read r ++ l) (requested_sizes r ++ [n]), Ready (Ok l)).

#[local] Program Instance recording_reader : AsyncRead RecordingReader := {|
  poll_read := recording_read;
  Framed.delivered := read;
  available r := length (input r);
|}.
Next Obligation. intros r n r' l Hn [= <- <-]. unfold len, ztake. rewrite length_take. lia. Qed.
Next Obligation. by intros r n r' x [= <- <-]. Qed.
Next Obligation.
  intros r n r' l [= <- <-] Hl. unfold ztake, zdrop in *. cbn. rewrite length_drop.
  destruct (input r); [by rewrite take_nil in Hl|]. destruct (Z.to_nat n); [done|cbn; lia].
Qed.

(** [encoded_stream]. *)
Definition encode_raw (frame : bytes) : bytes :=
  if (255 <? len frame)%Z then Byte.x02 :: be_bytes 8 (len frame) ++ frame
  else Byte.x00 :: u8_of (len frame) :: frame.
Definition encoded_stream (frames : list bytes) : bytes :=
  greeting_to_bytes default_greeting ++ concat (encode_raw <$> frames).

Abbreviation reader := (ZmqFramedRead RecordingReader).
Definition new_reader (input : bytes) (options : SocketOptions) : reader :=
  new_framed_read (recording input) options.

(** [while let Some(item) = reader.next().await]; [None] when it panics or waits. *)
Fixpoint items (fuel : nat) (r : reader) (l : list (result Message CodecError)) :
    option (reader * list (result Message CodecError)) :=
  match fuel with
  | O => None
  | S fuel =>
      match Framed.poll_next r with
      | (r, Some (Ready None)) => Some (r, l)
      | (r, Some (Ready (Some x))) => items fuel r (l ++ [x])
      | _ => None
      end
  end.

Definition test_zmq_framed_read_yields_buffered_messages_before_reading_more : bool :=
  match items 10 (new_reader (encoded_stream [bs "first"; bs "second"]) default_options) [] with
  | Some (_, [Ok (MGreeting _); Ok (MMessage first); Ok (MMessage second)]) =>
      asserts (ZmqMessage.get first 0 = Some (bs "first")) && asserts (ZmqMessage.get second 0 = Some (bs "second"))
  | _ => false
  end.

Definition test_zmq_framed_read_reports_truncated_frame_at_eof : bool :=
  let input := greeting_to_bytes default_greeting ++ [Byte.x00; Byte.x05] ++ bs "a" in
  let '(r, x1) := Framed.poll_next (new_reader input default_options) in
  let '(_, x2) := Framed.poll_next r in
  match x1, x2 with
  | Some (Ready (Some (Ok (MGreeting _)))), Some (Ready (Some (Err (Io e)))) => asserts (kind e = UnexpectedEof)
  | _, _ => false
  end.

Definition test_zmq_framed_read_uses_decoder_demand_after_full_reads : bool :=
  let frame := replicate 600 Byte.x61 in
  let input := encoded_stream [frame] in
  let '(r, x1) := Framed.poll_next (new_reader input default_options) in
  let '(r, x2) := Framed.poll_next r in
  match x1, x2 with
  | Some (Ready (Some (Ok (MGreeting _)))), Some (Ready (Some (Ok (MMessage message)))) =>
      asserts (ZmqMessage.get message 0 = Some frame)
      && asserts (requested_sizes (inner r) = [128; (len input - 64) - (128 - 64)]%Z)
  | _, _ => false
  end.

Definition read_buffer_uses_configured_initial_and_maximum_read_sizes : bool :=
  match read_buffer default_options 300 3000 3 with
  | Some options =>
      match items (Z.to_nat 1100) (new_reader (encoded_stream (replicate (Z.to_nat 1024) (replicate 190 Byte.x07))) options) [] with
      | Some (r, retained) =>
          let sizes := requested_sizes (inner r) in
          asserts (length retained = Z.to_nat 1025) && forallb is_ok retained
          && asserts (take 5 sizes = [300; 600; 1200; 2400; 3000]%Z) && forallb (fun size => (size <=? 3000)%Z) sizes
      | None => false
      end
  | None => false
  end.

(** A reader with a chunk size, and reads of [count] bytes each from a transport of its own. *)
Definition with_chunk (r : reader) (chunk : Z) : reader :=
  mkFramedRead (inner r) (codec r) (buffer r) chunk (options r) (short_reads r).
Definition reads (counts : list Z) (r : reader) : option reader :=
  fold_left (fun r count =>
    r ← r;
    let r := mkFramedRead (recording (replicate (Z.to_nat count) Byte.x07)) (codec r) (buffer r) (read_chunk_size r) (options r) (short_reads r) in
    match poll_read_into_buffer r 1 with
    | (r, Ready (Ok n)) => if (n =? count)%Z then Some r else None
    | _ => None
    end) counts (Some r).

Definition read_buffer_recovery_requires_consecutive_short_positive_reads : bool :=
  forallb (fun '(counts, expected) =>
    asserts (read_chunk_size <$> reads counts (with_chunk (new_reader [] default_options) (64 * 1024)) = Some expected))
  [([190], 65536); ([190; 190], 512); ([190; 32768; 190], 65536); ([190; 65536; 190], 65536); ([1; 1], 256); ([0], 65536)]%Z.

Definition read_buffer_uses_configured_confirmation_count_and_recovery_floor : bool :=
  forallb (fun '(confirmation, counts, expected) =>
    match read_buffer default_options 300 3000 confirmation with
    | Some options => asserts (read_chunk_size <$> reads counts (with_chunk (new_reader [] options) 3000) = Some expected)
    | None => false
    end)
  [(1, [190], 600); (3, [190; 190], 3000); (3, [190; 190; 190], 600); (3, [190; 1500; 190; 190], 3000)]%Z.

Definition read_buffer_rejects_invalid_configuration_before_socket_construction : bool :=
  forallb (fun '(initial, maximum, short_reads) =>
    match read_buffer default_options initial maximum short_reads with None => true | Some _ => false end)
  [(0, 65536, 2); (128, 0, 2); (129, 128, 2); (128, isize_max / 2 + 1, 2); (128, 65536, 0)]%Z.

Definition read_buffer_shares_configuration_but_keeps_connection_state_independent : bool :=
  let first := new_reader [Byte.x07] default_options in
  let second := new_reader [] default_options in
  let '(first, r) := poll_read_into_buffer first 1 in
  match r with Ready (Ok n) => (n =? 1)%Z | _ => false end
  && (short_reads first =? 1)%Z && (short_reads second =? 0)%Z.

Lemma framed_tests_pass :
  forallb id
    [test_zmq_framed_read_yields_buffered_messages_before_reading_more;
     test_zmq_framed_read_reports_truncated_frame_at_eof; test_zmq_framed_read_uses_decoder_demand_after_full_reads;
     read_buffer_uses_configured_initial_and_maximum_read_sizes;
     read_buffer_recovery_requires_consecutive_short_positive_reads;
     read_buffer_uses_configured_confirmation_count_and_recovery_floor;
     read_buffer_rejects_invalid_configuration_before_socket_construction;
     read_buffer_shares_configuration_but_keeps_connection_state_independent] = true.
Proof. vm_compute. reflexivity. Qed.

(** A transport that is pending, or fails. *)
Record InterruptedRead : Type := mkInterrupted { error : bool }.

#[local] Program Instance interrupted_read : AsyncRead InterruptedRead := {|
  poll_read r _ := (r, if error r then Ready (Err (IoError (OtherKind 104))) else Pending);
  Framed.delivered _ := [];
  available _ := 0%nat;
|}.
Next Obligation. intros r n r' l _ [= <- Hl]. by destruct (error r). Qed.
Next Obligation. intros r n r' x [= <- <-]. by destruct (error r). Qed.
Next Obligation. intros r n r' l [= <- Hl]. by destruct (error r). Qed.

Definition read_buffer_pending_and_errors_preserve_buffered_data_and_recovery_state : bool :=
  forallb (fun error =>
    let r := mkFramedRead (mkInterrupted error) new_codec (bs "partial frame") (64 * 1024)%Z default_options 1%Z in
    let '(r', result) := poll_read_into_buffer r 0 in
    match result with
    | Ready (Err e) => error && asserts (kind e = (OtherKind 104))
    | Pending => negb error
    | _ => false
    end
    && asserts (buffer r' = bs "partial frame") && asserts (read_chunk_size r' = 64 * 1024)%Z && asserts (short_reads r' = 1%Z))
  [false; true].

Lemma read_buffer_tests_pass :
  forallb id
    [read_buffer_pending_and_errors_preserve_buffered_data_and_recovery_state] = true.
Proof. vm_compute. reflexivity. Qed.
End FramedTests.

(** ** write_queue.rs *)

Module WriteQueueTests.
#[local] Existing Instance Runtime_exec.

Definition text (l : bytes) : Message := MMessage (ZmqMessage.from_bytes l).

(** The messages are sent, the sender is dropped, and the writer runs. *)
Definition write_all (o : sinks) (ms : list Message) : writer_state :=
  let w := leave (fold_left (fun w m => arrive m w) ms (new_writer o)) in
  write_run 0%nat (write_left w) w.

(** The bytes that a sink has encoded. *)
Definition encoded (w : writer_state) : option bytes := encode_all (written (sink_state w) 0%nat).

Definition returned (w : writer_state) : option (result unit CodecError) :=
  match phase w with Returned r => Some r | _ => None end.

Definition test_write_message_queue_batches_ready_messages_into_one_flush : bool :=
  let w := write_all Recording.empty [text (bs "a"); text (bs "b"); text (bs "c")] in
  asserts (returned w = Some (Ok tt)) && asserts (flushed_times w = 1%nat)
  && asserts (encoded w = Some ([Byte.x00; Byte.x01] ++ bs "a" ++ [Byte.x00; Byte.x01] ++ bs "b" ++ [Byte.x00; Byte.x01] ++ bs "c")).

(** A sink that fails. *)
Definition failing : sinks := Recording.mkState ∅ {[ 0%nat := BrokenPipe ]} [].

Definition test_write_message_queue_returns_writer_errors : bool :=
  match returned (write_all failing [text (bs "a")]) with
  | Some (Err (Io e)) => asserts (kind e = BrokenPipe)
  | _ => false
  end.

(** [u16::to_le_bytes]. *)
Definition le_bytes (n : Z) : bytes := [u8_of (n mod 256); u8_of (n / 256)].

(** The short writes are the sink's, which is not the crate's. *)
Definition multiple_batches_preserve_wire_order_across_pending_and_short_writes : bool :=
  let payloads := (fun n => le_bytes (Z.of_nat n)) <$> seq 0 300 in
  let w := write_all Recording.empty (text <$> payloads) in
  asserts (returned w = Some (Ok tt))
  && asserts (encoded w = Some (concat ((fun p => [Byte.x00; Byte.x02] ++ p) <$> payloads))).

Lemma write_queue_tests_pass :
  forallb id
    [test_write_message_queue_batches_ready_messages_into_one_flush; test_write_message_queue_returns_writer_errors;
     multiple_batches_preserve_wire_order_across_pending_and_short_writes] = true.
Proof. vm_compute. reflexivity. Qed.
End WriteQueueTests.
